(* ===== verification/_CoqProject ===== *)
-Q . S2P
Prelude.v
GoStrings.v
Sha256.v
K8s.v
Types.v
Helpers.v
Watches.v
Client.v
FakeCluster.v
StatusManager.v
Webhook.v
Model.v
VirtualServiceHandler.v
VirtualServiceRouting.v
Locating.v
DeploymentHandler.v
DestinationRuleHandler.v
CleanupManager.v
Overlays.v
Controller.v
Totality.v
Deletion.v
Process.v
StatusInvariant.v
Lifecycle.v
Wakes.v
Quiet.v
AtRest.v
Settling.v
Editing.v
Building.v
Converging.v
Sharing.v
Undisturbed.v
Metrics.v
Main.v
DeepCopy.v
