(* ===== verification/Prelude.v ===== *)
(** * The Dynamic Environment operator: a verification library

    The operator watches [DynamicEnv] resources.  Each one names deployments of
    the cluster (subsets, and consumers, which get no routing) and says how to
    override them and which requests should see the overrides; the operator
    creates the overriding deployments, tells Istio how to route the matching
    requests to them, keeps a status, and cleans up when a subset leaves the
    spec or the resource is deleted.  This library models the operator's own
    code, function by function under the source's names, and proves what makes
    it correct.

    ** The files, and the code they model

    - [Prelude]: panics, results, nil maps, map iteration order, list lemmas.
    - [GoStrings]: Go's string functions.  [Sha256]: crypto/sha256, executable.
    - [K8s]: the objects of Kubernetes and Istio, reduced to the fields the
      operator uses, the rest opaque.
    - [Types]: api/v1alpha1/dynamicenv_types.go.
    - [Helpers]: pkg/helpers, pkg/names.  [Watches]: pkg/watches.
    - [Client]: errors, the API client, the reconcile monad and its program
      logics.  [FakeCluster]: an API server in memory, for witnesses and examples.
    - [StatusManager], [CleanupManager]: the files of that name in pkg/model.
      [Model]: pkg/model/types.go and the interfaces of pkg/handlers/handler.go.
    - [Webhook]: api/v1alpha1/dynamicenv_webhook.go.
    - [VirtualServiceHandler], [DeploymentHandler] (with extensions/),
      [DestinationRuleHandler]: the files of pkg/handlers.
      [VirtualServiceRouting]: the theory of the first, on routes;
      [Locating]: on the services of a host, and what is done with them.
    - [Controller]: internal/controller/dynamicenv_controller.go.
      [Totality]: its runs, from the first call to the answer.
    - [Process]: the calls set-up code makes of controller-runtime and the
      registry, and programs over them.  [Metrics]: pkg/metrics/collector.go.
      [Main]: cmd/main.go, with the parser of its flags, the registrations of
      api/v1alpha1 and the SetupWithManager methods.
    - [DeepCopy]: api/v1alpha1/zz_generated.deepcopy.go, on the API types with
      the addresses of their slices, maps and pointers.
    - Theories of several components together: [Overlays] (many environments on
      one virtual service), [Deletion] (runs that delete an environment),
      [StatusInvariant] and [Lifecycle] (a resource from its creation on),
      [Wakes] (what is written, and the requests a change of it causes),
      [Quiet] (the logic of code that only reads, and the handlers in it),
      [AtRest] (runs that find nothing to do), [Settling] (the run that records
      what is there and so gets to rest), [Editing] (virtual services that get more
      routes, as other handlers see them), [Building] (the logic of runs that
      create and update), [Converging] (from admission to rest), [Sharing] (the
      same for all environments of a cluster) and [Undisturbed] (what a run for
      one leaves of the others, even if it fails).

    ** How the parts interact

    [Controller.Reconcile] fetches the resource into an object all managers share.
    When the resource is being deleted it hands over to
    [CleanupManager.DeleteAllResources]; otherwise it ensures the finalizers,
    removes what left the spec, and for each subset or consumer runs the
    deployment handler and, for subsets, the destination-rule and virtual-service
    handlers.  It then asks every handler for a status (through the interfaces
    [SRHandler] and [MRHandler] of [Model], records of operations), has it
    recorded through the status manager, and writes the global state.  The owner
    annotation the handlers put on what they write ([Watches]) turns a later
    change of these objects into a request to reconcile the environment.
    Around it [Main.main] parses the flags, builds the reconciler from them,
    registers it, the webhook and the collector with the manager and starts it.

    ** How the code is rendered

    Effectful code is a computation of the monad [Client.M]: a function of a
    context holding the world of the API server, the shared [DynamicEnv], a
    counter of map loops, the next free address, and the log of the calls made
    with their answers.  A run returns or panics; a panic (nil map or pointer
    written, index out of range) ends it.  Go errors are values ([result],
    [option error]), wrapped as the code wraps them.  Loops are structural
    recursion over the list they range over, so no definition of the operator needs
    fuel ([Sha256] cuts its padded message into a counted number of blocks).
    Integers: the hash is a [uint64] stored as an [int64], with the conversions
    written out; counts, replicas and times are [Z]; SHA-256 words are 32-bit.
    Where the code observes identity, the model has it: [EnvVar] sources carry
    addresses (Go compares them), and the virtual services a host resolves to are
    indices into a store, since one object may be reached twice; the generated
    deep copies work on values that carry all their addresses.  Set-up code,
    which may end the process, is a program over calls that answer an error or
    nothing ([Process.process]), run against any host.

    ** What is a parameter

    - [Client W]: the API server, its cache and the clock, any function from a
      request and a world to an answer and a world.  Without further
      assumption the answers are arbitrary: errors at any call, stale reads,
      changes by others in between.
    - [StatusEcho], [UpdateEcho]: an accepted update answers with what was sent
      (for the status, as it reads back from its JSON: [Types.wire_status], with
      the two fields that are omitted when empty).
    - [WellFormedServices]: Istio's validation, no route destination without a
      destination.  [OverridableBases]: the base deployments have labels, a
      selector, replicas and template labels.
    - [MapOrder]: the iteration order of every map loop, any permutation, a new one
      for each loop.
    - [RoutePrinter]: the protobuf printer of a route, hashed into route names.
      [SubsetHash]: the hashstructure library ([hash_range]: a [uint64]).
      [LabelSets], [LabelSetLaws]: label selectors, and that a selector made from
      a set matches the label sets that contain it.
    - [Cooperative], [CooperativeLaws] ([Deletion]): what a server that does what it
      is asked shows: a deleted object is gone, an update of an environment that
      is being deleted removes it with its last finalizer.  [ReadsBack]
      ([StatusInvariant]): a write is accepted only of the version that is
      stored, and is read back as sent.  [Answers] ([Quiet]): reads are answered
      from one snapshot.  [Shows] ([AtRest]): besides, a status update that
      changes nothing is accepted.  [Serves] ([Settling]): a status update is
      accepted and stored, under a new version unless it changes nothing, and
      reads answer with it from then on.  [Stores] ([Building]): every object is
      stored as it is sent, completed and versioned by the server.  [Shares]
      ([Sharing]): the same with any number of environments stored.  [Obeys]
      ([Undisturbed]): a call changes what it names or nothing, whatever it
      answers, and a virtual service only from its stored version.
    - [apart], [told_apart] ([Sharing]): two environments have no resource and no
      route name in common.  The generated names are only unique up to truncation
      and dashes, so this is a hypothesis.  [tidy], [harmless] ([Undisturbed]):
      the routes and the status of the environment are its own.  [told]
      ([Editing]): an environment's routes can be told from all others by their
      names.  The handler takes any route with its prefix for its own, so only
      under [told] does "some route is there" mean that all are ([host_in_place]
      is the code's test, [routed] the copies themselves).
    - [ApiMachinery] ([DeepCopy]): times and metadata, whose copies are copies.
      [LibraryFlags] ([Main]): the flags zap and controller-runtime add.
    - [IstioMatching]: the meaning of route matches for requests of any type, all
      conditions of a block, any block of a route.

    Each theorem lists the assumptions it needs, and its witness discharges
    them at a concrete instance ([FakeCluster], or a small static server).

    ** What the theorems show

    - Program logics ([Client]): [wp] (no panic, and a postcondition), [pwp] (the
      same for runs that return), [runs], [emits] (every call satisfies a
      predicate) and [traces] (every call is allowed given the calls before it;
      both also tie the calls to the worlds they lead through).
    - Data: printers and parsers of the enumerations; the hash survives its trip
      through the status; the watch annotation under adding and removing owners;
      the bounds of generated names and where they are injective; the merge of
      environment variables against a reference.
    - Webhook: what creation and update admit, exactly.
    - Status manager: each operation changes its entry and no other, writes only
      when something changed, and is idempotent.
    - Virtual services: the edit computes a reference function of the routes
      ([edit_routes], [new_routes]), keeps all routes, writes only services
      it has read, and redirects exactly the requests that match; cleaning up
      undoes it, stated on what the two send.  [Handle] finds for a host the
      services that are called by it and their delegates, records them, and
      reports the host active when one of them has the routes.  For many
      environments on one service, in any order of configuring and cleaning up,
      the code refines an abstract service of base routes and overlays; which
      overlays there are is a function of the changes made
      ([Overlays.overlays_after]), and requests see the first that wants them.
    - Deployments: the overriding deployment field by field; a handled deployment
      is not touched again until its subset changes.
    - Destination rules: which rules are created and next to which; every host is
      active or ignored.
    - Cleanup: no finalizer is dropped before what it guards is gone, no subset is
      forgotten while something of it is left, exactly what left the spec is
      removed.
    - Reconciler: every run answers, without panic; the state it records fits the
      answer; its writes stay within the environment.  Two runs delete an
      environment against a server that cooperates.  A resource that was admitted
      stays well formed through any sequence of admitted updates, deletion
      requests and runs.  An environment for which everything is there, running
      and recorded stays at rest: all later runs only read.  When everything is
      there and running but not recorded, one run records it, and is the last
      that changes anything.  And from an environment that can be built, one run
      builds what is missing; when the deployments have come up the next one
      settles, and if routes could be told apart none is missing ([routed]).
      With many environments, served in any order, all of them get there, and a
      run for one, failing anywhere, leaves the others as they are.
    - Watches: what an environment makes wakes it when it changes, and a shared
      service wakes the environments that are on it, no matter how many were
      configured and cleaned up before.
    - Command: a command line round trips, the manager starts only when everything
      before it was set up.  Metrics: what a scrape reports, and that it was
      described.  Deep copies: equal to and separate from the original.
    - A last group proves behaviours that look unintended: routes of another
      environment removed by prefix, routes of a subset or host never made because
      another's were taken for them, a masked update conflict, duplicated
      variables, versions that end in a dash, panics on odd annotations and on
      bare base deployments.

    ** What is not modelled

    Logging; what controller-runtime does with the registrations (the work queue,
    the event filter, retries, leader election) and the schemes; the JSON encoding
    beyond the two custom marshallers and the status's omitted fields.  The release script is not part of the
    operator. *)

From stdpp Require Import base gmap sets list strings sorting.

(** ** Run-time panics

    A Go function either returns or panics (nil dereference, write to a nil
    map, index out of range).  Go [error]s are ordinary returned values and are
    modelled as such; only a panic cuts the control flow. *)
Inductive outcome (A : Type) : Type :=
| Ret (a : A)
| Panic.
Arguments Ret {A} a.
Arguments Panic {A}.

#[export] Instance outcome_ret : MRet outcome := fun A a => Ret a.
#[export] Instance outcome_bind : MBind outcome := fun A B f m =>
  match m with Ret a => f a | Panic => Panic end.
#[export] Instance outcome_fmap : FMap outcome := fun A B f m =>
  match m with Ret a => Ret (f a) | Panic => Panic end.

#[export] Instance outcome_eq_dec {A} `{EqDecision A} : EqDecision (outcome A).
Proof. solve_decision. Defined.

Definition returns {A} (m : outcome A) : Prop := exists a, m = Ret a.

(** ** Results of fallible calls: a value or an error, never both. *)
Inductive result (E A : Type) : Type :=
| Ok (a : A)
| Err (e : E).
Arguments Ok {E A} a.
Arguments Err {E A} e.

(** ** Maps that may be nil

    A Go map variable is nil or refers to a map.  Reading a nil map yields the
    zero value, deleting from it does nothing, writing to it panics. *)
Declare Scope go_scope.
Delimit Scope go_scope with go.
Abbreviation gomap V := (option (gmap string V)).

Section gomap.
Context {V : Type}.
Implicit Types (m : gomap V) (k : string) (v d : V).

Definition mread m : gmap string V := default ∅ m.
Definition mlookup m k : option V := mread m !! k.
Definition mget d m k : V := default d (mlookup m k).
Definition mset m k v : outcome (gomap V) :=
  match m with
  | Some g => Ret (Some (<[k:=v]> g))
  | None => Panic
  end.
Definition mdelete m k : gomap V := delete k <$> m.
(** [if m == nil { m = make(map[string]V) }] *)
Definition mmake m : gomap V := Some (mread m).

Lemma mread_mmake m : mread (mmake m) = mread m.
Proof. by destruct m. Qed.
Lemma mlookup_mmake m k : mlookup (mmake m) k = mlookup m k.
Proof. by destruct m. Qed.
Lemma mset_mmake m k v : mset (mmake m) k v = Ret (Some (<[k:=v]> (mread m))).
Proof. done. Qed.
Lemma mset_Some g k v : mset (Some g) k v = Ret (Some (<[k:=v]> g)).
Proof. done. Qed.
Lemma mlookup_insert_eq m k v : mlookup (Some (<[k:=v]> (mread m))) k = Some v.
Proof. apply lookup_insert_eq. Qed.
Lemma mlookup_insert_ne m k j v : j <> k -> mlookup (Some (<[k:=v]> (mread m))) j = mlookup m j.
Proof. intros Hne. by apply lookup_insert_ne. Qed.
Lemma mset_returns m k v : is_Some m -> returns (mset m k v).
Proof. intros [g ->]. eexists. done. Qed.
Lemma mread_mdelete m k : mread (mdelete m k) = delete k (mread m).
Proof. destruct m; [done|]. unfold mread, mdelete; simpl. by rewrite delete_empty. Qed.
End gomap.

Create Rewrite HintDb gomap.
#[export] Hint Rewrite @mread_mmake @mlookup_mmake @mset_mmake @mread_mdelete : gomap.
Notation "m !!! k 'or' d" := (mget d m k) (at level 20, k at next level, d at next level) : go_scope.

(** ** Map iteration

    [for k, v := range m] visits the entries in an order the language leaves
    unspecified, possibly a new one at each loop.  [map_range n m] is the order
    of the [n]-th loop; every theorem is about all orders. *)
Class MapOrder := {
  map_range : forall {V : Type}, nat -> gmap string V -> list (string * V);
  map_range_perm : forall (V : Type) (n : nat) (m : gmap string V),
    map_range n m ≡ₚ map_to_list m;
}.

(** The instance the closed examples use. *)
Definition canonical_order : MapOrder :=
  {| map_range := fun V _ m => map_to_list m;
     map_range_perm := fun V n m => Permutation_refl _ |}.

Section map_range.
Context `{MapOrder} {V : Type}.
Implicit Types (m : gmap string V).

Lemma elem_of_map_range n m k v : (k, v) ∈ map_range n m <-> m !! k = Some v.
Proof. rewrite map_range_perm. apply elem_of_map_to_list. Qed.
Lemma map_range_keys_NoDup n m : NoDup (map_range n m).*1.
Proof. rewrite map_range_perm. apply NoDup_fst_map_to_list. Qed.
Lemma elem_of_map_range_keys n m k : k ∈ (map_range n m).*1 <-> is_Some (m !! k).
Proof.
  rewrite list_elem_of_fmap. split.
  - intros [[k' v] [-> Hin]]. apply elem_of_map_range in Hin. by eexists.
  - intros [v Hv]. exists (k, v). split; [done|]. by apply elem_of_map_range.
Qed.
Lemma map_range_empty n : map_range n (∅ : gmap string V) = [].
Proof. apply Permutation_nil. rewrite map_range_perm. by rewrite map_to_list_empty. Qed.
End map_range.

Lemma elem_of_map_to_list_keys {V} (m : gmap string V) k : k ∈ (map_to_list m).*1 <-> is_Some (m !! k).
Proof.
  rewrite list_elem_of_fmap. split.
  - intros [[k' v] [-> Hin]]. apply elem_of_map_to_list in Hin. by eexists.
  - intros [v Hv]. exists (k, v). split; [done|]. by apply elem_of_map_to_list.
Qed.

(** ** Lists *)
Section list_lemmas.
Context {A : Type}.
Implicit Types (l : list A) (f : A -> bool).

(** Appending one element at a time. *)
Lemma app_snoc_cons l k (x : A) : l ++ x :: k = (l ++ [x]) ++ k.
Proof. by rewrite <- app_assoc. Qed.

Lemma snoc_split l l1 l2 (x y : A) :
  l ++ [x] = l1 ++ y :: l2 -> (l1 = l /\ y = x) \/ exists k, l = l1 ++ y :: k.
Proof.
  destruct l2 as [|z l2 _] using rev_ind; [intros [<- <-]%app_inj_tail; by left|].
  rewrite app_comm_cons, app_assoc. intros [-> _]%app_inj_tail. right. by exists l2.
Qed.

Lemma existsb_elem f l : existsb f l = true <-> exists x, x ∈ l /\ f x = true.
Proof. rewrite existsb_exists. by setoid_rewrite list_elem_of_In. Qed.
Lemma existsb_false f l : existsb f l = false <-> forall x, x ∈ l -> f x = false.
Proof.
  rewrite <- not_true_iff_false, existsb_elem. split.
  - intros Hn x Hx. destruct (f x) eqn:E; [|done]. destruct Hn. eauto.
  - intros Ha (x & Hx & Hf). rewrite Ha in Hf; done.
Qed.
Lemma filter_all (P : A -> Prop) `{forall x, Decision (P x)} l :
  (forall x, x ∈ l -> P x) -> filter P l = l.
Proof.
  induction l as [|x l IH]; intros Hall; [done|].
  rewrite filter_cons_True; [|apply Hall; by left].
  f_equal. apply IH. intros y Hy. apply Hall. by right.
Qed.
Lemma filter_none (P : A -> Prop) `{forall x, Decision (P x)} l :
  (forall x, x ∈ l -> ~ P x) -> filter P l = [].
Proof.
  induction l as [|x l IH]; intros Hall; [done|].
  rewrite filter_cons_False; [|apply Hall; by left].
  apply IH. intros y Hy. apply Hall. by right.
Qed.
Lemma Forall_filter (P Q : A -> Prop) `{forall x, Decision (P x)} l :
  Forall Q l -> Forall Q (filter P l).
Proof. rewrite !Forall_forall. intros HQ x [_ Hx]%list_elem_of_filter. by apply HQ. Qed.
End list_lemmas.

(** Rearranging nested loops over lists. *)
Lemma list_bind_ext_in {A B} (f g : A -> list B) (l : list A) :
  (forall x, x ∈ l -> f x = g x) -> l ≫= f = l ≫= g.
Proof.
  induction l as [|x l IH]; intros Hfg; [done|]. rewrite !bind_cons, Hfg by by left.
  f_equal. apply IH. intros y Hy. apply Hfg. by right.
Qed.
Lemma list_bind_assoc {A B C} (f : A -> list B) (g : B -> list C) (l : list A) :
  (l ≫= f) ≫= g = l ≫= fun x => f x ≫= g.
Proof. induction l as [|x l IH]; [done|]. by rewrite !bind_cons, bind_app, IH. Qed.
Lemma list_bind_singleton {A} (l : list A) : l ≫= (fun x => [x]) = l.
Proof. induction l as [|x l IH]; [done|]. by rewrite bind_cons, IH. Qed.
Lemma list_filter_bind {A B} (P : B -> Prop) `{forall x, Decision (P x)} (f : A -> list B) (l : list A) :
  filter P (l ≫= f) = l ≫= fun x => filter P (f x).
Proof. induction l as [|x l IH]; [done|]. by rewrite !bind_cons, filter_app, IH. Qed.

(** A bounded injection: distinct elements drawn from [k] are no more than [k]. *)
Lemma NoDup_incl_Permutation {A} (l k : list A) :
  NoDup l -> l ⊆ k -> length l = length k -> l ≡ₚ k.
Proof.
  intros Hnd Hsub Hlen. apply submseteq_length_Permutation; [|lia].
  by apply NoDup_submseteq.
Qed.

(** ** Automation *)
Ltac simpl_outcome :=
  repeat match goal with
  | H : Ret _ = Ret _ |- _ => injection H as H; try subst
  | H : Ret _ = Panic |- _ => discriminate H
  | H : Panic = Ret _ |- _ => discriminate H
  | H : (mbind _ ?m) = Ret _ |- _ =>
      let E := fresh "E" in destruct m eqn:E; simpl in H; [|discriminate H]
  end.

(** Go evaluates [&&] and [||] left to right; turn boolean tests into facts. *)
Ltac bool_facts :=
  repeat match goal with
  | H : _ && _ = true |- _ => apply andb_true_iff in H; destruct H
  | H : _ || _ = false |- _ => apply orb_false_iff in H; destruct H
  | H : negb _ = true |- _ => apply negb_true_iff in H
  | H : negb _ = false |- _ => apply negb_false_iff in H
  | H : bool_decide _ = true |- _ => apply bool_decide_eq_true in H
  | H : bool_decide _ = false |- _ => apply bool_decide_eq_false in H
  end.

(** A part of a list in the list. *)
Ltac solve_sub :=
  first [done | apply list_subseteq_app_l; solve_sub | apply list_subseteq_app_r; solve_sub].

Create HintDb denv discriminated.
