(* ===== verification/GoStrings.v ===== *)
(** * Go strings

    A Go string is a sequence of bytes: [string] (a list of 8-bit [ascii]).
    This file models the string functions of the Go standard library the
    operator uses ([strings.HasPrefix], [Split], [SplitN] with limit 2, [Join],
    slicing, [fmt.Sprintf]'s [%s], [%v] on [[]string], [%d] and [%q], and
    [sort.Strings]), with the lemmas the components share. *)

From Stdlib Require Import Ascii.
From stdpp Require Import base gmap sets list strings pretty sorting.
From S2P Require Import Prelude.

Definition str_len (s : string) : nat := String.length s.

(** [s[:n]] for [n <= len(s)]. *)
Definition take_str (n : nat) (s : string) : string := String.substring 0 n s.

Definition HasPrefix (s p : string) : bool := String.prefix p s.

(** [strings.Split(s, sep)] for a one-byte separator: never empty. *)
Fixpoint Split (sep : ascii) (s : string) : list string :=
  match s with
  | EmptyString => [EmptyString]
  | String c s' =>
      if decide (c = sep) then EmptyString :: Split sep s'
      else match Split sep s' with
           | [] => [String c EmptyString]
           | w :: ws => String c w :: ws
           end
  end.

(** [strings.SplitN(s, sep, 2)] for a one-byte separator. *)
Fixpoint SplitN2 (sep : ascii) (s : string) : list string :=
  match s with
  | EmptyString => [EmptyString]
  | String c s' =>
      if decide (c = sep) then [EmptyString; s']
      else match SplitN2 sep s' with
           | [] => [String c EmptyString]
           | w :: ws => String c w :: ws
           end
  end.

Fixpoint Join (sep : string) (l : list string) : string :=
  match l with
  | [] => EmptyString
  | [w] => w
  | w :: ws => w +:+ sep +:+ Join sep ws
  end.

(** [sort.Strings]: byte-wise lexicographic order. *)
Definition sort_Strings (l : list string) : list string := merge_sort String.le l.

(** [%v] and [%s] on a [[]string]. *)
Definition fmt_strings (l : list string) : string := "[" +:+ Join " " l +:+ "]".

(** [%d] on a length. *)
Definition fmt_nat (n : nat) : string := pretty n.

(** [%q] ([strconv.Quote]).  Bytes from 0x80 on are copied, which is what
    [Quote] does with printable UTF-8 text. *)
Definition hex_digit (n : nat) : ascii :=
  match String.get n "0123456789abcdef" with Some c => c | None => "0"%char end.
Definition quote_byte (c : ascii) : string :=
  let n := nat_of_ascii c in
  if decide (n = 34) then String "\" (String c EmptyString)
  else if decide (n = 92) then "\\"
  else if decide (n = 7) then "\a"
  else if decide (n = 8) then "\b"
  else if decide (n = 12) then "\f"
  else if decide (n = 10) then "\n"
  else if decide (n = 13) then "\r"
  else if decide (n = 9) then "\t"
  else if decide (n = 11) then "\v"
  else if bool_decide (n < 32) || bool_decide (n = 127) then
    "\x" +:+ String (hex_digit (n / 16)) (String (hex_digit (n mod 16)) EmptyString)
  else String c EmptyString.
Fixpoint quote_body (s : string) : string :=
  match s with
  | EmptyString => EmptyString
  | String c s' => quote_byte c +:+ quote_body s'
  end.
Definition dquote : string := String (ascii_of_nat 34) EmptyString.
Definition Quote (s : string) : string := dquote +:+ quote_body s +:+ dquote.

(** [c] does not occur in [s]. *)
Fixpoint no_char (c : ascii) (s : string) : bool :=
  match s with
  | EmptyString => true
  | String c' s' => negb (bool_decide (c' = c)) && no_char c s'
  end.

(** ** Concatenation and length *)
Lemma app_nil_str (s : string) : EmptyString +:+ s = s.
Proof. done. Qed.
Lemma app_cons_str c (s t : string) : String c s +:+ t = String c (s +:+ t).
Proof. done. Qed.
Lemma app_assoc_str (s t u : string) : (s +:+ t) +:+ u = s +:+ (t +:+ u).
Proof.
  induction s as [|c s IH]; [done|].
  by rewrite !app_cons_str, IH.
Qed.
Lemma app_nil_r_str (s : string) : s +:+ EmptyString = s.
Proof. induction s as [|c s IH]; [done|]. by rewrite app_cons_str, IH. Qed.
Lemma str_len_app (s t : string) : str_len (s +:+ t) = str_len s + str_len t.
Proof.
  induction s as [|c s IH]; [done|].
  rewrite app_cons_str. unfold str_len in *; simpl. by rewrite IH.
Qed.

Lemma app_inj_len (s1 s2 t1 t2 : string) :
  str_len s1 = str_len s2 -> s1 +:+ t1 = s2 +:+ t2 -> s1 = s2 /\ t1 = t2.
Proof.
  revert s2. induction s1 as [|c s1 IH]; intros [|c2 s2] Hlen Heq;
    try (unfold str_len in Hlen; simpl in Hlen; lia).
  - by rewrite !app_nil_str in Heq.
  - rewrite !app_cons_str in Heq. injection Heq as -> Heq.
    destruct (IH s2) as [-> ->]; [|done..].
    unfold str_len in *; simpl in Hlen; lia.
Qed.

Create Rewrite HintDb gostr.
#[export] Hint Rewrite app_nil_str app_cons_str app_assoc_str app_nil_r_str str_len_app : gostr.

(** ** Prefixes *)
Lemma HasPrefix_spec s p : HasPrefix s p = true <-> exists t, s = p +:+ t.
Proof.
  unfold HasPrefix. revert s. induction p as [|c p IH]; intros s; simpl.
  - split; [|by destruct s]. intros _. by exists s.
  - destruct s as [|c' s]; simpl.
    + split; [done|]. intros [t Ht]. by rewrite app_cons_str in Ht.
    + destruct (ascii_dec c c') as [<-|Hne].
      * rewrite IH. split; intros [t Ht]; exists t.
        -- by rewrite Ht, app_cons_str.
        -- rewrite app_cons_str in Ht. by injection Ht.
      * split; [done|]. intros [t Ht]. rewrite app_cons_str in Ht. congruence.
Qed.
Lemma HasPrefix_app p t : HasPrefix (p +:+ t) p = true.
Proof. apply HasPrefix_spec. by exists t. Qed.
Lemma HasPrefix_weaken s p q : HasPrefix s (p +:+ q) = true -> HasPrefix s p = true.
Proof.
  rewrite !HasPrefix_spec. intros [t ->]. exists (q +:+ t). by rewrite app_assoc_str.
Qed.
Lemma HasPrefix_trans s p q : HasPrefix s p = true -> HasPrefix p q = true -> HasPrefix s q = true.
Proof.
  rewrite !HasPrefix_spec. intros [t ->] [u ->]. exists (u +:+ t). by rewrite app_assoc_str.
Qed.
(** Two prefixes of one string are comparable. *)
Lemma HasPrefix_comparable s p q :
  HasPrefix s p = true -> HasPrefix s q = true -> HasPrefix p q = true \/ HasPrefix q p = true.
Proof.
  unfold HasPrefix. revert p q. induction s as [|c s IH]; intros [|a p] [|b q]; simpl; auto; try done.
  destruct (ascii_dec a c) as [->|]; [|done]. destruct (ascii_dec b c) as [->|]; [|done].
  destruct (ascii_dec c c); [|done]. apply IH.
Qed.
#[export] Hint Resolve HasPrefix_app : denv.

(** ** Slicing *)
Lemma take_str_all n s : str_len s <= n -> take_str n s = s.
Proof.
  unfold take_str, str_len. revert n. induction s as [|c s IH]; intros [|n] Hn; simpl in *;
    try done; [lia|]. f_equal. apply IH. lia.
Qed.
Lemma take_str_len n s : str_len (take_str n s) = Nat.min n (str_len s).
Proof.
  unfold take_str, str_len. revert n. induction s as [|c s IH]; intros [|n]; simpl; try done.
  f_equal. apply IH.
Qed.
Lemma str_len_zero s : str_len s = 0 -> s = EmptyString.
Proof. by destruct s. Qed.
Lemma take_str_exact n s t : str_len s = n -> take_str n (s +:+ t) = s.
Proof.
  intros <-. unfold take_str, str_len. induction s as [|c s IH]; simpl; [by destruct t|].
  by rewrite IH.
Qed.
Lemma take_str_prefix n s : HasPrefix s (take_str n s) = true.
Proof.
  unfold HasPrefix, take_str. revert n. induction s as [|c s IH]; intros [|n]; simpl; try done.
  destruct (ascii_dec c c) as [_|]; [apply IH|done].
Qed.

(** ** Splitting and joining *)
Lemma Split_not_nil sep s : Split sep s <> [].
Proof.
  destruct s as [|c s]; simpl; [done|]. case_decide; [done|]. by destruct (Split sep s).
Qed.
Lemma Split_no_char sep s : no_char sep s = true -> Split sep s = [s].
Proof.
  induction s as [|c s IH]; simpl; [done|]. intros [Hc Hs]%andb_true_iff.
  bool_facts. rewrite decide_False by done. by rewrite IH.
Qed.
Lemma Split_app sep w s :
  no_char sep w = true ->
  Split sep (w +:+ String sep s) = w :: Split sep s.
Proof.
  induction w as [|c w IH]; intros Hw.
  - rewrite app_nil_str. simpl. by rewrite decide_True.
  - rewrite app_cons_str. simpl in *. apply andb_true_iff in Hw as [Hc Hw].
    bool_facts. rewrite decide_False by done. by rewrite IH.
Qed.
Lemma Split_elem_no_char sep s w : w ∈ Split sep s -> no_char sep w = true.
Proof.
  revert w. induction s as [|c s IH]; intros w; simpl.
  - by intros ->%list_elem_of_singleton.
  - case_decide as Hc.
    + intros [->|Hw]%elem_of_cons; [done|]. by apply IH.
    + destruct (Split sep s) as [|w0 ws] eqn:E; [by destruct (Split_not_nil sep s)|].
      intros [->|Hw]%elem_of_cons; simpl.
      * rewrite bool_decide_eq_false_2 by done. apply IH. by left.
      * apply IH. by right.
Qed.
Lemma Join_cons sep w ws :
  ws <> [] -> Join sep (w :: ws) = w +:+ sep +:+ Join sep ws.
Proof. by destruct ws. Qed.
Lemma Split_Join sep l :
  l <> [] -> (forall w, w ∈ l -> no_char sep w = true) ->
  Split sep (Join (String sep EmptyString) l) = l.
Proof.
  induction l as [|w l IH]; intros Hne Hall; [done|].
  destruct l as [|w' l].
  - apply Split_no_char, Hall. by left.
  - rewrite Join_cons by done. rewrite app_cons_str, app_nil_str.
    rewrite Split_app by (apply Hall; by left). f_equal.
    apply IH; [done|]. intros x Hx. apply Hall. by right.
Qed.
Lemma Join_Split sep s : Join (String sep EmptyString) (Split sep s) = s.
Proof.
  induction s as [|c s IH]; simpl; [done|]. case_decide as Hc.
  - rewrite Join_cons by apply Split_not_nil. rewrite IH. by subst.
  - destruct (Split sep s) as [|w ws] eqn:E; [by destruct (Split_not_nil sep s)|].
    destruct ws as [|w' ws]; simpl in *; [by subst|].
    by rewrite app_cons_str, IH.
Qed.
Lemma SplitN2_app sep w s :
  no_char sep w = true -> SplitN2 sep (w +:+ String sep s) = [w; s].
Proof.
  induction w as [|c w IH]; intros Hw.
  - rewrite app_nil_str. simpl. by rewrite decide_True.
  - rewrite app_cons_str. simpl in *. apply andb_true_iff in Hw as [Hc Hw].
    bool_facts. rewrite decide_False by done. by rewrite IH.
Qed.
Lemma no_char_app c s t : no_char c (s +:+ t) = no_char c s && no_char c t.
Proof.
  induction s as [|c' s IH]; [done|].
  rewrite app_cons_str; simpl. by rewrite IH, andb_assoc.
Qed.

(** ** Sorting *)
Lemma sort_Strings_Permutation l : sort_Strings l ≡ₚ l.
Proof. apply merge_sort_Permutation. Qed.
Lemma sort_Strings_Sorted l : Sorted String.le (sort_Strings l).
Proof. apply Sorted_merge_sort, _. Qed.

(** ** Separated concatenations are injective when the first part is free of
    the separator. *)
Lemma app_sep_inj c (a b a' b' : string) :
  no_char c a = true -> no_char c a' = true ->
  a +:+ String c b = a' +:+ String c b' -> a = a' /\ b = b'.
Proof.
  revert a'. induction a as [|x a IH]; intros [|x' a'] Ha Ha' Heq;
    rewrite ?app_cons_str, ?app_nil_str in Heq; simpl in *; bool_facts.
  - by injection Heq.
  - injection Heq as <- _. by bool_facts.
  - injection Heq as -> _. by bool_facts.
  - injection Heq as <- Heq. destruct (IH a') as [-> ->]; done.
Qed.
