(* ===== verification/Sha256.v ===== *)
(** * SHA-256 (crypto/sha256), as [helpers.AsSha256] uses it

    Bytes and 32-bit words are [Z]; [sha256_hex] is the lower-case hexadecimal
    digest of a string, [fmt.Sprintf("%x", sha256.Sum256(s))]. *)

From Stdlib Require Import Ascii.
From stdpp Require Import base gmap sets list strings.
From S2P Require Import Prelude GoStrings.
Local Open Scope Z_scope.

Definition w32 (x : Z) : Z := Z.land x (Z.ones 32).
Definition add32 (x y : Z) : Z := w32 (x + y).
Definition rotr (n x : Z) : Z := w32 (Z.lor (Z.shiftr x n) (Z.shiftl x (32 - n))).
Definition Ch (x y z : Z) : Z := Z.lxor (Z.land x y) (Z.land (Z.lxor x (Z.ones 32)) z).
Definition Maj (x y z : Z) : Z := Z.lxor (Z.lxor (Z.land x y) (Z.land x z)) (Z.land y z).
Definition bsig0 (x : Z) : Z := Z.lxor (Z.lxor (rotr 2 x) (rotr 13 x)) (rotr 22 x).
Definition bsig1 (x : Z) : Z := Z.lxor (Z.lxor (rotr 6 x) (rotr 11 x)) (rotr 25 x).
Definition ssig0 (x : Z) : Z := Z.lxor (Z.lxor (rotr 7 x) (rotr 18 x)) (Z.shiftr x 3).
Definition ssig1 (x : Z) : Z := Z.lxor (Z.lxor (rotr 17 x) (rotr 19 x)) (Z.shiftr x 10).

(** The constants are derived rather than listed: 32 bits of the fractional parts
    of the square roots (initial state) and cube roots (rounds) of the first
    primes. *)
Definition is_prime (n : nat) : bool :=
  forallb (fun d => negb (n mod d =? 0)%nat) (seq 2 (n - 2)).
Definition primes : list Z := map Z.of_nat (filter (fun n => is_prime n = true) (seq 2 310)).
(** Integer cube root, one bit at a time from the [bits]-th. *)
Fixpoint cbrt_bits (bits : nat) (n r : Z) : Z :=
  match bits with
  | O => r
  | S b => let r' := r + Z.shiftl 1 (Z.of_nat b) in
           cbrt_bits b n (if r' ^ 3 <=? n then r' else r)
  end.
Definition K : list Z :=
  Eval vm_compute in map (fun p => w32 (cbrt_bits 36 (Z.shiftl p 96) 0)) primes.

Record hash_state := HS { ha : Z; hb : Z; hc : Z; hd : Z; he : Z; hf : Z; hg : Z; hh : Z }.
Definition H0 : hash_state := Eval vm_compute in
  let h n := w32 (Z.sqrt (Z.shiftl (nth n primes 0) 64)) in
  HS (h 0%nat) (h 1%nat) (h 2%nat) (h 3%nat) (h 4%nat) (h 5%nat) (h 6%nat) (h 7%nat).

(** The message schedule, newest word first. *)
Definition next_word (ws : list Z) : Z :=
  let at_ n := nth n ws 0 in
  add32 (add32 (ssig1 (at_ 1%nat)) (at_ 6%nat)) (add32 (ssig0 (at_ 14%nat)) (at_ 15%nat)).
Definition schedule (block : list Z) : list Z :=
  reverse (Nat.iter 48 (fun ws => next_word ws :: ws) (reverse block)).

Definition round (s : hash_state) (kw : Z * Z) : hash_state :=
  let t1 := add32 (add32 (hh s) (bsig1 (he s)))
                  (add32 (Ch (he s) (hf s) (hg s)) (add32 kw.1 kw.2)) in
  let t2 := add32 (bsig0 (ha s)) (Maj (ha s) (hb s) (hc s)) in
  HS (add32 t1 t2) (ha s) (hb s) (hc s) (add32 (hd s) t1) (he s) (hf s) (hg s).

Definition compress (s : hash_state) (block : list Z) : hash_state :=
  let r := foldl round s (zip K (schedule block)) in
  HS (add32 (ha s) (ha r)) (add32 (hb s) (hb r)) (add32 (hc s) (hc r)) (add32 (hd s) (hd r))
     (add32 (he s) (he r)) (add32 (hf s) (hf r)) (add32 (hg s) (hg r)) (add32 (hh s) (hh r)).

(** Padding: 0x80, zeros up to 56 modulo 64, and the bit length on 8 bytes. *)
Fixpoint be_bytes (n : nat) (x : Z) : list Z :=
  match n with
  | O => []
  | S n' => be_bytes n' (Z.shiftr x 8) ++ [Z.land x 255]
  end.
Definition pad (bytes : list Z) : list Z :=
  let len := length bytes in
  bytes ++ [0x80] ++ replicate ((119 - len mod 64) mod 64) 0 ++ be_bytes 8 (8 * Z.of_nat len).
Fixpoint words_of (bytes : list Z) : list Z :=
  match bytes with
  | b0 :: b1 :: b2 :: b3 :: rest =>
      Z.lor (Z.lor (Z.shiftl b0 24) (Z.shiftl b1 16)) (Z.lor (Z.shiftl b2 8) b3) :: words_of rest
  | _ => []
  end.
Fixpoint blocks (n : nat) (ws : list Z) : list (list Z) :=
  match n with
  | O => []
  | S n' => take 16 ws :: blocks n' (drop 16 ws)
  end.

Fixpoint string_bytes (s : string) : list Z :=
  match s with
  | EmptyString => []
  | String c s' => Z.of_nat (nat_of_ascii c) :: string_bytes s'
  end.

Definition digest (s : string) : list Z :=
  let ws := words_of (pad (string_bytes s)) in
  let h := foldl compress H0 (blocks (length ws / 16)%nat ws) in
  concat (map (be_bytes 4) [ha h; hb h; hc h; hd h; he h; hf h; hg h; hh h]).

(** [%x] on a byte slice. *)
Fixpoint hex (bytes : list Z) : string :=
  match bytes with
  | [] => EmptyString
  | b :: rest => String (hex_digit (Z.to_nat (b / 16))) (String (hex_digit (Z.to_nat (b mod 16))) (hex rest))
  end.

Definition sha256_hex (s : string) : string := hex (digest s).

(** The FIPS 180-4 examples. *)
Example sha256_abc :
  sha256_hex "abc" = "ba7816bf8f01cfea414140de5dae2223b00361a396177a9cb410ff61f20015ad".
Proof. vm_compute. reflexivity. Qed.
Example sha256_two_blocks :
  sha256_hex "abcdbcdecdefdefgefghfghighijhijkijkljklmklmnlmnomnopnopq"
  = "248d6a61d20638b8e5c026930c3e6039a33ce45964ff2167f6ecedd419db06c1".
Proof. vm_compute. reflexivity. Qed.
Example sha256_empty :
  sha256_hex "" = "e3b0c44298fc1c149afbf4c8996fb92427ae41e4649b934ca495991b7852b855".
Proof. vm_compute. reflexivity. Qed.

Lemma length_be_bytes n x : length (be_bytes n x) = n.
Proof. revert x; induction n as [|n IH]; intros x; simpl; [done|]. rewrite length_app, IH; simpl; lia. Qed.
Lemma str_len_hex l : str_len (hex l) = (2 * length l)%nat.
Proof. induction l as [|b l IH]; [done|]. unfold str_len in *; simpl; rewrite IH; lia. Qed.
Lemma str_len_sha256_hex s : str_len (sha256_hex s) = 64%nat.
Proof.
  unfold sha256_hex, digest. rewrite str_len_hex. cbn [map concat].
  rewrite !length_app, !length_be_bytes. done.
Qed.
