(* ===== verification/K8s.v ===== *)
(** * Kubernetes and Istio objects

    The objects of the libraries the operator calls (k8s.io/api,
    istio.io/api), reduced to the fields the operator reads or writes.  Every
    other field of an object is carried along in an opaque [_other] field, so
    that "the rest of the object is kept" can be stated.  A Go pointer field is
    an [option]; a pointer whose identity the code observes carries its
    address. *)

From stdpp Require Import base gmap sets list strings.
From S2P Require Import Prelude.

(** The fields of an object the operator never looks at. *)
Abbreviation opaque := string (only parsing).

(** [types.NamespacedName] *)
Record NamespacedName := mkNN { nn_Namespace : string; nn_Name : string }.
#[export] Instance NamespacedName_eq_dec : EqDecision NamespacedName.
Proof. solve_decision. Defined.
#[export] Instance NamespacedName_countable : Countable NamespacedName.
Proof.
  refine (inj_countable' (fun n => (nn_Namespace n, nn_Name n))
            (fun p => mkNN p.1 p.2) _).
  by intros [].
Defined.

(** [ctrl.Result] *)
Record Result := mkResult { Requeue : bool; RequeueAfter : Z }.
#[export] Instance Result_eq_dec : EqDecision Result.
Proof. solve_decision. Defined.
Definition zero_Result : Result := mkResult false 0.

(** ** core/v1 and apps/v1 *)

(** A pointer with its address: [e == env] on two [EnvVar]s compares the
    [ValueFrom] pointers, not what they point to. *)
Record ptr (A : Type) := mkPtr { ptr_addr : nat; ptr_val : A }.
Arguments mkPtr {A} _ _.
Arguments ptr_addr {A} _.
Arguments ptr_val {A} _.
#[export] Instance ptr_eq_dec {A} `{EqDecision A} : EqDecision (ptr A).
Proof. solve_decision. Defined.

Record EnvVar := mkEnvVar {
  ev_Name : string;
  ev_Value : string;
  ev_ValueFrom : option (ptr opaque);
}.
#[export] Instance EnvVar_eq_dec : EqDecision EnvVar.
Proof. solve_decision. Defined.

Record Container := mkContainer {
  c_Name : string;
  c_Image : string;
  c_Command : list string;
  c_Env : list EnvVar;
  c_other : opaque;
}.
#[export] Instance Container_eq_dec : EqDecision Container.
Proof. solve_decision. Defined.

(** [corev1.PodTemplateSpec], with the pod spec's container lists. *)
Record PodTemplate := mkPodTemplate {
  pt_Labels : gomap string;
  pt_Containers : list Container;
  pt_InitContainers : list Container;
  pt_other : opaque;
}.
#[export] Instance PodTemplate_eq_dec : EqDecision PodTemplate.
Proof. solve_decision. Defined.

(** [metav1.LabelSelector] *)
Record LabelSelector := mkLabelSelector {
  ls_MatchLabels : gomap string;
  ls_other : opaque;
}.
#[export] Instance LabelSelector_eq_dec : EqDecision LabelSelector.
Proof. solve_decision. Defined.

Record DeploymentSpec := mkDeploymentSpec {
  ds_Replicas : option Z;                 (* *int32 *)
  ds_Selector : option LabelSelector;     (* *LabelSelector *)
  ds_Template : PodTemplate;
  ds_other : opaque;
}.
#[export] Instance DeploymentSpec_eq_dec : EqDecision DeploymentSpec.
Proof. solve_decision. Defined.

Record DeploymentCondition := mkDeploymentCondition {
  dc_Type : string;
  dc_Status : string;
  dc_LastUpdateTime : Z;                  (* nanoseconds *)
  dc_Reason : string;
}.
#[export] Instance DeploymentCondition_eq_dec : EqDecision DeploymentCondition.
Proof. solve_decision. Defined.

Record Deployment := mkDeployment {
  dp_Name : string;
  dp_Namespace : string;
  dp_Labels : gomap string;
  dp_Annotations : gomap string;
  dp_Spec : DeploymentSpec;
  dp_Conditions : list DeploymentCondition;   (* Status.Conditions *)
  dp_other : opaque;
}.
#[export] Instance Deployment_eq_dec : EqDecision Deployment.
Proof. solve_decision. Defined.

Record Service := mkService {
  sv_Name : string;
  sv_Namespace : string;
  sv_Selector : gomap string;
}.
#[export] Instance Service_eq_dec : EqDecision Service.
Proof. solve_decision. Defined.

(** ** networking.istio.io *)

(** The [MatchType] oneof of [istioapi.StringMatch]. *)
Inductive StringMatch_MatchType :=
| StringMatch_Exact (s : string)
| StringMatch_Prefix (s : string)
| StringMatch_Regex (s : string).
#[export] Instance StringMatch_MatchType_eq_dec : EqDecision StringMatch_MatchType.
Proof. solve_decision. Defined.

Record HTTPMatchRequest := mkHTTPMatchRequest {
  hm_Headers : gomap StringMatch_MatchType;
  hm_SourceLabels : gomap string;
  hm_other : opaque;
}.
#[export] Instance HTTPMatchRequest_eq_dec : EqDecision HTTPMatchRequest.
Proof. solve_decision. Defined.
(** [&istioapi.HTTPMatchRequest{}] *)
Definition empty_HTTPMatchRequest : HTTPMatchRequest := mkHTTPMatchRequest None None "".

Record Destination := mkDestination {
  dst_Host : string;
  dst_Subset : string;
  dst_other : opaque;
}.
#[export] Instance Destination_eq_dec : EqDecision Destination.
Proof. solve_decision. Defined.

Record HeaderOperations := mkHeaderOperations { ho_Add : gomap string; ho_other : opaque }.
#[export] Instance HeaderOperations_eq_dec : EqDecision HeaderOperations.
Proof. solve_decision. Defined.
Record Headers := mkHeaders { hd_Response : option HeaderOperations; hd_other : opaque }.
#[export] Instance Headers_eq_dec : EqDecision Headers.
Proof. solve_decision. Defined.

Record HTTPRouteDestination := mkHTTPRouteDestination {
  rd_Destination : option Destination;
  rd_Weight : Z;                          (* int32 *)
  rd_Headers : option Headers;
}.
#[export] Instance HTTPRouteDestination_eq_dec : EqDecision HTTPRouteDestination.
Proof. solve_decision. Defined.

Record Delegate := mkDelegate { dl_Name : string; dl_Namespace : string }.
#[export] Instance Delegate_eq_dec : EqDecision Delegate.
Proof. solve_decision. Defined.

Record HTTPRoute := mkHTTPRoute {
  hr_Name : string;
  hr_Match : list HTTPMatchRequest;
  hr_Route : list HTTPRouteDestination;
  hr_Delegate : option Delegate;
  hr_other : opaque;
}.
#[export] Instance HTTPRoute_eq_dec : EqDecision HTTPRoute.
Proof. solve_decision. Defined.

Record VirtualService := mkVirtualService {
  vs_Name : string;
  vs_Namespace : string;
  vs_Annotations : gomap string;
  vs_Hosts : list string;                 (* Spec.Hosts *)
  vs_Http : list HTTPRoute;               (* Spec.Http *)
  vs_other : opaque;
}.
#[export] Instance VirtualService_eq_dec : EqDecision VirtualService.
Proof. solve_decision. Defined.
Definition vs_set_Http (http : list HTTPRoute) (v : VirtualService) : VirtualService :=
  mkVirtualService (vs_Name v) (vs_Namespace v) (vs_Annotations v) (vs_Hosts v) http (vs_other v).

Record DRSubset := mkDRSubset { sb_Name : string; sb_Labels : gomap string }.
#[export] Instance DRSubset_eq_dec : EqDecision DRSubset.
Proof. solve_decision. Defined.

Record DestinationRule := mkDestinationRule {
  dr_Name : string;
  dr_Namespace : string;
  dr_Labels : gomap string;
  dr_Annotations : gomap string;
  dr_Host : string;                       (* Spec.Host *)
  dr_Subsets : list DRSubset;             (* Spec.Subsets *)
}.
#[export] Instance DestinationRule_eq_dec : EqDecision DestinationRule.
Proof. solve_decision. Defined.

(** ** Annotated objects: [client.Object]'s [GetAnnotations]/[SetAnnotations]. *)
Class Annotated (O : Type) := {
  GetAnnotations : O -> gomap string;
  SetAnnotations : gomap string -> O -> O;
  get_set_annotations : forall a o, GetAnnotations (SetAnnotations a o) = a;
}.

#[export] Instance Deployment_annotated : Annotated Deployment.
Proof.
  refine {| GetAnnotations := dp_Annotations;
            SetAnnotations := fun a d => mkDeployment (dp_Name d) (dp_Namespace d)
              (dp_Labels d) a (dp_Spec d) (dp_Conditions d) (dp_other d) |}.
  done.
Defined.
#[export] Instance VirtualService_annotated : Annotated VirtualService.
Proof.
  refine {| GetAnnotations := vs_Annotations;
            SetAnnotations := fun a v => mkVirtualService (vs_Name v) (vs_Namespace v)
              a (vs_Hosts v) (vs_Http v) (vs_other v) |}.
  done.
Defined.
#[export] Instance DestinationRule_annotated : Annotated DestinationRule.
Proof.
  refine {| GetAnnotations := dr_Annotations;
            SetAnnotations := fun a d => mkDestinationRule (dr_Name d) (dr_Namespace d)
              (dr_Labels d) a (dr_Host d) (dr_Subsets d) |}.
  done.
Defined.
