(* ===== verification/Types.v ===== *)
(** * The DynamicEnv API types (api/v1alpha1/dynamicenv_types.go)

    The custom resource, its status, and the two string enumerations with
    their printers and parsers.  The enumerations are Go string types: any
    string inhabits them, the constants are the values the operator writes. *)

From stdpp Require Import base gmap sets list strings.
From S2P Require Import Prelude GoStrings K8s.

(** ** Enumerations *)
Abbreviation LifeCycleStatus := string (only parsing).
Abbreviation GlobalReadyStatus := string (only parsing).

Definition Unknown : LifeCycleStatus := "unknown".
Definition Initializing : LifeCycleStatus := "initializing".
Definition Running : LifeCycleStatus := "running".
Definition Failed : LifeCycleStatus := "failed".
Definition Missing : LifeCycleStatus := "missing".
Definition Updating : LifeCycleStatus := "updating".
Definition Removing : LifeCycleStatus := "removing".
Definition IgnoredMissingDR : LifeCycleStatus := "ignored-missing-destination-rule".
Definition IgnoredMissingVS : LifeCycleStatus := "ignored-missing-virtual-service".

Definition Degraded : GlobalReadyStatus := "degraded".
Definition Ready : GlobalReadyStatus := "ready".
Definition Processing : GlobalReadyStatus := "processing".

Inductive SubsetOrConsumer := SUBSET | CONSUMER.
#[export] Instance SubsetOrConsumer_eq_dec : EqDecision SubsetOrConsumer.
Proof. solve_decision. Defined.

Definition LifeCycleStatus_String (s : LifeCycleStatus) : string :=
  if decide (s = Unknown) then Unknown
  else if decide (s = Initializing) then Initializing
  else if decide (s = Running) then Running
  else if decide (s = Failed) then Failed
  else if decide (s = Missing) then Missing
  else if decide (s = Updating) then Updating
  else if decide (s = Removing) then Removing
  else if decide (s = IgnoredMissingDR) then IgnoredMissingDR
  else if decide (s = IgnoredMissingVS) then IgnoredMissingVS
  else Unknown.

Definition ParseLifeCycleStatus (s : string) : LifeCycleStatus :=
  if decide (s = Initializing) then Initializing
  else if decide (s = Running) then Running
  else if decide (s = Failed) then Failed
  else if decide (s = Missing) then Missing
  else if decide (s = Updating) then Updating
  else if decide (s = Removing) then Removing
  else if decide (s = IgnoredMissingDR) then IgnoredMissingDR
  else if decide (s = IgnoredMissingVS) then IgnoredMissingVS
  else Unknown.

Definition IsFailedStatus (s : LifeCycleStatus) : bool :=
  bool_decide (s = Missing) || bool_decide (s = Failed).

Definition GlobalReadyStatus_String (s : GlobalReadyStatus) : string :=
  if decide (s = Degraded) then Degraded
  else if decide (s = Processing) then Processing
  else if decide (s = Ready) then Ready
  else Processing.

Definition ParseGlobalReadyStatus (s : string) : GlobalReadyStatus :=
  if decide (s = "degraded") then Degraded
  else if decide (s = "ready") then Ready
  else Processing.

(** ** Spec *)
Record StringMatch := mkStringMatch {
  sm_Exact : string;
  sm_Prefix : string;
  sm_Regex : string;
}.
#[export] Instance StringMatch_eq_dec : EqDecision StringMatch.
Proof. solve_decision. Defined.

Record IstioMatch := mkIstioMatch {
  im_Headers : gomap StringMatch;
  im_SourceLabels : gomap string;
}.
#[export] Instance IstioMatch_eq_dec : EqDecision IstioMatch.
Proof. solve_decision. Defined.

(** [Command] and [Env] may be nil, which [reflect.DeepEqual] tells apart from
    empty. *)
Record ContainerOverrides := mkContainerOverrides {
  co_ContainerName : string;
  co_Image : string;
  co_Command : option (list string);
  co_Env : option (list EnvVar);
}.
#[export] Instance ContainerOverrides_eq_dec : EqDecision ContainerOverrides.
Proof. solve_decision. Defined.

Record Subset := mkSubset {
  s_Name : string;
  s_Namespace : string;
  s_PodLabels : gomap string;
  s_Replicas : option Z;                  (* *int32 *)
  s_Containers : list ContainerOverrides;
  s_InitContainers : list ContainerOverrides;
  s_DefaultVersion : string;
}.
#[export] Instance Subset_eq_dec : EqDecision Subset.
Proof. solve_decision. Defined.

Record DynamicEnvSpec := mkDynamicEnvSpec {
  spec_IstioMatches : option (list IstioMatch);
  spec_Subsets : list Subset;
  spec_Consumers : list Subset;
}.
#[export] Instance DynamicEnvSpec_eq_dec : EqDecision DynamicEnvSpec.
Proof. solve_decision. Defined.

(** ** Status *)
Record ResourceStatus := mkResourceStatus {
  rs_Name : string;
  rs_Namespace : string;
  rs_Status : LifeCycleStatus;
}.
#[export] Instance ResourceStatus_eq_dec : EqDecision ResourceStatus.
Proof. solve_decision. Defined.

Record StatusError := mkStatusError {
  se_Error : string;
  se_LastOccurrence : Z;
}.
#[export] Instance StatusError_eq_dec : EqDecision StatusError.
Proof. solve_decision. Defined.

Record SubsetErrors := mkSubsetErrors {
  ser_Deployment : list StatusError;
  ser_DestinationRule : list StatusError;
  ser_VirtualServices : list StatusError;
  ser_Subset : list StatusError;
}.
#[export] Instance SubsetErrors_eq_dec : EqDecision SubsetErrors.
Proof. solve_decision. Defined.

Record SubsetStatus := mkSubsetStatus {
  ss_Deployment : ResourceStatus;
  ss_DestinationRules : list ResourceStatus;
  ss_VirtualServices : list ResourceStatus;
  ss_Errors : option SubsetErrors;        (* *SubsetErrors *)
  ss_Hash : Z;                            (* int64 *)
}.
#[export] Instance SubsetStatus_eq_dec : EqDecision SubsetStatus.
Proof. solve_decision. Defined.

Record ConsumerStatus := mkConsumerStatus {
  cs_ResourceStatus : ResourceStatus;     (* embedded *)
  cs_Hash : Z;                            (* int64 *)
  cs_Errors : list StatusError;
}.
#[export] Instance ConsumerStatus_eq_dec : EqDecision ConsumerStatus.
Proof. solve_decision. Defined.

Record DynamicEnvStatus := mkDynamicEnvStatus {
  st_SubsetsStatus : gomap SubsetStatus;
  st_ConsumersStatus : gomap ConsumerStatus;
  st_State : GlobalReadyStatus;
  st_TotalCount : Z;
  st_TotalReady : Z;
}.
#[export] Instance DynamicEnvStatus_eq_dec : EqDecision DynamicEnvStatus.
Proof. solve_decision. Defined.

Record DynamicEnv := mkDynamicEnv {
  de_Name : string;
  de_Namespace : string;
  de_Finalizers : list string;
  de_DeletionTimestamp : option Z;        (* *metav1.Time *)
  de_Spec : DynamicEnvSpec;
  de_Status : DynamicEnvStatus;
  de_other : opaque;
}.
#[export] Instance DynamicEnv_eq_dec : EqDecision DynamicEnv.
Proof. solve_decision. Defined.

(** Zero values: what a missing map entry reads as. *)
Definition zero_ResourceStatus : ResourceStatus := mkResourceStatus "" "" "".
Definition zero_SubsetErrors : SubsetErrors := mkSubsetErrors [] [] [] [].
Definition zero_SubsetStatus : SubsetStatus := mkSubsetStatus zero_ResourceStatus [] [] None 0.
Definition zero_ConsumerStatus : ConsumerStatus := mkConsumerStatus zero_ResourceStatus 0 [].
Definition zero_DynamicEnvStatus : DynamicEnvStatus := mkDynamicEnvStatus None None "" 0 0.
Definition zero_DynamicEnv : DynamicEnv :=
  mkDynamicEnv "" "" [] None (mkDynamicEnvSpec None [] []) zero_DynamicEnvStatus "".

(** Field assignment. *)
Definition set_Finalizers (f : list string) (de : DynamicEnv) : DynamicEnv :=
  mkDynamicEnv (de_Name de) (de_Namespace de) f (de_DeletionTimestamp de)
    (de_Spec de) (de_Status de) (de_other de).
Definition set_Status (s : DynamicEnvStatus) (de : DynamicEnv) : DynamicEnv :=
  mkDynamicEnv (de_Name de) (de_Namespace de) (de_Finalizers de) (de_DeletionTimestamp de)
    (de_Spec de) s (de_other de).
Definition set_SubsetsStatus (m : gomap SubsetStatus) (de : DynamicEnv) : DynamicEnv :=
  let s := de_Status de in
  set_Status (mkDynamicEnvStatus m (st_ConsumersStatus s) (st_State s)
                (st_TotalCount s) (st_TotalReady s)) de.
Definition set_ConsumersStatus (m : gomap ConsumerStatus) (de : DynamicEnv) : DynamicEnv :=
  let s := de_Status de in
  set_Status (mkDynamicEnvStatus (st_SubsetsStatus s) m (st_State s)
                (st_TotalCount s) (st_TotalReady s)) de.
Definition de_SubsetsStatus (de : DynamicEnv) := st_SubsetsStatus (de_Status de).
Definition de_ConsumersStatus (de : DynamicEnv) := st_ConsumersStatus (de_Status de).

(** ** Methods *)
Definition ResourceStatus_IsEqual (rs other : ResourceStatus) : bool :=
  bool_decide (rs_Name rs = rs_Name other)
  && bool_decide (rs_Namespace rs = rs_Namespace other)
  && bool_decide (rs_Status rs = rs_Status other).

Definition NewStatusError (now : Z) (error : string) : StatusError := mkStatusError error now.

Definition ContainerOverrides_IsEmpty (co : ContainerOverrides) : bool :=
  bool_decide (co = mkContainerOverrides "" "" None None).

Definition SameError (se other : StatusError) : bool :=
  bool_decide (se_Error se = se_Error other).

Definition UpdateTime (now : Z) (se : StatusError) : StatusError :=
  mkStatusError (se_Error se) now.

(** Messages collected during one reconcile loop. *)
Record SubsetMessages := mkSubsetMessages {
  msg_Deployment : list string;
  msg_DestinationRule : list string;
  msg_VirtualService : list string;
  msg_GlobalErrors : list string;
}.
Definition zero_SubsetMessages : SubsetMessages := mkSubsetMessages [] [] [] [].
Definition AppendDeploymentMsg (rls : SubsetMessages) (msg : string) : SubsetMessages :=
  mkSubsetMessages (msg_Deployment rls ++ [msg]) (msg_DestinationRule rls)
    (msg_VirtualService rls) (msg_GlobalErrors rls).
Definition AppendDestinationRuleMsg (rls : SubsetMessages) (msg : string) : SubsetMessages :=
  mkSubsetMessages (msg_Deployment rls) (msg_DestinationRule rls ++ [msg])
    (msg_VirtualService rls) (msg_GlobalErrors rls).
Definition AppendVirtualServiceMsg (rls : SubsetMessages) (msg : string) : SubsetMessages :=
  mkSubsetMessages (msg_Deployment rls) (msg_DestinationRule rls)
    (msg_VirtualService rls ++ [msg]) (msg_GlobalErrors rls).
Definition AppendGlobalMsg (rls : SubsetMessages) (msg : string) : SubsetMessages :=
  mkSubsetMessages (msg_Deployment rls) (msg_DestinationRule rls)
    (msg_VirtualService rls) (msg_GlobalErrors rls ++ [msg]).

(** ** The wire

    What a status reads back as after a trip to the API server: every
    [LifeCycleStatus] goes through [MarshalJSON]/[UnmarshalJSON], which print and
    parse it, the state likewise, and times are kept to the second.  Fields marked
    [omitempty] are left out when they are empty: an empty state stays empty, and
    an empty map of consumers reads back as nil. *)
Definition wire_lifecycle (s : LifeCycleStatus) : LifeCycleStatus :=
  ParseLifeCycleStatus (LifeCycleStatus_String s).
Definition wire_state (s : GlobalReadyStatus) : GlobalReadyStatus :=
  ParseGlobalReadyStatus (GlobalReadyStatus_String s).
Definition wire_time (t : Z) : Z := (t / 1000000000 * 1000000000)%Z.
Definition wire_rs (rs : ResourceStatus) : ResourceStatus :=
  mkResourceStatus (rs_Name rs) (rs_Namespace rs) (wire_lifecycle (rs_Status rs)).
Definition wire_error (e : StatusError) : StatusError :=
  mkStatusError (se_Error e) (wire_time (se_LastOccurrence e)).
Definition wire_errors (e : SubsetErrors) : SubsetErrors :=
  mkSubsetErrors (map wire_error (ser_Deployment e)) (map wire_error (ser_DestinationRule e))
    (map wire_error (ser_VirtualServices e)) (map wire_error (ser_Subset e)).
Definition wire_subset (s : SubsetStatus) : SubsetStatus :=
  mkSubsetStatus (wire_rs (ss_Deployment s)) (map wire_rs (ss_DestinationRules s))
    (map wire_rs (ss_VirtualServices s)) (wire_errors <$> ss_Errors s) (ss_Hash s).
Definition wire_consumer (s : ConsumerStatus) : ConsumerStatus :=
  mkConsumerStatus (wire_rs (cs_ResourceStatus s)) (cs_Hash s) (map wire_error (cs_Errors s)).
(** [omitempty] on a map and on the state. *)
Definition omit_empty {V} (m : gomap V) : gomap V :=
  match m with
  | Some g => if decide (size g = 0) then None else m
  | None => None
  end.
Definition omit_state (s : GlobalReadyStatus) : GlobalReadyStatus :=
  if decide (s = "") then "" else wire_state s.
Definition wire_status (s : DynamicEnvStatus) : DynamicEnvStatus :=
  mkDynamicEnvStatus (fmap (M:=gmap string) wire_subset <$> st_SubsetsStatus s)
    (omit_empty (fmap (M:=gmap string) wire_consumer <$> st_ConsumersStatus s))
    (omit_state (st_State s))
    (st_TotalCount s) (st_TotalReady s).

(** ** Lemmas *)
Lemma mread_omit {V} (m : gomap V) : mread (omit_empty m) = mread m.
Proof.
  destruct m as [g|]; [|done]. simpl. case_decide as Hs; [|done]. simpl. by apply map_size_empty_inv in Hs as ->.
Qed.
Lemma mlookup_omit {V} (m : gomap V) k : mlookup (omit_empty m) k = mlookup m k.
Proof. unfold mlookup. by rewrite mread_omit. Qed.
Lemma ResourceStatus_IsEqual_spec rs other : ResourceStatus_IsEqual rs other = true <-> rs = other.
Proof.
  unfold ResourceStatus_IsEqual. rewrite !andb_true_iff, !bool_decide_eq_true.
  destruct rs, other; simpl. naive_solver.
Qed.

Lemma IsFailedStatus_spec s : IsFailedStatus s = true <-> s = Missing \/ s = Failed.
Proof. unfold IsFailedStatus. rewrite orb_true_iff, !bool_decide_eq_true. done. Qed.

Lemma de_SubsetsStatus_set m de : de_SubsetsStatus (set_SubsetsStatus m de) = m.
Proof. done. Qed.
Lemma de_ConsumersStatus_set m de : de_ConsumersStatus (set_ConsumersStatus m de) = m.
Proof. done. Qed.

Definition lifecycle_constants : list LifeCycleStatus :=
  [Unknown; Initializing; Running; Failed; Missing; Updating; Removing;
   IgnoredMissingDR; IgnoredMissingVS].

Lemma Parse_in_constants s : ParseLifeCycleStatus s ∈ lifecycle_constants.
Proof.
  unfold ParseLifeCycleStatus, lifecycle_constants.
  repeat case_decide; subst; set_solver.
Qed.

Lemma Parse_String_constants s :
  s ∈ lifecycle_constants -> ParseLifeCycleStatus (LifeCycleStatus_String s) = s.
Proof.
  unfold lifecycle_constants. rewrite !elem_of_cons, elem_of_nil.
  intros H. repeat destruct H as [->|H]; try reflexivity. done.
Qed.
Lemma wire_lifecycle_constant s : wire_lifecycle s ∈ lifecycle_constants.
Proof. apply Parse_in_constants. Qed.
Lemma wire_lifecycle_idemp s : wire_lifecycle (wire_lifecycle s) = wire_lifecycle s.
Proof. apply Parse_String_constants, wire_lifecycle_constant. Qed.
Lemma String_Parse_of_Parse s : LifeCycleStatus_String (ParseLifeCycleStatus s) = ParseLifeCycleStatus s.
Proof.
  pose proof (Parse_in_constants s) as H. revert H. unfold lifecycle_constants.
  rewrite !elem_of_cons, elem_of_nil. intros H. repeat destruct H as [->|H]; try reflexivity. done.
Qed.

(** ** Properties *)

(** Printing then parsing a life-cycle status is the identity on the
    operator's nine statuses and sends every other string to [unknown]; parsing
    then printing any string is stable. *)
Theorem LifeCycleStatus_roundtrip s :
  (s ∈ lifecycle_constants -> ParseLifeCycleStatus (LifeCycleStatus_String s) = s) /\
  (s ∉ lifecycle_constants -> ParseLifeCycleStatus (LifeCycleStatus_String s) = Unknown) /\
  LifeCycleStatus_String (ParseLifeCycleStatus s) = ParseLifeCycleStatus s.
Proof.
  split; [apply Parse_String_constants|]. split; [|apply String_Parse_of_Parse].
  intros Hs. unfold lifecycle_constants in Hs. rewrite !not_elem_of_cons in Hs.
  destruct_and! Hs. unfold LifeCycleStatus_String. by rewrite !decide_False.
Qed.

(** The global state's printer and parser agree on its three values, and
    both send every other string to [processing]. *)
Theorem GlobalReadyStatus_roundtrip s :
  ParseGlobalReadyStatus (GlobalReadyStatus_String s) = GlobalReadyStatus_String s /\
  GlobalReadyStatus_String s =
    (if decide (s ∈ [Degraded; Ready; Processing]) then s else Processing).
Proof.
  unfold GlobalReadyStatus_String. rewrite (decide_ext (s ∈ _) (s = Degraded \/ s = Ready \/ s = Processing)).
  2: { rewrite !elem_of_cons, elem_of_nil. tauto. }
  destruct (decide (s = Degraded)) as [->|H1]; [done|].
  destruct (decide (s = Processing)) as [->|H2]; [done|].
  destruct (decide (s = Ready)) as [->|H3]; [done|].
  split; [done|]. rewrite decide_False by tauto. done.
Qed.
