(* ===== verification/Helpers.v ===== *)
(** * Naming and host helpers (pkg/helpers, pkg/names)

    The names the operator derives from a custom resource, host matching, and
    the merge of environment variables. *)

From Stdlib Require Import Ascii.
From stdpp Require Import base gmap sets list strings.
From S2P Require Import Prelude GoStrings Sha256 K8s Types.

(** ** pkg/names/constants.go *)
Definition DynamicEnvLabel : string := "dynamic-env".
Definition DefaultVersionLabel : string := "version".
Definition DefaultVersion : string := "shared".
Definition DeleteDeployments : string := "DeleteDeployments".
Definition DeleteDestinationRules : string := "DeleteDestinationRules".
Definition CleanupVirtualServices : string := "CleanupVirtualServices".
Definition VirtualServiceRoutePrefix : string := "dynamic-environment".

(** ** pkg/helpers/helpers.go *)

(** [slices.Contains] *)
Definition Contains (l : list string) (s : string) : bool := bool_decide (s ∈ l).

Definition RemoveItemFromStringSlice (s : string) (slc : list string) : list string :=
  filter (fun item => s <> item) slc.

(** The argument is the object as [%v] prints it. *)
Definition AsSha256 (printed : string) : string := sha256_hex printed.

Definition Shorten (msg : string) (length : nat) : string :=
  if decide (str_len msg <= length) then msg else take_str length msg.

Definition UniqueDynamicEnvName (id : NamespacedName) : string :=
  let name := nn_Name id in
  let ns := nn_Namespace id in
  let name := if decide (40 < str_len name) then take_str 40 name else name in
  let ns := if decide (20 < str_len ns) then take_str 20 ns else ns in
  ns +:+ "-" +:+ name.

Definition CommonValueExists (l1 l2 : list string) : bool :=
  existsb (fun s => Contains l1 s) l2.

Definition MKSubsetName (subset : Subset) : string :=
  s_Namespace subset +:+ "/" +:+ s_Name subset.

Definition MkResourceName (id : NamespacedName) : string :=
  nn_Namespace id +:+ "/" +:+ nn_Name id.

Definition MkSubsetUniqueName (name version : string) : string :=
  name +:+ "-" +:+ version.

(** ** pkg/helpers/k8s_helpers.go *)
Definition MatchNamespacedHost (hostname namespace matchedHost inNamespace : string) : bool :=
  let shortNameEqual := bool_decide (hostname = matchedHost) && bool_decide (namespace = inNamespace) in
  let fqdnEqual := bool_decide (hostname +:+ "." +:+ namespace +:+ ".svc.cluster.local" = matchedHost) in
  shortNameEqual || fqdnEqual.

Definition CalculateVirtualServicePrefix (version subset : string) : string :=
  let subsetPart := if decide (0 < str_len subset) then subset else "" in
  VirtualServiceRoutePrefix +:+ "-" +:+ version +:+ "-" +:+ subsetPart.

(** [EnvVar.DeepCopy]: the pointed-to source is copied to a new address.  [next]
    is the next free address of the process. *)
Definition EnvVar_DeepCopy (env : EnvVar) (next : nat) : EnvVar * nat :=
  match ev_ValueFrom env with
  | None => (env, next)
  | Some p => (mkEnvVar (ev_Name env) (ev_Value env) (Some (mkPtr next (ptr_val p))), S next)
  end.

(** Struct comparison [e == env]: the [ValueFrom] pointers are compared. *)
Definition EnvVarContains (envs : list EnvVar) (env : EnvVar) : bool :=
  existsb (fun e => bool_decide (e = env)) envs.

Fixpoint fetchEnvVar (envs : list EnvVar) (name : string) (next : nat) : option EnvVar * nat :=
  match envs with
  | [] => (None, next)
  | env :: rest =>
      if decide (ev_Name env = name)
      then let '(c, next) := EnvVar_DeepCopy env next in (Some c, next)
      else fetchEnvVar rest name next
  end.

(** First loop of [MergeEnvVars]: override the existing variables in place. *)
Fixpoint merge_current (current overrides newEnv : list EnvVar) (next : nat) : list EnvVar * nat :=
  match current with
  | [] => (newEnv, next)
  | env :: rest =>
      let '(found, next) := fetchEnvVar overrides (ev_Name env) next in
      match found with
      | Some overridingEnv => merge_current rest overrides (newEnv ++ [overridingEnv]) next
      | None =>
          let '(c, next) := EnvVar_DeepCopy env next in
          merge_current rest overrides (newEnv ++ [c]) next
      end
  end.

(** Second loop: append the overrides that are not there yet. *)
Fixpoint merge_missing (overrides newEnv : list EnvVar) (next : nat) : list EnvVar * nat :=
  match overrides with
  | [] => (newEnv, next)
  | env :: rest =>
      if EnvVarContains newEnv env then merge_missing rest newEnv next
      else let '(c, next) := EnvVar_DeepCopy env next in
           merge_missing rest (newEnv ++ [c]) next
  end.

Definition MergeEnvVars (current overrides : list EnvVar) (next : nat) : list EnvVar * nat :=
  let '(newEnv, next) := merge_current current overrides [] next in
  merge_missing overrides newEnv next.

(** ** Lemmas: slices and hosts *)
Lemma Contains_spec l s : Contains l s = true <-> s ∈ l.
Proof. apply bool_decide_eq_true. Qed.
Lemma elem_of_RemoveItem s slc x :
  x ∈ RemoveItemFromStringSlice s slc <-> x ∈ slc /\ x <> s.
Proof. unfold RemoveItemFromStringSlice. rewrite list_elem_of_filter. naive_solver. Qed.
Lemma CommonValueExists_spec l1 l2 :
  CommonValueExists l1 l2 = true <-> exists s, s ∈ l1 /\ s ∈ l2.
Proof.
  unfold CommonValueExists. rewrite existsb_elem. setoid_rewrite Contains_spec. naive_solver.
Qed.
Lemma MatchNamespacedHost_spec hostname namespace matched inNs :
  MatchNamespacedHost hostname namespace matched inNs = true <->
  (matched = hostname /\ inNs = namespace) \/
  matched = hostname +:+ "." +:+ namespace +:+ ".svc.cluster.local".
Proof.
  unfold MatchNamespacedHost. rewrite orb_true_iff, andb_true_iff, !bool_decide_eq_true.
  naive_solver.
Qed.

(** ** Lemmas: names *)
Lemma Shorten_len msg n : str_len (Shorten msg n) = Nat.min n (str_len msg).
Proof. unfold Shorten. case_decide; [lia|]. apply take_str_len. Qed.

Lemma UniqueDynamicEnvName_short id :
  str_len (nn_Name id) <= 40 -> str_len (nn_Namespace id) <= 20 ->
  UniqueDynamicEnvName id = nn_Namespace id +:+ "-" +:+ nn_Name id.
Proof. intros Hn Hs. unfold UniqueDynamicEnvName. by rewrite !decide_False by lia. Qed.

Lemma truncated_len n s : str_len (if decide (n < str_len s) then take_str n s else s) = Nat.min n (str_len s).
Proof. case_decide; [apply take_str_len|lia]. Qed.

Lemma UniqueDynamicEnvName_len id :
  str_len (UniqueDynamicEnvName id) =
  Nat.min 20 (str_len (nn_Namespace id)) + 1 + Nat.min 40 (str_len (nn_Name id)).
Proof.
  unfold UniqueDynamicEnvName. rewrite !str_len_app, !truncated_len.
  change (str_len "-") with 1. lia.
Qed.

Lemma CalculateVirtualServicePrefix_eq version subset :
  CalculateVirtualServicePrefix version subset =
  VirtualServiceRoutePrefix +:+ "-" +:+ version +:+ "-" +:+ subset.
Proof.
  unfold CalculateVirtualServicePrefix. case_decide as Hlen; [done|].
  destruct subset as [|c s]; [done|]. unfold str_len in Hlen; simpl in Hlen; lia.
Qed.

(** The prefix of one subset extends the prefix of its whole environment. *)
Lemma subset_prefix_extends version subset :
  HasPrefix (CalculateVirtualServicePrefix version subset)
            (CalculateVirtualServicePrefix version "") = true.
Proof.
  rewrite !CalculateVirtualServicePrefix_eq. apply HasPrefix_spec. exists subset.
  by autorewrite with gostr.
Qed.

Lemma MKSubsetName_inj s s' :
  no_char "/" (s_Namespace s) = true -> no_char "/" (s_Namespace s') = true ->
  MKSubsetName s = MKSubsetName s' ->
  s_Namespace s = s_Namespace s' /\ s_Name s = s_Name s'.
Proof. intros Hs Hs' Heq. by apply (app_sep_inj "/"). Qed.

(** ** Lemmas: environment variables *)

(** What a variable says, addresses aside. *)
Definition env_erase (e : EnvVar) : string * string * option opaque :=
  (ev_Name e, ev_Value e, ptr_val <$> ev_ValueFrom e).
Definition plain (e : EnvVar) : Prop := ev_ValueFrom e = None.

Lemma EnvVar_DeepCopy_erase e next : env_erase (EnvVar_DeepCopy e next).1 = env_erase e.
Proof. unfold EnvVar_DeepCopy, env_erase. by destruct e as [? ? [[]|]]. Qed.
Lemma EnvVar_DeepCopy_plain e next : plain e -> EnvVar_DeepCopy e next = (e, next).
Proof. unfold EnvVar_DeepCopy. by intros ->. Qed.
Lemma EnvVarContains_spec envs e : EnvVarContains envs e = true <-> e ∈ envs.
Proof.
  unfold EnvVarContains. rewrite existsb_elem. setoid_rewrite bool_decide_eq_true.
  naive_solver.
Qed.
Lemma fetchEnvVar_spec ov name next :
  env_erase <$> (fetchEnvVar ov name next).1 =
  env_erase <$> (head (filter (fun o => ev_Name o = name) ov)).
Proof.
  induction ov as [|o ov IH]; simpl; [done|]. rewrite filter_cons. case_decide.
  - pose proof (EnvVar_DeepCopy_erase o next) as He.
    destruct (EnvVar_DeepCopy o next) as [c n]; simpl in *. by rewrite He.
  - apply IH.
Qed.

(** Reference definition of the merge, on erased variables. *)
Definition override_of (ov : list EnvVar) (e : EnvVar) : EnvVar :=
  default e (head (filter (fun o => ev_Name o = ev_Name e) ov)).
Definition merge_ref (current ov : list EnvVar) : list EnvVar :=
  map (override_of ov) current
  ++ filter (fun o => ev_Name o ∉ map ev_Name current) ov.

Lemma override_of_name ov e : ev_Name (override_of ov e) = ev_Name e.
Proof.
  unfold override_of. destruct (filter _ ov) as [|o l] eqn:E; [done|]; simpl.
  assert (Hin : o ∈ filter (fun o => ev_Name o = ev_Name e) ov) by (rewrite E; by left).
  by apply list_elem_of_filter in Hin as [Hn _].
Qed.

Lemma merge_current_erase cur ov acc next :
  map env_erase (merge_current cur ov acc next).1 =
  map env_erase acc ++ map env_erase (map (override_of ov) cur).
Proof.
  revert acc next. induction cur as [|e cur IH]; intros acc next; simpl.
  { by rewrite app_nil_r. }
  pose proof (fetchEnvVar_spec ov (ev_Name e) next) as Hf. unfold override_of at 1.
  destruct (fetchEnvVar ov (ev_Name e) next) as [[o|] n]; simpl in Hf;
    destruct (head (filter _ ov)) as [o'|]; try discriminate Hf; simpl.
  - injection Hf as Hf1 Hf2 Hf3. rewrite IH, map_app, <- app_assoc; simpl.
    unfold env_erase at 2 4. by rewrite Hf1, Hf2, Hf3.
  - pose proof (EnvVar_DeepCopy_erase e n) as He.
    destruct (EnvVar_DeepCopy e n) as [c n']; simpl in He.
    by rewrite IH, map_app, <- app_assoc; simpl; rewrite He.
Qed.

Lemma erase_plain_eq e o : plain o -> env_erase e = env_erase o -> e = o.
Proof.
  intros Hp He. destruct e as [n v f], o as [n' v' f']; unfold plain, env_erase in *; simpl in *.
  subst. injection He as -> -> Hf. by destruct f.
Qed.

Lemma elem_of_erase_plain l o : plain o -> env_erase o ∈ map env_erase l -> o ∈ l.
Proof.
  intros Hp Hin. apply list_elem_of_fmap in Hin as (e & He & Hin).
  symmetry in He. by rewrite <- (erase_plain_eq e o).
Qed.

(** The second loop appends exactly the plain overrides whose name is new. *)
Lemma merge_missing_plain ov acc next (names : list string) :
  Forall plain ov -> NoDup (map ev_Name ov) ->
  (forall o, o ∈ ov -> ev_Name o ∈ names -> o ∈ acc) ->
  (forall e, e ∈ acc -> ev_Name e ∈ names \/ (forall o, o ∈ ov -> ev_Name o <> ev_Name e)) ->
  merge_missing ov acc next = (acc ++ filter (fun o => ev_Name o ∉ names) ov, next).
Proof.
  revert acc. induction ov as [|o ov IH]; intros acc Hpl Hnd Hin Hacc; simpl.
  { by rewrite app_nil_r. }
  apply Forall_cons in Hpl as [Hp Hpl]. apply NoDup_cons in Hnd as [Hno Hnd].
  assert (Hdiff : forall o', o' ∈ ov -> ev_Name o' <> ev_Name o).
  { intros o' Ho' Heq. apply Hno. rewrite <- Heq. apply list_elem_of_fmap. eauto. }
  destruct (EnvVarContains acc o) eqn:E.
  - apply EnvVarContains_spec in E. rewrite filter_cons_False; [apply IH|].
    + done.
    + done.
    + intros o' Ho'. apply Hin. by right.
    + intros e He. destruct (Hacc e He) as [?|Hn]; [by left|right].
      intros o' Ho'. apply Hn. by right.
    + intros Hn. destruct (Hacc o E) as [?|Hx]; [done|]. by apply (Hx o); [left|].
  - rewrite EnvVar_DeepCopy_plain by done.
    assert (Hnn : ev_Name o ∉ names).
    { intros Hn. apply not_true_iff_false in E. apply E, EnvVarContains_spec, Hin; [by left|done]. }
    rewrite filter_cons_True by done.
    rewrite (app_snoc_cons acc (filter _ ov) o). apply IH.
    + done.
    + done.
    + intros o' Ho' Hn. apply elem_of_app. left. apply Hin; [by right|done].
    + intros e [He|He]%elem_of_app.
      * destruct (Hacc e He) as [?|Hn]; [by left|right]. intros o' Ho'. apply Hn. by right.
      * apply list_elem_of_singleton in He as ->. by right.
Qed.

(** With distinct names, the override of a name is the override. *)
Lemma override_of_unique ov e o :
  NoDup (map ev_Name ov) -> o ∈ ov -> ev_Name o = ev_Name e -> override_of ov e = o.
Proof.
  unfold override_of. induction ov as [|o' ov IH]; intros Hnd Hin Hn; [by apply not_elem_of_nil in Hin|].
  apply NoDup_cons in Hnd as [Hno Hnd]. rewrite filter_cons. case_decide as Hd.
  - apply elem_of_cons in Hin as [->|Hin]; [done|]. destruct Hno. rewrite Hd, <- Hn.
    apply list_elem_of_fmap. by exists o.
  - apply elem_of_cons in Hin as [->|Hin]; [done|]. by apply IH.
Qed.

(** The addresses of the sources the variables of a list point to, in order. *)
Definition env_addresses : list EnvVar -> list nat := omap (fun e => ptr_addr <$> ev_ValueFrom e).

Lemma env_addresses_app l k : env_addresses (l ++ k) = env_addresses l ++ env_addresses k.
Proof. apply omap_app. Qed.

(** Every copy takes the next free addresses, and only those. *)
Lemma EnvVar_DeepCopy_address e next :
  env_addresses [(EnvVar_DeepCopy e next).1] = seq next ((EnvVar_DeepCopy e next).2 - next) /\
  next <= (EnvVar_DeepCopy e next).2.
Proof.
  unfold EnvVar_DeepCopy, env_addresses. destruct (ev_ValueFrom e) eqn:Hv; simpl.
  - rewrite Nat.sub_succ_l, Nat.sub_diag by lia. split; [done|lia].
  - rewrite Hv, Nat.sub_diag. split; [done|lia].
Qed.
Lemma fetchEnvVar_address ov name next :
  match fetchEnvVar ov name next with
  | (Some o, n) => env_addresses [o] = seq next (n - next) /\ next <= n
  | (None, n) => n = next
  end.
Proof.
  induction ov as [|o ov IH]; simpl; [done|]. case_decide; [|done].
  pose proof (EnvVar_DeepCopy_address o next) as Ha. by destruct (EnvVar_DeepCopy o next).
Qed.

(** [l] has taken exactly the addresses from [start] to [next]. *)
Definition numbered (start : nat) (l : list EnvVar) (next : nat) : Prop :=
  start <= next /\ env_addresses l = seq start (next - start).
Lemma numbered_snoc start l next e n :
  numbered start l next -> env_addresses [e] = seq next (n - next) -> next <= n ->
  numbered start (l ++ [e]) n.
Proof.
  intros [Hs Hl] He Hn. split; [lia|]. rewrite env_addresses_app, Hl, He.
  replace (n - start) with ((next - start) + (n - next)) by lia. rewrite seq_app.
  by replace (start + (next - start)) with next by lia.
Qed.

Lemma merge_current_numbered start cur ov acc next :
  numbered start acc next ->
  numbered start (merge_current cur ov acc next).1 (merge_current cur ov acc next).2.
Proof.
  revert acc next. induction cur as [|e cur IH]; intros acc next Hacc; simpl; [done|].
  pose proof (fetchEnvVar_address ov (ev_Name e) next) as Hf.
  destruct (fetchEnvVar ov (ev_Name e) next) as [[o|] n].
  - destruct Hf. by eapply IH, numbered_snoc.
  - subst n. pose proof (EnvVar_DeepCopy_address e next) as [Ha Hn].
    destruct (EnvVar_DeepCopy e next). by eapply IH, numbered_snoc.
Qed.
Lemma merge_missing_numbered start ov acc next :
  numbered start acc next -> numbered start (merge_missing ov acc next).1 (merge_missing ov acc next).2.
Proof.
  revert acc next. induction ov as [|o ov IH]; intros acc next Hacc; simpl; [done|].
  destruct (EnvVarContains acc o); [by apply IH|]. pose proof (EnvVar_DeepCopy_address o next) as [Ha Hn].
  destruct (EnvVar_DeepCopy o next). by eapply IH, numbered_snoc.
Qed.
Lemma MergeEnvVars_numbered current overrides next :
  numbered next (MergeEnvVars current overrides next).1 (MergeEnvVars current overrides next).2.
Proof.
  unfold MergeEnvVars. pose proof (merge_current_numbered next current overrides [] next) as Hc.
  destruct (merge_current current overrides [] next). apply merge_missing_numbered, Hc.
  split; [done|]. by rewrite Nat.sub_diag.
Qed.

Lemma MergeEnvVars_merges current overrides next :
  Forall plain overrides -> NoDup (map ev_Name overrides) ->
  map env_erase (MergeEnvVars current overrides next).1 = map env_erase (merge_ref current overrides).
Proof.
  intros Hplain Hnames.
  unfold MergeEnvVars. pose proof (merge_current_erase current overrides [] next) as Hcur. simpl in Hcur.
  destruct (merge_current current overrides [] next) as [newEnv n] eqn:E. simpl in Hcur.
  rewrite (merge_missing_plain overrides newEnv n (map ev_Name current)); simpl.
  - unfold merge_ref. by rewrite !map_app, Hcur.
  - done.
  - done.
  - intros o Ho Hn. rewrite Forall_forall in Hplain. apply elem_of_erase_plain; [by apply Hplain|].
    rewrite Hcur. apply list_elem_of_fmap in Hn as (e & He & Hin).
    apply list_elem_of_fmap. exists o. split; [done|]. apply list_elem_of_fmap. exists e. split; [|done].
    symmetry. by apply override_of_unique.
  - intros e He. left. assert (Hin : env_erase e ∈ map env_erase newEnv) by (apply list_elem_of_fmap; by exists e).
    rewrite Hcur in Hin. apply list_elem_of_fmap in Hin as (e' & He' & Hin).
    apply list_elem_of_fmap in Hin as (e0 & -> & Hin0). injection He' as Hname _ _.
    rewrite Hname, override_of_name. apply list_elem_of_fmap. by exists e0.
Qed.

(** C37.  [MergeEnvVars] merges by name: when the overrides carry literal values
    and distinct names, the result is the current variables in their order, each
    replaced by the override of its name where there is one, followed by the
    overrides of new names in their order.  The variables that take their value
    from elsewhere are copied, not shared: every source the result points to lies
    at an address that was free before the call ([next] is the first free one)
    and is taken after it, and no two variables of the result share theirs. *)
Theorem MergeEnvVars_spec (current overrides : list EnvVar) (next : nat)
    (Hplain : Forall plain overrides) (Hnames : NoDup (map ev_Name overrides)) :
  let '(merged, next') := MergeEnvVars current overrides next in
  map env_erase merged = map env_erase (merge_ref current overrides) /\
  Forall (fun a => next <= a < next') (env_addresses merged) /\
  NoDup (env_addresses merged).
Proof.
  pose proof (MergeEnvVars_merges current overrides next Hplain Hnames) as Hm.
  pose proof (MergeEnvVars_numbered current overrides next) as [Hle Ha].
  destruct (MergeEnvVars current overrides next) as [merged next']. simpl in *.
  rewrite Ha. split_and!; [done| |apply NoDup_seq].
  apply Forall_forall. intros a Hin%elem_of_seq. lia.
Qed.

Lemma MergeEnvVars_spec_witness :
  let e n v := mkEnvVar n v None in
  let pw := mkEnvVar "PASSWORD" "" (Some (mkPtr 3 "secretKeyRef")) in
  let '(merged, next') := MergeEnvVars [e "A" "1"; pw; pw] [e "C" "3"; e "A" "9"] 7 in
  (map env_erase merged = map env_erase [e "A" "9"; pw; pw; e "C" "3"] /\
   Forall (fun a => 7 <= a < next') (env_addresses merged) /\ NoDup (env_addresses merged)) /\
  env_addresses merged = [7; 8].
Proof.
  intros e pw. split; [|reflexivity].
  apply (MergeEnvVars_spec [e "A" "1"; pw; pw] [e "C" "3"; e "A" "9"] 7).
  - by repeat constructor.
  - apply (bool_decide_unpack _). vm_compute. exact I.
Defined.

(** An override that takes its value from elsewhere is added twice: when it
    overrides a variable in place, the second loop does not recognise its copy,
    because the comparison looks at the address of the source, and appends it
    again under the same name. *)
Theorem MergeEnvVars_duplicates (e o : EnvVar) (p : ptr opaque) (next : nat)
    (Hname : ev_Name e = ev_Name o) (Hfrom : ev_ValueFrom o = Some p) (Haddr : ptr_addr p < next) :
  map env_erase (MergeEnvVars [e] [o] next).1 = [env_erase o; env_erase o].
Proof.
  unfold MergeEnvVars. simpl. rewrite decide_True by done. unfold EnvVar_DeepCopy. rewrite Hfrom. simpl.
  unfold EnvVarContains. simpl. rewrite bool_decide_eq_false_2; simpl.
  - unfold env_erase. simpl. by rewrite Hfrom.
  - intros Heq. rewrite <- Heq in Hfrom. simpl in Hfrom. injection Hfrom as Hp.
    rewrite <- Hp in Haddr. simpl in Haddr. lia.
Qed.
Lemma MergeEnvVars_duplicates_witness :
  let e := mkEnvVar "PASSWORD" "plain" None in
  let o := mkEnvVar "PASSWORD" "" (Some (mkPtr 3 "secretKeyRef")) in
  map env_erase (MergeEnvVars [e] [o] 10).1 = [env_erase o; env_erase o].
Proof. intros e o. apply (MergeEnvVars_duplicates e o (mkPtr 3 "secretKeyRef") 10); [reflexivity|reflexivity|simpl; lia]. Defined.

(** The forty-first character is cut off wherever it falls: a name whose fortieth
    character is a dash or a dot leaves a version that ends in it.  Such a version
    is no valid label value (a label value must end in a letter or a digit), and
    the operator writes it as one. *)
Lemma UniqueDynamicEnvName_trailing (ns name more last : string) :
  str_len ns <= 20 -> str_len name = 39 -> str_len last = 1 ->
  UniqueDynamicEnvName (mkNN ns (name +:+ last +:+ more)) = (ns +:+ "-" +:+ name) +:+ last.
Proof.
  intros Hs Hn Hl. unfold UniqueDynamicEnvName. simpl. rewrite (decide_False (P:=20 < str_len ns)) by lia.
  rewrite <- (app_assoc_str name last more).
  assert (Hlen : str_len (name +:+ last) = 40) by (rewrite str_len_app; lia).
  case_decide as Hm.
  - rewrite take_str_exact by done. by autorewrite with gostr.
  - rewrite str_len_app in Hm. assert (more = "") as -> by (apply str_len_zero; lia).
    rewrite app_nil_r_str. by autorewrite with gostr.
Qed.
Example UniqueDynamicEnvName_ends_in_dash :
  UniqueDynamicEnvName (mkNN "default" "feature-0123456789-0123456789-012345678-blue") =
  "default-feature-0123456789-0123456789-012345678-".
Proof. apply (UniqueDynamicEnvName_trailing "default" "feature-0123456789-0123456789-012345678" "blue" "-"); vm_compute; lia. Qed.

(** C38.  The unique version of an environment has a bounded length, the separator
    plus at most twenty characters of the namespace and forty of the name, so at
    most 61; and two environments within these limits whose namespaces contain
    no dash get different versions.  *)
Theorem UniqueDynamicEnvName_bounds_inj (id id' : NamespacedName) :
  str_len (UniqueDynamicEnvName id) =
    Nat.min 20 (str_len (nn_Namespace id)) + 1 + Nat.min 40 (str_len (nn_Name id)) /\
  str_len (UniqueDynamicEnvName id) <= 61 /\
  (str_len (nn_Name id) <= 40 -> str_len (nn_Namespace id) <= 20 -> no_char "-" (nn_Namespace id) = true ->
   str_len (nn_Name id') <= 40 -> str_len (nn_Namespace id') <= 20 -> no_char "-" (nn_Namespace id') = true ->
   UniqueDynamicEnvName id = UniqueDynamicEnvName id' -> id = id').
Proof.
  split; [apply UniqueDynamicEnvName_len|]. split; [rewrite UniqueDynamicEnvName_len; lia|].
  intros Hn Hs Hd Hn' Hs' Hd' Heq. rewrite !UniqueDynamicEnvName_short in Heq by done.
  destruct id as [ns n], id' as [ns' n']. simpl in *.
  by destruct (app_sep_inj "-" ns n ns' n' Hd Hd' Heq) as [-> ->].
Qed.

(** Beyond those limits the version is not unique: it is shared by environments
    of different namespaces when a dash moves across the separator, and by
    environments whose names agree on the first forty characters. *)
Theorem UniqueDynamicEnvName_collides (a b c : string) (name more more' : string) (ns : string) :
  str_len a + str_len b + 1 <= 20 -> str_len b + str_len c + 1 <= 40 -> 
  str_len name = 40 ->
  UniqueDynamicEnvName (mkNN (a +:+ "-" +:+ b) c) = UniqueDynamicEnvName (mkNN a (b +:+ "-" +:+ c)) /\
  UniqueDynamicEnvName (mkNN ns (name +:+ more)) = UniqueDynamicEnvName (mkNN ns (name +:+ more')).
Proof.
  intros H1 H2 H3. split.
  - rewrite !UniqueDynamicEnvName_short; simpl; rewrite ?str_len_app; change (str_len "-") with 1; try lia.
    by autorewrite with gostr.
  - assert (Ht : forall m, UniqueDynamicEnvName (mkNN ns (name +:+ m)) = UniqueDynamicEnvName (mkNN ns name)).
    { intros m. unfold UniqueDynamicEnvName. simpl. do 2 f_equal. rewrite (decide_False (P:=40 < str_len name)) by lia.
      case_decide as Hm; [by apply take_str_exact|]. rewrite str_len_app in Hm.
      assert (m = "") as ->; [|by rewrite app_nil_r_str]. apply str_len_zero. lia. }
    by rewrite !Ht.
Qed.
Lemma UniqueDynamicEnvName_collides_witness :
  UniqueDynamicEnvName (mkNN "team-a" "env") = UniqueDynamicEnvName (mkNN "team" "a-env") /\
  UniqueDynamicEnvName (mkNN "default" "0123456789012345678901234567890123456789-blue") =
  UniqueDynamicEnvName (mkNN "default" "0123456789012345678901234567890123456789-green").
Proof.
  apply (UniqueDynamicEnvName_collides "team" "a" "env" "0123456789012345678901234567890123456789" "-blue"
           "-green" "default"); vm_compute; lia.
Defined.
