(* ===== verification/Watches.v ===== *)
(** * The owner annotation and the watch handler (pkg/watches)

    The operator records the owning environments of an object in one
    annotation, a comma-separated list of [namespace/name] entries; the watch
    handler turns the entries of a changed object into reconcile requests. *)

From Stdlib Require Import Ascii.
From stdpp Require Import base gmap sets list strings.
From S2P Require Import Prelude GoStrings Sha256 K8s Types Helpers.

Definition NamespacedNameAnnotation : string := "riskified.com/dynamic-environment".

Section annotation.
Context {O : Type} `{Annotated O}.
Implicit Types (object : O) (owner : NamespacedName).

(** The entries loop of [addToQueue]; [values[1]] panics when there is no [/]. *)
Fixpoint enqueue_entries (dynamicEnvs : list string) (q : list NamespacedName) :
    outcome (list NamespacedName) :=
  match dynamicEnvs with
  | [] => Ret q
  | env :: rest =>
      if decide (env <> "") then
        match SplitN2 "/" env with
        | ns :: name :: _ => enqueue_entries rest (q ++ [mkNN ns name])
        | _ => Panic
        end
      else enqueue_entries rest q
  end.

Definition addToQueue object (q : list NamespacedName) : outcome (list NamespacedName) :=
  match GetAnnotations object with
  | None => Ret q
  | Some annotations =>
      enqueue_entries (Split "," (mget "" (Some annotations) NamespacedNameAnnotation)) q
  end.

Definition AddToAnnotation owner object : O :=
  let annotations := mread (GetAnnotations object) in
  let existingDynamicEnvs := Split "," (mget "" (Some annotations) NamespacedNameAnnotation) in
  let currentDynamicEnv := nn_Namespace owner +:+ "/" +:+ nn_Name owner in
  let existingDynamicEnvs :=
    if decide (existingDynamicEnvs = [""]) then [currentDynamicEnv]
    else if negb (Contains existingDynamicEnvs currentDynamicEnv)
         then existingDynamicEnvs ++ [currentDynamicEnv]
         else existingDynamicEnvs in
  SetAnnotations (Some (<[NamespacedNameAnnotation := Join "," existingDynamicEnvs]> annotations)) object.

Definition RemoveFromAnnotation owner object : O :=
  let annotations := mread (GetAnnotations object) in
  let existingDynamicEnvs := Split "," (mget "" (Some annotations) NamespacedNameAnnotation) in
  let currentDynamicEnv := nn_Namespace owner +:+ "/" +:+ nn_Name owner in
  let existingDynamicEnvs := RemoveItemFromStringSlice currentDynamicEnv existingDynamicEnvs in
  SetAnnotations (Some (<[NamespacedNameAnnotation := Join "," existingDynamicEnvs]> annotations)) object.
End annotation.

(** The four event callbacks of [EnqueueRequestForAnnotation]. *)
Inductive watch_event (O : Type) :=
| CreateEvent (Object : O)
| UpdateEvent (ObjectOld ObjectNew : O)
| DeleteEvent (Object : O)
| GenericEvent (Object : O).
Arguments CreateEvent {O} _.
Arguments UpdateEvent {O} _ _.
Arguments DeleteEvent {O} _.
Arguments GenericEvent {O} _.

Definition EnqueueRequestForAnnotation {O} `{Annotated O} (evt : watch_event O)
    (q : list NamespacedName) : outcome (list NamespacedName) :=
  match evt with
  | CreateEvent o => addToQueue o q
  | UpdateEvent old new => q ← addToQueue new q; addToQueue old q
  | DeleteEvent o => addToQueue o q
  | GenericEvent o => addToQueue o q
  end.

(** ** Lemmas *)
Definition entry (n : NamespacedName) : string := nn_Namespace n +:+ "/" +:+ nn_Name n.
Definition valid_owner (n : NamespacedName) : Prop :=
  no_char "/" (nn_Namespace n) = true /\ no_char "," (nn_Namespace n) = true
  /\ no_char "," (nn_Name n) = true.

(** [owner] is the one entry of the object. *)
Definition owned_by {O} `{Annotated O} (owner : NamespacedName) (object : O) : Prop :=
  mlookup (GetAnnotations object) NamespacedNameAnnotation = Some (entry owner).

Lemma entry_split n : no_char "/" (nn_Namespace n) = true ->
  SplitN2 "/" (entry n) = [nn_Namespace n; nn_Name n].
Proof. intros Hn. unfold entry. rewrite app_cons_str, app_nil_str. by apply SplitN2_app. Qed.
Lemma entry_nonempty n : entry n <> "".
Proof.
  intros E. apply (f_equal str_len) in E. unfold entry in E. rewrite !str_len_app in E.
  change (str_len "/") with 1 in E. change (str_len "") with 0 in E. lia.
Qed.
Lemma entry_no_comma n : valid_owner n -> no_char "," (entry n) = true.
Proof.
  intros (_ & Hns & Hn). unfold entry. rewrite !no_char_app, Hns, Hn. done.
Qed.

Lemma SplitN2_inv sep s a b l :
  SplitN2 sep s = a :: b :: l -> l = [] /\ s = a +:+ String sep b /\ no_char sep a = true.
Proof.
  revert a b l. induction s as [|c s IH]; intros a b l; simpl; [done|].
  case_decide as Hc.
  - intros [= <- <- <-]. subst. done.
  - destruct (SplitN2 sep s) as [|w ws] eqn:E; [done|].
    intros [= <- ->]. destruct (IH w b l eq_refl) as (-> & -> & Hw).
    split; [done|]. split; [by rewrite app_cons_str|].
    simpl. by rewrite bool_decide_eq_false_2.
Qed.

Lemma SplitN2_not_nil sep s : SplitN2 sep s <> [].
Proof. destruct s as [|c s]; simpl; [done|]. case_decide; [done|]. by destruct (SplitN2 sep s). Qed.
Lemma SplitN2_single sep s w : SplitN2 sep s = [w] -> no_char sep s = true.
Proof.
  revert w. induction s as [|c s IH]; intros w; simpl; [done|].
  case_decide as Hc; [done|]. destruct (SplitN2 sep s) as [|w' ws] eqn:E.
  - by destruct (SplitN2_not_nil sep s).
  - intros [= _ ->]. rewrite bool_decide_eq_false_2 by done. by eapply IH.
Qed.

Lemma enqueue_entries_app l1 l2 q :
  enqueue_entries (l1 ++ l2) q = (q' ← enqueue_entries l1 q; enqueue_entries l2 q').
Proof.
  revert q. induction l1 as [|e l1 IH]; intros q; simpl; [done|].
  case_decide; [|apply IH]. destruct (SplitN2 _ e) as [|ns [|n l]]; [done..|]. apply IH.
Qed.

(** The requests a list of entries stands for. *)
Lemma enqueue_entries_acc l q q' :
  enqueue_entries l q = Ret q' <-> exists rs, enqueue_entries l [] = Ret rs /\ q' = q ++ rs.
Proof.
  revert q q'. induction l as [|e l IH]; intros q q'; simpl.
  - split; [intros [= <-]; exists []; by rewrite app_nil_r|].
    intros (rs & [= <-] & ->). by rewrite app_nil_r.
  - case_decide; [|apply IH].
    destruct (SplitN2 _ e) as [|ns [|n k]]; [by split; [|intros (? & ? & ?)]..|].
    rewrite IH. setoid_rewrite (IH [mkNN ns n]). split.
    + intros (rs & Hrs & ->). exists ([mkNN ns n] ++ rs). rewrite app_assoc. eauto.
    + intros (rs & (rs' & Hrs' & ->) & ->). exists rs'. by rewrite app_assoc.
Qed.

Lemma enqueue_entries_cons_owner n l q : no_char "/" (nn_Namespace n) = true ->
  enqueue_entries (entry n :: l) q = enqueue_entries l (q ++ [n]).
Proof.
  intros Hn. simpl. rewrite decide_True by apply entry_nonempty.
  rewrite entry_split by done. by destruct n.
Qed.

(** An entry that yields a request is that request's [entry]. *)
Lemma enqueue_entries_elem l rs n :
  enqueue_entries l [] = Ret rs -> no_char "/" (nn_Namespace n) = true ->
  n ∈ rs <-> entry n ∈ l.
Proof.
  intros Hl Hn. revert rs Hl. induction l as [|e l IH]; intros rs; simpl.
  { intros [= <-]. set_solver. }
  case_decide as He.
  - destruct (SplitN2 _ e) as [|ns [|nm k]] eqn:Es; [done..|].
    apply SplitN2_inv in Es as (-> & -> & Hns).
    intros (rs' & Hrs & ->)%enqueue_entries_acc. rewrite elem_of_app, list_elem_of_singleton, elem_of_cons.
    rewrite (IH _ Hrs). split; (intros [E|E]; [left|by right]).
    + by subst n.
    + apply app_sep_inj in E as [E1 E2]; [|done..]. destruct n; simpl in *. by subst.
  - intros Hrs. rewrite elem_of_cons, (IH _ Hrs). split; [by right|]. intros [E|E]; [|done].
    subst e. by destruct (entry_nonempty n).
Qed.

Lemma enqueue_entries_filter l rs n :
  enqueue_entries l [] = Ret rs -> no_char "/" (nn_Namespace n) = true ->
  enqueue_entries (filter (fun e => entry n <> e) l) [] = Ret (filter (fun r => n <> r) rs).
Proof.
  intros Hl Hn. revert rs Hl. induction l as [|e l IH]; intros rs; simpl.
  { intros [= <-]. done. }
  case_decide as He.
  - destruct (SplitN2 _ e) as [|ns [|nm k]] eqn:Es; [done..|].
    pose proof Es as Es'. apply SplitN2_inv in Es' as (-> & Heq & Hns).
    intros (rs' & Hrs & ->)%enqueue_entries_acc. rewrite filter_app, !filter_cons, filter_nil.
    destruct (decide (n = mkNN ns nm)) as [->|Hne].
    + rewrite !decide_False; [by apply IH|tauto|]. intros Hx. apply Hx. by rewrite Heq.
    + rewrite !decide_True; [|done|].
      2: { intros E. apply Hne. rewrite Heq in E. apply app_sep_inj in E as [E1 E2]; [|done..].
           destruct n; simpl in *; by subst. }
      simpl. rewrite decide_True by done. rewrite Es.
      apply enqueue_entries_acc. exists (filter (fun r => n <> r) rs'). split; [by apply IH|done].
  - intros Hrs. rewrite filter_cons. case_decide; [|by apply IH].
    simpl. rewrite decide_False by tauto. by apply IH.
Qed.

Lemma Split_Join_comma l :
  l <> [] -> (forall w, w ∈ l -> no_char "," w = true) -> Split "," (Join "," l) = l.
Proof. apply Split_Join. Qed.

Section annotation_lemmas.
Context {O : Type} `{Annotated O}.
Implicit Types (object : O) (owner : NamespacedName).

(** The entries of an object, as the three functions read them. *)
Definition entries object : list string :=
  Split "," (mget "" (Some (mread (GetAnnotations object))) NamespacedNameAnnotation).

Lemma addToQueue_entries object q : addToQueue object q = enqueue_entries (entries object) q.
Proof.
  unfold addToQueue, entries. destruct (GetAnnotations object) as [a|]; [done|].
  unfold mread, mget, mlookup, mread; simpl. by rewrite lookup_empty.
Qed.

Lemma entries_set object annotations l :
  l <> [] -> (forall w, w ∈ l -> no_char "," w = true) ->
  entries (SetAnnotations (Some (<[NamespacedNameAnnotation := Join "," l]> annotations)) object) = l.
Proof.
  intros Hne Hl. unfold entries. rewrite get_set_annotations.
  unfold mget, mlookup, mread; simpl. rewrite lookup_insert_eq. by apply Split_Join_comma.
Qed.

Lemma entries_no_comma object w : w ∈ entries object -> no_char "," w = true.
Proof. apply Split_elem_no_char. Qed.

Lemma entries_AddToAnnotation owner object : valid_owner owner ->
  entries (AddToAnnotation owner object) =
  if decide (entries object = [""]) then [entry owner]
  else if decide (entry owner ∈ entries object) then entries object
  else entries object ++ [entry owner].
Proof.
  intros Hv. unfold AddToAnnotation. fold (entries object). fold (entry owner).
  rewrite entries_set.
  - case_decide; [done|]. unfold Contains. case_bool_decide; case_decide; done.
  - case_decide; [done|]. destruct (negb _).
    + intros E. apply app_nil in E as [_ E]. done.
    + apply Split_not_nil.
  - intros w. case_decide.
    + intros ->%list_elem_of_singleton. by apply entry_no_comma.
    + destruct (negb _); [|apply entries_no_comma].
      intros [Hw|Hw]%elem_of_app; [by apply (entries_no_comma object)|].
      apply list_elem_of_singleton in Hw as ->. by apply entry_no_comma.
Qed.

Lemma entries_RemoveFromAnnotation owner object :
  entries (RemoveFromAnnotation owner object) =
  match filter (fun e => entry owner <> e) (entries object) with
  | [] => [""]
  | l => l
  end.
Proof.
  unfold RemoveFromAnnotation. fold (entries object). fold (entry owner).
  unfold RemoveItemFromStringSlice.
  destruct (filter _ (entries object)) as [|w l] eqn:E.
  - unfold entries at 1. rewrite get_set_annotations.
    unfold mget, mlookup, mread; simpl. by rewrite lookup_insert_eq.
  - rewrite <- E. apply entries_set; [by rewrite E|].
    intros x Hx. apply list_elem_of_filter in Hx as [_ Hx]. by apply (entries_no_comma object).
Qed.
End annotation_lemmas.

(** ** Properties *)

(** Recording an owner keeps every request the object already caused, in
    order, and adds the owner's request exactly when it was missing. *)
Theorem AddToAnnotation_requests {O} `{Annotated O} (owner : NamespacedName) (object : O) rs :
  valid_owner owner ->
  addToQueue object [] = Ret rs ->
  addToQueue (AddToAnnotation owner object) [] =
  Ret (if decide (owner ∈ rs) then rs else rs ++ [owner]).
Proof.
  intros Hv Hrs. rewrite addToQueue_entries in *. rewrite entries_AddToAnnotation by done.
  destruct Hv as (Hs & _). pose proof (enqueue_entries_elem _ _ owner Hrs Hs) as Hin.
  case_decide as He.
  - rewrite He in Hrs. simpl in Hrs. injection Hrs as <-.
    rewrite enqueue_entries_cons_owner by done. done.
  - rewrite (decide_ext _ _ _ _ Hin). case_decide; [done|].
    rewrite enqueue_entries_app, Hrs.
    change (enqueue_entries [entry owner] rs = Ret (rs ++ [owner])).
    by rewrite enqueue_entries_cons_owner.
Qed.

Definition example_vs : VirtualService :=
  mkVirtualService "details" "services" (Some {[NamespacedNameAnnotation := "default/env1"]}) ["details"] [] "".
Lemma AddToAnnotation_requests_witness :
  addToQueue (AddToAnnotation (mkNN "default" "env2") example_vs) [] =
  Ret [mkNN "default" "env1"; mkNN "default" "env2"].
Proof.
  apply (AddToAnnotation_requests (mkNN "default" "env2") example_vs [mkNN "default" "env1"]).
  - repeat split; reflexivity.
  - vm_compute. reflexivity.
Defined.

(** Removing an owner drops its requests and no other, and undoes a
    recording. *)
Theorem RemoveFromAnnotation_requests {O} `{Annotated O} (owner : NamespacedName) (object : O) rs :
  valid_owner owner ->
  addToQueue object [] = Ret rs ->
  addToQueue (RemoveFromAnnotation owner object) [] = Ret (filter (fun r => owner <> r) rs)
  /\ (owner ∉ rs -> addToQueue (RemoveFromAnnotation owner (AddToAnnotation owner object)) [] = Ret rs).
Proof.
  intros Hv Hrs.
  assert (Hrem : forall (o : O) rs', addToQueue o [] = Ret rs' ->
            addToQueue (RemoveFromAnnotation owner o) [] = Ret (filter (fun r => owner <> r) rs')).
  { intros o rs' Ho. rewrite addToQueue_entries in *. rewrite entries_RemoveFromAnnotation.
    destruct Hv as (Hs & _). pose proof (enqueue_entries_filter _ _ owner Ho Hs) as Hf.
    destruct (filter _ (entries o)); [|done]. simpl in *. done. }
  split; [by apply Hrem|]. intros Hn.
  assert (Hadd : addToQueue (AddToAnnotation owner object) [] = Ret (rs ++ [owner])).
  { rewrite addToQueue_entries in *. rewrite entries_AddToAnnotation by done. destruct Hv as (Hs & _).
    pose proof (enqueue_entries_elem _ _ owner Hrs Hs) as Hin. case_decide as He.
    - rewrite He in Hrs. simpl in Hrs. injection Hrs as <-. by rewrite enqueue_entries_cons_owner.
    - rewrite decide_False by tauto. rewrite enqueue_entries_app, Hrs.
      change (enqueue_entries [entry owner] rs = Ret (rs ++ [owner])).
      by rewrite enqueue_entries_cons_owner. }
  rewrite (Hrem _ _ Hadd), filter_app, filter_cons_False by (intros Hx; by apply Hx).
  rewrite filter_nil, app_nil_r. f_equal. apply filter_all. intros x Hx ->. done.
Qed.
Lemma RemoveFromAnnotation_requests_witness :
  addToQueue (RemoveFromAnnotation (mkNN "default" "env1") example_vs) [] =
  Ret (filter (fun r => mkNN "default" "env1" <> r) [mkNN "default" "env1"]).
Proof.
  refine (proj1 (RemoveFromAnnotation_requests (mkNN "default" "env1") example_vs
                   [mkNN "default" "env1"] _ _)).
  - repeat split; reflexivity.
  - vm_compute. reflexivity.
Defined.

(** The watch handler panics on exactly the objects whose annotation holds
    a non-empty entry without a [/]; any other object, whatever its
    annotation, is handled. *)
Theorem addToQueue_panics {O} `{Annotated O} (object : O) q :
  addToQueue object q = Panic <->
  exists e, e ∈ entries object /\ e <> "" /\ no_char "/" e = true.
Proof.
  rewrite addToQueue_entries. generalize (entries object) as l. clear object.
  intros l. revert q. induction l as [|e l IH]; intros q; simpl.
  { split; [done|]. intros (e & He & _). by apply elem_of_nil in He. }
  assert (Htail : enqueue_entries l q = Panic <->
            exists x, x ∈ l /\ x <> "" /\ no_char "/" x = true) by apply IH.
  case_decide as He.
  - destruct (SplitN2 "/" e) as [|ns [|nm k]] eqn:Es.
    + by destruct (SplitN2_not_nil "/" e).
    + split; [|done]. intros _. exists e. split; [by left|]. split; [done|].
      by eapply SplitN2_single.
    + rewrite IH. setoid_rewrite elem_of_cons.
      apply SplitN2_inv in Es as (_ & -> & _). split.
      * intros (x & Hx & ?). exists x. auto.
      * intros (x & [->|Hx] & Hne & Hc); [|eauto].
        rewrite no_char_app in Hc. apply andb_true_iff in Hc as [_ Hc]. done.
  - rewrite Htail. setoid_rewrite elem_of_cons. subst. naive_solver.
Qed.
