(* ===== verification/Client.v ===== *)
(** * Errors, the API client and the reconcile monad

    The Kubernetes API server, its cache and the clock are not code of this
    repository: they are the parameter [Client W] below, a deterministic answer
    to every request from an abstract world [W].  No law is assumed of it except
    where a theorem names one, so the theorems hold whatever the API answers:
    conflicts, stale reads, objects changed by others between two calls.

    The code of the handlers is written in the monad [M]: it may panic, it
    shares one [*DynamicEnv] ([cx_de]), it draws map iteration orders and fresh
    addresses, and every call it makes is recorded, with the answer, in the
    ghost trace [cx_log]. *)

From stdpp Require Import base gmap sets list strings.
From S2P Require Import Prelude GoStrings Sha256 K8s Types Helpers.

(** ** Errors *)

(** The reason of a [*errors.StatusError] of the API machinery. *)
Inductive StatusReason := NotFound | Conflict | OtherReason (r : string).
#[export] Instance StatusReason_eq_dec : EqDecision StatusReason.
Proof. solve_decision. Defined.

Inductive error :=
| StatusErr (reason : StatusReason) (msg : string)
| IgnoredMissing
| ErrorS (msg : string)                     (* fmt.Errorf without %w *)
| Wrapf (msg : string) (e : error).         (* fmt.Errorf("<msg>: %w", e) *)
#[export] Instance error_eq_dec : EqDecision error.
Proof. solve_decision. Defined.

Fixpoint Error (e : error) : string :=
  match e with
  | StatusErr _ msg => msg
  | IgnoredMissing => "Ignored Missing Resource"
  | ErrorS msg => msg
  | Wrapf msg e => msg +:+ ": " +:+ Error e
  end.

(** [errors.ReasonForError], which looks through wrapping. *)
Fixpoint ReasonForError (e : error) : option StatusReason :=
  match e with
  | StatusErr r _ => Some r
  | Wrapf _ e => ReasonForError e
  | _ => None
  end.
Definition IsNotFound (e : error) : bool := bool_decide (ReasonForError e = Some NotFound).
(** [IsConflict(nil)] is false. *)
Definition IsConflict (e : option error) : bool := bool_decide (e ≫= ReasonForError = Some Conflict).
(** [goerrors.As(err, &IgnoredMissing{})] *)
Fixpoint AsIgnoredMissing (e : error) : bool :=
  match e with
  | IgnoredMissing => true
  | Wrapf _ e => AsIgnoredMissing e
  | _ => false
  end.

(** ** Requests to the API server, and the clock *)
Inductive req : Type -> Type :=
| GetDynamicEnv (n : NamespacedName) : req (result error DynamicEnv)
| GetDeployment (n : NamespacedName) : req (result error Deployment)
| GetDestinationRule (n : NamespacedName) : req (result error DestinationRule)
| GetVirtualService (n : NamespacedName) : req (result error VirtualService)
| ListServices (namespace : string) : req (result error (list Service))
| ListDestinationRules (namespace : string) : req (result error (list DestinationRule))
| ListVirtualServices : req (result error (list VirtualService))
| ListDynamicEnvs : req (result error (list DynamicEnv))
| CreateDeployment (d : Deployment) : req (option error)
| CreateDestinationRule (d : DestinationRule) : req (option error)
| UpdateDeployment (d : Deployment) : req (option error)
| UpdateVirtualService (v : VirtualService) : req (result error VirtualService)
| UpdateDynamicEnv (de : DynamicEnv) : req (result error DynamicEnv)
| UpdateDynamicEnvStatus (de : DynamicEnv) : req (result error DynamicEnv)
| DeleteDeployment (d : Deployment) : req (option error)
| DeleteDestinationRule (d : DestinationRule) : req (option error)
| Now : req Z.

(** A call and its answer. *)
Record event := Event { ev_type : Type; ev_req : req ev_type; ev_res : ev_type }.
Arguments Event {_} _ _.

Class Client (W : Type) := exec : forall {R : Type}, req R -> W -> R * W.

(** What the operator relies on of a status update: on success the answer is the
    object it sent, its status read back from the wire. *)
Class StatusEcho (W : Type) `{Client W} : Prop := status_echo :
  forall (de : DynamicEnv) (w : W) (de' : DynamicEnv) (w' : W),
    exec (UpdateDynamicEnvStatus de) w = (Ok de', w') ->
    de_Status de' = wire_status (de_Status de) /\
    de_Spec de' = de_Spec de /\ de_Name de' = de_Name de /\ de_Namespace de' = de_Namespace de /\
    de_Finalizers de' = de_Finalizers de /\ de_DeletionTimestamp de' = de_DeletionTimestamp de.

(** ** The monad *)
Record ctx (W : Type) := mkCtx {
  cx_world : W;
  cx_de : DynamicEnv;         (* the [*DynamicEnv] all managers share *)
  cx_epoch : nat;             (* map loops run so far *)
  cx_next : nat;              (* next free address *)
  cx_log : list event;        (* ghost: calls made, with their answers *)
}.
Arguments mkCtx {W} _ _ _ _ _.
Arguments cx_world {W} _.
Arguments cx_de {W} _.
Arguments cx_epoch {W} _.
Arguments cx_next {W} _.
Arguments cx_log {W} _.

Definition M (W A : Type) : Type := ctx W -> outcome A * ctx W.

#[export] Instance M_ret {W} : MRet (M W) := fun A a c => (Ret a, c).
#[export] Instance M_bind {W} : MBind (M W) := fun A B f m c =>
  match m c with
  | (Ret a, c') => f a c'
  | (Panic, c') => (Panic, c')
  end.

Section ops.
Context {W : Type} `{Client W}.

Definition panic {A} : M W A := fun c => (Panic, c).
Definition lift {A} (o : outcome A) : M W A := fun c => (o, c).
Definition call {R} (q : req R) : M W R := fun c =>
  let '(r, w) := exec q (cx_world c) in
  (Ret r, mkCtx w (cx_de c) (cx_epoch c) (cx_next c) (cx_log c ++ [Event q r])).
Definition get_de : M W DynamicEnv := fun c => (Ret (cx_de c), c).
Definition put_de (de : DynamicEnv) : M W unit := fun c =>
  (Ret tt, mkCtx (cx_world c) de (cx_epoch c) (cx_next c) (cx_log c)).
(** [range m] *)
Definition range `{MapOrder} {V} (m : gmap string V) : M W (list (string * V)) := fun c =>
  (Ret (map_range (cx_epoch c) m),
   mkCtx (cx_world c) (cx_de c) (S (cx_epoch c)) (cx_next c) (cx_log c)).
(** Run code that allocates. *)
Definition alloc {A} (f : nat -> A * nat) : M W A := fun c =>
  let '(a, n) := f (cx_next c) in
  (Ret a, mkCtx (cx_world c) (cx_de c) (cx_epoch c) n (cx_log c)).

(** [Status().Update(ctx, de)] and [Update(ctx, de)] on the shared object: a
    successful call overwrites it with the server's answer. *)
Definition update_status : M W (option error) :=
  de ← get_de;
  r ← call (UpdateDynamicEnvStatus de);
  match r with
  | Ok de' => _ ← put_de de'; mret None
  | Err e => mret (Some e)
  end.
Definition update_de : M W (option error) :=
  de ← get_de;
  r ← call (UpdateDynamicEnv de);
  match r with
  | Ok de' => _ ← put_de de'; mret None
  | Err e => mret (Some e)
  end.
End ops.

(** ** Reasoning: weakest preconditions

    [wp m Q c]: running [m] from [c] does not panic and [Q] holds of its result
    and final context.  [wpp m Q c] allows a panic. *)
Section wp.
Context {W : Type}.

Definition wp {A} (m : M W A) (Q : A -> ctx W -> Prop) (c : ctx W) : Prop :=
  match m c with (Ret a, c') => Q a c' | (Panic, _) => False end.
Definition wpp {A} (m : M W A) (Q : outcome A -> ctx W -> Prop) (c : ctx W) : Prop :=
  Q (m c).1 (m c).2.

Lemma wp_ret {A} (a : A) Q c : Q a c -> wp (mret a) Q c.
Proof. done. Qed.
Lemma wp_bind {A B} (m : M W A) (f : A -> M W B) Q c :
  wp m (fun a c' => wp (f a) Q c') c -> wp (m ≫= f) Q c.
Proof. unfold wp, mbind, M_bind. by destruct (m c) as [[] ?]. Qed.
Lemma wp_mono {A} (m : M W A) (P Q : A -> ctx W -> Prop) c :
  (forall a c', P a c' -> Q a c') -> wp m P c -> wp m Q c.
Proof. unfold wp. destruct (m c) as [[] ?]; auto. Qed.
Lemma wp_conj {A} (m : M W A) (P Q : A -> ctx W -> Prop) c :
  wp m P c -> wp m Q c -> wp m (fun a c' => P a c' /\ Q a c') c.
Proof. unfold wp. destruct (m c) as [[] ?]; auto. Qed.
Lemma wp_run {A} (m : M W A) Q c : wp m Q c <-> exists a, (m c).1 = Ret a /\ Q a (m c).2.
Proof.
  unfold wp. destruct (m c) as [[a|] c']; simpl; split.
  - intros HQ. exists a. done.
  - by intros (? & [= ->] & ?).
  - done.
  - by intros (? & ? & ?).
Qed.
Lemma wp_get_de Q c : Q (cx_de c) c -> wp get_de Q c.
Proof. done. Qed.
Lemma wp_put_de de Q c :
  Q tt (mkCtx (cx_world c) de (cx_epoch c) (cx_next c) (cx_log c)) -> wp (put_de de) Q c.
Proof. done. Qed.
Lemma wp_lift {A} (o : outcome A) Q c : (exists a, o = Ret a /\ Q a c) -> wp (lift o) Q c.
Proof. by intros (a & -> & ?). Qed.
Lemma wp_call `{Client W} {R} (q : req R) Q c :
  (forall r w, exec q (cx_world c) = (r, w) ->
     Q r (mkCtx w (cx_de c) (cx_epoch c) (cx_next c) (cx_log c ++ [Event q r]))) ->
  wp (call q) Q c.
Proof. intros HQ. unfold wp, call. destruct (exec q _) as [r w] eqn:E. by apply HQ. Qed.
Lemma wp_range `{MapOrder} {V} (m : gmap string V) Q c :
  (forall l, l ≡ₚ map_to_list m ->
     Q l (mkCtx (cx_world c) (cx_de c) (S (cx_epoch c)) (cx_next c) (cx_log c))) ->
  wp (range m) Q c.
Proof. intros HQ. apply HQ, map_range_perm. Qed.
Lemma wp_alloc {A} (f : nat -> A * nat) Q c :
  Q (f (cx_next c)).1 (mkCtx (cx_world c) (cx_de c) (cx_epoch c) (f (cx_next c)).2 (cx_log c)) ->
  wp (alloc f) Q c.
Proof. unfold wp, alloc. by destruct (f _). Qed.
End wp.

(** [pwp m Q c]: as [wp], for the runs of [m] that do not panic. *)
Definition pwp {W A} (m : M W A) (Q : A -> ctx W -> Prop) (c : ctx W) : Prop :=
  match m c with (Ret a, c') => Q a c' | (Panic, _) => True end.
Section pwp.
Context {W : Type}.
Lemma pwp_ret {A} (a : A) (Q : A -> ctx W -> Prop) c : Q a c -> pwp (mret a) Q c.
Proof. done. Qed.
Lemma pwp_bind {A B} (m : M W A) (f : A -> M W B) Q c :
  pwp m (fun a c' => pwp (f a) Q c') c -> pwp (m ≫= f) Q c.
Proof. unfold pwp, mbind, M_bind. by destruct (m c) as [[] ?]. Qed.
Lemma pwp_mono {A} (m : M W A) (P Q : A -> ctx W -> Prop) c :
  (forall a c', P a c' -> Q a c') -> pwp m P c -> pwp m Q c.
Proof. unfold pwp. destruct (m c) as [[] ?]; auto. Qed.
Lemma pwp_any {A} (m : M W A) (Q : A -> ctx W -> Prop) c : (forall a c', Q a c') -> pwp m Q c.
Proof. unfold pwp. by destruct (m c) as [[] ?]. Qed.
Lemma wp_pwp {A} (m : M W A) Q c : wp m Q c -> pwp m Q c.
Proof. unfold wp, pwp. by destruct (m c) as [[] ?]. Qed.
End pwp.

(** [runs m]: [m] never panics, whatever the API answers. *)
Definition runs {W A} (m : M W A) : Prop := forall c, wp m (fun _ _ => True) c.

Section runs.
Context {W : Type}.
Lemma runs_ret {A} (a : A) : runs (W:=W) (mret a).
Proof. done. Qed.
Lemma runs_bind {A B} (m : M W A) (f : A -> M W B) : runs m -> (forall a, runs (f a)) -> runs (m ≫= f).
Proof. intros Hm Hf c. apply wp_bind. eapply wp_mono; [|apply Hm]. intros a c' _. apply Hf. Qed.
Lemma runs_call `{Client W} {R} (q : req R) : runs (call q).
Proof. intros c. by apply wp_call. Qed.
Lemma runs_get_de : runs (W:=W) get_de.
Proof. done. Qed.
Lemma runs_put_de de : runs (W:=W) (put_de de).
Proof. done. Qed.
Lemma runs_lift {A} (a : A) : runs (W:=W) (lift (Ret a)).
Proof. done. Qed.
Lemma runs_range `{MapOrder} {V} (m : gmap string V) : runs (W:=W) (range m).
Proof. done. Qed.
Lemma runs_alloc {A} (f : nat -> A * nat) : runs (W:=W) (alloc f).
Proof. intros c. by apply wp_alloc. Qed.
Lemma runs_update_status `{Client W} : runs (W:=W) update_status.
Proof.
  apply runs_bind; [apply runs_get_de|intros de]. apply runs_bind; [apply runs_call|].
  intros [de'|e]; [|apply runs_ret]. apply runs_bind; [apply runs_put_de|intros _; apply runs_ret].
Qed.
Lemma runs_update_de `{Client W} : runs (W:=W) update_de.
Proof.
  apply runs_bind; [apply runs_get_de|intros de]. apply runs_bind; [apply runs_call|].
  intros [de'|e]; [|apply runs_ret]. apply runs_bind; [apply runs_put_de|intros _; apply runs_ret].
Qed.
End runs.

Create HintDb runs discriminated.
#[export] Hint Resolve runs_ret runs_call runs_get_de runs_put_de runs_lift runs_range runs_alloc
  runs_update_status runs_update_de : runs.
Ltac runs_step :=
  lazymatch goal with
  | |- runs (@mbind _ _ _ _ _ _) => apply runs_bind; [|intros ?]
  | |- runs (match ?x with _ => _ end) => destruct x
  | |- runs (if ?x then _ else _) => destruct x
  | |- runs (let _ := _ in _) => cbv zeta
  | |- runs _ => first [solve [eauto with runs nocore] | progress cbv beta]
  end.
Ltac runs_tac := repeat runs_step; try done.

(** ** Reasoning: what a piece of code may call

    [emits P m]: every call [m] makes, whatever the API answers and even if it
    panics, satisfies [P]. *)
Abbreviation spec := (forall R, req R -> R -> Prop).
Definition sat (P : spec) (e : event) : Prop := P (ev_type e) (ev_req e) (ev_res e).

(** The calls of [l] take the world [w] to [w']. *)
Fixpoint evolves {W} `{Client W} (w : W) (l : list event) (w' : W) : Prop :=
  match l with
  | [] => w' = w
  | e :: rest => exists w1, exec (ev_req e) w = (ev_res e, w1) /\ evolves w1 rest w'
  end.
Lemma evolves_app {W} `{Client W} (w w1 w2 : W) l1 l2 : evolves w l1 w1 -> evolves w1 l2 w2 -> evolves w (l1 ++ l2) w2.
Proof. revert w. induction l1 as [|e l1 IH]; intros w; simpl; [by intros ->|]. intros (w' & E & Hl) H2. exists w'. split; [done|by apply IH]. Qed.
(** From [c] to [c'] the calls of [l] are made and nothing else happens to the world. *)
Definition calls {W} `{Client W} (c : ctx W) (l : list event) (c' : ctx W) : Prop :=
  cx_log c' = cx_log c ++ l /\ evolves (cx_world c) l (cx_world c').
Lemma calls_nil {W} `{Client W} (c c' : ctx W) : cx_log c' = cx_log c -> cx_world c' = cx_world c -> calls c [] c'.
Proof. intros Hl Hw. split; [by rewrite app_nil_r|done]. Qed.
Lemma calls_app {W} `{Client W} (c c1 c2 : ctx W) l1 l2 : calls c l1 c1 -> calls c1 l2 c2 -> calls c (l1 ++ l2) c2.
Proof. intros [Hl1 Hw1] [Hl2 Hw2]. split; [by rewrite Hl2, Hl1, app_assoc|by eapply evolves_app]. Qed.

Definition emits {W} `{Client W} {A} (P : spec) (m : M W A) : Prop :=
  forall c, exists l, calls c l (m c).2 /\ Forall (sat P) l.

Section emits.
Context {W : Type} `{Client W}.
Implicit Types (P : spec).

Lemma emits_ret {A} P (a : A) : emits (W:=W) P (mret a).
Proof. intros c. exists []. split; [by apply calls_nil|done]. Qed.
Lemma emits_bind {A B} P (m : M W A) (f : A -> M W B) :
  emits P m -> (forall a, emits P (f a)) -> emits P (m ≫= f).
Proof.
  intros Hm Hf c. unfold mbind, M_bind. destruct (Hm c) as (l & Hl & HP).
  destruct (m c) as [[a|] c'] eqn:E; simpl in *; [|by exists l].
  destruct (Hf a c') as (l' & Hl' & HP'). exists (l ++ l').
  split; [by eapply calls_app|]. by apply Forall_app.
Qed.
Lemma emits_get_de P : emits (W:=W) P get_de.
Proof. intros c. exists []. split; [by apply calls_nil|done]. Qed.
Lemma emits_put_de P de : emits (W:=W) P (put_de de).
Proof. intros c. exists []. split; [by apply calls_nil|done]. Qed.
Lemma emits_panic {A} P : emits (W:=W) (A:=A) P panic.
Proof. intros c. exists []. split; [by apply calls_nil|done]. Qed.
Lemma emits_lift {A} P (o : outcome A) : emits (W:=W) P (lift o).
Proof. intros c. exists []. split; [by apply calls_nil|done]. Qed.
Lemma emits_range `{MapOrder} {V} P (m : gmap string V) : emits (W:=W) P (range m).
Proof. intros c. exists []. split; [by apply calls_nil|done]. Qed.
Lemma emits_alloc {A} P (f : nat -> A * nat) : emits (W:=W) P (alloc f).
Proof. intros c. unfold alloc. destruct (f _). exists []. split; [by apply calls_nil|done]. Qed.
Lemma emits_call {R} P (q : req R) : (forall r, P R q r) -> emits P (call q).
Proof.
  intros HP c. unfold call. destruct (exec q _) as [r w] eqn:E. exists [Event q r].
  split; [split; [done|by exists w]|]. apply Forall_singleton, HP.
Qed.
(** What follows [m] may rely on what is known of its result. *)
Lemma emits_bind_result {A B} P (R : A -> Prop) (m : M W A) (f : A -> M W B) :
  emits P m -> (forall c a c', m c = (Ret a, c') -> R a) -> (forall a, R a -> emits P (f a)) ->
  emits P (m ≫= f).
Proof.
  intros Hm HR Hf c. unfold mbind, M_bind. destruct (Hm c) as (l & Hl & HP).
  destruct (m c) as [[a|] c'] eqn:E; simpl in *; [|by exists l].
  destruct (Hf a (HR _ _ _ E) c') as (l' & Hl' & HP'). exists (l ++ l').
  split; [by eapply calls_app|]. by apply Forall_app.
Qed.
Lemma wp_emits {A} P (m : M W A) Q c :
  emits P m -> wp m Q c ->
  wp m (fun a c' => Q a c' /\ exists l, cx_log c' = cx_log c ++ l /\ Forall (sat P) l) c.
Proof.
  intros Hm Hq. unfold wp in *. destruct (Hm c) as (l & [Hl _] & HP).
  destruct (m c) as [[a|] c']; [|done]. split; [done|]. by exists l.
Qed.
Lemma emits_weaken {A} P P' (m : M W A) :
  (forall R q r, P R q r -> P' R q r) -> emits P m -> emits P' m.
Proof.
  intros HPP Hm c. destruct (Hm c) as (l & Hl & HP). exists l. split; [done|].
  eapply Forall_impl; [done|]. intros [? ? ?]. apply HPP.
Qed.
Lemma emits_update_status P :
  (forall de r, P _ (UpdateDynamicEnvStatus de) r) -> emits P update_status.
Proof.
  intros HP. apply emits_bind; [apply emits_get_de|intros de].
  apply emits_bind; [by apply emits_call|intros [de'|e]]; [|apply emits_ret].
  apply emits_bind; [apply emits_put_de|intros _; apply emits_ret].
Qed.
Lemma emits_update_de P :
  (forall de r, P _ (UpdateDynamicEnv de) r) -> emits P update_de.
Proof.
  intros HP. apply emits_bind; [apply emits_get_de|intros de].
  apply emits_bind; [by apply emits_call|intros [de'|e]]; [|apply emits_ret].
  apply emits_bind; [apply emits_put_de|intros _; apply emits_ret].
Qed.
End emits.

Create HintDb emits discriminated.
#[export] Hint Resolve emits_ret emits_get_de emits_put_de emits_panic emits_lift
  emits_range emits_alloc : emits.

(** Walk through a program: sequence, branches and loops already proved. *)
Ltac emits_step :=
  lazymatch goal with
  | |- emits _ (@mbind _ _ _ _ _ _) => apply emits_bind; [|intros ?]
  | |- emits _ (@mret _ _ _ _) => apply emits_ret
  | |- emits _ (@call _ _ _ _) => apply emits_call; intros ?
  | |- emits _ (@update_status _ _) => apply emits_update_status; intros ? ?
  | |- emits _ (@update_de _ _) => apply emits_update_de; intros ? ?
  | |- emits _ (match ?x with _ => _ end) => destruct x
  | |- emits _ (if ?x then _ else _) => destruct x
  | |- emits _ (let _ := _ in _) => cbv zeta
  | |- emits _ _ => first [solve [eauto with emits nocore] | progress cbv beta]
  end.
Ltac emits_tac := repeat emits_step; try done.

(** ** Reasoning: what a piece of code may call, and after what

    [traces P seen m Q]: run after the calls [seen], [m] makes calls each of which
    is allowed by [P] given the calls made before it; if it returns, [Q] holds of
    the result and of all the calls made by then. *)
Abbreviation tspec := (list event -> spec).
Fixpoint ordered (P : tspec) (seen l : list event) : Prop :=
  match l with
  | [] => True
  | e :: rest => sat (P seen) e /\ ordered P (seen ++ [e]) rest
  end.
Definition traces {W} `{Client W} {A} (P : tspec) (seen : list event) (m : M W A) (Q : A -> list event -> Prop) : Prop :=
  forall c, exists l, calls c l (m c).2 /\ ordered P seen l /\
    forall a, (m c).1 = Ret a -> Q a (seen ++ l).

Lemma ordered_app P seen l l' :
  ordered P seen (l ++ l') <-> ordered P seen l /\ ordered P (seen ++ l) l'.
Proof.
  revert seen. induction l as [|e l IH]; intros seen; simpl; [rewrite app_nil_r; tauto|].
  rewrite IH, <- app_assoc. simpl. tauto.
Qed.
Lemma ordered_weaken (P P' : tspec) seen l :
  (forall s R q r, seen `prefix_of` s -> P s R q r -> P' s R q r) -> ordered P seen l -> ordered P' seen l.
Proof.
  revert seen. induction l as [|e l IH]; intros seen HP; simpl; [done|].
  intros [He Hl]. split; [by apply HP|]. apply IH; [|done]. intros s R q r Hs. apply HP.
  etrans; [by eexists|exact Hs].
Qed.

Section traces.
Context {W : Type} `{Client W}.
Implicit Types (P : tspec).

Lemma traces_ret {A} P seen (a : A) Q : Q a seen -> traces (W:=W) P seen (mret a) Q.
Proof.
  intros HQ c. exists []. rewrite app_nil_r. split; [by apply calls_nil|]. split; [done|]. by intros a' [= <-].
Qed.
Lemma traces_bind {A B} P seen (m : M W A) (f : A -> M W B) Q :
  traces P seen m (fun a s => traces P s (f a) Q) -> traces P seen (m ≫= f) Q.
Proof.
  intros Hm c. unfold mbind, M_bind. destruct (Hm c) as (l & Hl & HP & Hf).
  destruct (m c) as [[a|] c'] eqn:E; simpl in *; [|by exists l].
  destruct (Hf a eq_refl c') as (l' & Hl' & HP' & HQ). exists (l ++ l').
  split; [by eapply calls_app|]. split; [by apply ordered_app|]. by rewrite app_assoc.
Qed.
Lemma traces_mono {A} P seen (m : M W A) (Q Q' : A -> list event -> Prop) :
  traces P seen m Q -> (forall a s, seen `prefix_of` s -> Q a s -> Q' a s) -> traces P seen m Q'.
Proof.
  intros Hm HQ c. destruct (Hm c) as (l & Hl & HP & Hq). exists l. split; [done|]. split; [done|].
  intros a Ha. apply HQ; [by exists l|by apply Hq].
Qed.
Lemma traces_weaken {A} P P' seen (m : M W A) Q :
  (forall s R q r, seen `prefix_of` s -> P s R q r -> P' s R q r) -> traces P seen m Q -> traces P' seen m Q.
Proof.
  intros HP Hm c. destruct (Hm c) as (l & Hl & Ho & Hq). exists l. split; [done|]. split; [|done].
  by eapply ordered_weaken.
Qed.
Lemma traces_call {R} P seen (q : req R) Q :
  (forall r, P seen R q r /\ Q r (seen ++ [Event q r])) -> traces P seen (call q) Q.
Proof.
  intros HP c. unfold call. destruct (exec q _) as [r w] eqn:E. destruct (HP r) as [HPr HQr].
  exists [Event q r]. split; [split; [done|by exists w]|]. split; [done|]. by intros a [= <-].
Qed.
(** What is known of a run on its own holds of it after other calls. *)
Lemma traces_frame {A} P P' seen (m : M W A) Q :
  (forall s R q r, P s R q r -> P' (seen ++ s) R q r) -> traces P [] m Q -> traces P' seen m (fun _ _ => True).
Proof.
  intros HP Hm c. destruct (Hm c) as (l & Hl & Ho & _). exists l. split; [done|]. split; [|done].
  clear Hl. rewrite <- (app_nil_r seen). revert Ho. generalize (@nil event).
  induction l as [|e l IH]; intros s; simpl; [done|]. intros [He Ho]. split; [by apply HP|].
  rewrite <- app_assoc. by apply IH.
Qed.
(** Code whose calls are allowed from now on. *)
Lemma traces_emits {A} (P0 : spec) P seen (m : M W A) :
  emits P0 m -> (forall s R q r, seen `prefix_of` s -> P0 R q r -> P s R q r) ->
  traces P seen m (fun _ _ => True).
Proof.
  intros Hm HP c. destruct (Hm c) as (l & Hl & HF). exists l. split; [done|].
  split; [|done]. clear Hl. revert seen HP.
  induction HF as [|e l He _ IH]; intros seen HP; simpl; [done|]. split; [by apply HP|]. apply IH.
  intros s R q r Hs. apply HP. etrans; [by eexists|exact Hs].
Qed.
End traces.

(** One wp step: split binds, run primitive operations. *)
Ltac wp_step :=
  lazymatch goal with
  | |- wp (@mbind _ _ _ _ _ _) _ _ => apply wp_bind
  | |- wp (@mret _ _ _ _) _ _ => apply wp_ret
  | |- wp (@get_de _) _ _ => apply wp_get_de
  | |- wp (@put_de _ _) _ _ => apply wp_put_de
  | |- wp (@alloc _ _ _) _ _ => apply wp_alloc
  | |- wp (@call _ _ _ _) _ _ => apply wp_call; intros ? ? ?
  | |- wp (@range _ _ _ _) _ _ => apply wp_range; intros ? ?
  end.
