(* ===== verification/FakeCluster.v ===== *)
(** * An in-memory API server

    A concrete [Client] instance on which the hypotheses about the API are shown
    to hold and the closed examples run: objects in maps keyed by namespaced
    name, a clock, and faults injected at chosen calls.  It is no part of the
    model: only witnesses and concrete runs are stated for it. *)

From stdpp Require Import base gmap sets list strings.
From S2P Require Import Prelude GoStrings Sha256 K8s Types Helpers Client.

Record cluster := mkCluster {
  k_envs : gmap NamespacedName DynamicEnv;
  k_deployments : gmap NamespacedName Deployment;
  k_rules : gmap NamespacedName DestinationRule;
  k_services : list Service;
  k_virtualservices : gmap NamespacedName VirtualService;
  k_clock : Z;
  k_calls : nat;
  k_faults : gmap nat error;
}.

Definition not_found (n : NamespacedName) : error :=
  StatusErr NotFound (MkResourceName n +:+ " not found").
Definition fetch {O} (n : NamespacedName) (m : gmap NamespacedName O) : result error O :=
  match m !! n with Some o => Ok o | None => Err (not_found n) end.
Definition de_key (de : DynamicEnv) : NamespacedName := mkNN (de_Namespace de) (de_Name de).
Definition dp_key (d : Deployment) : NamespacedName := mkNN (dp_Namespace d) (dp_Name d).
Definition dr_key (d : DestinationRule) : NamespacedName := mkNN (dr_Namespace d) (dr_Name d).
Definition vs_key (v : VirtualService) : NamespacedName := mkNN (vs_Namespace v) (vs_Name v).

Definition k_set_envs m (k : cluster) := mkCluster m (k_deployments k) (k_rules k) (k_services k)
  (k_virtualservices k) (k_clock k) (k_calls k) (k_faults k).
Definition k_set_deployments m (k : cluster) := mkCluster (k_envs k) m (k_rules k) (k_services k)
  (k_virtualservices k) (k_clock k) (k_calls k) (k_faults k).
Definition k_set_rules m (k : cluster) := mkCluster (k_envs k) (k_deployments k) m (k_services k)
  (k_virtualservices k) (k_clock k) (k_calls k) (k_faults k).
Definition k_set_virtualservices m (k : cluster) := mkCluster (k_envs k) (k_deployments k) (k_rules k)
  (k_services k) m (k_clock k) (k_calls k) (k_faults k).
(** One more call, one more second. *)
Definition k_tick (k : cluster) := mkCluster (k_envs k) (k_deployments k) (k_rules k) (k_services k)
  (k_virtualservices k) (k_clock k + 1000000000)%Z (S (k_calls k)) (k_faults k).

Definition stored (k : cluster) (de : DynamicEnv) : DynamicEnvStatus :=
  match k_envs k !! de_key de with Some d => de_Status d | None => zero_DynamicEnvStatus end.

Definition fake_exec {R} (q : req R) (k0 : cluster) : R * cluster :=
  let k := k_tick k0 in
  let fault := k_faults k0 !! k_calls k0 in
  match q in req R return R * cluster with
  | GetDynamicEnv n => (match fault with Some e => Err e | None => fetch n (k_envs k) end, k)
  | GetDeployment n => (match fault with Some e => Err e | None => fetch n (k_deployments k) end, k)
  | GetDestinationRule n => (match fault with Some e => Err e | None => fetch n (k_rules k) end, k)
  | GetVirtualService n => (match fault with Some e => Err e | None => fetch n (k_virtualservices k) end, k)
  | ListServices ns =>
      (match fault with Some e => Err e
       | None => Ok (filter (fun s => sv_Namespace s = ns) (k_services k)) end, k)
  | ListDestinationRules ns =>
      (match fault with Some e => Err e
       | None => Ok (filter (fun d => dr_Namespace d = ns) (map_to_list (k_rules k)).*2) end, k)
  | ListVirtualServices =>
      (match fault with Some e => Err e | None => Ok (map_to_list (k_virtualservices k)).*2 end, k)
  | ListDynamicEnvs =>
      (match fault with Some e => Err e | None => Ok (map_to_list (k_envs k)).*2 end, k)
  | CreateDeployment d =>
      match fault with Some e => (Some e, k)
      | None => (None, k_set_deployments (<[dp_key d := d]> (k_deployments k)) k) end
  | CreateDestinationRule d =>
      match fault with Some e => (Some e, k)
      | None => (None, k_set_rules (<[dr_key d := d]> (k_rules k)) k) end
  | UpdateDeployment d =>
      match fault with Some e => (Some e, k)
      | None => (None, k_set_deployments (<[dp_key d := d]> (k_deployments k)) k) end
  | UpdateVirtualService v =>
      match fault with Some e => (Err e, k)
      | None => (Ok v, k_set_virtualservices (<[vs_key v := v]> (k_virtualservices k)) k) end
  | UpdateDynamicEnv de =>
      match fault with Some e => (Err e, k)
      | None => let de' := set_Status (stored k de) de in
                (Ok de', k_set_envs (<[de_key de := de']> (k_envs k)) k) end
  | UpdateDynamicEnvStatus de =>
      match fault with Some e => (Err e, k)
      | None => let de' := set_Status (wire_status (de_Status de)) de in
                (Ok de', k_set_envs (<[de_key de := de']> (k_envs k)) k) end
  | DeleteDeployment d =>
      match fault with Some e => (Some e, k)
      | None => (None, k_set_deployments (delete (dp_key d) (k_deployments k)) k) end
  | DeleteDestinationRule d =>
      match fault with Some e => (Some e, k)
      | None => (None, k_set_rules (delete (dr_key d) (k_rules k)) k) end
  | Now => (k_clock k, k)
  end.

Definition fake_client : Client cluster := @fake_exec.

#[export] Existing Instance fake_client.

Lemma fake_client_echo : StatusEcho cluster.
Proof.
  intros de w de' w' E. unfold exec, fake_client, fake_exec in E.
  destruct (k_faults w !! k_calls w); [discriminate E|]. injection E as <- _. done.
Qed.

#[export] Existing Instance fake_client_echo.

(** An empty cluster, and contexts over a cluster. *)
Definition empty_cluster : cluster := mkCluster ∅ ∅ ∅ [] ∅ 0 0 ∅.
Definition start (k : cluster) (de : DynamicEnv) : ctx cluster := mkCtx k de 0 1000 [].
