(* ===== verification/StatusManager.v ===== *)
(** * The status manager (pkg/model/status_manager.go)

    Every change of the custom resource's status goes through these
    operations.  [sm.DynamicEnv] is the context's [cx_de], [sm.Status().Update]
    is [update_status]. *)

From stdpp Require Import base gmap sets list strings.
From S2P Require Import Prelude GoStrings Sha256 K8s Types Helpers Client FakeCluster.

(** ** Pure helpers *)

(** The loop of [SyncStatusResources]: (exists, modified, result). *)
Fixpoint sync_resources (s : ResourceStatus) (currentStatuses : list ResourceStatus)
    (exists_ modified : bool) (result : list ResourceStatus) : bool * bool * list ResourceStatus :=
  match currentStatuses with
  | [] => (exists_, modified, result)
  | resource :: rest =>
      if bool_decide (rs_Name resource = rs_Name s) && bool_decide (rs_Namespace resource = rs_Namespace s)
      then if bool_decide (rs_Status resource <> rs_Status s)
           then sync_resources s rest true true (result ++ [s])
           else sync_resources s rest true modified (result ++ [resource])
      else sync_resources s rest exists_ modified (result ++ [resource])
  end.

Definition SyncStatusResources (s : ResourceStatus) (currentStatuses : list ResourceStatus) :
    bool * list ResourceStatus :=
  let '(exists_, modified, result) := sync_resources s currentStatuses false false [] in
  if negb exists_ then (true, result ++ [s]) else (modified, result).

Definition SafeGetSubsetErrors (status : SubsetStatus) : SubsetErrors :=
  match ss_Errors status with
  | Some e => e
  | None => zero_SubsetErrors
  end.

(** [int64(hash)] and [uint64(h)]. *)
Definition int64_of (hash : Z) : Z := (hash + 2 ^ 63) mod 2 ^ 64 - 2 ^ 63.
Definition uint64_of (h : Z) : Z := h mod 2 ^ 64.

Section ops.
Context {W : Type} `{Client W} `{MapOrder}.

(** ** Assignments to the shared object *)
Definition write_SubsetsStatus (k : string) (v : SubsetStatus) : M W unit :=
  de ← get_de;
  m ← lift (mset (de_SubsetsStatus de) k v);
  put_de (set_SubsetsStatus m de).
Definition write_ConsumersStatus (k : string) (v : ConsumerStatus) : M W unit :=
  de ← get_de;
  m ← lift (mset (de_ConsumersStatus de) k v);
  put_de (set_ConsumersStatus m de).

Definition safeGetSubsetsStatus (subset : string) : M W SubsetStatus :=
  de ← get_de;
  let de := set_SubsetsStatus (mmake (de_SubsetsStatus de)) de in
  _ ← put_de de;
  mret (mget zero_SubsetStatus (de_SubsetsStatus de) subset).

Definition safeGetConsumersStatus (subset : string) : M W ConsumerStatus :=
  de ← get_de;
  let de := set_ConsumersStatus (mmake (de_ConsumersStatus de)) de in
  _ ← put_de de;
  mret (mget zero_ConsumerStatus (de_ConsumersStatus de) subset).

(** ** Global errors *)
Fixpoint sync_errors (msg : string) (errors : list StatusError) (found : bool)
    (result : list StatusError) : M W (bool * list StatusError) :=
  match errors with
  | [] => mret (found, result)
  | e :: rest =>
      if bool_decide (se_Error e = msg) then
        now ← call Now;
        sync_errors msg rest true (result ++ [UpdateTime now e])
      else sync_errors msg rest found (result ++ [e])
  end.

Definition SyncGlobalErrors (msg : string) (errors : list StatusError) : M W (list StatusError) :=
  if decide (length errors = 0) then
    now ← call Now;
    mret [NewStatusError now msg]
  else
    fr ← sync_errors msg errors false [];
    let '(found, result) := fr in
    if negb found then
      now ← call Now;
      mret (result ++ [NewStatusError now msg])
    else mret result.

(** ** Status entries *)
Definition addSubsetDeploymentStatusEntry (subset : string) (newStatus : ResourceStatus) : M W (option error) :=
  currentStatus ← safeGetSubsetsStatus subset;
  if negb (ResourceStatus_IsEqual (ss_Deployment currentStatus) newStatus) then
    _ ← write_SubsetsStatus subset
          (mkSubsetStatus newStatus (ss_DestinationRules currentStatus)
             (ss_VirtualServices currentStatus) (ss_Errors currentStatus) (ss_Hash currentStatus));
    update_status
  else mret None.

Definition addConsumerDeploymentStatusEntry (subset : string) (newStatus : ResourceStatus) : M W (option error) :=
  currentStatus ← safeGetConsumersStatus subset;
  if negb (ResourceStatus_IsEqual (cs_ResourceStatus currentStatus) newStatus) then
    _ ← write_ConsumersStatus subset
          (mkConsumerStatus
             (mkResourceStatus (rs_Name newStatus) (rs_Namespace newStatus) (rs_Status newStatus))
             (cs_Hash currentStatus) (cs_Errors currentStatus));
    update_status
  else mret None.

Definition AddDeploymentStatusEntry (subset : string) (newStatus : ResourceStatus)
    (tpe : SubsetOrConsumer) : M W (option error) :=
  match tpe with
  | CONSUMER => addConsumerDeploymentStatusEntry subset newStatus
  | SUBSET => addSubsetDeploymentStatusEntry subset newStatus
  end.

Definition AddDestinationRuleStatusEntry (subset : string) (newStatus : ResourceStatus) : M W (option error) :=
  currentStatus ← safeGetSubsetsStatus subset;
  let '(modified, newStatuses) := SyncStatusResources newStatus (ss_DestinationRules currentStatus) in
  if modified then
    _ ← write_SubsetsStatus subset
          (mkSubsetStatus (ss_Deployment currentStatus) newStatuses
             (ss_VirtualServices currentStatus) (ss_Errors currentStatus) (ss_Hash currentStatus));
    update_status
  else mret None.

Definition AddVirtualServiceStatusEntry (subset : string) (newStatus : ResourceStatus) : M W (option error) :=
  currentStatus ← safeGetSubsetsStatus subset;
  let '(modified, newStatuses) := SyncStatusResources newStatus (ss_VirtualServices currentStatus) in
  if modified then
    _ ← write_SubsetsStatus subset
          (mkSubsetStatus (ss_Deployment currentStatus) (ss_DestinationRules currentStatus)
             newStatuses (ss_Errors currentStatus) (ss_Hash currentStatus));
    update_status
  else mret None.

Definition AddGlobalVirtualServiceError (subset msg : string) : M W (option error) :=
  currentStatus ← safeGetSubsetsStatus subset;
  let statusErrors := SafeGetSubsetErrors currentStatus in
  currentErrors ← SyncGlobalErrors msg (ser_VirtualServices statusErrors);
  _ ← write_SubsetsStatus subset
        (mkSubsetStatus (ss_Deployment currentStatus) (ss_DestinationRules currentStatus)
           (ss_VirtualServices currentStatus)
           (Some (mkSubsetErrors (ser_Deployment statusErrors) (ser_DestinationRule statusErrors)
                    currentErrors (ser_Subset statusErrors)))
           (ss_Hash currentStatus));
  update_status.

Definition SetGlobalState (state : GlobalReadyStatus) (totalCount notReadyCount : Z) : M W (option error) :=
  de ← get_de;
  let s := de_Status de in
  _ ← put_de (set_Status (mkDynamicEnvStatus (st_SubsetsStatus s) (st_ConsumersStatus s) state
                           totalCount (totalCount - notReadyCount)) de);
  update_status.

(** ** Messages collected by a reconcile loop *)
Fixpoint sync_all (msgs : list string) (errors : list StatusError) : M W (list StatusError) :=
  match msgs with
  | [] => mret errors
  | msg :: rest =>
      errors ← SyncGlobalErrors msg errors;
      sync_all rest errors
  end.

Fixpoint sync_subset_messages (messages : list (string * SubsetMessages)) : M W unit :=
  match messages with
  | [] => mret tt
  | (sbst, msgs) :: rest =>
      de ← get_de;
      let statuses := mmake (de_SubsetsStatus de) in
      let cs := mget zero_SubsetStatus statuses sbst in
      let errors := SafeGetSubsetErrors cs in
      e1 ← sync_all (msg_Deployment msgs) (ser_Deployment errors);
      e2 ← sync_all (msg_DestinationRule msgs) (ser_DestinationRule errors);
      e3 ← sync_all (msg_VirtualService msgs) (ser_VirtualServices errors);
      e4 ← sync_all (msg_GlobalErrors msgs) (ser_Subset errors);
      let cs := mkSubsetStatus (ss_Deployment cs) (ss_DestinationRules cs) (ss_VirtualServices cs)
                  (Some (mkSubsetErrors e1 e2 e3 e4)) (ss_Hash cs) in
      statuses ← lift (mset statuses sbst cs);
      _ ← put_de (set_SubsetsStatus statuses de);
      sync_subset_messages rest
  end.
Definition SyncSubsetMessagesToStatus (messages : gmap string SubsetMessages) : M W unit :=
  l ← range messages;
  sync_subset_messages l.

Fixpoint sync_consumer_messages (messages : list (string * list string)) : M W unit :=
  match messages with
  | [] => mret tt
  | (subject, msgs) :: rest =>
      de ← get_de;
      let statuses := mmake (de_ConsumersStatus de) in
      let cs := mget zero_ConsumerStatus statuses subject in
      errors ← sync_all msgs (cs_Errors cs);
      let cs := mkConsumerStatus (cs_ResourceStatus cs) (cs_Hash cs) errors in
      statuses ← lift (mset statuses subject cs);
      _ ← put_de (set_ConsumersStatus statuses de);
      sync_consumer_messages rest
  end.
Definition SyncConsumerMessagesToStatus (messages : gmap string (list string)) : M W unit :=
  l ← range messages;
  sync_consumer_messages l.

(** ** Hashes *)
Definition GetHashForSubset (name : string) : M W Z :=
  de ← get_de;
  match mlookup (de_SubsetsStatus de) name with
  | None => mret 0%Z
  | Some subsetStatus => mret (uint64_of (ss_Hash subsetStatus))
  end.

Definition GetHashForConsumer (name : string) : M W Z :=
  de ← get_de;
  match mlookup (de_ConsumersStatus de) name with
  | None => mret 0%Z
  | Some consumerStatus => mret (uint64_of (cs_Hash consumerStatus))
  end.

(** Unlike its consumer twin, this one writes to the map without making it. *)
Definition setHashForSubset (name : string) (hash : Z) : M W (option error) :=
  de ← get_de;
  let subsetStatus := default zero_SubsetStatus (mlookup (de_SubsetsStatus de) name) in
  _ ← write_SubsetsStatus name
        (mkSubsetStatus (ss_Deployment subsetStatus) (ss_DestinationRules subsetStatus)
           (ss_VirtualServices subsetStatus) (ss_Errors subsetStatus) (int64_of hash));
  update_status.

Definition setHashForConsumer (name : string) (hash : Z) : M W (option error) :=
  de ← get_de;
  _ ← put_de (set_ConsumersStatus (mmake (de_ConsumersStatus de)) de);
  de ← get_de;
  let consumerStatus := default zero_ConsumerStatus (mlookup (de_ConsumersStatus de) name) in
  _ ← write_ConsumersStatus name
        (mkConsumerStatus (cs_ResourceStatus consumerStatus) (int64_of hash) (cs_Errors consumerStatus));
  update_status.

Definition ApplyHash (name : string) (hash : Z) (tpe : SubsetOrConsumer) : M W (option error) :=
  match tpe with
  | CONSUMER => setHashForConsumer name hash
  | SUBSET => setHashForSubset name hash
  end.
End ops.

(** ** Lemmas: resource lists *)
Definition rs_key (rs : ResourceStatus) : string * string := (rs_Name rs, rs_Namespace rs).
Definition replace_status (s r : ResourceStatus) : ResourceStatus :=
  if decide (rs_key r = rs_key s) then s else r.

Lemma same_key_test r s :
  bool_decide (rs_Name r = rs_Name s) && bool_decide (rs_Namespace r = rs_Namespace s)
  = bool_decide (rs_key r = rs_key s).
Proof.
  apply eq_true_iff_eq. rewrite andb_true_iff, !bool_decide_eq_true.
  unfold rs_key. split; [intros [-> ->]; done|by intros [= -> ->]].
Qed.
Lemma replace_status_same_key s r : rs_key (replace_status s r) = rs_key r.
Proof. unfold replace_status. case_decide; done. Qed.
Lemma key_status_eq r s : rs_key r = rs_key s -> rs_Status r = rs_Status s -> r = s.
Proof. destruct r, s; unfold rs_key; simpl. by intros [= -> ->] ->. Qed.

Lemma replace_status_eq s r : rs_key r = rs_key s -> replace_status s r = s.
Proof. intros. unfold replace_status. by rewrite decide_True. Qed.
Lemma replace_status_ne s r : rs_key r <> rs_key s -> replace_status s r = r.
Proof. intros. unfold replace_status. by rewrite decide_False. Qed.

Lemma sync_resources_eq s cur ex mo acc :
  sync_resources s cur ex mo acc =
  (ex || bool_decide (rs_key s ∈ map rs_key cur),
   mo || bool_decide (map (replace_status s) cur <> cur),
   acc ++ map (replace_status s) cur).
Proof.
  revert ex mo acc. induction cur as [|r cur IH]; intros ex mo acc; cbn [sync_resources map].
  { rewrite (bool_decide_eq_false_2 (_ ∈ [])) by set_solver.
    rewrite (bool_decide_eq_false_2 ([] <> [])) by (intros Hx; by apply Hx).
    by rewrite !orb_false_r, app_nil_r. }
  rewrite same_key_test. destruct (decide (rs_key r = rs_key s)) as [Hk|Hk].
  - rewrite (bool_decide_eq_true_2 (rs_key r = rs_key s)) by done.
    rewrite (bool_decide_eq_true_2 (rs_key s ∈ rs_key r :: _)) by (rewrite Hk; by left).
    rewrite replace_status_eq by done. rewrite orb_true_r.
    destruct (decide (rs_Status r = rs_Status s)) as [Hs|Hs].
    + rewrite (bool_decide_eq_false_2 (rs_Status r <> _)) by tauto.
      rewrite (key_status_eq r s) by done. rewrite IH, <- app_assoc. simpl.
      f_equal. f_equal. f_equal. apply bool_decide_ext. split; intros Hn Hx; apply Hn; congruence.
    + rewrite (bool_decide_eq_true_2 (rs_Status r <> _)) by done.
      rewrite IH, <- app_assoc. rewrite (bool_decide_eq_true_2 (s :: _ <> _)).
      { by rewrite orb_true_r. }
      intros [= <- _]. done.
  - rewrite (bool_decide_eq_false_2 (rs_key r = rs_key s)) by done.
    rewrite IH, <- app_assoc. rewrite replace_status_ne by done. simpl.
    f_equal. f_equal; f_equal; apply bool_decide_ext.
    + rewrite elem_of_cons. split; [by right|]. by intros [E|E].
    + split; intros Hn Hx; apply Hn; congruence.
Qed.

Lemma SyncStatusResources_eq s cur :
  SyncStatusResources s cur =
  if decide (rs_key s ∈ map rs_key cur)
  then (bool_decide (map (replace_status s) cur <> cur), map (replace_status s) cur)
  else (true, cur ++ [s]).
Proof.
  unfold SyncStatusResources. rewrite sync_resources_eq. simpl.
  case_decide as Hin.
  - by rewrite bool_decide_eq_true_2.
  - rewrite bool_decide_eq_false_2 by done. simpl. f_equal. f_equal.
    rewrite <- (map_id cur) at 2. apply map_ext_in. intros r Hr. apply replace_status_ne.
    intros Hk. apply Hin. rewrite <- Hk. apply list_elem_of_fmap. exists r.
    by rewrite list_elem_of_In.
Qed.

Lemma map_key_replace s cur : map rs_key (map (replace_status s) cur) = map rs_key cur.
Proof. rewrite map_map. apply map_ext. intros r. apply replace_status_same_key. Qed.

(** The entries of a result: the given status under its key, the others kept. *)
Lemma elem_of_sync s cur x :
  x ∈ (SyncStatusResources s cur).2 <-> x = s \/ (x ∈ cur /\ rs_key x <> rs_key s).
Proof.
  rewrite SyncStatusResources_eq. case_decide as Hin; simpl.
  - rewrite list_elem_of_fmap. split.
    + intros (r & -> & Hr). destruct (decide (rs_key r = rs_key s)).
      * left. by apply replace_status_eq.
      * right. by rewrite replace_status_ne.
    + intros [->|[Hx Hne]].
      * apply list_elem_of_fmap in Hin as (r & Hk & Hr). exists r. by rewrite replace_status_eq.
      * exists x. by rewrite replace_status_ne.
  - rewrite elem_of_app, list_elem_of_singleton. split.
    + intros [Hx| ->]; [right|by left]. split; [done|]. intros Hk. apply Hin.
      rewrite <- Hk. apply list_elem_of_fmap. eauto.
    + intros [->|[Hx _]]; [by right|by left].
Qed.

Lemma sync_keys_NoDup s cur :
  NoDup (map rs_key cur) -> NoDup (map rs_key (SyncStatusResources s cur).2).
Proof.
  intros Hnd. rewrite SyncStatusResources_eq. case_decide as Hin; simpl.
  - by rewrite map_key_replace.
  - rewrite map_app. apply NoDup_app. split; [done|]. split.
    + intros k Hk Hks. apply list_elem_of_singleton in Hks as ->. done.
    + apply NoDup_singleton.
Qed.

Lemma sync_unmodified s cur : (SyncStatusResources s cur).1 = false <-> (SyncStatusResources s cur).2 = cur.
Proof.
  rewrite SyncStatusResources_eq. case_decide as Hin; simpl.
  - rewrite bool_decide_eq_false. split; [apply dec_stable|tauto].
  - split; [done|]. intros E. apply (f_equal length) in E. rewrite length_app in E; simpl in E; lia.
Qed.

Lemma sync_idempotent s cur :
  SyncStatusResources s (SyncStatusResources s cur).2 = (false, (SyncStatusResources s cur).2).
Proof.
  assert (Hin : rs_key s ∈ map rs_key (SyncStatusResources s cur).2).
  { apply list_elem_of_fmap. exists s. split; [done|]. apply elem_of_sync. by left. }
  rewrite (SyncStatusResources_eq s (SyncStatusResources s cur).2), decide_True by done.
  assert (Hid : map (replace_status s) (SyncStatusResources s cur).2 = (SyncStatusResources s cur).2).
  { rewrite <- (map_id (SyncStatusResources s cur).2) at 2. apply map_ext_in. intros r Hr.
    apply list_elem_of_In, elem_of_sync in Hr as [->|[_ Hr]].
    - by apply replace_status_eq.
    - by apply replace_status_ne. }
  rewrite Hid. by rewrite bool_decide_eq_false_2 by tauto.
Qed.

(** [SyncStatusResources] inserts or updates one resource: its entry is the
    given one, every other entry is kept, [modified] says whether the list
    changed, keys stay unique, and doing it again changes nothing. *)
Theorem SyncStatusResources_spec s cur :
  let '(modified, result) := SyncStatusResources s cur in
  (forall x, x ∈ result <-> x = s \/ (x ∈ cur /\ rs_key x <> rs_key s)) /\
  (modified = false <-> result = cur) /\
  (NoDup (map rs_key cur) -> NoDup (map rs_key result)) /\
  SyncStatusResources s result = (false, result).
Proof.
  destruct (SyncStatusResources s cur) as [modified result] eqn:E.
  pose proof (elem_of_sync s cur) as H1. pose proof (sync_unmodified s cur) as H2.
  pose proof (sync_keys_NoDup s cur) as H3. pose proof (sync_idempotent s cur) as H4.
  rewrite E in *. simpl in *. auto.
Qed.

(** ** Lemmas: global errors *)
Definition messages (errors : list StatusError) : list string := map se_Error errors.
Definition add_msg (l : list string) (msg : string) : list string :=
  if decide (msg ∈ l) then l else l ++ [msg].

Lemma elem_of_add_msg l m x : x ∈ add_msg l m <-> x ∈ l \/ x = m.
Proof.
  unfold add_msg. case_decide; [naive_solver|]. by rewrite elem_of_app, list_elem_of_singleton.
Qed.
Lemma add_msg_NoDup l m : NoDup l -> NoDup (add_msg l m).
Proof.
  intros Hnd. unfold add_msg. case_decide; [done|]. apply NoDup_app. split; [done|].
  split; [|apply NoDup_singleton]. by intros x Hx ->%list_elem_of_singleton.
Qed.
Lemma add_msgs_NoDup l ms : NoDup l -> NoDup (foldl add_msg l ms).
Proof. revert l. induction ms as [|m ms IH]; intros l Hl; [done|]. by apply IH, add_msg_NoDup. Qed.
Lemma elem_of_add_msgs l ms x : x ∈ foldl add_msg l ms <-> x ∈ l \/ x ∈ ms.
Proof.
  revert l. induction ms as [|m ms IH]; intros l; simpl.
  - rewrite elem_of_nil. naive_solver.
  - rewrite IH, elem_of_add_msg, elem_of_cons. naive_solver.
Qed.
#[export] Hint Resolve add_msg_NoDup add_msgs_NoDup : denv.

Section wp_errors.
Context {W : Type} `{Client W}.
Implicit Types (c : ctx W).

Lemma wp_sync_errors msg errs found acc c :
  wp (sync_errors msg errs found acc)
    (fun '(f, r) c' => cx_de c' = cx_de c /\
       f = found || bool_decide (msg ∈ messages errs) /\
       messages r = messages acc ++ messages errs /\
       (forall e, e ∈ r -> se_Error e <> msg -> e ∈ acc \/ e ∈ errs)) c.
Proof.
  revert found acc c. induction errs as [|e errs IH]; intros found acc c; simpl.
  - apply wp_ret. rewrite orb_false_r, app_nil_r. naive_solver.
  - destruct (bool_decide (se_Error e = msg)) eqn:He; bool_facts.
    + wp_step. wp_step. eapply wp_mono; [|apply IH]. intros [f r'] c' (-> & -> & Hm & Hk).
      split; [done|]. split; [|split].
      * rewrite (bool_decide_eq_true_2 (msg ∈ se_Error e :: _)) by (rewrite He; by left).
        by rewrite orb_true_r.
      * unfold messages in *. rewrite Hm, map_app, <- app_assoc. done.
      * intros x Hx Hne. destruct (Hk x Hx Hne) as [Hin|Hin]; [|right; by right].
        apply elem_of_app in Hin as [Hin|Hin]; [by left|].
        apply list_elem_of_singleton in Hin as ->. done.
    + eapply wp_mono; [|apply IH]. intros [f r'] c' (-> & -> & Hm & Hk).
      split; [done|]. split; [|split].
      * f_equal. apply bool_decide_ext. unfold messages; simpl. rewrite elem_of_cons. naive_solver.
      * unfold messages in *. rewrite Hm, map_app, <- app_assoc. done.
      * intros x Hx Hne. destruct (Hk x Hx Hne) as [Hin|Hin]; [|right; by right].
        apply elem_of_app in Hin as [Hin|Hin]; [by left|right].
        apply list_elem_of_singleton in Hin as ->. by left.
Qed.

Lemma wp_SyncGlobalErrors msg errs c :
  wp (SyncGlobalErrors msg errs)
    (fun r c' => cx_de c' = cx_de c /\
       messages r = add_msg (messages errs) msg /\
       (forall e, e ∈ r -> se_Error e <> msg -> e ∈ errs)) c.
Proof.
  unfold SyncGlobalErrors. case_decide as Hl.
  - apply nil_length_inv in Hl as ->. wp_step. wp_step. apply wp_ret.
    split; [done|]. split; [done|]. intros e He%list_elem_of_singleton Hne. by subst.
  - apply wp_bind. eapply wp_mono; [|apply wp_sync_errors].
    intros [f r] c' (Hde & Hf & Hm & Hk). rewrite orb_false_l in Hf. simpl in Hm.
    assert (Hk' : forall e, e ∈ r -> se_Error e <> msg -> e ∈ errs).
    { intros e He Hne. destruct (Hk e He Hne) as [?%elem_of_nil|]; done. }
    unfold add_msg. case_decide as Hin; subst f.
    + rewrite bool_decide_eq_true_2 by done. by apply wp_ret.
    + rewrite bool_decide_eq_false_2 by done. cbn [negb]. wp_step. wp_step. apply wp_ret.
      split; [done|]. split; [unfold messages in *; by rewrite map_app, Hm|].
      intros e [He|He]%elem_of_app Hne; [by apply Hk'|].
      apply list_elem_of_singleton in He as ->. done.
Qed.

Lemma wp_sync_all msgs errs c :
  wp (sync_all msgs errs)
    (fun r c' => cx_de c' = cx_de c /\ messages r = foldl add_msg (messages errs) msgs) c.
Proof.
  revert errs c. induction msgs as [|m msgs IH]; intros errs c; simpl; [done|].
  apply wp_bind. eapply wp_mono; [|apply wp_SyncGlobalErrors]. intros r c' (Hde & Hm & _).
  eapply wp_mono; [|apply IH]. intros r' c'' (-> & ->). by rewrite Hm.
Qed.
End wp_errors.

(** What one subset's status becomes when its messages are recorded. *)
Definition records_messages (old : SubsetStatus) (ms : SubsetMessages) (new : SubsetStatus) : Prop :=
  let olde := SafeGetSubsetErrors old in
  ss_Deployment new = ss_Deployment old /\ ss_DestinationRules new = ss_DestinationRules old /\
  ss_VirtualServices new = ss_VirtualServices old /\ ss_Hash new = ss_Hash old /\
  exists e, ss_Errors new = Some e /\
    messages (ser_Deployment e) = foldl add_msg (messages (ser_Deployment olde)) (msg_Deployment ms) /\
    messages (ser_DestinationRule e) = foldl add_msg (messages (ser_DestinationRule olde)) (msg_DestinationRule ms) /\
    messages (ser_VirtualServices e) = foldl add_msg (messages (ser_VirtualServices olde)) (msg_VirtualService ms) /\
    messages (ser_Subset e) = foldl add_msg (messages (ser_Subset olde)) (msg_GlobalErrors ms).

Section wp_messages.
Context {W : Type} `{Client W}.
Implicit Types (c : ctx W).

Lemma wp_sync_subset_messages l c :
  NoDup l.*1 ->
  wp (sync_subset_messages l)
    (fun _ c' => de_ConsumersStatus (cx_de c') = de_ConsumersStatus (cx_de c) /\
       forall k, let old := mlookup (de_SubsetsStatus (cx_de c)) k in
                 let new := mlookup (de_SubsetsStatus (cx_de c')) k in
         (k ∉ l.*1 -> new = old) /\
         (forall ms, (k, ms) ∈ l -> exists s, new = Some s /\
            records_messages (default zero_SubsetStatus old) ms s)) c.
Proof.
  revert c. induction l as [|[k ms] l IH]; intros c Hnd; cbn [sync_subset_messages].
  { apply wp_ret. split; [done|]. intros k. split; [done|]. intros ms ?%elem_of_nil. done. }
  rewrite fmap_cons in Hnd. apply NoDup_cons in Hnd as [Hk Hnd]. simpl in Hk.
  wp_step. wp_step.
  apply wp_bind; eapply wp_mono; [|apply wp_sync_all]; intros e1 c1 [D1 E1].
  apply wp_bind; eapply wp_mono; [|apply wp_sync_all]; intros e2 c2 [D2 E2].
  apply wp_bind; eapply wp_mono; [|apply wp_sync_all]; intros e3 c3 [D3 E3].
  apply wp_bind; eapply wp_mono; [|apply wp_sync_all]; intros e4 c4 [D4 E4].
  wp_step. rewrite mset_mmake. apply wp_lift. eexists. split; [done|].
  wp_step. wp_step. eapply wp_mono; [|by apply IH]. cbn [cx_de].
  intros [] c' [Hcons Hm]. split; [done|]. intros j. destruct (Hm j) as [Hout Hin]. clear Hm.
  rewrite de_SubsetsStatus_set in Hout, Hin.
  destruct (decide (j = k)) as [->|Hne].
  - split; [intros []; by left|]. intros ms' [Heq|Hj]%elem_of_cons.
    + injection Heq as ->. rewrite Hout by done. rewrite mlookup_insert_eq.
      eexists. split; [done|]. unfold mget. rewrite mlookup_mmake in *.
      repeat (split; [done|]). eexists. split; [done|]. unfold mget in *. by rewrite mlookup_mmake in *.
    + destruct Hk. apply list_elem_of_fmap. by exists (k, ms').
  - rewrite mlookup_insert_ne in Hout, Hin by done. split.
    + intros Hj. apply Hout. intros Hx. apply Hj. by right.
    + intros ms' [Heq|Hj]%elem_of_cons; [by injection Heq as -> _|]. by apply Hin.
Qed.
End wp_messages.

(** ** Properties *)

(** Recording one error message keeps every other entry, leaves the message
    recorded exactly once more when it was absent and in place when it was
    present, keeps messages unique, and touches neither the custom resource nor
    the API. *)
Theorem SyncGlobalErrors_spec {W} `{Client W} (msg : string) (errors : list StatusError) (c : ctx W) :
  wp (SyncGlobalErrors msg errors)
    (fun r c' =>
       cx_de c' = cx_de c /\
       messages r = (if decide (msg ∈ messages errors) then messages errors
                     else messages errors ++ [msg]) /\
       (forall e, e ∈ r -> se_Error e <> msg -> e ∈ errors) /\
       (NoDup (messages errors) -> NoDup (messages r))) c.
Proof.
  eapply wp_mono; [|apply wp_SyncGlobalErrors]. intros r c' (Hde & Hm & Hk).
  split; [done|]. split; [done|]. split; [done|]. rewrite Hm. apply add_msg_NoDup.
Qed.

(** C33.  Whatever order the message map is visited in, each subset with messages
    ends with exactly its old messages followed by its new ones, without
    repetition, in each of the four error lists; its resources and hash, and
    every other subset and consumer, are untouched. *)
Theorem SyncSubsetMessagesToStatus_spec {W} `{Client W} `{MapOrder}
    (msgs : gmap string SubsetMessages) (c : ctx W) :
  wp (SyncSubsetMessagesToStatus msgs)
    (fun _ c' =>
       de_ConsumersStatus (cx_de c') = de_ConsumersStatus (cx_de c) /\
       forall k, let old := mlookup (de_SubsetsStatus (cx_de c)) k in
                 let new := mlookup (de_SubsetsStatus (cx_de c')) k in
         match msgs !! k with
         | None => new = old
         | Some ms => exists s, new = Some s /\
                        records_messages (default zero_SubsetStatus old) ms s
         end) c.
Proof.
  unfold SyncSubsetMessagesToStatus. apply wp_bind, wp_range. intros l Hl.
  assert (Hnd : NoDup l.*1) by (rewrite Hl; apply NoDup_fst_map_to_list).
  eapply wp_mono; [|by apply wp_sync_subset_messages]. intros [] c' [Hcons Hk].
  split; [done|]. intros k. destruct (Hk k) as [Hout Hin]. destruct (msgs !! k) as [ms|] eqn:E.
  - apply Hin. rewrite Hl. by apply elem_of_map_to_list.
  - apply Hout. rewrite Hl. intros Hx. apply list_elem_of_fmap in Hx as ([k' ms] & -> & Hx).
    apply elem_of_map_to_list in Hx. simpl in E. by rewrite E in Hx.
Qed.

Lemma uint64_int64 h : (0 <= h < 2 ^ 64)%Z -> uint64_of (int64_of h) = h.
Proof.
  intros Hh. unfold uint64_of, int64_of.
  rewrite Zminus_mod_idemp_l. replace (h + 2 ^ 63 - 2 ^ 63)%Z with h by lia.
  by apply Z.mod_small.
Qed.
Lemma int64_of_range h : (- 2 ^ 63 <= int64_of h < 2 ^ 63)%Z.
Proof. unfold int64_of. pose proof (Z.mod_pos_bound (h + 2 ^ 63) (2 ^ 64)). lia. Qed.

Section settle.
Context {W : Type} `{Client W} `{!StatusEcho W}.
Implicit Types (c : ctx W).

(** A status update either fails, leaving the object alone, or leaves it with
    its status read back from the wire. *)
Lemma wp_update_status c (Q : option error -> ctx W -> Prop) :
  (forall e w ev, Q (Some e) (mkCtx w (cx_de c) (cx_epoch c) (cx_next c) (cx_log c ++ [ev]))) ->
  (forall de' w ev, de_Status de' = wire_status (de_Status (cx_de c)) ->
     Q None (mkCtx w de' (cx_epoch c) (cx_next c) (cx_log c ++ [ev]))) ->
  wp update_status Q c.
Proof.
  intros Hbad Hgood. unfold update_status. wp_step. wp_step. wp_step.
  apply wp_call. intros [de'|e] w Hex; [|apply wp_ret, Hbad].
  wp_step. wp_step. apply wp_ret, Hgood. by apply status_echo in Hex as [? _].
Qed.

Lemma mlookup_wire_subset m k :
  mlookup (fmap (M:=gmap string) wire_subset <$> m) k = wire_subset <$> mlookup m k.
Proof. destruct m; [apply lookup_fmap|]. unfold mlookup, mread; simpl. by rewrite lookup_empty. Qed.
Lemma mlookup_wire_consumer m k :
  mlookup (omit_empty (fmap (M:=gmap string) wire_consumer <$> m)) k = wire_consumer <$> mlookup m k.
Proof. rewrite mlookup_omit. destruct m; [apply lookup_fmap|]. unfold mlookup, mread; simpl. by rewrite lookup_empty. Qed.
End settle.

Section writes.
Context {W : Type}.
Implicit Types (c : ctx W).

Lemma wp_safeGetSubsetsStatus k c (Q : SubsetStatus -> ctx W -> Prop) :
  Q (mget zero_SubsetStatus (de_SubsetsStatus (cx_de c)) k)
    (mkCtx (cx_world c) (set_SubsetsStatus (mmake (de_SubsetsStatus (cx_de c))) (cx_de c))
       (cx_epoch c) (cx_next c) (cx_log c)) ->
  wp (safeGetSubsetsStatus k) Q c.
Proof.
  intros HQ. unfold safeGetSubsetsStatus. wp_step. wp_step. wp_step. wp_step. apply wp_ret.
  unfold mget in *. by rewrite de_SubsetsStatus_set, mlookup_mmake.
Qed.

Lemma wp_write_SubsetsStatus k v c (Q : unit -> ctx W -> Prop) :
  is_Some (de_SubsetsStatus (cx_de c)) ->
  Q tt (mkCtx (cx_world c)
          (set_SubsetsStatus (Some (<[k:=v]> (mread (de_SubsetsStatus (cx_de c))))) (cx_de c))
          (cx_epoch c) (cx_next c) (cx_log c)) ->
  wp (write_SubsetsStatus k v) Q c.
Proof.
  intros [m Hm] HQ. unfold write_SubsetsStatus. wp_step. wp_step. wp_step.
  rewrite Hm in *. apply wp_lift. eexists. split; [done|]. by apply wp_put_de.
Qed.
End writes.

(** The hash the status records, as the getters answer it. *)
Definition recorded_hash (de : DynamicEnv) (name : string) (tpe : SubsetOrConsumer) : Z :=
  match tpe with
  | SUBSET => match mlookup (de_SubsetsStatus de) name with Some s => uint64_of (ss_Hash s) | None => 0 end
  | CONSUMER => match mlookup (de_ConsumersStatus de) name with Some s => uint64_of (cs_Hash s) | None => 0 end
  end.
Section hashes.
Context {W : Type} `{Client W}.

Lemma wp_GetHash name tpe (c : ctx W) (Q : Z -> ctx W -> Prop) :
  Q (recorded_hash (cx_de c) name tpe) c ->
  wp match tpe with SUBSET => GetHashForSubset name | CONSUMER => GetHashForConsumer name end Q c.
Proof.
  intros HQ. destruct tpe; [unfold GetHashForSubset|unfold GetHashForConsumer]; wp_step; wp_step;
    simpl in HQ; destruct (mlookup _ _); by apply wp_ret.
Qed.
Lemma wp_ApplyHash `{!StatusEcho W} name hash tpe (c : ctx W) :
  (0 <= hash < 2 ^ 64)%Z -> (tpe = SUBSET -> is_Some (de_SubsetsStatus (cx_de c))) ->
  wp (ApplyHash name hash tpe) (fun err c' => err = None -> recorded_hash (cx_de c') name tpe = hash) c.
Proof.
  intros Hh Hm. destruct tpe; simpl.
  - destruct (Hm eq_refl) as [m Em]. unfold setHashForSubset. wp_step. wp_step. wp_step.
    apply wp_write_SubsetsStatus; [by eexists|]. apply wp_update_status; [done|]. intros de' w ev Hde _.
    simpl. unfold de_SubsetsStatus. rewrite Hde. cbn [wire_status st_SubsetsStatus].
    rewrite mlookup_wire_subset. cbn. unfold mlookup at 1; simpl. rewrite lookup_insert_eq.
    by apply uint64_int64.
  - unfold setHashForConsumer. wp_step. wp_step. wp_step. wp_step. wp_step. wp_step. wp_step.
    unfold write_ConsumersStatus. wp_step. wp_step. wp_step. apply wp_lift. eexists. split; [done|]. wp_step.
    apply wp_update_status; [done|]. intros de' w ev Hde _.
    simpl. unfold de_ConsumersStatus. rewrite Hde. cbn [wire_status st_ConsumersStatus].
    rewrite mlookup_wire_consumer. unfold mlookup at 1; simpl. rewrite lookup_insert_eq.
    by apply uint64_int64.
Qed.
End hashes.

(** C34.  A hash survives the trip through the status: for every 64-bit hash,
    when [ApplyHash] reports no error the matching getter returns that hash,
    although the status stores it as a signed integer.  For a subset the status
    map must exist, since [setHashForSubset] does not make it. *)
Theorem ApplyHash_roundtrip {W} `{Client W} `{!StatusEcho W} (name : string) (hash : Z)
    (tpe : SubsetOrConsumer) (c : ctx W) :
  (0 <= hash < 2 ^ 64)%Z ->
  (tpe = SUBSET -> is_Some (de_SubsetsStatus (cx_de c))) ->
  wp (err ← ApplyHash name hash tpe;
      h ← match tpe with SUBSET => GetHashForSubset name | CONSUMER => GetHashForConsumer name end;
      mret (err, h))
    (fun '(err, h) _ => err = None -> h = hash) c.
Proof.
  intros Hh Hm. apply wp_bind. eapply wp_mono; [|by apply wp_ApplyHash]. intros err c' Herr.
  apply wp_bind, wp_GetHash, wp_ret. exact Herr.
Qed.

Definition example_de : DynamicEnv :=
  mkDynamicEnv "env1" "default" [] None (mkDynamicEnvSpec None [] [])
    (mkDynamicEnvStatus (Some ∅) None "" 0 0) "".
Lemma ApplyHash_roundtrip_witness :
  wp (W:=cluster)
    (err ← ApplyHash "services/details" (2 ^ 63 + 5) SUBSET;
     h ← GetHashForSubset "services/details";
     mret (err, h))
    (fun '(err, h) _ => err = None -> h = (2 ^ 63 + 5)%Z) (start empty_cluster example_de).
Proof.
  apply (ApplyHash_roundtrip (W:=cluster) "services/details" (2 ^ 63 + 5) SUBSET
           (start empty_cluster example_de)).
  - lia.
  - intros _. by eexists.
Defined.

(** ** Writing a status entry *)
Lemma sync_settled s l :
  s ∈ l -> (forall x, x ∈ l -> rs_key x = rs_key s -> x = s) -> SyncStatusResources s l = (false, l).
Proof.
  intros Hs Hall. assert (E : (SyncStatusResources s l).2 = l).
  { rewrite SyncStatusResources_eq, decide_True; simpl.
    - rewrite <- (map_id l) at 2. apply map_ext_in. intros r Hr. apply list_elem_of_In in Hr.
      destruct (decide (rs_key r = rs_key s)) as [Hk|Hk]; [|by apply replace_status_ne].
      rewrite replace_status_eq by done. symmetry. by apply Hall.
    - apply list_elem_of_fmap. eauto. }
  pose proof (proj2 (sync_unmodified s l) E) as E1.
  destruct (SyncStatusResources s l); simpl in *. by subst.
Qed.

Lemma wire_rs_key r : rs_key (wire_rs r) = rs_key r.
Proof. done. Qed.
Lemma wire_rs_constant s : rs_Status s ∈ lifecycle_constants -> wire_rs s = s.
Proof. intros Hs. destruct s; unfold wire_rs; simpl in *. f_equal. by apply Parse_String_constants. Qed.

(** The list a sync produced is settled once read back from the wire. *)
Lemma sync_wire_settled s cur :
  rs_Status s ∈ lifecycle_constants ->
  SyncStatusResources s (map wire_rs (SyncStatusResources s cur).2) =
  (false, map wire_rs (SyncStatusResources s cur).2).
Proof.
  intros Hs. apply sync_settled.
  - apply list_elem_of_fmap. exists s. split; [by rewrite wire_rs_constant|]. apply elem_of_sync. by left.
  - intros x Hx. apply list_elem_of_fmap in Hx as (r & -> & Hr). rewrite wire_rs_key. intros Hk.
    apply elem_of_sync in Hr as [->|[_ Hne]]; [by apply wire_rs_constant|done].
Qed.

Section entries.
Context {W : Type} `{Client W}.
Implicit Types (c : ctx W).

Definition vs_entries (k : string) c : list ResourceStatus :=
  ss_VirtualServices (mget zero_SubsetStatus (de_SubsetsStatus (cx_de c)) k).

Lemma AddVirtualServiceStatusEntry_quiet k s c :
  (SyncStatusResources s (vs_entries k c)).1 = false ->
  wp (AddVirtualServiceStatusEntry k s) (fun e c' => e = None /\ cx_log c' = cx_log c) c.
Proof.
  intros Hq. unfold AddVirtualServiceStatusEntry. wp_step. apply wp_safeGetSubsetsStatus.
  fold (vs_entries k c). destruct (SyncStatusResources _ _) as [m r]; simpl in Hq; subst. by apply wp_ret.
Qed.
End entries.

(** Recording the state of a virtual service calls the API at most once and
    only when the record changes; the object it sends holds the new record and
    keeps every other subset's status; and recording the same state again,
    after a successful write, makes no call at all. *)
Theorem AddVirtualServiceStatusEntry_spec {W} `{Client W} `{!StatusEcho W}
    (k : string) (s : ResourceStatus) (c : ctx W) :
  rs_Status s ∈ lifecycle_constants ->
  wp (AddVirtualServiceStatusEntry k s)
    (fun e c' =>
       (if (SyncStatusResources s (vs_entries k c)).1
        then exists de1 r, cx_log c' = cx_log c ++ [Event (UpdateDynamicEnvStatus de1) r] /\
               ss_VirtualServices (mget zero_SubsetStatus (de_SubsetsStatus de1) k)
                 = (SyncStatusResources s (vs_entries k c)).2 /\
               (forall j, j <> k ->
                  mlookup (de_SubsetsStatus de1) j = mlookup (de_SubsetsStatus (cx_de c)) j)
        else e = None /\ cx_log c' = cx_log c) /\
       (e = None ->
        wp (AddVirtualServiceStatusEntry k s)
          (fun e2 c2 => e2 = None /\ cx_log c2 = cx_log c') c')) c.
Proof.
  intros Hs. unfold AddVirtualServiceStatusEntry at 1. wp_step. apply wp_safeGetSubsetsStatus.
  fold (vs_entries k c). pose proof (sync_wire_settled s (vs_entries k c) Hs) as Hset.
  destruct (SyncStatusResources s (vs_entries k c)) as [[] l] eqn:E; simpl in Hset |- *.
  - wp_step. apply wp_write_SubsetsStatus; [by eexists|]. cbn [cx_de cx_world cx_log cx_epoch cx_next].
    rewrite de_SubsetsStatus_set, mread_mmake.
    set (de1 := set_SubsetsStatus (Some (<[k:=_]> _)) _).
    assert (H1 : ss_VirtualServices (mget zero_SubsetStatus (de_SubsetsStatus de1) k) = l).
    { unfold de1, mget. rewrite de_SubsetsStatus_set. by rewrite mlookup_insert_eq. }
    assert (H2 : forall j, j <> k ->
              mlookup (de_SubsetsStatus de1) j = mlookup (de_SubsetsStatus (cx_de c)) j).
    { intros j Hj. unfold de1. rewrite de_SubsetsStatus_set. by apply mlookup_insert_ne. }
    unfold update_status. wp_step. wp_step. wp_step. apply wp_call. cbn [cx_de cx_world cx_log].
    intros [de'|e] w Hex.
    + wp_step. wp_step. apply wp_ret. split; [by exists de1, (Ok de')|]. intros _.
      apply AddVirtualServiceStatusEntry_quiet. unfold vs_entries; cbn [cx_de].
      apply status_echo in Hex as [Hst _]. unfold mget, de_SubsetsStatus. rewrite Hst.
      cbn [wire_status st_SubsetsStatus]. rewrite mlookup_wire_subset.
      unfold mget, de_SubsetsStatus in H1. destruct (mlookup (st_SubsetsStatus (de_Status de1)) k) as [x|] eqn:Ex.
      * simpl in *. rewrite H1. by rewrite Hset.
      * simpl in H1. subst l. discriminate Hset.
    + apply wp_ret. split; [by exists de1, (Err e)|done].
  - apply wp_ret. split; [done|]. intros _. apply AddVirtualServiceStatusEntry_quiet.
    unfold vs_entries in *; cbn [cx_de]. unfold mget in *.
    rewrite de_SubsetsStatus_set, mlookup_mmake. by rewrite E.
Qed.
Lemma AddVirtualServiceStatusEntry_spec_witness :
  let s := mkResourceStatus "details" "services" Running in
  let c := start empty_cluster example_de in
  wp (AddVirtualServiceStatusEntry "services/details" s)
    (fun e c' =>
       e = None ->
       wp (AddVirtualServiceStatusEntry "services/details" s)
         (fun e2 c2 => e2 = None /\ cx_log c2 = cx_log c') c') c.
Proof.
  intros s c. eapply wp_mono;
    [|apply (AddVirtualServiceStatusEntry_spec (W:=cluster) "services/details" s c)].
  - intros e c' [_ Hq]. exact Hq.
  - apply (bool_decide_unpack _). vm_compute. exact I.
Defined.

(** ** Lemmas: no operation panics *)
Section no_panic.
Context {W : Type} `{Client W} `{MapOrder}.

Lemma runs_AddVirtualServiceStatusEntry k s : runs (W:=W) (AddVirtualServiceStatusEntry k s).
Proof.
  intros c. unfold AddVirtualServiceStatusEntry. apply wp_bind, wp_safeGetSubsetsStatus.
  destruct (SyncStatusResources _ _) as [[] l]; [|done].
  apply wp_bind, wp_write_SubsetsStatus; [by eexists|]. apply runs_update_status.
Qed.
Lemma runs_AddDestinationRuleStatusEntry k s : runs (W:=W) (AddDestinationRuleStatusEntry k s).
Proof.
  intros c. unfold AddDestinationRuleStatusEntry. apply wp_bind, wp_safeGetSubsetsStatus.
  destruct (SyncStatusResources _ _) as [[] l]; [|done].
  apply wp_bind, wp_write_SubsetsStatus; [by eexists|]. apply runs_update_status.
Qed.
Lemma runs_AddDeploymentStatusEntry k s tpe : runs (W:=W) (AddDeploymentStatusEntry k s tpe).
Proof.
  intros c. destruct tpe; unfold AddDeploymentStatusEntry, addConsumerDeploymentStatusEntry,
    addSubsetDeploymentStatusEntry.
  - apply wp_bind, wp_safeGetSubsetsStatus. destruct (negb _); [|done].
    apply wp_bind, wp_write_SubsetsStatus; [by eexists|]. apply runs_update_status.
  - unfold safeGetConsumersStatus. apply wp_bind. do 4 wp_step. apply wp_ret.
    destruct (negb _); [|done]. apply wp_bind. unfold write_ConsumersStatus. do 3 wp_step.
    apply wp_lift. eexists. split; [done|]. apply wp_put_de, runs_update_status.
Qed.
Lemma runs_AddGlobalVirtualServiceError k msg : runs (W:=W) (AddGlobalVirtualServiceError k msg).
Proof.
  intros c. unfold AddGlobalVirtualServiceError. apply wp_bind, wp_safeGetSubsetsStatus.
  apply wp_bind. eapply wp_mono; [|apply wp_SyncGlobalErrors]. intros errs c' [Hde _].
  apply wp_bind, wp_write_SubsetsStatus; [|apply runs_update_status]. rewrite Hde. by eexists.
Qed.
End no_panic.
#[export] Hint Resolve runs_AddVirtualServiceStatusEntry runs_AddDestinationRuleStatusEntry
  runs_AddDeploymentStatusEntry runs_AddGlobalVirtualServiceError : runs.
