(* ===== verification/Webhook.v ===== *)
(** * The validating webhook (api/v1alpha1/dynamicenv_webhook.go)

    What the admission webhook accepts on creation and update.  A
    [field.Error] is kept as its path, offending value and detail; the printing
    of the value is the API machinery's. *)

From stdpp Require Import base gmap sets list strings.
From S2P Require Import Prelude GoStrings Sha256 K8s Types Helpers.

(** ** Errors *)
Inductive path_elem := PathRoot (s : string) | PathChild (s : string) | PathKey (s : string).
Inductive bad_value :=
| BadMatches (m : option (list IstioMatch))
| BadSpec (s : DynamicEnvSpec)
| BadSubset (s : Subset)
| BadSubsets (s : list Subset)
| BadContainers (c : list ContainerOverrides)
| BadString (s : string).
(** [field.Invalid(path, value, detail)] *)
Record field_error := FieldInvalid { fe_path : list path_elem; fe_bad : bad_value; fe_detail : string }.
Inductive admission_error :=
| AdmField (e : field_error)
(** [errors.NewInvalid(kind, name, errs)] *)
| AdmInvalid (name : string) (errs : list field_error).

Definition spec_path : list path_elem := [PathRoot "spec"].

(** ** Checks *)

(** Number of non-empty fields of a [StringMatch]. *)
Definition alternatives (m : StringMatch) : nat :=
  length (filter (fun f => f <> "") [sm_Exact m; sm_Prefix m; sm_Regex m]).

Definition string_match_error (header : string) (match_ : StringMatch) : list field_error :=
  if decide (alternatives match_ <> 1) then
    [FieldInvalid [PathRoot "spec"; PathChild "istioMatch"; PathChild "headers"; PathChild header]
       (BadString "header")
       ("spec.istioMatch.headers." +:+ header +:+
        " must validate one and only one schema (oneOf). Found " +:+ fmt_nat (alternatives match_) +:+
        " valid alternatives")]
  else [].

Section oneof.
Context `{MapOrder}.
(** The [epoch]-th map loop of the process serves the first match, the next
    loop the second, and so on. *)
Fixpoint string_match_errors (epoch : nat) (matches : list IstioMatch) : list field_error :=
  match matches with
  | [] => []
  | m :: rest =>
      concat (map (fun '(header, match_) => string_match_error header match_)
                (map_range epoch (mread (im_Headers m))))
      ++ string_match_errors (S epoch) rest
  end.

Definition validateStringMatchOneOf (epoch : nat) (de : DynamicEnv) : option admission_error :=
  let allErrs := string_match_errors epoch (default [] (spec_IstioMatches (de_Spec de))) in
  if decide (length allErrs <> 0) then Some (AdmInvalid (de_Name de) allErrs) else None.
End oneof.

Definition empty_match_detail : string := "empty IstioMatch is invalid for DynamicEnv".

Fixpoint any_of_loop (all : option (list IstioMatch)) (matches : list IstioMatch) : option field_error :=
  match matches with
  | [] => None
  | match_ :: rest =>
      if bool_decide (size (mread (im_Headers match_)) = 0)
         && bool_decide (size (mread (im_SourceLabels match_)) = 0)
      then Some (FieldInvalid spec_path (BadMatches all) empty_match_detail)
      else any_of_loop all rest
  end.

Definition validateIstioMatchAnyOf (de : DynamicEnv) : option field_error :=
  let matches := spec_IstioMatches (de_Spec de) in
  if decide (length (default [] matches) = 0)
  then Some (FieldInvalid spec_path (BadMatches matches) empty_match_detail)
  else any_of_loop matches (default [] matches).

Definition validateUniqueContainerNames (containers : list ContainerOverrides) : bool :=
  let m := foldl (fun m c => <[co_ContainerName c := true]> m) (∅ : gmap string bool) containers in
  bool_decide (size m = length containers).

Fixpoint no_duplicate_loop (subsets : list Subset) (uniques : list string) : option string :=
  match subsets with
  | [] => None
  | s :: rest =>
      let combined := s_Namespace s +:+ "/" +:+ s_Name s in
      if Contains uniques combined then Some combined
      else no_duplicate_loop rest (uniques ++ [combined])
  end.
(** The error is its message. *)
Definition validateNoDuplicateDeployment (subsets : list Subset) : option string :=
  no_duplicate_loop subsets [].

Fixpoint properties_loop (spec : DynamicEnvSpec) (subsets : list Subset) : option field_error :=
  match subsets with
  | [] => None
  | s :: rest =>
      if decide (s_Replicas s = Some 0%Z) then
        Some (FieldInvalid spec_path (BadSpec spec) "It's illegal to use 0 replicas!")
      else if bool_decide (length (s_Containers s) = 0) && bool_decide (length (s_InitContainers s) = 0) then
        Some (FieldInvalid [PathRoot "spec"; PathKey (s_Name s)] (BadSubset s)
                "At least a single container or init-container must be specified")
      else if negb (validateUniqueContainerNames (s_Containers s)) then
        Some (FieldInvalid [PathRoot "spec"; PathChild "Subsets"; PathKey (s_Name s); PathChild "Containers"]
                (BadContainers (s_Containers s)) "It seems that not all container names are unique")
      else if negb (validateUniqueContainerNames (s_InitContainers s)) then
        Some (FieldInvalid [PathRoot "spec"; PathChild "Subsets"; PathKey (s_Name s); PathChild "initContainers"]
                (BadContainers (s_InitContainers s)) "It seems that not all container names are unique")
      else properties_loop spec rest
  end.

Definition all_subsets (de : DynamicEnv) : list Subset :=
  spec_Subsets (de_Spec de) ++ spec_Consumers (de_Spec de).

Definition validateSubsetsProperties (de : DynamicEnv) : option field_error :=
  let subsets := all_subsets de in
  match properties_loop (de_Spec de) subsets with
  | Some e => Some e
  | None =>
      match validateNoDuplicateDeployment subsets with
      | Some e =>
          Some (FieldInvalid spec_path (BadSpec (de_Spec de))
                  ("It seems that the following deployment appears in more then one subset/consumer: " +:+ e))
      | None => None
      end
  end.

Definition validateIstioMatchImmutable (de old : DynamicEnv) : option field_error :=
  let oldIstioMatch := spec_IstioMatches (de_Spec old) in
  let newIstioMatch := spec_IstioMatches (de_Spec de) in
  if decide (newIstioMatch <> oldIstioMatch)
  then Some (FieldInvalid spec_path (BadMatches newIstioMatch) "spec.istioMatch field is immutable")
  else None.

Definition findMatchingContainer (oldContainer : ContainerOverrides) (containers : list ContainerOverrides) :
    option string :=
  let foundMatching := existsb (fun c => bool_decide (co_ContainerName c = co_ContainerName oldContainer)) containers in
  if negb foundMatching then Some (co_ContainerName oldContainer) else None.

Fixpoint compare_loop (oldContainers newContainers : list ContainerOverrides) : option string :=
  match oldContainers with
  | [] => None
  | c :: rest =>
      match findMatchingContainer c newContainers with
      | Some e => Some e
      | None => compare_loop rest newContainers
      end
  end.
Definition compareContainers (oldCOntainers newContainers : list ContainerOverrides) : option string :=
  if decide (length oldCOntainers <> length newContainers) then
    Some ("number of new containers (" +:+ fmt_nat (length oldCOntainers) +:+
          ") does not match the number of old containers (" +:+ fmt_nat (length newContainers) +:+ ")")
  else compare_loop oldCOntainers newContainers.

Fixpoint subset_modifications_loop (old : Subset) (all subsets : list Subset) : option field_error :=
  match subsets with
  | [] => None
  | s :: rest =>
      if bool_decide (s_Name old = s_Name s) && bool_decide (s_Namespace old = s_Namespace s) then
        match compareContainers (s_Containers old) (s_Containers s) with
        | Some e =>
            Some (FieldInvalid [PathRoot "spec"; PathChild "Subsets"; PathKey (s_Name s); PathChild "Containers"]
                    (BadContainers (s_Containers s))
                    ("couldn't find matching container to existing container: " +:+ e))
        | None =>
            match compareContainers (s_InitContainers old) (s_InitContainers s) with
            | Some e =>
                Some (FieldInvalid [PathRoot "spec"; PathChild "Subsets"; PathKey (s_Name s); PathChild "initContainers"]
                        (BadContainers (s_InitContainers s))
                        ("couldn't find matching container to existing container: " +:+ e))
            | None =>
                if decide (s_DefaultVersion old <> s_DefaultVersion s) then
                  Some (FieldInvalid [PathRoot "spec"; PathChild "Subsets"] (BadSubsets all)
                          ("Changing default-version is not supported (modified '" +:+ s_DefaultVersion old +:+
                           "' to '" +:+ s_DefaultVersion s +:+ "')"))
                else None
            end
        end
      else subset_modifications_loop old all rest
  end.
Definition validateSubsetModifications (old : Subset) (subsets : list Subset) : option field_error :=
  subset_modifications_loop old subsets subsets.

Fixpoint partial_update_loop (oldSubsets newSubsets : list Subset) : option field_error :=
  match oldSubsets with
  | [] => None
  | subset :: rest =>
      match validateSubsetModifications subset newSubsets with
      | Some e => Some e
      | None => partial_update_loop rest newSubsets
      end
  end.
Definition validatePartialUpdateSubsets (de old : DynamicEnv) : option field_error :=
  partial_update_loop (all_subsets old) (all_subsets de).

(** ** Entry points: [None] admits. *)
Definition ValidateCreate `{MapOrder} (epoch : nat) (de : DynamicEnv) : option admission_error :=
  match validateIstioMatchAnyOf de with
  | Some err => Some (AdmField err)
  | None =>
      match validateSubsetsProperties de with
      | Some err => Some (AdmField err)
      | None => validateStringMatchOneOf epoch de
      end
  end.

Definition ValidateUpdate (de old : DynamicEnv) : option admission_error :=
  match validateIstioMatchImmutable de old with
  | Some err => Some (AdmField err)
  | None =>
      match validateSubsetsProperties de with
      | Some err => Some (AdmField err)
      | None => AdmField <$> validatePartialUpdateSubsets de old
      end
  end.

Definition ValidateDelete (de : DynamicEnv) : option admission_error := None.

(** ** What the checks mean *)
Definition well_formed_match (m : IstioMatch) : Prop :=
  mread (im_Headers m) <> ∅ \/ mread (im_SourceLabels m) <> ∅.
Definition one_of (m : StringMatch) : Prop := alternatives m = 1.
Definition container_names (l : list ContainerOverrides) : list string := map co_ContainerName l.
Definition well_formed_subset (s : Subset) : Prop :=
  s_Replicas s <> Some 0%Z /\ (s_Containers s <> [] \/ s_InitContainers s <> []) /\
  NoDup (container_names (s_Containers s)) /\ NoDup (container_names (s_InitContainers s)).
Definition well_formed_subsets (l : list Subset) : Prop :=
  Forall well_formed_subset l /\ NoDup (map MKSubsetName l).
Definition well_formed_env (de : DynamicEnv) : Prop :=
  let matches := default [] (spec_IstioMatches (de_Spec de)) in
  matches <> [] /\ Forall well_formed_match matches /\
  well_formed_subsets (all_subsets de) /\
  Forall (fun m => forall h sm, mread (im_Headers m) !! h = Some sm -> one_of sm) matches.

(** The same set of containers, the same default version. *)
Definition compatible (old s : Subset) : Prop :=
  length (s_Containers old) = length (s_Containers s) /\
  container_names (s_Containers old) ⊆ container_names (s_Containers s) /\
  length (s_InitContainers old) = length (s_InitContainers s) /\
  container_names (s_InitContainers old) ⊆ container_names (s_InitContainers s) /\
  s_DefaultVersion old = s_DefaultVersion s.
Definition same_subset (a b : Subset) : Prop := s_Name a = s_Name b /\ s_Namespace a = s_Namespace b.
#[export] Instance same_subset_dec a b : Decision (same_subset a b).
Proof. unfold same_subset. apply _. Defined.

(** ** Lemmas *)
Lemma concat_nil_iff {A} (l : list (list A)) : concat l = [] <-> forall x, x ∈ l -> x = [].
Proof.
  induction l as [|x l IH]; simpl; [split; [by intros _ ? ?%elem_of_nil|done]|].
  split.
  - intros [-> Hl]%app_nil y [->|Hy]%elem_of_cons; [done|]. by apply IH.
  - intros Hall. rewrite (Hall x) by (by left). apply IH. intros y Hy. apply Hall. by right.
Qed.

Lemma string_match_errors_nil `{MapOrder} n ms :
  string_match_errors n ms = [] <->
  Forall (fun m => forall h sm, mread (im_Headers m) !! h = Some sm -> one_of sm) ms.
Proof.
  revert n. induction ms as [|m ms IH]; intros n; simpl.
  { split; [constructor|done]. }
  rewrite Forall_cons, <- (IH (S n)). clear IH.
  assert (Hhd : concat (map (fun '(header, match_) => string_match_error header match_)
                  (map_range n (mread (im_Headers m)))) = [] <->
                forall h sm, mread (im_Headers m) !! h = Some sm -> one_of sm).
  { rewrite concat_nil_iff. split.
    - intros Hall h sm Hsm. assert (Hn : string_match_error h sm = []).
      { apply Hall, list_elem_of_fmap. exists (h, sm). split; [done|]. by apply elem_of_map_range. }
      unfold string_match_error in Hn. case_decide; [done|]. unfold one_of. lia.
    - intros Hall x (p & -> & Hx)%list_elem_of_fmap. destruct p as [h sm].
      apply elem_of_map_range in Hx. unfold string_match_error.
      rewrite decide_False; [done|]. specialize (Hall h sm Hx). unfold one_of in Hall. lia. }
  rewrite <- Hhd. split; [apply app_nil|]. by intros [-> ->].
Qed.

Lemma any_of_loop_None all ms : any_of_loop all ms = None <-> Forall well_formed_match ms.
Proof.
  induction ms as [|m ms IH]; simpl; [split; [constructor|done]|].
  rewrite Forall_cons, <- IH. unfold well_formed_match.
  rewrite <- !(map_size_non_empty_iff (mread _)).
  destruct (_ && _) eqn:E; bool_facts.
  - split; [done|]. intros [[?|?] _]; done.
  - apply andb_false_iff in E. split; [|tauto]. intros ?. split; [|done].
    destruct E as [E|E]; bool_facts; auto.
Qed.

Lemma foldl_names_size (l : list ContainerOverrides) (m : gmap string bool) :
  size (foldl (fun m c => <[co_ContainerName c := true]> m) m l) =
  size (dom m ∪ list_to_set (container_names l) : gset string).
Proof.
  revert m. induction l as [|c l IH]; intros m; simpl.
  - by rewrite (right_id_L ∅ (∪)), size_dom.
  - rewrite IH, dom_insert_L. f_equal. set_solver.
Qed.

Lemma size_singleton_union_le (x : string) (X : gset string) : size ({[x]} ∪ X) <= S (size X).
Proof.
  rewrite size_union_alt, size_singleton.
  pose proof (subseteq_size (X ∖ {[x]}) X ltac:(set_solver)). lia.
Qed.
Lemma size_list_to_set_le (l : list string) : size (list_to_set l : gset string) <= length l.
Proof.
  induction l as [|x l IH]; simpl; [reflexivity|].
  pose proof (size_singleton_union_le x (list_to_set l)). lia.
Qed.

Lemma validateUniqueContainerNames_spec l :
  validateUniqueContainerNames l = true <-> NoDup (container_names l).
Proof.
  unfold validateUniqueContainerNames. rewrite bool_decide_eq_true, foldl_names_size.
  rewrite dom_empty_L, (left_id_L ∅ (∪)). unfold container_names.
  rewrite <- (length_map co_ContainerName l). generalize (map co_ContainerName l). clear l. intros l.
  split.
  - induction l as [|x l IH]; intros Hs; [constructor|]. simpl in Hs.
    pose proof (size_list_to_set_le l) as Hle. constructor.
    + intros Hx. assert (E : ({[x]} ∪ list_to_set l : gset string) = list_to_set l) by set_solver.
      rewrite E in Hs. lia.
    + apply IH. pose proof (size_singleton_union_le x (list_to_set l)). lia.
  - intros Hnd. by apply size_list_to_set.
Qed.

Lemma no_duplicate_loop_None l u :
  no_duplicate_loop l u = None <-> NoDup (map MKSubsetName l) /\ (forall s, s ∈ l -> MKSubsetName s ∉ u).
Proof.
  revert u. induction l as [|s l IH]; intros u; simpl.
  { split; [|done]. intros _. split; [constructor|]. by intros ? ?%elem_of_nil. }
  fold (MKSubsetName s). rewrite NoDup_cons. destruct (Contains u (MKSubsetName s)) eqn:E.
  - apply Contains_spec in E. split; [done|]. intros [_ Hs]. destruct (Hs s); [by left|done].
  - apply not_true_iff_false in E. rewrite Contains_spec in E. rewrite IH. split.
    + intros [Hnd Hs]. split; [split; [|done]|].
      * intros (s' & Heq & Hs')%list_elem_of_fmap. apply (Hs s' Hs'). apply elem_of_app. right.
        rewrite <- Heq. by apply list_elem_of_singleton.
      * intros s' [->|Hs']%elem_of_cons; [done|]. intros Hu. apply (Hs s' Hs'), elem_of_app. by left.
    + intros [[Hn Hnd] Hs]. split; [done|]. intros s' Hs' [Hu|Hu]%elem_of_app.
      * apply (Hs s'); [by right|done].
      * apply list_elem_of_singleton in Hu. apply Hn, list_elem_of_fmap. eauto.
Qed.

Lemma properties_loop_None spec l : properties_loop spec l = None <-> Forall well_formed_subset l.
Proof.
  induction l as [|s l IH]; simpl; [split; [constructor|done]|].
  rewrite Forall_cons, <- IH. unfold well_formed_subset.
  rewrite <- !validateUniqueContainerNames_spec.
  case_decide as Hr; [naive_solver|].
  destruct (_ && _) eqn:E.
  - bool_facts. split; [done|]. intros [(_ & [Hc|Hc] & _) _]; destruct Hc; by apply nil_length_inv.
  - assert (Hc : s_Containers s <> [] \/ s_InitContainers s <> []).
    { apply andb_false_iff in E as [E|E]; bool_facts; [left|right]; intros Hx; by rewrite Hx in E. }
    destruct (validateUniqueContainerNames (s_Containers s)); simpl; [|naive_solver].
    destruct (validateUniqueContainerNames (s_InitContainers s)); simpl; naive_solver.
Qed.

Lemma validateSubsetsProperties_None de :
  validateSubsetsProperties de = None <-> well_formed_subsets (all_subsets de).
Proof.
  unfold validateSubsetsProperties, well_formed_subsets, validateNoDuplicateDeployment.
  rewrite <- (properties_loop_None (de_Spec de)). destruct (properties_loop _ _); [naive_solver|].
  pose proof (no_duplicate_loop_None (all_subsets de) []) as Hd.
  destruct (no_duplicate_loop _ _).
  - split; [done|]. intros [_ Hnd]. destruct Hd as [_ Hd]. discriminate Hd. split; [done|].
    intros ? ? ?%elem_of_nil. done.
  - split; [|done]. intros _. split; [done|]. by apply Hd.
Qed.

Lemma compareContainers_None o n :
  compareContainers o n = None <-> length o = length n /\ container_names o ⊆ container_names n.
Proof.
  unfold compareContainers. case_decide as Hl; [naive_solver|].
  assert (Hloop : compare_loop o n = None <-> container_names o ⊆ container_names n); [|tauto].
  clear Hl. induction o as [|c o IH]; simpl; [split; [set_solver|done]|].
  unfold findMatchingContainer. destruct (existsb _ n) eqn:E; simpl.
  - apply existsb_elem in E as (c' & Hc' & Heq). bool_facts. rewrite IH. unfold container_names.
    assert (co_ContainerName c ∈ map co_ContainerName n).
    { apply list_elem_of_fmap. eauto. }
    simpl. set_solver.
  - split; [done|]. intros Hsub. assert (Hin : co_ContainerName c ∈ container_names n).
    { apply Hsub. by left. }
    apply list_elem_of_fmap in Hin as (c' & Heq & Hc'). rewrite existsb_false in E.
    specialize (E c' Hc'). simpl in E. bool_facts. congruence.
Qed.

Lemma validateSubsetModifications_None old l :
  validateSubsetModifications old l = None <->
  (forall s, head (filter (same_subset old) l) = Some s -> compatible old s).
Proof.
  unfold validateSubsetModifications. generalize l at 1 as all. intros all.
  induction l as [|s l IH]; simpl; [done|].
  rewrite filter_cons. destruct (decide (same_subset old s)) as [[Hn Hs]|Hne].
  - rewrite !bool_decide_eq_true_2 by done. simpl.
    unfold compatible. pose proof (compareContainers_None (s_Containers old) (s_Containers s)) as H1.
    pose proof (compareContainers_None (s_InitContainers old) (s_InitContainers s)) as H2.
    destruct (compareContainers (s_Containers old) _); simpl.
    { split; [done|]. intros Hc. specialize (Hc s eq_refl). destruct H1 as [_ H1]. naive_solver. }
    destruct (compareContainers (s_InitContainers old) _); simpl.
    { split; [done|]. intros Hc. specialize (Hc s eq_refl). destruct H2 as [_ H2]. naive_solver. }
    destruct H1 as [H1 _], H2 as [H2 _].
    case_decide as Hd.
    + split; [done|]. intros Hc. specialize (Hc s eq_refl). naive_solver.
    + split; [|done]. intros _ s' [= <-]. naive_solver.
  - assert (E : bool_decide (s_Name old = s_Name s) && bool_decide (s_Namespace old = s_Namespace s) = false).
    { apply not_true_iff_false. rewrite andb_true_iff, !bool_decide_eq_true. exact Hne. }
    rewrite E. apply IH.
Qed.

Lemma partial_update_loop_None olds news :
  partial_update_loop olds news = None <->
  Forall (fun old => forall s, head (filter (same_subset old) news) = Some s -> compatible old s) olds.
Proof.
  induction olds as [|o olds IH]; simpl; [split; [constructor|done]|].
  rewrite Forall_cons, <- IH, <- validateSubsetModifications_None.
  destruct (validateSubsetModifications o news); naive_solver.
Qed.

(** The verdicts of the webhook. *)
Lemma ValidateCreate_None `{MapOrder} (epoch : nat) (de : DynamicEnv) :
  ValidateCreate epoch de = None <-> well_formed_env de.
Proof.
  unfold ValidateCreate, validateIstioMatchAnyOf, validateStringMatchOneOf, well_formed_env.
  set (ms := default [] (spec_IstioMatches (de_Spec de))).
  pose proof (any_of_loop_None (spec_IstioMatches (de_Spec de)) ms) as H1.
  pose proof (validateSubsetsProperties_None de) as H2.
  pose proof (string_match_errors_nil epoch ms) as H3.
  case_decide as Hl.
  { apply nil_length_inv in Hl. split; [done|]. by intros [? _]. }
  assert (ms <> []) by (intros E; by rewrite E in Hl).
  destruct (any_of_loop _ ms); [naive_solver|].
  destruct (validateSubsetsProperties de); [naive_solver|].
  case_decide as He.
  - split; [done|]. intros (_ & _ & _ & Hf). destruct He. by apply H3 in Hf as ->.
  - split; [|done]. intros _. split; [done|]. split; [by apply H1|]. split; [by apply H2|].
    apply H3. destruct (string_match_errors epoch ms); [done|]. simpl in He. lia.
Qed.
Lemma ValidateUpdate_None (de old : DynamicEnv) :
  ValidateUpdate de old = None <->
  spec_IstioMatches (de_Spec de) = spec_IstioMatches (de_Spec old) /\
  well_formed_subsets (all_subsets de) /\
  Forall (fun o => forall s, head (filter (same_subset o) (all_subsets de)) = Some s -> compatible o s)
    (all_subsets old).
Proof.
  unfold ValidateUpdate, validateIstioMatchImmutable, validatePartialUpdateSubsets.
  rewrite <- validateSubsetsProperties_None, <- partial_update_loop_None.
  case_decide; [naive_solver|]. destruct (validateSubsetsProperties de); [naive_solver|].
  destruct (partial_update_loop _ _); simpl; naive_solver.
Qed.

(** ** Properties *)

(** C26.  The webhook admits the creation of a custom resource exactly when it is
    well formed: some match, none empty, every header match defining one
    alternative, every subset and consumer with non-zero replicas, a container
    override and unique container names, and no deployment named twice.  The
    verdict does not depend on the order headers are visited in. *)
Theorem ValidateCreate_iff `{MapOrder} (epoch : nat) (de : DynamicEnv) :
  ValidateCreate epoch de = None <-> well_formed_env de.
Proof. apply ValidateCreate_None. Qed.

(** C25.  The webhook admits an update exactly when the matches are unchanged,
    the new subsets are well formed, and every old subset that survives keeps
    its number of containers, its container names and its default version. *)
Theorem ValidateUpdate_iff (de old : DynamicEnv) :
  ValidateUpdate de old = None <->
  spec_IstioMatches (de_Spec de) = spec_IstioMatches (de_Spec old) /\
  well_formed_subsets (all_subsets de) /\
  Forall (fun o => forall s, head (filter (same_subset o) (all_subsets de)) = Some s -> compatible o s)
    (all_subsets old).
Proof. apply ValidateUpdate_None. Qed.

(** C36.  Across an admitted update a surviving subset has the same containers,
    up to order, when the old resource was itself well formed. *)
Theorem ValidateUpdate_keeps_containers (de old : DynamicEnv) (o s : Subset) :
  ValidateUpdate de old = None ->
  well_formed_subsets (all_subsets old) ->
  o ∈ all_subsets old -> s ∈ all_subsets de -> same_subset o s ->
  container_names (s_Containers o) ≡ₚ container_names (s_Containers s) /\
  container_names (s_InitContainers o) ≡ₚ container_names (s_InitContainers s).
Proof.
  unfold ValidateUpdate, validateIstioMatchImmutable, validatePartialUpdateSubsets.
  pose proof (validateSubsetsProperties_None de) as H2.
  pose proof (partial_update_loop_None (all_subsets old) (all_subsets de)) as H3.
  case_decide; [done|]. destruct (validateSubsetsProperties de); [done|].
  destruct (partial_update_loop _ _); [done|]. intros _ Hold Ho Hs Hsame.
  destruct H2 as [[_ Hnd] _]; [done|]. destruct H3 as [H3 _]. specialize (H3 eq_refl).
  rewrite Forall_forall in H3. specialize (H3 o Ho).
  assert (Hin : s ∈ filter (same_subset o) (all_subsets de)) by (by apply list_elem_of_filter).
  destruct (filter (same_subset o) (all_subsets de)) as [|s' l] eqn:E; [by apply elem_of_nil in Hin|].
  assert (Hs' : s' ∈ filter (same_subset o) (all_subsets de)) by (rewrite E; by left).
  apply list_elem_of_filter in Hs' as [Hsame' Hs'].
  assert (s' = s) as ->.
  { apply list_elem_of_lookup in Hs as [i Hi]. apply list_elem_of_lookup in Hs' as [j Hj].
    assert (i = j) as ->; [|congruence].
    eapply NoDup_lookup; [done| |].
    - by rewrite list_lookup_fmap, Hi.
    - rewrite list_lookup_fmap, Hj. simpl. unfold MKSubsetName.
      destruct Hsame as [E1 E2], Hsame' as [E3 E4]. congruence. }
  destruct (H3 s eq_refl) as (Hl & Hc & Hli & Hi & _).
  destruct Hold as [Hwf _]. rewrite Forall_forall in Hwf. destruct (Hwf o Ho) as (_ & _ & Hn & Hni).
  split; apply NoDup_incl_Permutation; try done; unfold container_names; by rewrite !length_map.
Qed.

Definition container_named (n : string) : ContainerOverrides := mkContainerOverrides n "image" None None.
Definition subset_with (name : string) (cs : list ContainerOverrides) : Subset :=
  mkSubset name "services" None None cs [] "".
Definition env_with (subsets : list Subset) : DynamicEnv :=
  mkDynamicEnv "env1" "default" [] None
    (mkDynamicEnvSpec (Some [mkIstioMatch (Some {["user" := mkStringMatch "me" "" ""]}) None]) subsets [])
    zero_DynamicEnvStatus "".
Definition old_example : DynamicEnv :=
  env_with [subset_with "details" [container_named "a"; container_named "b"]; subset_with "reviews" [container_named "a"]].
Definition new_example : DynamicEnv :=
  env_with [subset_with "details" [container_named "b"; container_named "a"]].

Lemma ValidateUpdate_keeps_containers_witness :
  container_names [container_named "a"; container_named "b"] ≡ₚ
  container_names [container_named "b"; container_named "a"].
Proof.
  refine (proj1 (ValidateUpdate_keeps_containers new_example old_example
    (subset_with "details" [container_named "a"; container_named "b"])
    (subset_with "details" [container_named "b"; container_named "a"]) _ _ _ _ _)).
  - vm_compute. reflexivity.
  - apply validateSubsetsProperties_None. vm_compute. reflexivity.
  - by left.
  - by left.
  - split; reflexivity.
Defined.

(** An update may drop a subset: no condition compares the set of subsets
    before and after, so removing any subset from an admitted resource whose
    containers are otherwise unchanged is admitted (the comment of
    [validatePartialUpdateSubsets] says otherwise). *)
Theorem ValidateUpdate_allows_removal (de old : DynamicEnv) :
  spec_IstioMatches (de_Spec de) = spec_IstioMatches (de_Spec old) ->
  well_formed_subsets (all_subsets old) ->
  sublist (all_subsets de) (all_subsets old) ->
  ValidateUpdate de old = None.
Proof.
  intros Hm [Hwf Hnd] Hsub. unfold ValidateUpdate, validateIstioMatchImmutable.
  rewrite decide_False by (intros Hx; by apply Hx).
  assert (Hde : well_formed_subsets (all_subsets de)).
  { split; [|by eapply sublist_NoDup, fmap_sublist].
    rewrite Forall_forall in *. intros s Hs. apply Hwf. by eapply elem_of_sublist. }
  apply validateSubsetsProperties_None in Hde. rewrite Hde.
  unfold validatePartialUpdateSubsets.
  assert (Hp : partial_update_loop (all_subsets old) (all_subsets de) = None); [|by rewrite Hp].
  apply partial_update_loop_None, Forall_forall. intros o Ho s Hs.
  destruct (filter (same_subset o) (all_subsets de)) as [|s' l] eqn:E; [done|]. injection Hs as ->.
  assert (Hin : s ∈ filter (same_subset o) (all_subsets de)) by (rewrite E; by left).
  apply list_elem_of_filter in Hin as [[Hn Hns] Hin].
  assert (o = s) as ->; [|done].
  assert (Hs : s ∈ all_subsets old) by (by eapply elem_of_sublist).
  apply list_elem_of_lookup in Ho as [i Hi]. apply list_elem_of_lookup in Hs as [j Hj].
  assert (i = j) as ->; [|congruence]. eapply NoDup_lookup; [done| |].
  - by rewrite list_lookup_fmap, Hi.
  - rewrite list_lookup_fmap, Hj. simpl. unfold MKSubsetName. congruence.
Qed.
Lemma ValidateUpdate_allows_removal_witness :
  ValidateUpdate (env_with [subset_with "reviews" [container_named "a"]]) old_example = None.
Proof.
  apply ValidateUpdate_allows_removal.
  - reflexivity.
  - apply validateSubsetsProperties_None. vm_compute. reflexivity.
  - apply sublist_cons. reflexivity.
Defined.
