(* ===== verification/Model.v ===== *)
(** * Shared reconcile data (pkg/model/types.go, pkg/handlers/handler.go)

    The data [Reconcile] hands to the handlers, the error register that does not
    mask, and the two handler interfaces. *)

From stdpp Require Import base gmap sets list strings.
From S2P Require Import Prelude GoStrings Sha256 K8s Types Helpers Client.

(** The status manager of the record is the context's; see [Client]. *)
Record DynamicEnvReconcileData := mkReconcileData {
  rd_Identifier : NamespacedName;
  rd_BaseDeployment : Deployment;
  rd_Subset : Subset;
  rd_Matches : list IstioMatch;
}.

Record SubsetType := mkSubsetType { stt_Type : SubsetOrConsumer; stt_Subset : Subset }.

(** [NonMaskingError] *)
Abbreviation NonMaskingError := (option error) (only parsing).
Definition SetIfNotMasking (err : NonMaskingError) (e : option error) : NonMaskingError :=
  match err with None => e | Some _ => err end.
Definition ForceError (err : NonMaskingError) (e : option error) : NonMaskingError := e.
Definition NonMaskingError_Get (err : NonMaskingError) : option error := err.
Definition NonMaskingError_IsNil (err : NonMaskingError) : bool := bool_decide (err = None).

(** The handlers as [processHandlersStatus] sees them, after [Handle] has run:
    interface values, as records of methods. *)
Record SRHandler (W : Type) := mkSRHandler {
  sr_GetStatus : M W (result error ResourceStatus);
  sr_ApplyStatus : ResourceStatus -> M W (option error);
  sr_GetSubset : string;
}.
Arguments mkSRHandler {W} _ _ _.
Arguments sr_GetStatus {W} _.
Arguments sr_ApplyStatus {W} _ _.
Arguments sr_GetSubset {W} _.

Record MRHandler (W : Type) := mkMRHandler {
  mr_GetStatus : M W (result error (list ResourceStatus));
  mr_ApplyStatus : list ResourceStatus -> M W (option error);
  mr_GetSubset : string;
  mr_GetHosts : list string;
}.
Arguments mkMRHandler {W} _ _ _ _.
Arguments mr_GetStatus {W} _.
Arguments mr_ApplyStatus {W} _ _.
Arguments mr_GetSubset {W} _.
Arguments mr_GetHosts {W} _.

(** ** Code that only computes

    [computes m o]: [m] makes no call and leaves the shared object and the
    allocator alone; whatever map orders it draws, its result is [o]. *)
Definition bump {W} (n : nat) (c : ctx W) : ctx W :=
  mkCtx (cx_world c) (cx_de c) (n + cx_epoch c) (cx_next c) (cx_log c).
Definition computes {W A} (m : M W A) (o : outcome A) : Prop :=
  forall c, exists n, m c = (o, bump n c).

Section computes.
Context {W : Type}.
Lemma bump_0 (c : ctx W) : bump 0 c = c.
Proof. by destruct c. Qed.
Lemma bump_bump n k (c : ctx W) : bump n (bump k c) = bump (n + k) c.
Proof. unfold bump; simpl. by rewrite Nat.add_assoc. Qed.
Lemma computes_ret {A} (a : A) : computes (W:=W) (mret a) (Ret a).
Proof. intros c. exists 0. by rewrite bump_0. Qed.
Lemma computes_lift {A} (o : outcome A) : computes (W:=W) (lift o) o.
Proof. intros c. exists 0. by rewrite bump_0. Qed.
Lemma traces_get_de `{Client W} {A} (f : DynamicEnv -> M W A) P seen Q :
  (forall de, traces P seen (f de) Q) -> traces P seen (get_de ≫= f) Q.
Proof. intros Hf c. apply (Hf (cx_de c) c). Qed.
Lemma computes_bind {A B} (m : M W A) (f : A -> M W B) o g :
  computes m o -> (forall a, o = Ret a -> computes (f a) (g a)) -> computes (m ≫= f) (o ≫= g).
Proof.
  intros Hm Hf c. destruct (Hm c) as [n En]. unfold mbind at 1, M_bind. rewrite En.
  destruct o as [a|]; simpl; [|by exists n].
  destruct (Hf a eq_refl (bump n c)) as [k Ek]. exists (k + n). by rewrite Ek, bump_bump.
Qed.
Lemma computes_bind_ret {A B} (m : M W A) (f : A -> M W B) a o :
  computes m (Ret a) -> computes (f a) o -> computes (m ≫= f) o.
Proof. intros Hm Hf. apply (computes_bind m f (Ret a) (fun _ => o)); [done|]. by intros ? [= <-]. Qed.
Lemma computes_bind_panic {A B} (m : M W A) (f : A -> M W B) :
  computes m Panic -> computes (m ≫= f) Panic.
Proof. intros Hm. by apply (computes_bind m f Panic (fun _ => Panic)). Qed.
Lemma computes_range `{MapOrder} {V B} (m : gmap string V) (f : list (string * V) -> M W B) o :
  (forall l, l ≡ₚ map_to_list m -> computes (f l) o) -> computes (range m ≫= f) o.
Proof.
  intros Hf c. unfold mbind, M_bind, range.
  destruct (Hf (map_range (cx_epoch c) m) (map_range_perm _ _ _) (bump 1 c)) as [k Ek].
  exists (k + 1). unfold bump at 1 in Ek. simpl in Ek. by rewrite Ek, bump_bump.
Qed.
Lemma computes_wp {A} (m : M W A) (a : A) (Q : A -> ctx W -> Prop) c :
  computes m (Ret a) -> (forall n, Q a (bump n c)) -> wp m Q c.
Proof. intros Hm HQ. destruct (Hm c) as [n E]. unfold wp. by rewrite E. Qed.
Lemma computes_emits `{Client W} {A} P (m : M W A) o : computes m o -> emits P m.
Proof. intros Hm c. destruct (Hm c) as [n ->]. exists []. split; [by apply calls_nil|done]. Qed.
(** What follows code that only computes may be checked at its result. *)
Lemma emits_computes_bind `{Client W} {A B} P (m : M W A) (f : A -> M W B) o :
  computes m o -> (forall a, o = Ret a -> emits P (f a)) -> emits P (m ≫= f).
Proof.
  intros Hm Hf c. destruct (Hm c) as [n E]. unfold mbind, M_bind. rewrite E.
  destruct o as [a|]; [|exists []; split; [by apply calls_nil|done]].
  destruct (Hf a eq_refl (bump n c)) as (l & Hl & HP). by exists l.
Qed.
Lemma traces_computes_bind `{Client W} {A B} P seen (m : M W A) (f : A -> M W B) o Q :
  computes m o -> (forall a, o = Ret a -> traces P seen (f a) Q) -> traces P seen (m ≫= f) Q.
Proof.
  intros Hm Hf c. destruct (Hm c) as [n E]. unfold mbind, M_bind. rewrite E.
  destruct o as [a|]; [|exists []; rewrite app_nil_r; split; [by apply calls_nil|done]].
  destruct (Hf a eq_refl (bump n c)) as (l & Hl & HP). by exists l.
Qed.
End computes.

(** Filling a map from a list of entries whose keys are distinct. *)
Section set_all.
Context {A V : Type} (f : A -> V).
Fixpoint set_all (l : list (string * A)) (m : gomap V) : outcome (gomap V) :=
  match l with
  | [] => Ret m
  | (k, v) :: rest => m' ← mset m k (f v); set_all rest m'
  end.

Lemma set_all_Some l g :
  NoDup l.*1 -> set_all l (Some g) = Ret (Some (list_to_map (prod_map id f <$> l) ∪ g)).
Proof.
  revert g. induction l as [|[k v] l IH]; intros g Hnd; simpl.
  { by rewrite (left_id_L ∅ (∪)). }
  rewrite fmap_cons in Hnd. apply NoDup_cons in Hnd as [Hk Hnd]. rewrite IH by done.
  do 2 f_equal. rewrite <- insert_union_l. symmetry. apply insert_union_r.
  apply not_elem_of_list_to_map. rewrite <- list_fmap_compose. simpl in Hk.
  intros (p & -> & Hp)%list_elem_of_fmap. apply Hk, list_elem_of_fmap. by exists p.
Qed.

Lemma list_to_map_range (m : gmap string A) l :
  l ≡ₚ map_to_list m -> list_to_map (prod_map id f <$> l) = f <$> m.
Proof.
  intros Hl. assert (Hnd : NoDup l.*1) by (rewrite Hl; apply NoDup_fst_map_to_list).
  apply map_eq. intros k. rewrite lookup_fmap.
  destruct (m !! k) as [v|] eqn:E; simpl.
  - apply elem_of_list_to_map.
    + rewrite <- list_fmap_compose. by rewrite (list_fmap_ext _ fst l) by (intros ? [] ?; done).
    + apply list_elem_of_fmap. exists (k, v). split; [done|]. rewrite Hl. by apply elem_of_map_to_list.
  - apply not_elem_of_list_to_map. rewrite <- list_fmap_compose.
    intros ([k' v] & Hk & Hp)%list_elem_of_fmap. simpl in Hk. subst k'. rewrite Hl in Hp.
    apply elem_of_map_to_list in Hp. by rewrite E in Hp.
Qed.
Lemma set_all_map_to_list (m : gmap string A) l g :
  l ≡ₚ map_to_list m -> set_all l (Some g) = Ret (Some ((f <$> m) ∪ g)).
Proof.
  intros Hl. rewrite set_all_Some by (rewrite Hl; apply NoDup_fst_map_to_list).
  by rewrite (list_to_map_range m).
Qed.
End set_all.
