(* ===== verification/VirtualServiceHandler.v ===== *)
(** * The virtual-service handler (pkg/handlers/virtualservice_handler.go)

    The handler edits virtual services it does not own: in front of every route
    that sends traffic to the default version it puts copies, one per match,
    that send the matching requests to the new version.

    [locateVirtualServicesByServiceHost] returns pointers: the same virtual
    service may be listed twice, and an update through one pointer is seen
    through the other.  The pointed-to objects are a list (the store), pointers
    are indices into it. *)

From stdpp Require Import base gmap sets list strings.
From S2P Require Import Prelude GoStrings Sha256 K8s Types Helpers Watches Client StatusManager Model.

(** [fmt]'s [%v] of a route, the generated [String] method of the Istio API. *)
Class RoutePrinter := route_String : HTTPRoute -> string.

Record VirtualServiceHandler := mkVirtualServiceHandler {
  vh_Identifier : NamespacedName;
  vh_UniqueName : string;
  vh_UniqueVersion : string;
  vh_Namespace : string;
  vh_SubsetName : string;
  vh_RoutePrefix : string;
  vh_ServiceHosts : list string;
  vh_DefaultVersion : string;
  vh_Matches : list IstioMatch;
  vh_activeHosts : list string;
  vh_virtualServices : gmap string (list NamespacedName);
}.
Definition vh_set_hosts (active : list string) (vss : gmap string (list NamespacedName))
    (h : VirtualServiceHandler) : VirtualServiceHandler :=
  mkVirtualServiceHandler (vh_Identifier h) (vh_UniqueName h) (vh_UniqueVersion h) (vh_Namespace h)
    (vh_SubsetName h) (vh_RoutePrefix h) (vh_ServiceHosts h) (vh_DefaultVersion h) (vh_Matches h)
    active vss.

Definition NewVirtualServiceHandler (subsetData : DynamicEnvReconcileData) (serviceHosts : list string)
    (defaultVersion : string) : VirtualServiceHandler :=
  let uniqueVersion := UniqueDynamicEnvName (rd_Identifier subsetData) in
  let uniqueName := MkSubsetUniqueName (s_Name (rd_Subset subsetData)) uniqueVersion in
  {| vh_Identifier := rd_Identifier subsetData;
     vh_UniqueName := uniqueName;
     vh_UniqueVersion := uniqueVersion;
     vh_Namespace := s_Namespace (rd_Subset subsetData);
     vh_SubsetName := MKSubsetName (rd_Subset subsetData);
     vh_RoutePrefix := CalculateVirtualServicePrefix uniqueVersion (s_Name (rd_Subset subsetData));
     vh_ServiceHosts := serviceHosts;
     vh_DefaultVersion := defaultVersion;
     vh_Matches := rd_Matches subsetData;
     vh_activeHosts := [];
     vh_virtualServices := ∅ |}.

(** ** Routes *)
Definition routesConfiguredWithDynamicEnvRoutes (routes : list HTTPRoute) (prefix : string) : bool :=
  existsb (fun r => HasPrefix (hr_Name r) prefix) routes.

(** [dest.Host] with a nil destination panics. *)
Fixpoint routeDestinationsMatchesServiceHost (h : VirtualServiceHandler) (serviceHost : string)
    (routes : list HTTPRouteDestination) (inNamespace : string) : outcome bool :=
  match routes with
  | [] => Ret false
  | route :: rest =>
      match rd_Destination route with
      | None => Panic
      | Some dest =>
          if MatchNamespacedHost serviceHost (vh_Namespace h) (dst_Host dest) inNamespace
             && bool_decide (dst_Subset dest = vh_DefaultVersion h)
          then Ret true
          else routeDestinationsMatchesServiceHost h serviceHost rest inNamespace
      end
  end.

Fixpoint filterRouteDestinationByHost (h : VirtualServiceHandler) (destinations : list HTTPRouteDestination)
    (serviceHost inNamespace : string) : outcome (list HTTPRouteDestination) :=
  match destinations with
  | [] => Ret []
  | d :: rest =>
      match rd_Destination d with
      | None => Panic
      | Some dest =>
          newDestinations ← filterRouteDestinationByHost h rest serviceHost inNamespace;
          if MatchNamespacedHost serviceHost (vh_Namespace h) (dst_Host dest) inNamespace
             && bool_decide (dst_Subset dest = vh_DefaultVersion h)
          then Ret (d :: newDestinations)
          else Ret newDestinations
      end
  end.

Definition safeApplyResponseHeaders (headers : Headers) (key value : string) : Headers :=
  let response := default (mkHeaderOperations None "") (hd_Response headers) in
  let currentResponseSet := mread (ho_Add response) in
  mkHeaders (Some (mkHeaderOperations (Some (<[key := value]> currentResponseSet)) (ho_other response)))
    (hd_other headers).

(** The loop body over the kept destinations. *)
Definition retarget (h : VirtualServiceHandler) (rd : HTTPRouteDestination) : outcome HTTPRouteDestination :=
  match rd_Destination rd with
  | None => Panic
  | Some d =>
      Ret (mkHTTPRouteDestination
             (Some (mkDestination (dst_Host d) (vh_UniqueVersion h) (dst_other d))) 0
             (Some (safeApplyResponseHeaders (default (mkHeaders None "") (rd_Headers rd))
                      "x-dynamic-env" (vh_UniqueName h))))
  end.
Fixpoint retarget_all (h : VirtualServiceHandler) (rds : list HTTPRouteDestination) :
    outcome (list HTTPRouteDestination) :=
  match rds with
  | [] => Ret []
  | rd :: rest => rd' ← retarget h rd; rest' ← retarget_all h rest; Ret (rd' :: rest')
  end.

(** [v] as an Istio [StringMatch]. *)
Definition istio_match (v : StringMatch) : StringMatch_MatchType :=
  if decide (sm_Exact v <> "") then StringMatch_Exact (sm_Exact v)
  else if decide (sm_Prefix v <> "") then StringMatch_Prefix (sm_Prefix v)
  else StringMatch_Regex (sm_Regex v).

(** The lister's answers as a store of objects, and pointers into it. *)
Record located := mkLocated { lc_store : list VirtualService; lc_refs : list nat }.

Definition toNamespacedName (services : list VirtualService) : list NamespacedName :=
  map (fun s => mkNN (vs_Namespace s) (vs_Name s)) services.

Section handler.
Context {W : Type} `{Client W} `{MapOrder} `{RoutePrinter}.
Implicit Types (h : VirtualServiceHandler).

(** ** Building the copies *)
Definition populate_match (match_ : IstioMatch) (m : HTTPMatchRequest) : M W HTTPMatchRequest :=
  let headers := if bool_decide (0 < size (mread (im_Headers match_))) && bool_decide (hm_Headers m = None)
                 then Some ∅ else hm_Headers m in
  let labels := if bool_decide (0 < size (mread (im_SourceLabels match_))) && bool_decide (hm_SourceLabels m = None)
                then Some ∅ else hm_SourceLabels m in
  l ← range (mread (im_Headers match_));
  headers ← lift (set_all istio_match l headers);
  l ← range (mread (im_SourceLabels match_));
  labels ← lift (set_all id l labels);
  mret (mkHTTPMatchRequest headers labels (hm_other m)).
Fixpoint populate_matches (match_ : IstioMatch) (ms : list HTTPMatchRequest) : M W (list HTTPMatchRequest) :=
  match ms with
  | [] => mret []
  | m :: rest =>
      m' ← populate_match match_ m;
      rest' ← populate_matches match_ rest;
      mret (m' :: rest')
  end.

(** [route] is the deep copy of an original route. *)
Definition populateRouteWithSubsetData h (route : HTTPRoute) (serviceHost : string)
    (match_ : IstioMatch) (inNamespace : string) : M W (result error HTTPRoute) :=
  newRouteDestinations ← lift (filterRouteDestinationByHost h (hr_Route route) serviceHost inNamespace);
  if decide (length newRouteDestinations = 0) then mret (Err IgnoredMissing)
  else
    newRouteDestinations ← lift (retarget_all h newRouteDestinations);
    let matches := if decide (length (hr_Match route) = 0) then [empty_HTTPMatchRequest] else hr_Match route in
    matches ← populate_matches match_ matches;
    let route := mkHTTPRoute (hr_Name route) matches newRouteDestinations (hr_Delegate route) (hr_other route) in
    let newRuleHash := AsSha256 (route_String route) in
    mret (Ok (mkHTTPRoute (vh_RoutePrefix h +:+ "-" +:+ Shorten newRuleHash 10)
                matches newRouteDestinations (hr_Delegate route) (hr_other route))).

(** The loops of [updateVirtualService]. *)
Fixpoint copies h (r : HTTPRoute) (serviceHost : string) (matches : list IstioMatch) (inNamespace : string) :
    M W (result error (list HTTPRoute)) :=
  match matches with
  | [] => mret (Ok [])
  | match_ :: rest =>
      res ← populateRouteWithSubsetData h r serviceHost match_ inNamespace;
      match res with
      | Err e => mret (Err e)
      | Ok ourSubsetRoute =>
          more ← copies h r serviceHost rest inNamespace;
          match more with
          | Err e => mret (Err e)
          | Ok l => mret (Ok (ourSubsetRoute :: l))
          end
      end
  end.
Fixpoint build_routes h (http : list HTTPRoute) (serviceHost inNamespace : string) :
    M W (result error (list HTTPRoute)) :=
  match http with
  | [] => mret (Ok [])
  | r :: rest =>
      if HasPrefix (hr_Name r) (vh_RoutePrefix h) then build_routes h rest serviceHost inNamespace
      else
        matched ← lift (routeDestinationsMatchesServiceHost h serviceHost (hr_Route r) inNamespace);
        ours ← (if matched : bool then copies h r serviceHost (vh_Matches h) inNamespace else mret (Ok []));
        match ours with
        | Err e => mret (Err e)
        | Ok ours =>
            more ← build_routes h rest serviceHost inNamespace;
            match more with
            | Err e => mret (Err e)
            | Ok l => mret (Ok (ours ++ r :: l))
            end
        end
  end.

(** Returns the object as the caller sees it afterwards, and the error. *)
Definition updateVirtualService h (service : VirtualService) (serviceHost : string) :
    M W (VirtualService * option error) :=
  let prefix := vh_RoutePrefix h in
  if routesConfiguredWithDynamicEnvRoutes (vs_Http service) prefix then mret (service, None)
  else
    let newStatus := mkResourceStatus (vs_Name service) (vs_Namespace service) "" in
    err ← AddVirtualServiceStatusEntry (vh_SubsetName h) newStatus;
    match err with
    | Some err => mret (service, Some err)
    | None =>
        newRoutes ← build_routes h (vs_Http service) serviceHost (vs_Namespace service);
        match newRoutes with
        | Err err => mret (service, Some err)
        | Ok newRoutes =>
            let service := AddToAnnotation (vh_Identifier h) (vs_set_Http newRoutes service) in
            r ← call (UpdateVirtualService service);
            match r with
            | Err err => mret (service, Some err)
            | Ok stored => mret (stored, None)
            end
        end
    end.

(** ** Locating the virtual services *)
Fixpoint resolve_loop h (serviceHost : string) (routes : list HTTPRoute) (namespace : string)
    (useSelf : bool) (delegated : list Delegate) : outcome (bool * list Delegate) :=
  match routes with
  | [] => Ret (useSelf, delegated)
  | r :: rest =>
      let delegated := match hr_Delegate r with Some d => delegated ++ [d] | None => delegated end in
      matched ← routeDestinationsMatchesServiceHost h serviceHost (hr_Route r) namespace;
      resolve_loop h serviceHost rest namespace (useSelf || matched) delegated
  end.
Definition resolveVirtualServices h (serviceHost : string) (service : VirtualService) :
    outcome (bool * list Delegate) :=
  resolve_loop h serviceHost (vs_Http service) (vs_Namespace service) false [].

(** A found delegate is a listed object or a fetched one. *)
Inductive delegate_ref := Listed (idx : nat) | Fetched (v : VirtualService).

Fixpoint find_listed (delegate : Delegate) (services : list VirtualService) (idx : nat) : option nat :=
  match services with
  | [] => None
  | s :: rest =>
      if bool_decide (dl_Name delegate = vs_Name s) && bool_decide (dl_Namespace delegate = vs_Namespace s)
      then Some idx else find_listed delegate rest (S idx)
  end.

Definition extractServiceFromDelegate h (delegate : Delegate) (services : list VirtualService) :
    M W (result error (option delegate_ref)) :=
  match find_listed delegate services 0 with
  | Some idx => mret (Ok (Some (Listed idx)))
  | None =>
      let msg := "Wierd, Couldn't find a service with name: " +:+ dl_Name delegate +:+ ", namespace: "
                 +:+ dl_Namespace delegate +:+ ", in the service list" in
      _ ← AddGlobalVirtualServiceError (vh_SubsetName h) msg;
      r ← call (GetVirtualService (mkNN (dl_Namespace delegate) (dl_Name delegate)));
      match r with
      | Ok s => mret (Ok (Some (Fetched s)))
      | Err err =>
          if IsNotFound err then
            let msg := "Delegate (" +:+ dl_Namespace delegate +:+ "/" +:+ dl_Name delegate +:+ ") not found" in
            err ← AddGlobalVirtualServiceError (vh_SubsetName h) msg;
            match err with
            | Some err =>
                if negb (IsConflict (Some err))
                then mret (Err (Wrapf "failed to write global virtual service error" err))
                else mret (Ok None)
            | None => mret (Ok None)
            end
          else mret (Err (Wrapf ("error while loading delegate '" +:+ dl_Namespace delegate +:+ "/"
                                 +:+ dl_Name delegate +:+ "'") err))
      end
  end.

Fixpoint add_delegates h (items : list VirtualService) (delegated : list Delegate) (lc : located) :
    M W (located * option error) :=
  match delegated with
  | [] => mret (lc, None)
  | d :: rest =>
      found ← extractServiceFromDelegate h d items;
      match found with
      | Err err => mret (lc, Some err)
      | Ok None => add_delegates h items rest lc
      | Ok (Some (Listed idx)) => add_delegates h items rest (mkLocated (lc_store lc) (lc_refs lc ++ [idx]))
      | Ok (Some (Fetched v)) =>
          add_delegates h items rest
            (mkLocated (lc_store lc ++ [v]) (lc_refs lc ++ [length (lc_store lc)]))
      end
  end.
Fixpoint locate_hosts h (serviceHost : string) (items : list VirtualService) (idx : nat)
    (service : VirtualService) (hosts : list string) (lc : located) : M W (located * option error) :=
  match hosts with
  | [] => mret (lc, None)
  | host :: rest =>
      if MatchNamespacedHost serviceHost (vh_Namespace h) host (vs_Namespace service) then
        sd ← lift (resolveVirtualServices h serviceHost service);
        let '(useSelf, delegated) := sd in
        let lc := if useSelf : bool then mkLocated (lc_store lc) (lc_refs lc ++ [idx]) else lc in
        res ← add_delegates h items delegated lc;
        let '(lc, err) := res in
        match err with
        | Some err => mret (lc, Some err)
        | None => locate_hosts h serviceHost items idx service rest lc
        end
      else locate_hosts h serviceHost items idx service rest lc
  end.
Fixpoint locate_loop h (serviceHost : string) (items : list VirtualService) (idx : nat)
    (services : list VirtualService) (lc : located) : M W (located * option error) :=
  match services with
  | [] => mret (lc, None)
  | service :: rest =>
      res ← locate_hosts h serviceHost items idx service (vs_Hosts service) lc;
      let '(lc, err) := res in
      match err with
      | Some err => mret (lc, Some err)
      | None => locate_loop h serviceHost items (S idx) rest lc
      end
  end.
Definition locateVirtualServicesByServiceHost h (serviceHost : string) : M W (located * option error) :=
  r ← call ListVirtualServices;
  match r with
  | Err err =>
      mret (mkLocated [] [], Some (Wrapf ("error locating virtual services for app host '"
                                   +:+ fmt_strings (vh_ServiceHosts h) +:+ "'") err))
  | Ok items => locate_loop h serviceHost items 0 items (mkLocated items [])
  end.

(** ** Handle *)

(** Update through each pointer in turn; the store carries the changes. *)
Fixpoint update_refs h (serviceHost : string) (store : list VirtualService) (refs : list nat)
    (atLeastOne : bool) : M W (list VirtualService * bool) :=
  match refs with
  | [] => mret (store, atLeastOne)
  | i :: rest =>
      match store !! i with
      | None => panic
      | Some service =>
          res ← updateVirtualService h service serviceHost;
          let '(service, err) := res in
          let store := <[i := service]> store in
          match err with
          | Some _ => update_refs h serviceHost store rest atLeastOne
          | None => update_refs h serviceHost store rest true
          end
      end
  end.
Definition deref (store : list VirtualService) (refs : list nat) : list VirtualService :=
  omap (fun i => store !! i) refs.

Fixpoint handle_hosts h (hosts : list string) : M W (VirtualServiceHandler * option error) :=
  match hosts with
  | [] => mret (h, None)
  | serviceHost :: rest =>
      res ← locateVirtualServicesByServiceHost h serviceHost;
      let '(lc, err) := res in
      match err with
      | Some err => mret (h, Some err)
      | None =>
          let services := deref (lc_store lc) (lc_refs lc) in
          let h := vh_set_hosts (vh_activeHosts h)
                     (<[serviceHost := toNamespacedName services]> (vh_virtualServices h)) h in
          res ← update_refs h serviceHost (lc_store lc) (lc_refs lc) false;
          let '(_, atLeastOneVirtualServicePerHostnameExists) := res in
          let h := if atLeastOneVirtualServicePerHostnameExists : bool
                   then vh_set_hosts (vh_activeHosts h ++ [serviceHost]) (vh_virtualServices h) h
                   else h in
          handle_hosts h rest
      end
  end.
Definition VirtualServiceHandler_Handle h : M W (VirtualServiceHandler * option error) :=
  let h := vh_set_hosts (vh_activeHosts h) ∅ h in
  res ← handle_hosts h (vh_ServiceHosts h);
  let '(h, err) := res in
  match err with
  | Some err => mret (h, Some err)
  | None =>
      if decide (length (vh_activeHosts h) = 0)
      then mret (h, Some (ErrorS ("could not find even one virtual service that handles subset "
                                  +:+ Quote (vh_SubsetName h))))
      else mret (h, None)
  end.

(** ** Status *)
Definition getStatusForService h (vs : VirtualService) : ResourceStatus :=
  if routesConfiguredWithDynamicEnvRoutes (vs_Http vs) (vh_RoutePrefix h)
  then mkResourceStatus (vs_Name vs) (vs_Namespace vs) Running
  else mkResourceStatus (vs_Name vs) (vs_Namespace vs) IgnoredMissingVS.

Fixpoint fetch_services (nns : list NamespacedName) : M W (result error (list VirtualService)) :=
  match nns with
  | [] => mret (Ok [])
  | nn :: rest =>
      r ← call (GetVirtualService nn);
      match r with
      | Err err => mret (Err (Wrapf "fetching virtual service for status" err))
      | Ok found =>
          more ← fetch_services rest;
          match more with
          | Err e => mret (Err e)
          | Ok l => mret (Ok (found :: l))
          end
      end
  end.
Definition VirtualServiceHandler_GetStatus h : M W (result error (list ResourceStatus)) :=
  services ← fetch_services (concat (map (fun sh => default [] (vh_virtualServices h !! sh)) (vh_ServiceHosts h)));
  match services with
  | Err e => mret (Err e)
  | Ok services => mret (Ok (map (getStatusForService h) services))
  end.

Fixpoint VirtualServiceHandler_ApplyStatus h (statuses : list ResourceStatus) : M W (option error) :=
  match statuses with
  | [] => mret None
  | rs :: rest =>
      err ← AddVirtualServiceStatusEntry (vh_SubsetName h) rs;
      match err with
      | Some err => mret (Some err)
      | None => VirtualServiceHandler_ApplyStatus h rest
      end
  end.

Definition VirtualServiceHandler_GetHosts h : list string := vh_activeHosts h.

(** The handler as an [MRHandler]. *)
Definition VirtualServiceHandler_MR h : MRHandler W :=
  mkMRHandler (VirtualServiceHandler_GetStatus h) (VirtualServiceHandler_ApplyStatus h)
    (vh_SubsetName h) (VirtualServiceHandler_GetHosts h).
End handler.
