(* ===== verification/VirtualServiceRouting.v ===== *)
(** * What the virtual-service handler does to routing

    A reference version of the edit of one virtual service, a function of its
    routes with no map iteration, no allocation and no error branch; the proof
    that the handler computes it; and what it means for requests: nothing
    changes for a request that no match of the environment accepts, and an
    accepted one that went to the default version goes to the new one. *)

From stdpp Require Import base gmap sets list strings.
From S2P Require Import Prelude GoStrings Sha256 K8s Types Helpers Watches Client FakeCluster StatusManager Model VirtualServiceHandler.

(** ** The reference *)

(** Adding the entries of a non-empty map to a possibly nil one. *)
Definition merge_entries {V} (new : gmap string V) (old : gomap V) : gomap V :=
  if bool_decide (0 < size new) then Some (new ∪ mread old) else old.
Definition merge_match (im : IstioMatch) (m : HTTPMatchRequest) : HTTPMatchRequest :=
  mkHTTPMatchRequest (merge_entries (istio_match <$> mread (im_Headers im)) (hm_Headers m))
    (merge_entries (mread (im_SourceLabels im)) (hm_SourceLabels m)) (hm_other m).
(** No match block means one block that matches everything. *)
Definition match_blocks (r : HTTPRoute) : list HTTPMatchRequest :=
  match hr_Match r with [] => [empty_HTTPMatchRequest] | l => l end.

Section reference.
Context `{RoutePrinter} (h : VirtualServiceHandler) (serviceHost inNamespace : string).

(** The destinations the environment takes over. *)
Definition taken (rd : HTTPRouteDestination) : bool :=
  match rd_Destination rd with
  | Some d => MatchNamespacedHost serviceHost (vh_Namespace h) (dst_Host d) inNamespace
              && bool_decide (dst_Subset d = vh_DefaultVersion h)
  | None => false
  end.
Definition targeted (r : HTTPRoute) : bool := existsb taken (hr_Route r).
Definition retargeted (rd : HTTPRouteDestination) : HTTPRouteDestination :=
  mkHTTPRouteDestination
    ((fun d => mkDestination (dst_Host d) (vh_UniqueVersion h) (dst_other d)) <$> rd_Destination rd) 0
    (Some (safeApplyResponseHeaders (default (mkHeaders None "") (rd_Headers rd))
             "x-dynamic-env" (vh_UniqueName h))).
Definition our_destinations (r : HTTPRoute) : list HTTPRouteDestination :=
  map retargeted (filter (fun rd => taken rd = true) (hr_Route r)).
Definition copy_of (r : HTTPRoute) (im : IstioMatch) : HTTPRoute :=
  let matches := map (merge_match im) (match_blocks r) in
  let dests := our_destinations r in
  let printed := route_String (mkHTTPRoute (hr_Name r) matches dests (hr_Delegate r) (hr_other r)) in
  mkHTTPRoute (vh_RoutePrefix h +:+ "-" +:+ Shorten (AsSha256 printed) 10)
    matches dests (hr_Delegate r) (hr_other r).
Definition copies_of (r : HTTPRoute) : list HTTPRoute :=
  if targeted r then map (copy_of r) (vh_Matches h) else [].

Definition ours (r : HTTPRoute) : bool := HasPrefix (hr_Name r) (vh_RoutePrefix h).
(** Every destination is there. *)
Definition well_formed (r : HTTPRoute) : Prop :=
  Forall (fun rd => is_Some (rd_Destination rd)) (hr_Route r).
#[export] Instance well_formed_dec r : Decision (well_formed r).
Proof. unfold well_formed. apply _. Defined.

(** The routes of the updated service. *)
Definition new_routes (http : list HTTPRoute) : list HTTPRoute :=
  r ← filter (fun r => ours r = false) http; copies_of r ++ [r].
End reference.

(** ** The handler computes the reference *)
Section computes.
Context {W : Type} `{Client W} `{MapOrder} `{RoutePrinter}.
Implicit Types (h : VirtualServiceHandler).

Lemma taken_Some h sh ns rd d :
  rd_Destination rd = Some d ->
  taken h sh ns rd = MatchNamespacedHost sh (vh_Namespace h) (dst_Host d) ns
                     && bool_decide (dst_Subset d = vh_DefaultVersion h).
Proof. unfold taken. by intros ->. Qed.
Lemma matches_existsb h sh rds ns :
  Forall (fun rd => is_Some (rd_Destination rd)) rds ->
  routeDestinationsMatchesServiceHost h sh rds ns = Ret (existsb (taken h sh ns) rds).
Proof.
  induction 1 as [|rd rds [d Hd] _ IH]; simpl; [done|].
  rewrite (taken_Some _ _ _ _ _ Hd), Hd, IH. by destruct (_ && _).
Qed.
Lemma filter_taken h sh rds ns :
  Forall (fun rd => is_Some (rd_Destination rd)) rds ->
  filterRouteDestinationByHost h rds sh ns = Ret (filter (fun rd => taken h sh ns rd = true) rds).
Proof.
  induction 1 as [|rd rds [d Hd] _ IH]; simpl; [done|]. rewrite Hd, IH. simpl.
  rewrite filter_cons. rewrite (taken_Some _ _ _ _ _ Hd).
  by destruct (_ && _).
Qed.
Lemma retarget_all_map h rds :
  Forall (fun rd => is_Some (rd_Destination rd)) rds ->
  retarget_all h rds = Ret (map (retargeted h) rds).
Proof.
  induction 1 as [|rd rds [d Hd] _ IH]; simpl; [done|].
  unfold retarget, retargeted at 1. rewrite Hd. simpl. by rewrite IH.
Qed.

(** The loop over the entries of [f <$> m], whatever its order. *)
Lemma computes_set_entries {A V B} (f : A -> V) (m : gmap string A) (g : gomap V) (k : gomap V -> M W B) o :
  computes (k (merge_entries (f <$> m) g)) o ->
  computes (l ← range m;
            g' ← lift (set_all f l (if bool_decide (0 < size m) && bool_decide (g = None) then Some ∅ else g));
            k g') o.
Proof.
  intros Hk. apply computes_range. intros l Hl.
  assert (set_all f l (if bool_decide (0 < size m) && bool_decide (g = None) then Some ∅ else g)
          = Ret (merge_entries (f <$> m) g)) as ->.
  { unfold merge_entries. rewrite map_size_fmap. case_bool_decide as Hsz; simpl.
    - case_bool_decide as Hg.
      + subst g. by rewrite (set_all_map_to_list f m l ∅).
      + destruct g as [g|]; [|done]. by rewrite (set_all_map_to_list f m l g).
    - assert (m = ∅) as -> by (apply map_size_empty_inv; lia).
      rewrite map_to_list_empty in Hl. by apply Permutation_nil_r in Hl as ->. }
  intros c. destruct (Hk c) as [n E]. exists n. done.
Qed.

Lemma computes_populate_match im m : computes (W:=W) (populate_match im m) (Ret (merge_match im m)).
Proof.
  unfold populate_match. apply computes_set_entries.
  apply (computes_set_entries (@id string)). rewrite map_fmap_id. apply computes_ret.
Qed.
Lemma computes_populate_matches im ms :
  computes (W:=W) (populate_matches im ms) (Ret (map (merge_match im) ms)).
Proof.
  induction ms as [|m ms IH]; simpl; [apply computes_ret|].
  eapply computes_bind_ret; [apply computes_populate_match|].
  eapply computes_bind_ret; [done|]. apply computes_ret.
Qed.

(** A nil destination panics, unless the loop stops before it. *)
Lemma filter_panics h sh rds ns :
  ~ Forall (fun rd => is_Some (rd_Destination rd)) rds -> filterRouteDestinationByHost h rds sh ns = Panic.
Proof.
  induction rds as [|rd rds IH]; intros Hn; simpl; [by destruct Hn|].
  destruct (rd_Destination rd) as [d|] eqn:E; [|done].
  rewrite IH; [done|]. intros Hf. apply Hn. constructor; [by rewrite E|done].
Qed.
Definition own_copies h sh ns (r : HTTPRoute) : outcome (list HTTPRoute) :=
  matched ← routeDestinationsMatchesServiceHost h sh (hr_Route r) ns;
  if matched : bool then
    if decide (vh_Matches h <> [] /\ ~ well_formed r) then Panic
    else Ret (map (copy_of h sh ns r) (vh_Matches h))
  else Ret [].
Fixpoint edit_routes h sh ns (http : list HTTPRoute) : outcome (list HTTPRoute) :=
  match http with
  | [] => Ret []
  | r :: rest =>
      if ours h r then edit_routes h sh ns rest
      else own ← own_copies h sh ns r;
           more ← edit_routes h sh ns rest;
           Ret (own ++ r :: more)
  end.

Lemma matched_targeted h sh ns rds :
  routeDestinationsMatchesServiceHost h sh rds ns = Ret true -> existsb (taken h sh ns) rds = true.
Proof.
  induction rds as [|rd rds IH]; simpl; [done|].
  destruct (rd_Destination rd) as [d|] eqn:E; [|done]. rewrite (taken_Some _ _ _ _ _ E).
  destruct (_ && _); [done|]. apply IH.
Qed.
Lemma taken_filter_nonempty h sh ns rds :
  existsb (taken h sh ns) rds = true -> length (filter (fun rd => taken h sh ns rd = true) rds) <> 0.
Proof.
  intros (rd & Hin & Ht)%existsb_elem.
  assert (Hf : rd ∈ filter (fun rd => taken h sh ns rd = true) rds) by by apply list_elem_of_filter.
  by destruct (filter _ _); [apply not_elem_of_nil in Hf|].
Qed.

(** The error branch of [populateRouteWithSubsetData] is dead where it is called. *)
Lemma computes_populate h r sh im ns :
  routeDestinationsMatchesServiceHost h sh (hr_Route r) ns = Ret true ->
  computes (W:=W) (populateRouteWithSubsetData h r sh im ns)
    (if decide (well_formed r) then Ret (Ok (copy_of h sh ns r im)) else Panic).
Proof.
  intros Hm%matched_targeted. unfold populateRouteWithSubsetData.
  destruct (decide (well_formed r)) as [Hwf|Hwf].
  2: { rewrite (filter_panics h sh _ ns Hwf). intros c. exists 0. by rewrite bump_0. }
  rewrite (filter_taken h sh _ ns Hwf).
  eapply computes_bind_ret; [apply computes_lift|].
  rewrite decide_False by by apply taken_filter_nonempty.
  rewrite (retarget_all_map h (filter (fun rd => taken h sh ns rd = true) (hr_Route r)))
    by by apply Forall_filter.
  eapply computes_bind_ret; [apply computes_lift|]. cbv zeta.
  assert ((if decide (length (hr_Match r) = 0) then [empty_HTTPMatchRequest] else hr_Match r)
          = match_blocks r) as ->.
  { unfold match_blocks. by destruct (hr_Match r). }
  eapply computes_bind_ret; [apply computes_populate_matches|]. apply (computes_ret (Ok _)).
Qed.
Lemma computes_copies h r sh ms ns :
  routeDestinationsMatchesServiceHost h sh (hr_Route r) ns = Ret true ->
  computes (W:=W) (copies h r sh ms ns)
    (if decide (ms <> [] /\ ~ well_formed r) then Panic else Ret (Ok (map (copy_of h sh ns r) ms))).
Proof.
  intros Hm. induction ms as [|im ms IH].
  { rewrite decide_False by naive_solver. apply (computes_ret (Ok _)). }
  cbn [copies map]. pose proof (computes_populate h r sh im ns Hm) as Hp.
  destruct (decide (well_formed r)) as [Hwf|Hwf].
  - rewrite decide_False by naive_solver. rewrite decide_False in IH by naive_solver.
    eapply computes_bind_ret; [done|]. eapply computes_bind_ret; [done|]. apply (computes_ret (Ok _)).
  - rewrite decide_True by naive_solver. by apply computes_bind_panic.
Qed.
Lemma computes_own_copies h r sh ns matched :
  routeDestinationsMatchesServiceHost h sh (hr_Route r) ns = Ret matched ->
  computes (W:=W) (if matched then copies h r sh (vh_Matches h) ns else mret (Ok []))
    (Ok <$> own_copies h sh ns r).
Proof.
  intros Hm. unfold own_copies. rewrite Hm. simpl. destruct matched; [|apply (computes_ret (Ok _))].
  pose proof (computes_copies h r sh (vh_Matches h) ns Hm) as Hc.
  by destruct (decide (vh_Matches h <> [] /\ ~ well_formed r)).
Qed.
Lemma computes_build h http sh ns :
  computes (W:=W) (build_routes h http sh ns) (Ok <$> edit_routes h sh ns http).
Proof.
  induction http as [|r http IH]; simpl; [apply (computes_ret (Ok _))|].
  unfold ours. destruct (HasPrefix _ _); [done|].
  destruct (routeDestinationsMatchesServiceHost h sh (hr_Route r) ns) as [matched|] eqn:Hm.
  2: { unfold own_copies. rewrite Hm. apply computes_bind_panic, computes_lift. }
  eapply computes_bind_ret; [apply computes_lift|].
  pose proof (computes_own_copies h r sh ns matched Hm) as Hown.
  destruct (own_copies h sh ns r) as [own|]; simpl in *; [|by apply computes_bind_panic].
  eapply computes_bind_ret; [done|]. simpl.
  destruct (edit_routes h sh ns http) as [l|]; simpl in *; [|by apply computes_bind_panic].
  eapply computes_bind_ret; [done|]. apply (computes_ret (Ok _)).
Qed.
End computes.

(** ** Facts about the edited routes *)
Section edited.
Context `{RoutePrinter}.
Implicit Types (h : VirtualServiceHandler).

Lemma copy_ours h sh ns r im : ours h (copy_of h sh ns r im) = true.
Proof. apply HasPrefix_app. Qed.
Lemma edit_cons h sh ns r rest l :
  edit_routes h sh ns (r :: rest) = Ret l -> ours h r = false ->
  exists own more, own_copies h sh ns r = Ret own /\ edit_routes h sh ns rest = Ret more /\
    l = own ++ r :: more.
Proof.
  simpl. intros E Ho. rewrite Ho in E. simpl_outcome. eauto.
Qed.
Lemma own_copies_elem h sh ns r own :
  own_copies h sh ns r = Ret own ->
  own = [] \/ targeted h sh ns r = true /\ own = map (copy_of h sh ns r) (vh_Matches h).
Proof.
  unfold own_copies. destruct (routeDestinationsMatchesServiceHost _ _ _ _) as [[]|] eqn:E; simpl;
    [|naive_solver|done].
  case_decide; [done|]. intros [= <-]. right. split; [|done]. by apply matched_targeted.
Qed.

(** The routes that are not ours are all kept, in order. *)
Lemma edit_keeps h sh ns http l :
  edit_routes h sh ns http = Ret l ->
  filter (fun r => ours h r = false) l = filter (fun r => ours h r = false) http.
Proof.
  revert l. induction http as [|r http IH]; intros l E; [by injection E as <-|].
  rewrite filter_cons. destruct (ours h r) eqn:Ho.
  { simpl in *. rewrite Ho in E. by apply IH. }
  destruct (edit_cons _ _ _ _ _ _ E Ho) as (own & more & Hown & Hmore & ->).
  rewrite filter_app, filter_cons, Ho, (IH _ Hmore). rewrite !decide_True by done.
  rewrite filter_none; [done|]. intros x Hx.
  apply own_copies_elem in Hown as [->|[_ ->]]; [by apply not_elem_of_nil in Hx|].
  apply list_elem_of_fmap in Hx as (im & -> & _). by rewrite copy_ours.
Qed.
(** Every other route is a copy. *)
Lemma edit_copies h sh ns http l x :
  edit_routes h sh ns http = Ret l -> x ∈ l -> ours h x = true ->
  exists r im, r ∈ http /\ ours h r = false /\ targeted h sh ns r = true /\ im ∈ vh_Matches h /\
    x = copy_of h sh ns r im.
Proof.
  revert l. induction http as [|r http IH]; intros l E Hx Hours.
  { injection E as <-. by apply not_elem_of_nil in Hx. }
  destruct (ours h r) eqn:Ho.
  { simpl in E. rewrite Ho in E. destruct (IH _ E Hx Hours) as (r' & im & ? & ?).
    exists r', im. split; [by right|done]. }
  destruct (edit_cons _ _ _ _ _ _ E Ho) as (own & more & Hown & Hmore & ->).
  apply elem_of_app in Hx as [Hx|[->|Hx]%elem_of_cons]; [|congruence|].
  - apply own_copies_elem in Hown as [->|[Ht ->]]; [by apply not_elem_of_nil in Hx|].
    apply list_elem_of_fmap in Hx as (im & -> & Him). exists r, im. split; [by left|done].
  - destruct (IH _ Hmore Hx Hours) as (r' & im & ? & ?). exists r', im. split; [by right|done].
Qed.
(** With no nil destination the edit goes through, and is the reference. *)
Lemma edit_well_formed h sh ns http :
  Forall well_formed http -> edit_routes h sh ns http = Ret (new_routes h sh ns http).
Proof.
  induction 1 as [|r http Hwf _ IH]; [done|]. simpl. unfold new_routes. rewrite filter_cons.
  destruct (ours h r); [done|]. rewrite decide_True by done. unfold own_copies.
  rewrite (matches_existsb _ _ _ _ Hwf). simpl. fold (targeted h sh ns r).
  rewrite IH. unfold copies_of. destruct (targeted h sh ns r); simpl; [|done].
  rewrite decide_False by naive_solver. simpl. by rewrite <- app_assoc.
Qed.
Lemma unconfigured_no_ours h http :
  routesConfiguredWithDynamicEnvRoutes http (vh_RoutePrefix h) = false ->
  filter (fun r => ours h r = false) http = http.
Proof. intros Hc. apply filter_all. by apply existsb_false. Qed.
End edited.

(** C22.  The loop over the routes is equivalent to its reference: on any list of
    routes whose destinations are all there, the nested loops that look for the
    host, copy the route once per match, edit the copy in place and append are,
    without a call, a panic or an error, the routes of others with the copies of
    [copies_of] put before each. *)
Theorem build_routes_equivalent {W} `{Client W} `{MapOrder} `{RoutePrinter} (h : VirtualServiceHandler)
    (http : list HTTPRoute) (serviceHost inNamespace : string) (Hwf : Forall well_formed http) :
  computes (W:=W) (build_routes h http serviceHost inNamespace) (Ret (Ok (new_routes h serviceHost inNamespace http))).
Proof.
  pose proof (computes_build (W:=W) h http serviceHost inNamespace) as Hb.
  by rewrite edit_well_formed in Hb.
Qed.

(** ** What the handler writes *)

(** [v] is [service] with the environment's routes added, each next to the route
    it copies, and the environment among its owners. *)
Definition is_edit `{RoutePrinter} (h : VirtualServiceHandler) (serviceHost : string)
    (service v : VirtualService) : Prop :=
  vs_Name v = vs_Name service /\ vs_Namespace v = vs_Namespace service /\
  vs_Hosts v = vs_Hosts service /\ vs_other v = vs_other service /\
  GetAnnotations v = GetAnnotations (AddToAnnotation (vh_Identifier h) service) /\
  filter (fun r => HasPrefix (hr_Name r) (vh_RoutePrefix h) = false) (vs_Http v) = vs_Http service /\
  forall r', r' ∈ vs_Http v -> HasPrefix (hr_Name r') (vh_RoutePrefix h) = true ->
    exists r im, r ∈ vs_Http service /\ im ∈ vh_Matches h /\
      targeted h serviceHost (vs_Namespace service) r = true /\
      r' = copy_of h serviceHost (vs_Namespace service) r im.

(** A status update and the clock are the only other calls of an edit. *)
Definition only_writes (P : VirtualService -> Prop) : spec := fun R q _ =>
  match q with
  | UpdateVirtualService v => P v
  | UpdateDynamicEnvStatus _ | Now => True
  | _ => False
  end.

Section updates.
Context {W : Type} `{Client W} `{MapOrder} `{RoutePrinter}.
Implicit Types (h : VirtualServiceHandler).

Lemma emits_AddVirtualServiceStatusEntry (P : spec) subset s :
  (forall de r, P _ (UpdateDynamicEnvStatus de) r) ->
  emits (W:=W) P (AddVirtualServiceStatusEntry subset s).
Proof.
  intros HP. unfold AddVirtualServiceStatusEntry, safeGetSubsetsStatus, write_SubsetsStatus. emits_tac.
Qed.
Lemma edit_is_edit h sh service l :
  edit_routes h sh (vs_Namespace service) (vs_Http service) = Ret l ->
  routesConfiguredWithDynamicEnvRoutes (vs_Http service) (vh_RoutePrefix h) = false ->
  is_edit h sh service (AddToAnnotation (vh_Identifier h) (vs_set_Http l service)).
Proof.
  intros El Hc. do 5 (split; [done|]). change (vs_Http (AddToAnnotation _ _)) with l. split.
  - rewrite <- (unconfigured_no_ours h (vs_Http service) Hc). by apply (edit_keeps _ _ _ _ _ El).
  - intros r' Hin Hours. destruct (edit_copies _ _ _ _ _ _ El Hin Hours) as (r & im & ? & _ & ? & ? & ->).
    by exists r, im.
Qed.
Lemma emits_updateVirtualService (P : VirtualService -> Prop) h service sh :
  (forall l, edit_routes h sh (vs_Namespace service) (vs_Http service) = Ret l ->
     routesConfiguredWithDynamicEnvRoutes (vs_Http service) (vh_RoutePrefix h) = false ->
     P (AddToAnnotation (vh_Identifier h) (vs_set_Http l service))) ->
  emits (W:=W) (only_writes P) (updateVirtualService h service sh).
Proof.
  intros HP. unfold updateVirtualService.
  destruct (routesConfiguredWithDynamicEnvRoutes _ _) eqn:Hc; [apply emits_ret|]. cbv zeta.
  apply emits_bind; [by apply emits_AddVirtualServiceStatusEntry|]. intros [e|]; [apply emits_ret|].
  eapply emits_computes_bind; [apply computes_build|]. intros res Hres.
  destruct (edit_routes _ _ _ _) as [l|] eqn:El; [|done]. injection Hres as <-.
  apply emits_bind; [|intros []; apply emits_ret]. apply emits_call. intros r. by apply HP.
Qed.
End updates.

(** C15.  [updateVirtualService] never damages the service it edits: whatever the
    API answers, the only object it writes besides the status is the service it
    was given, with its name, namespace, hosts and remaining fields unchanged
    and the environment among its owners; the routes it already had are all
    still there, in the same order, and every other route is named with the
    environment's prefix and is the copy, for one of the environment's matches,
    of a route of the service that sends traffic for the service host to the
    default version. *)
Theorem updateVirtualService_keeps_routes {W} `{Client W} `{MapOrder} `{RoutePrinter}
    (h : VirtualServiceHandler) (service : VirtualService) (serviceHost : string) :
  emits (W:=W) (only_writes (is_edit h serviceHost service)) (updateVirtualService h service serviceHost).
Proof. apply emits_updateVirtualService. intros l. apply edit_is_edit. Qed.

(** ** What requests see *)

(** Istio's documented matching rules: all the conditions of a match block must
    hold, a block with no condition accepts everything, one accepting block is
    enough, no block accepts everything, the first accepting route is used. *)
Class IstioMatching (Q : Type) := {
  block_accepts : Q -> HTTPMatchRequest -> bool;
  header_accepts : Q -> string -> StringMatch_MatchType -> bool;
  label_accepts : Q -> string -> string -> bool;
  other_accepts : Q -> opaque -> bool;
  block_accepts_all : forall q m, block_accepts q m = true <->
    map_Forall (fun k v => header_accepts q k v = true) (mread (hm_Headers m)) /\
    map_Forall (fun k v => label_accepts q k v = true) (mread (hm_SourceLabels m)) /\
    other_accepts q (hm_other m) = true;
  other_accepts_none : forall q, other_accepts q "" = true;
}.

Section routing.
Context {Q : Type} `{IstioMatching Q} `{RoutePrinter}.
Implicit Types (q : Q) (h : VirtualServiceHandler).

Definition route_accepts q (r : HTTPRoute) : bool :=
  match hr_Match r with [] => true | l => existsb (block_accepts q) l end.
Definition route_for q (http : list HTTPRoute) : option HTTPRoute :=
  head (filter (fun r => route_accepts q r = true) http).
(** The request satisfies one of the environment's matches. *)
Definition match_accepts q (im : IstioMatch) : bool :=
  bool_decide (map_Forall (fun k v => header_accepts q k (istio_match v) = true) (mread (im_Headers im)) /\
               map_Forall (fun k v => label_accepts q k v = true) (mread (im_SourceLabels im))).
(** The match names no header and no label the route already has a condition on. *)
Definition compatible (im : IstioMatch) (r : HTTPRoute) : Prop :=
  Forall (fun m => dom (mread (im_Headers im)) ## dom (mread (hm_Headers m)) /\
                   dom (mread (im_SourceLabels im)) ## dom (mread (hm_SourceLabels m))) (match_blocks r).
(** Where the edit sends a request that was served by [r]. *)
Definition redirected h sh ns q (r : HTTPRoute) : HTTPRoute :=
  if targeted h sh ns r then
    match head (filter (fun im => match_accepts q im = true) (vh_Matches h)) with
    | Some im => copy_of h sh ns r im
    | None => r
    end
  else r.

Lemma mread_merge_entries {V} (new : gmap string V) (old : gomap V) :
  mread (merge_entries new old) = new ∪ mread old.
Proof.
  unfold merge_entries. case_bool_decide as Hs; [done|].
  assert (new = ∅) as -> by (apply map_size_empty_inv; lia). by rewrite (left_id_L ∅ (∪)).
Qed.
Lemma map_Forall_union_disjoint {V} (P : string -> V -> Prop) (m1 m2 : gmap string V) :
  m1 ##ₘ m2 -> map_Forall P (m1 ∪ m2) <-> map_Forall P m1 /\ map_Forall P m2.
Proof. intros Hd. by apply map_Forall_union. Qed.

Lemma block_accepts_merge q im m :
  dom (mread (im_Headers im)) ## dom (mread (hm_Headers m)) ->
  dom (mread (im_SourceLabels im)) ## dom (mread (hm_SourceLabels m)) ->
  block_accepts q (merge_match im m) = block_accepts q m && match_accepts q im.
Proof.
  intros Hh Hl. apply eq_true_iff_eq.
  rewrite andb_true_iff. unfold match_accepts. rewrite bool_decide_eq_true, !block_accepts_all.
  unfold merge_match. simpl. rewrite !mread_merge_entries.
  rewrite !map_Forall_union_disjoint, map_Forall_fmap; [naive_solver|..];
    apply map_disjoint_dom_2; rewrite ?dom_fmap_L; done.
Qed.
Lemma block_accepts_empty q : block_accepts q empty_HTTPMatchRequest = true.
Proof. apply block_accepts_all. split_and!; [done..|]. apply other_accepts_none. Qed.
Lemma route_accepts_blocks q r : route_accepts q r = existsb (block_accepts q) (match_blocks r).
Proof.
  unfold route_accepts, match_blocks. destruct (hr_Match r) eqn:E; [|done].
  simpl. by rewrite block_accepts_empty.
Qed.
Lemma copy_accepts h sh ns q r im :
  compatible im r -> route_accepts q (copy_of h sh ns r im) = route_accepts q r && match_accepts q im.
Proof.
  intros Hc. rewrite !route_accepts_blocks.
  assert (match_blocks (copy_of h sh ns r im) = map (merge_match im) (match_blocks r)) as ->.
  { unfold match_blocks at 1. simpl. unfold match_blocks. by destruct (hr_Match r). }
  induction Hc as [|m ms [Hh Hl] _ IH]; simpl; [done|].
  rewrite IH, block_accepts_merge by done. by destruct (block_accepts q m), (match_accepts q im), (existsb _ ms).
Qed.
Lemma copies_accept h sh ns q r ims :
  Forall (fun im => compatible im r) ims ->
  head (filter (fun x => route_accepts q x = true) (map (copy_of h sh ns r) ims)) =
  (if route_accepts q r then copy_of h sh ns r <$> head (filter (fun im => match_accepts q im = true) ims)
   else None).
Proof.
  induction 1 as [|im ims Hc _ IH]; simpl; [by destruct (route_accepts q r)|].
  rewrite !filter_cons, copy_accepts by done.
  destruct (route_accepts q r), (match_accepts q im); simpl; done.
Qed.

Lemma route_for_new_routes h sh ns q http :
  Forall (fun r => targeted h sh ns r = true -> Forall (fun im => compatible im r) (vh_Matches h)) http ->
  filter (fun r => ours h r = false) http = http ->
  route_for q (new_routes h sh ns http) = redirected h sh ns q <$> route_for q http.
Proof.
  intros Hc Hours. unfold new_routes. rewrite Hours. clear Hours. unfold route_for.
  induction Hc as [|r http Hr _ IH]; [done|].
  rewrite bind_cons, <- app_assoc, filter_app, head_app. cbn [app].
  rewrite !filter_cons. unfold copies_of, redirected at 1.
  destruct (targeted h sh ns r) eqn:Ht; simpl.
  - rewrite copies_accept by auto. destruct (route_accepts q r); simpl; [|apply IH].
    unfold redirected. rewrite Ht. by destruct (head (filter _ (vh_Matches h))).
  - destruct (route_accepts q r); simpl; [|apply IH]. unfold redirected. by rewrite Ht.
Qed.
End routing.

Lemma our_destinations_spec h sh ns r :
  targeted h sh ns r = true ->
  our_destinations h sh ns r <> [] /\
  Forall (fun rd => dst_Subset <$> rd_Destination rd = Some (vh_UniqueVersion h)) (our_destinations h sh ns r).
Proof.
  intros Ht%taken_filter_nonempty. unfold our_destinations. split.
  { intros Hn. apply Ht. by rewrite <- (length_map (retargeted h)), Hn. }
  apply Forall_forall. intros rd (rd' & -> & Hin)%list_elem_of_fmap.
  apply list_elem_of_filter in Hin as [Htk _]. unfold taken in Htk. simpl.
  by destruct (rd_Destination rd').
Qed.

(** C1.  The edit redirects exactly the traffic the environment asks for.  Take
    any service whose routes have their destinations and whose targeted routes
    put no condition of their own on a header or label the environment matches
    on.  After the update a request that was served by route [r] is still served
    by [r], unless [r] sends traffic for the service host to the default version
    and the request satisfies one of the environment's matches; then it is
    served by the copy of [r] for the first match it satisfies, whose
    destinations are those of [r] for the service host, all of them in the new
    version. *)
Theorem updateVirtualService_routing {W Q} `{Client W} `{MapOrder} `{RoutePrinter} `{IstioMatching Q}
    (h : VirtualServiceHandler) (service : VirtualService) (serviceHost : string)
    (Hwf : Forall well_formed (vs_Http service))
    (Hcompat : Forall (fun r => targeted h serviceHost (vs_Namespace service) r = true ->
                         Forall (fun im => compatible im r) (vh_Matches h)) (vs_Http service)) :
  emits (W:=W) (only_writes (fun v =>
      (forall q, route_for q (vs_Http v) =
         redirected h serviceHost (vs_Namespace service) q <$> route_for q (vs_Http service)) /\
      forall r im, r ∈ vs_Http service -> targeted h serviceHost (vs_Namespace service) r = true ->
        let copy := copy_of h serviceHost (vs_Namespace service) r im in
        hr_Route copy <> [] /\
        Forall (fun rd => dst_Subset <$> rd_Destination rd = Some (vh_UniqueVersion h)) (hr_Route copy)))
    (updateVirtualService h service serviceHost).
Proof.
  apply emits_updateVirtualService. intros l El Hc.
  change (vs_Http (AddToAnnotation _ _)) with l. rewrite edit_well_formed in El by done.
  injection El as <-. split.
  - intros q. apply route_for_new_routes; [done|]. by apply unconfigured_no_ours.
  - intros r im _ Ht. by apply our_destinations_spec.
Qed.

(** *** A service with one route to the default version *)
Module RoutingExample.
(** Requests are their headers. *)
Definition header_test (q : gmap string string) (k : string) (m : StringMatch_MatchType) : bool :=
  match m with
  | StringMatch_Exact s => bool_decide (q !! k = Some s)
  | StringMatch_Prefix s => HasPrefix (default "" (q !! k)) s
  | StringMatch_Regex _ => false
  end.
Definition matching : IstioMatching (gmap string string).
Proof.
  refine {| header_accepts := header_test; label_accepts := fun _ _ _ => false;
            other_accepts := fun _ o => bool_decide (o = "");
            block_accepts := fun q m => bool_decide (
              map_Forall (fun k v => header_test q k v = true) (mread (hm_Headers m)) /\
              map_Forall (fun _ _ => false = true) (mread (hm_SourceLabels m)) /\
              bool_decide (hm_other m = "") = true) |}.
  - intros q m. by rewrite bool_decide_eq_true.
  - done.
Defined.
Definition printer : RoutePrinter := fun r => hr_Name r.
Definition match_user (u : string) : IstioMatch :=
  mkIstioMatch (Some {[ "end-user" := mkStringMatch u "" "" ]}) None.
Definition handler : VirtualServiceHandler :=
  NewVirtualServiceHandler
    (mkReconcileData (mkNN "default" "env") (mkDeployment "reviews" "default" None None
       (mkDeploymentSpec None None (mkPodTemplate None [] [] "") "") [] "")
       (mkSubset "reviews" "default" None None [] [] "") [match_user "json"; match_user "ann"])
    ["reviews"] "shared".
Definition to_version (version : string) : HTTPRouteDestination :=
  mkHTTPRouteDestination (Some (mkDestination "reviews" version "")) 100 None.
Definition route : HTTPRoute := mkHTTPRoute "main" [] [to_version "shared"; to_version "v2"] None "".
Definition service : VirtualService := mkVirtualService "reviews" "default" None ["reviews"] [route] "".
Definition request (u : string) : gmap string string := {[ "end-user" := u ]}.

(** The edited routes: a copy per match, then the route itself. *)
Example served :
  let http' := new_routes (H:=printer) handler "reviews" "default" (vs_Http service) in
  let serve u := hr_Route <$> route_for (H:=matching) (request u) http' in
  length http' = 3 /\ serve "bob" = Some (hr_Route route) /\
  (fmap dst_Subset ∘ rd_Destination <$> default [] (serve "ann")) = [Some "default-env"].
Proof. vm_compute. done. Qed.
End RoutingExample.

Lemma build_routes_equivalent_witness :
  let h := RoutingExample.handler in let http := vs_Http RoutingExample.service in
  computes (W:=cluster) (build_routes (H1:=canonical_order) (H2:=RoutingExample.printer) h http "reviews" "default")
    (Ret (Ok (new_routes (H:=RoutingExample.printer) h "reviews" "default" http))) /\
  length (new_routes (H:=RoutingExample.printer) h "reviews" "default" http) = 3.
Proof.
  intros h http. split; [|by vm_compute].
  apply (build_routes_equivalent (H1:=canonical_order) (H2:=RoutingExample.printer) h http "reviews" "default"). by repeat constructor.
Defined.

Lemma updateVirtualService_routing_witness :
  let service := RoutingExample.service in let h := RoutingExample.handler in
  Forall well_formed (vs_Http service) /\
  emits (W:=cluster) (only_writes (fun v =>
      (forall q, route_for (H:=RoutingExample.matching) q (vs_Http v) =
         redirected (H:=RoutingExample.matching) (H1:=RoutingExample.printer) h "reviews" "default" q <$>
         route_for (H:=RoutingExample.matching) q (vs_Http service)) /\
      forall r im, r ∈ vs_Http service -> targeted h "reviews" "default" r = true ->
        let copy := copy_of (H:=RoutingExample.printer) h "reviews" "default" r im in
        hr_Route copy <> [] /\
        Forall (fun rd => dst_Subset <$> rd_Destination rd = Some (vh_UniqueVersion h)) (hr_Route copy)))
    (updateVirtualService (H1:=canonical_order) (H2:=RoutingExample.printer) h service "reviews").
Proof.
  intros service h. split; [by repeat constructor|].
  apply (updateVirtualService_routing (H2:=RoutingExample.printer) (H3:=RoutingExample.matching)
           h service "reviews").
  - by repeat constructor.
  - repeat constructor; apply disjoint_empty_r.
Defined.

(** ** [Handle] returns *)

(** What the operator relies on of the virtual services the API answers: the
    validation of Istio rejects a route destination without a destination. *)
Definition wf_service (v : VirtualService) : Prop := Forall well_formed (vs_Http v).
Class WellFormedServices (W : Type) `{Client W} : Prop := {
  wf_list : forall w items w', exec ListVirtualServices w = (Ok items, w') -> Forall wf_service items;
  wf_get : forall n w v w', exec (GetVirtualService n) w = (Ok v, w') -> wf_service v;
  wf_update : forall v w v' w', exec (UpdateVirtualService v) w = (Ok v', w') -> wf_service v -> wf_service v';
}.

Section edit.
Context {W : Type} `{Client W} `{MapOrder} `{RoutePrinter}.
Implicit Types (h : VirtualServiceHandler).

Lemma new_routes_wf h sh ns http : Forall well_formed http -> Forall well_formed (new_routes h sh ns http).
Proof.
  rewrite !Forall_forall. intros Hwf x Hx. unfold new_routes in Hx.
  apply list_elem_of_bind in Hx as (r & Hx & [_ Hr]%list_elem_of_filter).
  apply elem_of_app in Hx as [Hx| ->%list_elem_of_singleton]; [|by apply Hwf].
  unfold copies_of in Hx. destruct (targeted h sh ns r); [|by apply not_elem_of_nil in Hx].
  apply list_elem_of_fmap in Hx as (im & -> & _). unfold well_formed, copy_of. simpl.
  apply Forall_forall. intros rd (rd' & -> & [_ Hrd]%list_elem_of_filter)%list_elem_of_fmap. simpl.
  rewrite fmap_is_Some. specialize (Hwf _ Hr). unfold well_formed in Hwf.
  rewrite Forall_forall in Hwf. by apply Hwf.
Qed.

(** The edit of a service: what is written for it. *)
Definition edit_of h sh service : VirtualService :=
  AddToAnnotation (vh_Identifier h)
    (vs_set_Http (new_routes h sh (vs_Namespace service) (vs_Http service)) service).
(** A successful edit: skipped, or written. *)
Definition update_success h service sh (seen : VirtualService) (log : list event) : Prop :=
  (routesConfiguredWithDynamicEnvRoutes (vs_Http service) (vh_RoutePrefix h) = true /\
   seen = service /\ log = []) \/
  (routesConfiguredWithDynamicEnvRoutes (vs_Http service) (vh_RoutePrefix h) = false /\
   Event (UpdateVirtualService (edit_of h sh service)) (Ok seen) ∈ log).

(** The answer of an edit of [service], and the object the caller then holds. *)
Lemma wp_update h service sh (c : ctx W) :
  wf_service service ->
  wp (updateVirtualService h service sh) (fun res c' => exists log, cx_log c' = cx_log c ++ log /\
    (res.2 = None -> update_success h service sh res.1 log) /\
    (res.1 = service \/ res.1 = edit_of h sh service \/
     exists w w', exec (UpdateVirtualService (edit_of h sh service)) w = (Ok res.1, w'))) c.
Proof.
  intros Hwf. unfold updateVirtualService.
  destruct (routesConfiguredWithDynamicEnvRoutes _ _) eqn:Hc.
  { apply wp_ret. exists []. rewrite app_nil_r. split; [done|]. split; [|by left]. intros _. by left. }
  cbv zeta. apply wp_bind. eapply wp_mono; [|apply (wp_emits (fun _ _ _ => True));
    [by apply emits_AddVirtualServiceStatusEntry|apply runs_AddVirtualServiceStatusEntry]].
  intros [e|] c1 [_ (l & Hl & _)]; [apply wp_ret; exists l; split_and!; [done|done|by left]|]. apply wp_bind.
  eapply computes_wp.
  { pose proof (computes_build (W:=W) h (vs_Http service) sh (vs_Namespace service)) as Hb.
    rewrite edit_well_formed in Hb by done. exact Hb. }
  intros n. cbv beta iota zeta. fold (edit_of h sh service). apply wp_bind, wp_call. cbn [cx_log cx_world bump].
  rewrite Hl. intros [v|e] w Hex; rewrite <- app_assoc; apply wp_ret; (eexists; split; [done|]); simpl.
  - split; [|eauto]. intros _. right. split; [done|]. apply elem_of_app. right. by left.
  - split; [done|auto].
Qed.
End edit.

Section returns.
Context {W : Type} `{Client W} `{!WellFormedServices W} `{MapOrder} `{RoutePrinter}.
Implicit Types (h : VirtualServiceHandler).

Lemma wp_updateVirtualService h service sh c :
  wf_service service ->
  wp (updateVirtualService h service sh) (fun res c' =>
    wf_service res.1 /\ exists log, cx_log c' = cx_log c ++ log /\ (res.2 = None -> update_success h service sh res.1 log)) c.
Proof.
  intros Hwf. eapply wp_mono; [|by apply wp_update]. intros res c' (log & Hlog & Hres & Hobj).
  split; [|by exists log]. assert (wf_service (edit_of h sh service)) by by apply new_routes_wf.
  destruct Hobj as [->|[->|(w & w' & Hex)]]; [done..|]. by eapply wf_update.
Qed.

End returns.

(** ** What [Handle] writes *)

(** The objects the handler holds: listed, fetched, answered to an update, or sent
    by one. *)
Definition service_read (seen : list event) (v : VirtualService) : Prop :=
  (exists items, Event ListVirtualServices (Ok items) ∈ seen /\ v ∈ items) \/
  (exists n, Event (GetVirtualService n) (Ok v) ∈ seen) \/
  (exists sent, Event (UpdateVirtualService sent) (Ok v) ∈ seen) \/
  (exists r, Event (UpdateVirtualService v) r ∈ seen).
Lemma service_read_mono seen seen' v :
  seen `prefix_of` seen' -> service_read seen v -> service_read seen' v.
Proof.
  intros [l ->]. unfold service_read. setoid_rewrite elem_of_app. naive_solver.
Qed.
(** Edits of services it has read, for the service hosts. *)
Definition edits_services `{RoutePrinter} (h : VirtualServiceHandler) (hosts : list string) : tspec :=
  fun seen R q _ =>
  match q with
  | UpdateVirtualService v => exists sh service, sh ∈ hosts /\ service_read seen service /\ is_edit h sh service v
  | ListVirtualServices | GetVirtualService _ | UpdateDynamicEnvStatus _ | Now => True
  | _ => False
  end.

Section handle_writes.
Context {W : Type} `{Client W} `{MapOrder} `{RoutePrinter}.
Implicit Types (h : VirtualServiceHandler).

(** The edit does not look at the hosts found so far. *)
Lemma edits_services_set_hosts act vss h hosts seen R q (r : R) :
  edits_services (vh_set_hosts act vss h) hosts seen R q r <-> edits_services h hosts seen R q r.
Proof. by destruct q. Qed.

Lemma emits_global_error (P : spec) k msg :
  (forall de r, P _ (UpdateDynamicEnvStatus de) r) -> (forall r, P _ Now r) ->
  emits (W:=W) P (AddGlobalVirtualServiceError k msg).
Proof.
  intros Hst Hnow. unfold AddGlobalVirtualServiceError, safeGetSubsetsStatus, write_SubsetsStatus, SyncGlobalErrors.
  assert (Hsync : forall errors found acc, emits (W:=W) P (sync_errors msg errors found acc)).
  { induction errors as [|x errors IH]; intros found acc; simpl; emits_tac. }
  emits_tac; apply Hsync.
Qed.
(** The calls on the status, always allowed. *)
Definition status_calls : spec := fun R q _ =>
  match q with UpdateDynamicEnvStatus _ | Now => True | _ => False end.
Lemma status_calls_edits h hosts seen s R q (r : R) :
  seen `prefix_of` s -> status_calls R q r -> edits_services h hosts s R q r.
Proof. by destruct q. Qed.

Definition all_read (seen : list event) (store : list VirtualService) : Prop := Forall (service_read seen) store.
Lemma all_read_mono seen seen' store : seen `prefix_of` seen' -> all_read seen store -> all_read seen' store.
Proof. intros Hs Hst. eapply Forall_impl; [exact Hst|]. intros v. by apply service_read_mono. Qed.

Lemma traces_extract h hosts d items seen :
  traces (W:=W) (edits_services h hosts) seen (extractServiceFromDelegate h d items) (fun res s =>
    seen `prefix_of` s /\ match res with Ok (Some (Fetched v)) => service_read s v | _ => True end).
Proof.
  unfold extractServiceFromDelegate. destruct (find_listed d items 0); [by apply traces_ret|]. cbv zeta.
  apply traces_bind. eapply traces_mono.
  { apply (traces_emits status_calls); [by apply emits_global_error|intros ????; apply status_calls_edits]. }
  intros _ s Hs _. apply traces_bind, traces_call. intros r. split; [done|].
  assert (seen `prefix_of` s ++ [Event (GetVirtualService (mkNN (dl_Namespace d) (dl_Name d))) r]) as Hs'.
  { etrans; [exact Hs|]. by eexists. }
  destruct r as [v|e].
  { apply traces_ret. split; [done|]. right; left. eexists. apply elem_of_app. right. by left. }
  destruct (IsNotFound e); [|by apply traces_ret]. apply traces_bind. eapply traces_mono.
  { apply (traces_emits status_calls); [by apply emits_global_error|intros ????; apply status_calls_edits]. }
  intros [e'|] s'' Hs'' _; [destruct (negb _)|]; apply traces_ret; (split; [by etrans|done]).
Qed.
Lemma traces_add_delegates h hosts items dl lc seen :
  all_read seen (lc_store lc) ->
  traces (W:=W) (edits_services h hosts) seen (add_delegates h items dl lc) (fun res s => all_read s (lc_store res.1)).
Proof.
  revert lc seen. induction dl as [|d dl IH]; intros lc seen Hlc; simpl; [by apply traces_ret|].
  apply traces_bind. eapply traces_mono; [apply traces_extract|].
  intros [[[i|v]|]|e] s _ [Hs Hv].
  - apply IH. by eapply all_read_mono.
  - apply IH. simpl. apply Forall_app. split; [by eapply all_read_mono|by apply Forall_singleton].
  - apply IH. by eapply all_read_mono.
  - apply traces_ret. by eapply all_read_mono.
Qed.
Lemma traces_locate_hosts h all sh items idx service hosts lc seen :
  all_read seen (lc_store lc) ->
  traces (W:=W) (edits_services h all) seen (locate_hosts h sh items idx service hosts lc)
    (fun res s => all_read s (lc_store res.1)).
Proof.
  revert lc seen. induction hosts as [|host hosts IH]; intros lc seen Hlc; simpl; [by apply traces_ret|].
  destruct (MatchNamespacedHost _ _ _ _); [|by apply IH].
  eapply traces_computes_bind; [apply computes_lift|]. intros [useSelf dl] _.
  apply traces_bind. eapply traces_mono; [apply traces_add_delegates; by destruct useSelf|].
  intros [lc' [e|]] s _ Hs; [by apply traces_ret|by apply IH].
Qed.
Lemma traces_locate h all sh seen :
  traces (W:=W) (edits_services h all) seen (locateVirtualServicesByServiceHost h sh)
    (fun res s => all_read s (lc_store res.1)).
Proof.
  unfold locateVirtualServicesByServiceHost. apply traces_bind, traces_call. intros r. split; [done|].
  destruct r as [items|e]; [|apply traces_ret; constructor].
  assert (Hitems : all_read (seen ++ [Event ListVirtualServices (Ok items)]) (lc_store (mkLocated items []))).
  { apply Forall_forall. intros v Hv. left. exists items. split; [|done]. apply elem_of_app. right. by left. }
  revert Hitems. generalize (seen ++ [Event ListVirtualServices (Ok items)]), (mkLocated items []), 0.
  generalize items at 2. intros services. induction services as [|service services IH]; intros s lc n Hlc; simpl.
  { by apply traces_ret. }
  apply traces_bind. eapply traces_mono; [by apply traces_locate_hosts|].
  intros [lc' [e|]] s' _ Hs; [by apply traces_ret|by apply IH].
Qed.
Lemma traces_updateVirtualService h hosts sh service seen :
  sh ∈ hosts -> service_read seen service ->
  traces (W:=W) (edits_services h hosts) seen (updateVirtualService h service sh)
    (fun res s => seen `prefix_of` s /\ service_read s res.1).
Proof.
  intros Hsh Hread. unfold updateVirtualService.
  destruct (routesConfiguredWithDynamicEnvRoutes _ _) eqn:Hc; [by apply traces_ret|]. cbv zeta.
  apply traces_bind. eapply traces_mono.
  { apply (traces_emits status_calls); [by apply emits_AddVirtualServiceStatusEntry|intros ????; apply status_calls_edits]. }
  intros [e|] s Hs _; [apply traces_ret; split; [done|by eapply service_read_mono]|].
  eapply traces_computes_bind; [apply computes_build|]. intros res Hres.
  destruct (edit_routes _ _ _ _) as [l|] eqn:El; [|done]. injection Hres as <-.
  apply traces_bind, traces_call. intros r. split.
  { exists sh, service. split; [done|]. split; [by eapply service_read_mono|by apply edit_is_edit]. }
  destruct r as [v|e]; apply traces_ret; (split; [etrans; [exact Hs|by eexists]|]); right; right.
  - left. eexists. apply elem_of_app. right. by left.
  - right. eexists. apply elem_of_app. right. by left.
Qed.
Lemma traces_update_refs h hosts sh store refs b seen :
  sh ∈ hosts -> all_read seen store ->
  traces (W:=W) (edits_services h hosts) seen (update_refs h sh store refs b) (fun _ _ => True).
Proof.
  intros Hsh. revert store b seen. induction refs as [|i refs IH]; intros store b seen Hst; simpl; [by apply traces_ret|].
  destruct (store !! i) as [service|] eqn:Hi.
  2: { intros c. exists []. split; [by apply calls_nil|by split]. }
  apply traces_bind. eapply traces_mono.
  { apply traces_updateVirtualService; [done|]. eapply Forall_lookup_1; [exact Hst|done]. }
  intros [v err] s _ [Hs Hv]. simpl in Hv.
  assert (all_read s (<[i:=v]> store)) as Hst'.
  { apply Forall_insert; [by eapply all_read_mono|done]. }
  destruct err; by apply IH.
Qed.
Lemma traces_handle_services h all hosts seen :
  hosts ⊆ all -> traces (W:=W) (edits_services h all) seen (handle_hosts h hosts) (fun _ _ => True).
Proof.
  revert h seen. induction hosts as [|sh hosts IH]; intros h seen Hall; simpl; [by apply traces_ret|].
  apply traces_bind. eapply traces_mono; [apply traces_locate|].
  intros [lc [e|]] s _ Hlc; [by apply traces_ret|]. apply traces_bind.
  eapply traces_mono.
  { eapply traces_weaken; [|apply (traces_update_refs _ all); [apply Hall; by left|exact Hlc]].
    intros s' R q r _. apply edits_services_set_hosts. }
  intros [st b] s' _ _. cbv zeta. eapply traces_weaken; [|apply IH; intros x Hx; apply Hall; by right].
  intros s'' R q r _. destruct b; by rewrite ?edits_services_set_hosts.
Qed.
Lemma traces_VirtualServiceHandler_Handle h seen :
  traces (W:=W) (edits_services h (vh_ServiceHosts h)) seen (VirtualServiceHandler_Handle h) (fun _ _ => True).
Proof.
  unfold VirtualServiceHandler_Handle. cbv zeta. apply traces_bind. eapply traces_mono.
  { eapply traces_weaken; [|by apply (traces_handle_services _ (vh_ServiceHosts h))].
    intros s R q r _. apply edits_services_set_hosts. }
  intros [h' [e|]] s _ _; [by apply traces_ret|]. case_decide; by apply traces_ret.
Qed.
End handle_writes.

(** [VirtualServiceHandler.Handle] only edits: whatever the API answers, the only
    objects it writes, besides the environment's status, are virtual services it
    has read, with the environment's routes added for one of the service hosts
    and the environment among its owners. *)
Theorem VirtualServiceHandler_Handle_writes {W} `{Client W} `{MapOrder} `{RoutePrinter}
    (h : VirtualServiceHandler) (c : ctx W) :
  exists l, cx_log (VirtualServiceHandler_Handle h c).2 = cx_log c ++ l /\
    ordered (edits_services h (vh_ServiceHosts h)) [] l.
Proof. destruct (traces_VirtualServiceHandler_Handle h [] c) as (l & [Hl _] & Ho & _). by exists l. Qed.

(** An API server that lists a fixed set of services and echoes updates. *)
Module StaticServices.
Definition gone : error := StatusErr NotFound "not found".
Definition static_exec (items : list VirtualService) {R} (q : req R) (w : nat) : R * nat :=
  match q in req R return R * nat with
  | GetDynamicEnv _ | GetDeployment _ | GetDestinationRule _ | GetVirtualService _
  | ListServices _ | ListDestinationRules _ | ListDynamicEnvs => (Err gone, S w)
  | ListVirtualServices => (Ok items, S w)
  | CreateDeployment _ | CreateDestinationRule _ | UpdateDeployment _ | DeleteDeployment _
  | DeleteDestinationRule _ => (Some gone, S w)
  | UpdateVirtualService v => (Ok v, S w)
  | UpdateDynamicEnv de | UpdateDynamicEnvStatus de => (Ok de, S w)
  | Now => (Z.of_nat w, S w)
  end.
Definition client : Client nat := @static_exec [RoutingExample.service].
Lemma client_wf : WellFormedServices nat (H:=client).
Proof.
  split; intros *; unfold exec, client; simpl.
  - intros [= <- _]. by repeat constructor.
  - done.
  - by intros [= <- _].
Qed.
End StaticServices.

(** *** A failed update that is reported as a success

    A service listed twice, by two of its hosts, is one object: the second visit
    sees the routes the first one added in memory and takes them for applied. *)
Module MaskedConflict.
Definition service : VirtualService :=
  mkVirtualService "reviews" "default" None ["reviews"; "reviews.default.svc.cluster.local"]
    [RoutingExample.route] "".
Definition conflict : error := StatusErr Conflict "the object has been modified".
(** The third call, the update of the service, meets a conflict. *)
Definition k : cluster :=
  mkCluster ∅ ∅ ∅ [] {[ mkNN "default" "reviews" := service ]} 0 0 {[ 2 := conflict ]}.
End MaskedConflict.

(** A conflict on the update of a virtual service can go unnoticed: for the
    service above, listed by both its hosts, the only update fails, the service
    keeps its routes, and yet [Handle] reports no error and an active host. *)
Theorem Handle_masks_conflict :
  let run := VirtualServiceHandler_Handle (H1:=canonical_order) (H2:=RoutingExample.printer)
               RoutingExample.handler in
  let oc := run (start MaskedConflict.k example_de) in
  (prod_map VirtualServiceHandler_GetHosts id <$> oc.1) = Ret (["reviews"], None) /\
  k_virtualservices (cx_world oc.2) = k_virtualservices MaskedConflict.k.
Proof. intros run oc. apply (bool_decide_unpack _). vm_compute. exact I. Qed.

(** ** Status *)
Section status.
Context {W : Type} `{Client W}.
Implicit Types (h : VirtualServiceHandler).

(** The services [Handle] recorded, host by host. *)
Definition recorded h : list NamespacedName :=
  concat (map (fun sh => default [] (vh_virtualServices h !! sh)) (vh_ServiceHosts h)).
(** The status of a fetched service: running when it has a route of the subset. *)
Definition service_status h (log : list event) (nn : NamespacedName) (rs : ResourceStatus) : Prop :=
  exists v, Event (GetVirtualService nn) (Ok v) ∈ log /\
    rs_Name rs = vs_Name v /\ rs_Namespace rs = vs_Namespace v /\
    rs_Status rs = if decide (Exists (fun r => HasPrefix (hr_Name r) (vh_RoutePrefix h) = true) (vs_Http v))
                   then Running else IgnoredMissingVS.
Lemma getStatusForService_status h (log : list event) nn v :
  Event (GetVirtualService nn) (Ok v) ∈ log -> service_status h log nn (getStatusForService h v).
Proof.
  intros Hin. exists v. split; [done|]. unfold getStatusForService.
  assert (routesConfiguredWithDynamicEnvRoutes (vs_Http v) (vh_RoutePrefix h) = true <->
          Exists (fun r => HasPrefix (hr_Name r) (vh_RoutePrefix h) = true) (vs_Http v)) as Hiff.
  { unfold routesConfiguredWithDynamicEnvRoutes. rewrite existsb_elem, Exists_exists. done. }
  destruct (routesConfiguredWithDynamicEnvRoutes _ _); case_decide; simpl; naive_solver.
Qed.
Lemma service_status_mono h l l' nn rs : l ⊆ l' -> service_status h l nn rs -> service_status h l' nn rs.
Proof. intros Hl (v & Hin & ?). exists v. split; [by apply Hl|done]. Qed.
Lemma wp_fetch_services h nns (c : ctx W) :
  wp (fetch_services nns) (fun res c' => cx_de c' = cx_de c /\ exists l, cx_log c' = cx_log c ++ l /\
    match res with
    | Ok services => Forall2 (service_status h l) nns (map (getStatusForService h) services)
    | Err e => exists nn e0, nn ∈ nns /\ Event (GetVirtualService nn) (Err e0) ∈ l /\
                 e = Wrapf "fetching virtual service for status" e0
    end) c.
Proof.
  revert c. induction nns as [|nn nns IH]; intros c; simpl.
  { apply wp_ret. split; [done|]. exists []. rewrite app_nil_r. split; [done|constructor]. }
  apply wp_bind, wp_call. intros [v|e] w _.
  2: { apply wp_ret. split; [done|]. eexists. split; [done|]. exists nn, e. split_and!; [by left|by left|done]. }
  apply wp_bind. eapply wp_mono; [|apply IH]. intros res c1 (Hde & l & Hl & HQ).
  simpl in Hde, Hl. rewrite <- app_assoc in Hl. simpl in Hl.
  set (ev := Event (GetVirtualService nn) (Ok v)) in Hl.
  destruct res as [services|e]; apply wp_ret; (split; [done|]); exists (ev :: l); (split; [done|]).
  - simpl. constructor; [apply getStatusForService_status; by left|].
    eapply Forall2_impl; [exact HQ|]. intros x y. apply service_status_mono. set_solver.
  - destruct HQ as (nn' & e0 & ? & ? & ->). exists nn', e0. split_and!; [by right|by right|done].
Qed.
End status.

(** The reported status of the virtual services is what the API shows:
    [GetStatus] changes nothing and does not panic; when it succeeds there is one
    entry per recorded service, in order, running exactly when the service it
    fetched has a route with the subset's prefix, and ignored otherwise; and it
    fails only when a recorded service could not be fetched. *)
Theorem VirtualServiceHandler_GetStatus_spec {W} `{Client W} (h : VirtualServiceHandler) (c : ctx W) :
  wp (VirtualServiceHandler_GetStatus h) (fun res c' =>
      cx_de c' = cx_de c /\ exists l, cx_log c' = cx_log c ++ l /\
        match res with
        | Ok statuses => Forall2 (service_status h l) (recorded h) statuses
        | Err e => exists nn e0, nn ∈ recorded h /\ Event (GetVirtualService nn) (Err e0) ∈ l /\
                     e = Wrapf "fetching virtual service for status" e0
        end) c.
Proof.
  unfold VirtualServiceHandler_GetStatus. apply wp_bind. eapply wp_mono; [|apply (wp_fetch_services h)].
  intros [services|e] c1 (Hde & l & Hl & HQ); apply wp_ret; (split; [done|]); by exists l.
Qed.
