(* ===== verification/Locating.v ===== *)
(** * The virtual services of a service host (pkg/handlers/virtualservice_handler.go)

    What [locateVirtualServicesByServiceHost] finds for a service host, object by
    object, and what [Handle] makes of it: the services it records for the
    status, the edits it sends, and the hosts it reports as active. *)

From stdpp Require Import base gmap sets list strings.
From S2P Require Import Prelude GoStrings Sha256 K8s Types Helpers Watches Client FakeCluster StatusManager Model VirtualServiceHandler VirtualServiceRouting.

(** ** What is found *)
Section found.
Context (items : list VirtualService).
Implicit Types (h : VirtualServiceHandler) (sh : string) (service v : VirtualService).

Definition called_by h sh service : Prop := exists host, host ∈ vs_Hosts service /\
  MatchNamespacedHost sh (vh_Namespace h) host (vs_Namespace service) = true.
(** What a service that is called leads to: itself, or the listed delegates that
    route to the host. *)
Definition leads h sh (idx : nat) service (i : nat) : Prop :=
  exists useSelf ds, resolveVirtualServices h sh service = Ret (useSelf, ds) /\
    ((useSelf = true /\ i = idx) \/ exists d, d ∈ ds /\ find_listed d items 0 = Some i).
Definition found_at h sh (i : nat) : Prop := exists idx service,
  items !! idx = Some service /\ called_by h sh service /\ leads h sh idx service i.
Definition found_for h sh v : Prop := exists i, items !! i = Some v /\ found_at h sh i.
(** A delegate of a service that is called, to be fetched as it is not listed. *)
Definition unlisted h sh service (d : Delegate) : Prop :=
  exists useSelf ds, resolveVirtualServices h sh service = Ret (useSelf, ds) /\
    d ∈ ds /\ find_listed d items 0 = None.
Definition fetched_for h sh (d : Delegate) : Prop := exists idx service,
  items !! idx = Some service /\ called_by h sh service /\ unlisted h sh service d.

Lemma find_listed_Some d services idx i :
  find_listed d services idx = Some i -> idx <= i /\ is_Some (services !! (i - idx)).
Proof.
  revert idx. induction services as [|v services IH]; intros idx; simpl; [done|].
  destruct (bool_decide _ && _).
  - intros [= <-]. rewrite Nat.sub_diag. split; [lia|by eexists].
  - intros [Hle Hi]%IH. split; [lia|]. by replace (i - idx) with (S (i - S idx)) by lia.
Qed.
Lemma find_listed_bound d i : find_listed d items 0 = Some i -> i < length items.
Proof. intros [_ Hi]%find_listed_Some. rewrite Nat.sub_0_r in Hi. by apply lookup_lt_is_Some. Qed.
Lemma found_listed h sh i : found_at h sh i -> is_Some (items !! i).
Proof.
  intros (idx & service & Hidx & _ & useSelf & ds & _ & [[_ ->]|(d & _ & Hd)]); [by eexists|].
  apply find_listed_Some in Hd as [_ Hd]. by rewrite Nat.sub_0_r in Hd.
Qed.
End found.

Lemma resolve_returns h sh service :
  wf_service service -> exists p, resolveVirtualServices h sh service = Ret p.
Proof.
  unfold resolveVirtualServices, wf_service. generalize false, (@nil Delegate).
  induction (vs_Http service) as [|r http IH]; intros b dl Hwf; simpl; [by eexists|].
  inversion_clear Hwf as [|? ? Hr Hrest]. rewrite (matches_existsb _ _ _ _ Hr). simpl. by apply IH.
Qed.
Lemma resolve_delegates h sh service useSelf ds (d : Delegate) :
  resolveVirtualServices h sh service = Ret (useSelf, ds) -> d ∈ ds ->
  exists rt, rt ∈ vs_Http service /\ hr_Delegate rt = Some d.
Proof.
  unfold resolveVirtualServices. set (ds0 := []).
  assert (Hg : forall routes u0 ds0, resolve_loop h sh routes (vs_Namespace service) u0 ds0 = Ret (useSelf, ds) ->
    d ∈ ds -> d ∈ ds0 \/ exists rt, rt ∈ routes /\ hr_Delegate rt = Some d).
  { clear. induction routes as [|rt routes IH]; intros u0 ds0; simpl; [intros [= _ <-]; by left|].
    destruct (routeDestinationsMatchesServiceHost _ _ _ _) as [m|]; simpl; [|done]. intros Hr Hd.
    destruct (IH _ _ Hr Hd) as [Hin|(rt' & Hin & Hd')]; [|right; exists rt'; split; [by right|done]].
    destruct (hr_Delegate rt) as [d'|] eqn:E; [|by left]. apply elem_of_app in Hin as [?| ->%list_elem_of_singleton]; [by left|].
    right. exists rt. split; [by left|done]. }
  intros Hr Hd. destruct (Hg _ _ _ Hr Hd) as [[]%elem_of_nil|?]; done.
Qed.


(** *** What matters to what is found

    Handlers of the same namespace and default version find the same. *)
Definition alike (h h' : VirtualServiceHandler) : Prop :=
  vh_Namespace h' = vh_Namespace h /\ vh_DefaultVersion h' = vh_DefaultVersion h.
Section alike.
Context {h h' : VirtualServiceHandler} (Halike : alike h h').
Lemma matches_alike sh rds ns :
  routeDestinationsMatchesServiceHost h' sh rds ns = routeDestinationsMatchesServiceHost h sh rds ns.
Proof.
  destruct Halike as [Hns Hd]. induction rds as [|rd rds IH]; simpl; [done|].
  destruct (rd_Destination rd); [|done]. by rewrite IH, Hns, Hd.
Qed.
Lemma resolve_alike sh service : resolveVirtualServices h' sh service = resolveVirtualServices h sh service.
Proof.
  unfold resolveVirtualServices. generalize false, (@nil Delegate).
  induction (vs_Http service) as [|rt routes IH]; intros b ds; simpl; [done|].
  rewrite matches_alike. destruct (routeDestinationsMatchesServiceHost _ _ _ _); [|done]. apply IH.
Qed.
Lemma called_alike sh service : called_by h' sh service <-> called_by h sh service.
Proof. unfold called_by. by rewrite (proj1 Halike). Qed.
Lemma found_at_alike items sh i : found_at items h' sh i <-> found_at items h sh i.
Proof. unfold found_at, leads. setoid_rewrite resolve_alike. by setoid_rewrite called_alike. Qed.
Lemma found_for_alike items sh v : found_for items h' sh v <-> found_for items h sh v.
Proof. unfold found_for. by setoid_rewrite found_at_alike. Qed.
Lemma fetched_for_alike items sh (d : Delegate) : fetched_for items h' sh d <-> fetched_for items h sh d.
Proof. unfold fetched_for, unlisted. setoid_rewrite resolve_alike. by setoid_rewrite called_alike. Qed.
End alike.
(** The hosts and services a handler keeps do not matter. *)
Lemma found_at_set items h active vss sh i :
  found_at items (vh_set_hosts active vss h) sh i <-> found_at items h sh i.
Proof. by apply found_at_alike. Qed.
Lemma found_for_set items h active vss sh v :
  found_for items (vh_set_hosts active vss h) sh v <-> found_for items h sh v.
Proof. by apply found_for_alike. Qed.
Lemma fetched_for_set items h active vss sh (d : Delegate) :
  fetched_for items (vh_set_hosts active vss h) sh d <-> fetched_for items h sh d.
Proof. by apply fetched_for_alike. Qed.

(** *** What a run finds

    The calls [l] find the listed services [T] and the delegates [D]: the
    references [refs] are to the listed services of [T] and to the objects [new],
    stored from [base] on, that the delegates of [D] were fetched as. *)
Definition dl_nn (d : Delegate) : NamespacedName := mkNN (dl_Namespace d) (dl_Name d).
Record finds (n : nat) (T : nat -> Prop) (D : Delegate -> Prop) (l : list event)
    (base : nat) (new : list VirtualService) (refs : list nat) : Prop := mkFinds {
  finds_listed : forall i, i < n -> (i ∈ refs <-> T i);
  finds_new : forall i, n <= i -> (i ∈ refs <-> base <= i < base + length new);
  finds_fetched : forall v, v ∈ new -> exists d, D d /\ Event (GetVirtualService (dl_nn d)) (Ok v) ∈ l;
  finds_asked : forall d, D d -> exists r, Event (GetVirtualService (dl_nn d)) r ∈ l /\
    match r with Ok v => v ∈ new | Err e => IsNotFound e = true end;
  finds_wf : Forall wf_service new;
}.
Lemma finds_nothing n (T : nat -> Prop) (D : Delegate -> Prop) base :
  (forall i, ~ T i) -> (forall d, ~ D d) -> finds n T D [] base [] [].
Proof.
  intros HT HD. split; [| | | |done].
  - intros i _. split; [by intros ?%elem_of_nil|by intros ?%HT].
  - intros i _. simpl. split; [by intros ?%elem_of_nil|lia].
  - by intros v ?%elem_of_nil.
  - by intros d ?%HD.
Qed.
Lemma finds_iff n (T T' : nat -> Prop) (D D' : Delegate -> Prop) l base new refs :
  (forall i, T i <-> T' i) -> (forall d, D d <-> D' d) -> finds n T D l base new refs -> finds n T' D' l base new refs.
Proof.
  intros HT HD [H1 H2 H3 H4 H5]. split; [|done| | |done].
  - intros i Hi. rewrite <- HT. by apply H1.
  - intros v (d & Hd & ?)%H3. exists d. split; [by apply HD|done].
  - intros d Hd. by apply H4, HD.
Qed.
Lemma finds_app n (T1 T2 : nat -> Prop) (D1 D2 : Delegate -> Prop) l1 l2 base new1 new2 refs1 refs2 :
  n <= base -> finds n T1 D1 l1 base new1 refs1 -> finds n T2 D2 l2 (base + length new1) new2 refs2 ->
  finds n (fun i => T1 i \/ T2 i) (fun d => D1 d \/ D2 d) (l1 ++ l2) base (new1 ++ new2) (refs1 ++ refs2).
Proof.
  intros Hn [A1 A2 A3 A4 A5] [B1 B2 B3 B4 B5]. split; [| | | |by apply Forall_app].
  - intros i Hi. rewrite elem_of_app, A1, B1 by done. done.
  - intros i Hi. rewrite elem_of_app, A2, B2, length_app by done. lia.
  - intros v [(d & Hd & Hin)%A3|(d & Hd & Hin)%B3]%elem_of_app; exists d; (split; [auto|]); apply elem_of_app; auto.
  - intros d [(r & Hin & Hr)%A4|(r & Hin & Hr)%B4]; exists r; rewrite elem_of_app; (split; [auto|]);
      destruct r; rewrite ?elem_of_app; auto.
Qed.
Lemma finds_one n i (T : nat -> Prop) base :
  i < n -> n <= base -> (forall j, T j <-> j = i) -> finds n T (fun _ => False) [] base [] [i].
Proof.
  intros Hi Hn HT. split; [| | |done|done].
  - intros j _. by rewrite HT, list_elem_of_singleton.
  - intros j Hj. rewrite list_elem_of_singleton. simpl. lia.
  - by intros v ?%elem_of_nil.
Qed.
Lemma finds_mono n T D l l' base new refs : l ⊆ l' -> finds n T D l base new refs -> finds n T D l' base new refs.
Proof.
  intros Hl [H1 H2 H3 H4 H5]. split; [done|done| | |done].
  - intros v (d & Hd & ?)%H3. exists d. auto.
  - intros d (r & ? & ?)%H4. exists r. auto.
Qed.

(** *** A run and its calls *)

(** [m] returns with [Q] of its result and of the calls it makes. *)
Definition logs {W A} (m : M W A) (Q : A -> list event -> Prop) (c : ctx W) : Prop :=
  wp m (fun a c' => exists l, cx_log c' = cx_log c ++ l /\ Q a l) c.

Section logs.
Context {W : Type} `{Client W}.

Lemma logs_ret {A} (a : A) (Q : A -> list event -> Prop) (c : ctx W) : Q a [] -> logs (mret a) Q c.
Proof. intros HQ. apply wp_ret. exists []. by rewrite app_nil_r. Qed.
Lemma logs_mono {A} (m : M W A) (P Q : A -> list event -> Prop) c :
  logs m P c -> (forall a l, P a l -> Q a l) -> logs m Q c.
Proof. intros Hm HPQ. eapply wp_mono; [|exact Hm]. intros a c' (l & Hl & HP). exists l. auto. Qed.
Lemma logs_bind {A B} (m : M W A) (f : A -> M W B) (P : A -> list event -> Prop) Q c :
  logs m P c -> (forall a l c', P a l -> logs (f a) (fun b l' => Q b (l ++ l')) c') -> logs (m ≫= f) Q c.
Proof.
  intros Hm Hf. apply wp_bind. eapply wp_mono; [|exact Hm]. intros a c1 (l & Hl & HP).
  eapply wp_mono; [|by apply (Hf a l)]. intros b c2 (l' & Hl' & HQ). exists (l ++ l').
  by rewrite Hl', Hl, app_assoc.
Qed.
Lemma logs_call {R} (q : req R) (Q : R -> list event -> Prop) (c : ctx W) :
  (forall r w w', exec q w = (r, w') -> Q r [Event q r]) -> logs (call q) Q c.
Proof. intros HQ. apply wp_call. intros r w Hex. eexists. split; [done|by eapply HQ]. Qed.
Lemma logs_runs {A} (m : M W A) (P : spec) c :
  runs m -> emits P m -> logs m (fun _ l => Forall (sat P) l) c.
Proof.
  intros Hm He. eapply wp_mono; [|apply (wp_emits P); [done|apply Hm]]. intros a c' [_ (l & ? & ?)]. by exists l.
Qed.
Lemma logs_lift {A} (a : A) (Q : A -> list event -> Prop) (c : ctx W) : Q a [] -> logs (lift (Ret a)) Q c.
Proof. apply logs_ret. Qed.
End logs.

(** ** Locating *)
Section locate.
Context {W : Type} `{Client W} `{!WellFormedServices W} `{MapOrder} `{RoutePrinter}.
Context (items : list VirtualService).
Implicit Types (h : VirtualServiceHandler) (lc : located).

(** From [lc] the references of [T] and [D] are added, when all goes well. *)
Definition located_as (T : nat -> Prop) (D : Delegate -> Prop) lc (res : located * option error) (l : list event) : Prop :=
  res.2 = None -> exists new refs,
    lc_store res.1 = lc_store lc ++ new /\ lc_refs res.1 = lc_refs lc ++ refs /\
    finds (length items) T D l (length (lc_store lc)) new refs.
Lemma located_nothing (T : nat -> Prop) (D : Delegate -> Prop) lc :
  (forall i, ~ T i) -> (forall d, ~ D d) -> located_as T D lc (lc, None) [].
Proof. intros HT HD _. exists [], []. rewrite !app_nil_r. split_and!; [done..|by apply finds_nothing]. Qed.
Lemma located_app (T1 T2 T : nat -> Prop) (D1 D2 D : Delegate -> Prop) l1 l2 lc lc1 res :
  length items <= length (lc_store lc) ->
  located_as T1 D1 lc (lc1, None) l1 -> located_as T2 D2 lc1 res l2 ->
  (forall i, T i <-> T1 i \/ T2 i) -> (forall d, D d <-> D1 d \/ D2 d) -> located_as T D lc res (l1 ++ l2).
Proof.
  intros Hn HA HB HT HD He. destruct (HA eq_refl) as (new1 & refs1 & Hs1 & Hr1 & Hf1).
  destruct (HB He) as (new2 & refs2 & Hs2 & Hr2 & Hf2). simpl in *.
  exists (new1 ++ new2), (refs1 ++ refs2). rewrite Hs2, Hs1, Hr2, Hr1, !app_assoc. split_and!; [done..|].
  rewrite Hs1, length_app in Hf2. eapply (finds_iff _ (fun i => T1 i \/ T2 i) _ (fun d => D1 d \/ D2 d));
    [intros i; by rewrite HT|intros d; by rewrite HD|]. by apply finds_app.
Qed.
Lemma located_or (T1 T2 : nat -> Prop) (D1 D2 : Delegate -> Prop) l1 l2 lc lc1 res :
  length items <= length (lc_store lc) ->
  located_as T1 D1 lc (lc1, None) l1 -> located_as T2 D2 lc1 res l2 ->
  located_as (fun i => T1 i \/ T2 i) (fun d => D1 d \/ D2 d) lc res (l1 ++ l2).
Proof. intros Hn HA HB. by eapply located_app. Qed.
Lemma located_grows (T : nat -> Prop) (D : Delegate -> Prop) lc lc' l :
  located_as T D lc (lc', None) l -> length (lc_store lc) <= length (lc_store lc').
Proof. intros Hl. destruct (Hl eq_refl) as (new & refs & Hs & _). simpl in Hs. rewrite Hs, length_app. lia. Qed.
Lemma located_ref i lc l :
  i < length items -> length items <= length (lc_store lc) ->
  located_as (fun j => j = i) (fun _ => False) lc (mkLocated (lc_store lc) (lc_refs lc ++ [i]), None) l.
Proof.
  intros Hi Hn _. exists [], [i]. rewrite app_nil_r. split_and!; [done..|].
  eapply finds_mono; [apply list_subseteq_nil|by apply finds_one].
Qed.
(** A delegate that is fetched, or found to be gone. *)
Lemma located_fetched (d : Delegate) v lc l :
  Event (GetVirtualService (dl_nn d)) (Ok v) ∈ l -> wf_service v -> length items <= length (lc_store lc) ->
  located_as (fun _ => False) (fun d' => d' = d) lc
    (mkLocated (lc_store lc ++ [v]) (lc_refs lc ++ [length (lc_store lc)]), None) l.
Proof.
  intros Hin Hv Hn _. exists [v], [length (lc_store lc)]. split_and!; [done..|]. split.
  - intros i Hi. rewrite list_elem_of_singleton. lia.
  - intros i Hi. rewrite list_elem_of_singleton. simpl. lia.
  - intros v' ->%list_elem_of_singleton. by exists d.
  - intros d' ->. exists (Ok v). split; [done|by left].
  - by apply Forall_singleton.
Qed.
Lemma located_gone (d : Delegate) e lc l :
  IsNotFound e = true -> Event (GetVirtualService (dl_nn d)) (Err e) ∈ l ->
  located_as (fun _ => False) (fun d' => d' = d) lc (lc, None) l.
Proof.
  intros He Hin _. exists [], []. rewrite !app_nil_r. split_and!; [done..|]. split; [| | | |done].
  - intros i Hi. by rewrite elem_of_nil.
  - intros i Hi. rewrite elem_of_nil. simpl. lia.
  - by intros v ?%elem_of_nil.
  - intros d' ->. by exists (Err e).
Qed.

Lemma logs_global_error k msg (c : ctx W) : logs (AddGlobalVirtualServiceError k msg) (fun _ _ => True) c.
Proof.
  eapply logs_mono; [apply (logs_runs _ (fun _ _ _ => True));
    [apply runs_AddGlobalVirtualServiceError|by apply emits_global_error]|done].
Qed.
Lemma logs_extract h d c :
  logs (extractServiceFromDelegate h d items) (fun res l =>
    match res with
    | Ok (Some (Listed i)) => find_listed d items 0 = Some i
    | Ok (Some (Fetched v)) =>
        find_listed d items 0 = None /\ Event (GetVirtualService (dl_nn d)) (Ok v) ∈ l /\ wf_service v
    | Ok None => find_listed d items 0 = None /\
        exists e, IsNotFound e = true /\ Event (GetVirtualService (dl_nn d)) (Err e) ∈ l
    | Err _ => True
    end) c.
Proof.
  unfold extractServiceFromDelegate. destruct (find_listed d items 0) as [i|] eqn:E; [by apply logs_ret|].
  cbv zeta. eapply logs_bind; [apply logs_global_error|]. intros _ l0 c1 _. eapply logs_bind.
  { apply (logs_call _ (fun r l => l = [Event (GetVirtualService (dl_nn d)) r] /\
      forall v, r = Ok v -> wf_service v)). intros r w w' Hex. split; [done|]. intros v ->. by eapply wf_get. }
  intros [v|e] l c2 [-> Hwf].
  { apply logs_ret. split; [done|]. split; [|by apply Hwf]. rewrite app_nil_r. apply elem_of_app. right. by left. }
  destruct (IsNotFound e) eqn:He; [|by apply logs_ret]. eapply logs_bind; [apply logs_global_error|].
  intros [e'|] l3 c3 _; [destruct (negb _)|]; apply logs_ret; [done|..]; (split; [done|]); exists e;
    (split; [done|]); rewrite !elem_of_app; right; left; by left.
Qed.
Lemma logs_add_delegates h dl lc c :
  length items <= length (lc_store lc) ->
  logs (add_delegates h items dl lc) (located_as (fun i => exists d, d ∈ dl /\ find_listed d items 0 = Some i)
    (fun d => d ∈ dl /\ find_listed d items 0 = None) lc) c.
Proof.
  revert lc c. induction dl as [|d dl IH]; intros lc c Hn; cbn [add_delegates].
  { apply logs_ret, located_nothing; [by intros i (d & ?%elem_of_nil & _)|by intros d [?%elem_of_nil _]]. }
  assert (Hrec : forall (T : nat -> Prop) (D : Delegate -> Prop) lc1 l1 c1,
    located_as T D lc (lc1, None) l1 ->
    (forall i, T i <-> find_listed d items 0 = Some i) -> (forall d', D d' <-> d' = d /\ find_listed d items 0 = None) ->
    logs (add_delegates h items dl lc1) (fun res l =>
      located_as (fun i => exists d', d' ∈ d :: dl /\ find_listed d' items 0 = Some i)
        (fun d' => d' ∈ d :: dl /\ find_listed d' items 0 = None) lc res (l1 ++ l)) c1).
  { intros T D lc1 l1 c1 Hstep HT HD. eapply logs_mono.
    - apply IH. apply located_grows in Hstep. lia.
    - intros res l' Hrest. eapply located_app; [done|exact Hstep|exact Hrest| |].
      + intros i. rewrite HT. setoid_rewrite elem_of_cons. naive_solver.
      + intros d'. rewrite HD, elem_of_cons. naive_solver. }
  eapply logs_bind; [apply logs_extract|]. intros [[[i|v]|]|e] l c1 Hres; [| | |by apply logs_ret].
  - eapply Hrec; [apply located_ref; [by eapply find_listed_bound|done]| |]; intros; rewrite Hres; naive_solver.
  - destruct Hres as (E & Hin & Hv). eapply Hrec; [by eapply located_fetched| |]; intros; rewrite E; naive_solver.
  - destruct Hres as (E & e & He & Hin). eapply Hrec; [by eapply located_gone| |]; intros; rewrite E; naive_solver.
Qed.

Lemma logs_locate_hosts h sh idx service hosts lc c :
  length items <= length (lc_store lc) -> items !! idx = Some service -> wf_service service ->
  logs (locate_hosts h sh items idx service hosts lc) (located_as
    (fun i => (exists host, host ∈ hosts /\ MatchNamespacedHost sh (vh_Namespace h) host (vs_Namespace service) = true) /\
       leads items h sh idx service i)
    (fun d => (exists host, host ∈ hosts /\ MatchNamespacedHost sh (vh_Namespace h) host (vs_Namespace service) = true) /\
       unlisted items h sh service d) lc) c.
Proof.
  intros Hn Hidx Hwf. revert lc c Hn. induction hosts as [|host hosts IH]; intros lc c Hn; cbn [locate_hosts].
  { apply logs_ret, located_nothing; by intros ? [(? & ?%elem_of_nil & _) _]. }
  destruct (MatchNamespacedHost _ _ _ _) eqn:Hm.
  2: { eapply logs_mono; [by apply IH|]. intros res l Hres. rewrite <- (app_nil_l l).
       eapply located_app; [done|apply (located_nothing (fun _ => False) (fun _ => False)); tauto|exact Hres| |];
         intros; setoid_rewrite elem_of_cons; naive_solver congruence. }
  destruct (resolve_returns h sh service Hwf) as [[useSelf dl] Hr]. rewrite Hr.
  eapply logs_bind; [by apply (logs_lift _ (fun r l => r = (useSelf, dl) /\ l = []))|].
  intros ? ? c1 [-> ->]. cbv zeta. set (lc1 := if useSelf then _ else _).
  assert (Hself : located_as (fun i => useSelf = true /\ i = idx) (fun _ => False) lc (lc1, None) []).
  { unfold lc1. destruct useSelf; [|apply located_nothing; [by intros i [[=] _]|by intros d []]].
    intros _. destruct (located_ref idx lc [] (lookup_lt_Some _ _ _ Hidx) Hn eq_refl) as (new & refs & ? & ? & Hf).
    exists new, refs. split_and!; [done..|]. by eapply finds_iff; [| |exact Hf]; [naive_solver|]. }
  pose proof (located_grows _ _ _ _ _ Hself) as Hn1.
  eapply logs_bind; [apply logs_add_delegates; lia|]. intros [lc2 [e|]] l2 c2 Hds; [by apply logs_ret|].
  pose proof (located_grows _ _ _ _ _ Hds) as Hn2.
  eapply logs_mono; [apply IH; lia|]. intros res l3 Hrest. rewrite app_nil_l.
  eapply located_app; [done|exact (located_or _ _ _ _ _ _ _ _ _ Hn Hself Hds)|exact Hrest| |].
  - intros i. unfold leads. setoid_rewrite Hr. setoid_rewrite elem_of_cons. naive_solver.
  - intros d. unfold unlisted. setoid_rewrite Hr. setoid_rewrite elem_of_cons. naive_solver.
Qed.
Lemma logs_locate_loop h sh idx services lc c :
  length items <= length (lc_store lc) -> drop idx items = services -> Forall wf_service items ->
  logs (locate_loop h sh items idx services lc) (located_as
    (fun i => exists j service, idx <= j /\ items !! j = Some service /\ called_by h sh service /\
       leads items h sh j service i)
    (fun d => exists j service, idx <= j /\ items !! j = Some service /\ called_by h sh service /\
       unlisted items h sh service d) lc) c.
Proof.
  intros Hn Hdrop Hwf. revert idx lc c Hn Hdrop.
  induction services as [|service services IH]; intros idx lc c Hn Hdrop; cbn [locate_loop].
  { assert (Hend : forall j, idx <= j -> items !! j = None).
    { intros j Hj. apply lookup_ge_None_2. apply (f_equal length) in Hdrop. rewrite length_drop in Hdrop. simpl in Hdrop. lia. }
    apply logs_ret, located_nothing; intros ? (j & s & Hj & Hs & _); by rewrite (Hend j Hj) in Hs. }
  assert (Hidx : items !! idx = Some service) by (rewrite <- (Nat.add_0_r idx), <- lookup_drop, Hdrop; done).
  assert (Hs : wf_service service) by (eapply Forall_lookup_1; [exact Hwf|exact Hidx]).
  eapply logs_bind; [by apply logs_locate_hosts|]. intros [lc1 [e|]] l1 c1 Ha; [by apply logs_ret|].
  pose proof (located_grows _ _ _ _ _ Ha) as Hn1.
  eapply logs_mono; [apply (IH (S idx)); [lia|by rewrite <- Nat.add_1_r, <- drop_drop, Hdrop]|].
  assert (Hcases : forall j, idx <= j <-> j = idx \/ S idx <= j) by lia.
  intros res l2 Hb. eapply located_app; [done|exact Ha|exact Hb| |]; intros x; setoid_rewrite Hcases; split.
  - intros (j & s & [->|Hj] & Hjs & Hc & Hl); [left|right; eauto 6]. rewrite Hidx in Hjs. by injection Hjs as <-.
  - intros [[Hc Hl]|(j & s & Hj & ?)]; [exists idx, service|exists j, s]; auto.
  - intros (j & s & [->|Hj] & Hjs & Hc & Hl); [left|right; eauto 6]. rewrite Hidx in Hjs. by injection Hjs as <-.
  - intros [[Hc Hl]|(j & s & Hj & ?)]; [exists idx, service|exists j, s]; auto.
Qed.
End locate.

(** ** Handling *)

(** A listing [items] and the services [found] from it for the host: the listed
    ones, and the delegates that are fetched because they are not listed. *)
Record located_for (h : VirtualServiceHandler) (sh : string) (l : list event)
    (items found : list VirtualService) : Prop := mkLocatedFor {
  located_listing : Event ListVirtualServices (Ok items) ∈ l;
  located_listed : forall v, found_for items h sh v -> v ∈ found;
  located_delegates : forall d, fetched_for items h sh d ->
    exists r, Event (GetVirtualService (dl_nn d)) r ∈ l /\
      match r with Ok v => v ∈ found | Err e => IsNotFound e = true end;
  located_only : forall v, v ∈ found -> found_for items h sh v \/
    exists d, fetched_for items h sh d /\ Event (GetVirtualService (dl_nn d)) (Ok v) ∈ l;
}.
(** The service has routes of the subset, or was sent with them added, accepted. *)
Definition has_routes (h : VirtualServiceHandler) (v : VirtualService) : Prop :=
  routesConfiguredWithDynamicEnvRoutes (vs_Http v) (vh_RoutePrefix h) = true.
Definition applied `{RoutePrinter} (h : VirtualServiceHandler) (sh : string) (l : list event) (v : VirtualService) : Prop :=
  has_routes h v \/ exists stored, Event (UpdateVirtualService (edit_of h sh v)) (Ok stored) ∈ l.

Section handling.
Context {W : Type} `{Client W} `{!WellFormedServices W} `{MapOrder} `{RoutePrinter}.
Implicit Types (h : VirtualServiceHandler) (l : list event).

Lemma update_skips h service sh (c : ctx W) :
  wf_service service ->
  wp (updateVirtualService h service sh) (fun res _ => has_routes h service -> res = (service, None)) c.
Proof.
  intros Hwf. destruct (routesConfiguredWithDynamicEnvRoutes (vs_Http service) (vh_RoutePrefix h)) eqn:Hc.
  - unfold updateVirtualService. rewrite Hc. by apply wp_ret.
  - eapply wp_mono; [|by apply wp_update]. intros res c' _. unfold has_routes. congruence.
Qed.
Lemma applied_mono h sh l l' v : l ⊆ l' -> applied h sh l v -> applied h sh l' v.
Proof. intros Hl [?|(s & ?)]; [by left|right; exists s; auto]. Qed.
Lemma located_for_mono h sh l l' items found : l ⊆ l' -> located_for h sh l items found -> located_for h sh l' items found.
Proof.
  intros Hl [Ha Hb Hc Hd]. split; [auto|done| |].
  - intros d (r & ? & ?)%Hc. exists r. auto.
  - intros v [?|(d & ? & ?)]%Hd; [by left|right; exists d; auto].
Qed.

Lemma elem_of_deref (store : list VirtualService) refs v :
  v ∈ deref store refs <-> exists i, i ∈ refs /\ store !! i = Some v.
Proof. unfold deref. rewrite list_elem_of_omap. done. Qed.
(** References to objects of different names are different. *)
Lemma NoDup_refs (store : list VirtualService) refs :
  Forall (fun i => i < length store) refs -> NoDup (toNamespacedName (deref store refs)) -> NoDup refs.
Proof.
  unfold deref, toNamespacedName. induction 1 as [|i refs Hi _ IH]; [constructor|].
  destruct (lookup_lt_is_Some_2 _ _ Hi) as [v Hv]. cbn. rewrite Hv. cbn. intros [Hn Hnd]%NoDup_cons.
  constructor; [|by apply IH]. intros Hin. apply Hn.
  apply (list_elem_of_fmap_2 (fun s => mkNN (vs_Namespace s) (vs_Name s))). apply elem_of_deref. by exists i.
Qed.

Lemma finds_located h sh l items new refs :
  Event ListVirtualServices (Ok items) ∈ l ->
  finds (length items) (found_at items h sh) (fetched_for items h sh) l (length items) new refs ->
  located_for h sh l items (deref (items ++ new) refs).
Proof.
  intros Hl [Hlisted Hnew Hfetched Hasked _].
  assert (Hin : forall v, v ∈ new -> v ∈ deref (items ++ new) refs).
  { intros v [j Hj]%list_elem_of_lookup. apply elem_of_deref. exists (length items + j).
    rewrite lookup_app_r, Nat.add_comm, Nat.add_sub by lia. split; [|done].
    apply Hnew; [lia|]. apply lookup_lt_Some in Hj. lia. }
  split; [done| | |].
  - intros v (i & Hi & Hf). pose proof (lookup_lt_Some _ _ _ Hi). apply elem_of_deref. exists i.
    rewrite lookup_app_l by done. split; [by apply Hlisted|done].
  - intros d (r & Hr & Hx)%Hasked. exists r. split; [done|]. destruct r; auto.
  - intros v (i & Hi & Hv)%elem_of_deref. destruct (decide (i < length items)) as [Hlt|Hge].
    + left. exists i. rewrite lookup_app_l in Hv by done. split; [done|]. by apply Hlisted.
    + right. rewrite lookup_app_r in Hv by lia. apply list_elem_of_lookup_2 in Hv. by apply Hfetched.
Qed.
Lemma logs_locate h sh c :
  logs (locateVirtualServicesByServiceHost h sh) (fun res l => res.2 = None ->
    exists items, located_for h sh l items (deref (lc_store res.1) (lc_refs res.1)) /\
      Forall (fun i => i < length (lc_store res.1)) (lc_refs res.1) /\ Forall wf_service (lc_store res.1)) c.
Proof.
  unfold locateVirtualServicesByServiceHost. eapply logs_bind.
  { apply (logs_call _ (fun r l => l = [Event ListVirtualServices r] /\
      forall items, r = Ok items -> Forall wf_service items)).
    intros r w w' Hex. split; [done|]. intros items ->. by eapply wf_list. }
  intros [items|e] l c1 [-> Hwf]; [|by apply logs_ret]. specialize (Hwf items eq_refl).
  eapply logs_mono; [by apply (logs_locate_loop items h sh 0 items (mkLocated items []))|].
  intros [lc err] l Hlc He. destruct (Hlc He) as (new & refs & Hs & Hr & Hf). simpl in *.
  assert (Hf' : finds (length items) (found_at items h sh) (fetched_for items h sh)
    (Event ListVirtualServices (Ok items) :: l) (length items) new refs).
  { eapply finds_mono; [|eapply finds_iff; [| |exact Hf]]; [set_solver| |]; intros x; split.
    - intros (j & s & _ & ? & ? & ?). by exists j, s.
    - intros (j & s & ? & ? & ?). exists j, s. split; [lia|done].
    - intros (j & s & _ & ? & ? & ?). by exists j, s.
    - intros (j & s & ? & ? & ?). exists j, s. split; [lia|done]. }
  exists items. rewrite Hs, Hr. cbn [app]. split; [apply finds_located; [by left|done]|]. split.
  - apply Forall_forall. intros i Hi. rewrite length_app. destruct (decide (i < length items)); [lia|].
    apply (finds_new _ _ _ _ _ _ _ Hf') in Hi; lia.
  - apply Forall_app. split; [done|apply Hf'].
Qed.

(** The edits of the objects referred to. *)
Definition edits_done h sh (store : list VirtualService) (refs : list nat) (b b' : bool) l : Prop :=
  (b' = true -> NoDup refs -> b = true \/ exists v, v ∈ deref store refs /\ applied h sh l v) /\
  (b = true \/ (exists v, v ∈ deref store refs /\ has_routes h v) -> b' = true).
Lemma logs_update_refs h sh store refs b c :
  Forall (fun i => i < length store) refs -> Forall wf_service store ->
  logs (update_refs h sh store refs b) (fun res l => edits_done h sh store refs b res.2 l) c.
Proof.
  revert store b c. induction refs as [|i refs IH]; intros store b c Hr Hs; cbn [update_refs].
  { apply logs_ret. split; [by left|]. by intros [?|(v & ?%elem_of_nil & _)]. }
  inversion_clear Hr as [|? ? Hi Hr']. destruct (lookup_lt_is_Some_2 store i Hi) as [service Hsv]. rewrite Hsv.
  assert (Hwf : wf_service service) by (eapply Forall_lookup_1; [exact Hs|exact Hsv]).
  assert (Hhead : service ∈ deref store (i :: refs)) by (apply elem_of_deref; exists i; split; [by left|done]).
  eapply (logs_bind _ _ (fun res l => wf_service res.1 /\ (has_routes h service -> res = (service, None)) /\
    (res.2 = None -> update_success h service sh res.1 l))).
  { eapply wp_mono; [|apply wp_conj; [by apply wp_updateVirtualService|by apply (update_skips h service sh c)]].
    intros res c1 [[Hv (l & Hl & Hsucc)] Hskip]. by exists l. }
  intros [v err] l c1 (Hv & Hskip & Hsucc). simpl in Hv, Hsucc. set (b1 := match err with Some _ => b | None => true end).
  replace (match err with Some _ => _ | None => _ end) with (update_refs h sh (<[i:=v]> store) refs b1) by by destruct err.
  eapply logs_mono.
  { apply IH; [|by apply Forall_insert]. eapply Forall_impl; [exact Hr'|]. intros j. by rewrite length_insert. }
  intros res l' [Hyes Hkeep].
  assert (Hsame : forall j w, j ∈ refs -> j <> i -> (<[i:=v]> store) !! j = Some w <-> store !! j = Some w).
  { intros j w _ Hne. by rewrite list_lookup_insert_ne. }
  split.
  - intros Hres [Hni Hnd]%NoDup_cons. destruct (Hyes Hres Hnd) as [Hb|(w & (j & Hj & Hw)%elem_of_deref & Ha)].
    + destruct err; [by left|right]. exists service. split; [done|].
      destruct (Hsucc eq_refl) as [(Hp & _)|(_ & Hin)]; [by left|right]. exists v. apply elem_of_app. by left.
    + right. exists w. split; [|eapply applied_mono; [|exact Ha]; set_solver].
      apply elem_of_deref. exists j. split; [by right|]. apply Hsame in Hw; [done..|]. by intros ->.
  - intros Hb. apply Hkeep. destruct err as [e|]; [|by left]. destruct Hb as [Hb|(w & (j & Hj & Hw)%elem_of_deref & Hp)]; [by left|].
    destruct (decide (j = i)) as [->|Hne].
    { rewrite Hsv in Hw. injection Hw as ->. by apply Hskip in Hp. }
    right. exists w. split; [|done]. apply elem_of_deref. apply elem_of_cons in Hj as [->|Hj]; [done|].
    exists j. split; [done|]. by apply Hsame.
Qed.

(** What [Handle] reports of a host that is active, and of one it has handled. *)
Definition activated h l sh : Prop := exists items found,
  located_for h sh l items found /\
  (NoDup (toNamespacedName found) -> exists v, v ∈ found /\ applied h sh l v).
Definition reported h l (res : VirtualServiceHandler) sh : Prop := exists items found,
  located_for h sh l items found /\
  vh_virtualServices res !! sh = Some (toNamespacedName found) /\
  ((exists v, v ∈ found /\ has_routes h v) -> sh ∈ vh_activeHosts res).
Lemma activated_mono h l l' sh : l ⊆ l' -> activated h l sh -> activated h l' sh.
Proof.
  intros Hl (items & found & Hf & Ha). exists items, found. split; [by eapply located_for_mono|].
  intros (v & Hv & Hp)%Ha. exists v. split; [done|by eapply applied_mono].
Qed.

Definition handled h (hosts : list string) (res : VirtualServiceHandler * option error) l : Prop :=
  (exists act, act `sublist_of` hosts /\ vh_activeHosts res.1 = vh_activeHosts h ++ act /\ Forall (activated h l) act) /\
  (forall sh, sh ∉ hosts -> vh_virtualServices res.1 !! sh = vh_virtualServices h !! sh) /\
  (res.2 = None -> forall sh, sh ∈ hosts -> reported h l res.1 sh).
(** Only the two lists the handler keeps change; nothing else looks at them. *)
Lemma handled_set h act vss hosts res l :
  handled (vh_set_hosts act vss h) hosts res l <->
  (exists act', act' `sublist_of` hosts /\ vh_activeHosts res.1 = act ++ act' /\ Forall (activated h l) act') /\
  (forall sh, sh ∉ hosts -> vh_virtualServices res.1 !! sh = vss !! sh) /\
  (res.2 = None -> forall sh, sh ∈ hosts -> reported h l res.1 sh).
Proof.
  assert (Hloc : forall sh items found,
    located_for (vh_set_hosts act vss h) sh l items found <-> located_for h sh l items found).
  { intros sh items found. split; intros [Ha Hb Hc Hd]; (split; [done| | |]);
      try (intros v Hv; apply Hb; by apply (found_for_set items h act vss));
      try (intros d Hx; apply Hc; by apply (fetched_for_set items h act vss));
      (intros v [Hv|(d & Hx & ?)]%Hd; [left; by apply (found_for_set items h act vss)|right; exists d;
         split; [by apply (fetched_for_set items h act vss)|done]]). }
  unfold handled, reported, activated. setoid_rewrite Forall_forall. setoid_rewrite Hloc. done.
Qed.
Lemma reported_mono h l l' res sh : l ⊆ l' -> reported h l res sh -> reported h l' res sh.
Proof.
  intros Hl (items & found & Hf & Hr). exists items, found. split; [by eapply located_for_mono|done].
Qed.
(** One host, then the others. *)
Lemma handled_cons h sh hosts items store refs (b : bool) res l1 l2 l3 :
  located_for h sh l1 items (deref store refs) -> Forall (fun i => i < length store) refs ->
  edits_done h sh store refs false b l2 ->
  handled (vh_set_hosts (if b then vh_activeHosts h ++ [sh] else vh_activeHosts h)
    (<[sh := toNamespacedName (deref store refs)]> (vh_virtualServices h)) h) hosts res l3 ->
  handled h (sh :: hosts) res (l1 ++ l2 ++ l3).
Proof.
  intros Hloc Hrefs [Hyes Hkeep] Hrest.
  apply (handled_set h) in Hrest as ((act & Hsub & Hact & Ha) & Hvss & Hrep).
  assert (Hl : located_for h sh (l1 ++ l2 ++ l3) items (deref store refs)) by (eapply located_for_mono; [|exact Hloc]; set_solver).
  split_and!.
  - exists (if b then sh :: act else act). rewrite Hact. destruct b; (split; [by constructor|]).
    + rewrite <- app_assoc. split; [done|]. constructor.
      2: { eapply Forall_impl; [exact Ha|]. intros x. apply activated_mono. set_solver. }
      exists items, (deref store refs). split; [done|]. intros Hnd.
      destruct (Hyes eq_refl (NoDup_refs _ _ Hrefs Hnd)) as [?|(v & Hv & Hp)]; [done|]. exists v. split; [done|].
      eapply applied_mono; [|exact Hp]. set_solver.
    + split; [done|]. eapply Forall_impl; [exact Ha|]. intros x. apply activated_mono. set_solver.
  - intros x [Hne Hx]%not_elem_of_cons. rewrite Hvss by done. by rewrite lookup_insert_ne.
  - intros He x Hx. destruct (decide (x ∈ hosts)) as [Hin|Hin].
    { eapply reported_mono; [|by apply Hrep]. set_solver. }
    apply elem_of_cons in Hx as [->|?]; [|done]. exists items, (deref store refs). split; [done|].
    rewrite Hvss, lookup_insert_eq by done. split; [done|]. intros Hp. rewrite Hact.
    destruct b; [|by discriminate Hkeep; right]. set_solver.
Qed.
Lemma logs_handle_hosts h hosts c : logs (handle_hosts h hosts) (fun res l => handled h hosts res l) c.
Proof.
  revert h c. induction hosts as [|sh hosts IH]; intros h c; cbn [handle_hosts].
  { apply logs_ret. split_and!; [|done|by intros _ sh ?%elem_of_nil].
    exists []. split; [constructor|]. by rewrite app_nil_r. }
  eapply logs_bind; [apply logs_locate|]. intros [lc [e|]] l1 c1 Hloc; cbn [fst snd] in Hloc.
  { apply logs_ret. split_and!; [|done|done]. exists []. rewrite app_nil_r. by split; [apply sublist_nil_l|]. }
  destruct (Hloc eq_refl) as (items & Hfor & Hrefs & Hwf). cbv zeta.
  eapply logs_bind; [by apply (logs_update_refs (vh_set_hosts _ _ h))|]. intros [st b] l2 c2 Hed.
  destruct b; (eapply logs_mono; [apply IH|]); intros res l3 Hres.
  - by apply (handled_cons h sh hosts items (lc_store lc) (lc_refs lc) true).
  - by apply (handled_cons h sh hosts items (lc_store lc) (lc_refs lc) false).
Qed.
End handling.

(** C28.  What [VirtualServiceHandler.Handle] does with the service hosts it is given,
    as long as the virtual services the API answers have their destinations: it
    does not panic, and the hosts it reports as active are, in order, some of
    its service hosts.  For every active host some service found for it had
    routes of the subset when it was read or was sent, with exactly the subset's
    routes added, in an update the API accepted; this is known when the services
    found have different names, as otherwise a failed update can be taken for
    done.  When it reports no error there is an active host, and for every
    service host what it recorded for the status are the names of the services
    found: those listed that are called by the host and route to it, or that
    these delegate to, and the delegates that are not listed, each of them
    fetched or answered to be gone; and a host is active if one of its services
    has routes of the subset already. *)
Theorem VirtualServiceHandler_Handle_hosts {W} `{Client W} `{MapOrder} `{RoutePrinter}
    (h : VirtualServiceHandler) (c : ctx W) (Hapi : WellFormedServices W) (Hnew : vh_activeHosts h = []) :
  wp (VirtualServiceHandler_Handle h) (fun res c' => exists l, cx_log c' = cx_log c ++ l /\
    let active := VirtualServiceHandler_GetHosts res.1 in
    active `sublist_of` vh_ServiceHosts h /\
    (forall sh, sh ∈ active -> exists items found, located_for h sh l items found /\
       (NoDup (toNamespacedName found) -> exists v, v ∈ found /\ applied h sh l v)) /\
    (res.2 = None -> active <> [] /\
       forall sh, sh ∈ vh_ServiceHosts h -> exists items found, located_for h sh l items found /\
         vh_virtualServices res.1 !! sh = Some (toNamespacedName found) /\
         ((exists v, v ∈ found /\ has_routes h v) -> sh ∈ active))) c.
Proof.
  unfold VirtualServiceHandler_Handle, VirtualServiceHandler_GetHosts. cbv zeta.
  eapply (logs_bind _ _ _ _ _ (logs_handle_hosts _ _ _)). rewrite Hnew.
  intros [h' err] l c1 Hres. apply (handled_set h) in Hres as ((act & Hsub & Hact & Ha) & _ & Hrep).
  cbn [fst snd app] in *. rewrite Forall_forall in Ha.
  assert (Hactive : forall sh, sh ∈ vh_activeHosts h' -> activated h l sh) by (rewrite Hact; exact Ha).
  destruct err as [e|]; [apply logs_ret; rewrite app_nil_r; split_and!; [by cbn; rewrite Hact|exact Hactive|done]|].
  case_decide as Hl; apply logs_ret; rewrite app_nil_r; (split_and!; [by cbn; rewrite Hact|exact Hactive|]); [done|].
  intros _. split; [simpl; intros Hn; apply Hl; by rewrite Hn|]. exact (Hrep eq_refl).
Qed.

Lemma VirtualServiceHandler_Handle_hosts_witness :
  let h := RoutingExample.handler in
  let run := VirtualServiceHandler_Handle (H:=StaticServices.client) (H1:=canonical_order)
               (H2:=RoutingExample.printer) h in
  let c := mkCtx 0 example_de 0 0 [] in
  wp run (fun res c' => exists l, cx_log c' = cx_log c ++ l /\
    let active := VirtualServiceHandler_GetHosts res.1 in
    active `sublist_of` ["reviews"] /\
    (forall sh, sh ∈ active -> exists items found, located_for h sh l items found /\
       (NoDup (toNamespacedName found) -> exists v, v ∈ found /\ applied (H:=RoutingExample.printer) h sh l v)) /\
    (res.2 = None -> active <> [] /\
       forall sh, sh ∈ ["reviews"] -> exists items found, located_for h sh l items found /\
         vh_virtualServices res.1 !! sh = Some (toNamespacedName found) /\
         ((exists v, v ∈ found /\ has_routes h v) -> sh ∈ active))) c.
Proof.
  intros h run c.
  apply (VirtualServiceHandler_Handle_hosts (H:=StaticServices.client) h c StaticServices.client_wf).
  reflexivity.
Defined.
(** It ends well: the service is found, recorded and edited. *)
Example Handle_hosts_run :
  let run := VirtualServiceHandler_Handle (H:=StaticServices.client) (H1:=canonical_order)
               (H2:=RoutingExample.printer) RoutingExample.handler (mkCtx 0 example_de 0 0 []) in
  (fun res => (VirtualServiceHandler_GetHosts res.1, vh_virtualServices res.1 !! "reviews", res.2)) <$> run.1
  = Ret (["reviews"], Some [mkNN "default" "reviews"], None).
Proof. vm_compute. reflexivity. Qed.
