(* ===== verification/DeploymentHandler.v ===== *)
(** * The deployment handler (pkg/handlers/deployment_handler.go, extensions)

    The overriding deployment is the base deployment, deep-copied, with the
    version labels, the replicas and the container overrides of the subset.  The
    handler creates it when it is missing and rewrites it when the hash of the
    subset differs from the one recorded in the status.

    [hashstructure.Hash] is a library: a parameter. *)

From stdpp Require Import base gmap sets list strings.
From S2P Require Import Prelude GoStrings Sha256 K8s Types Helpers Watches Client FakeCluster StatusManager Model.

(** [hashstructure.Hash(subset, FormatV2, nil)], a [uint64] or an error. *)
Class SubsetHash := Hash : Subset -> result error Z.

Record DeploymentHandler := mkDeploymentHandler {
  dh_UniqueName : string;
  dh_UniqueVersion : string;
  dh_SubsetName : string;
  dh_Owner : NamespacedName;
  dh_BaseDeployment : Deployment;
  dh_DeploymentType : SubsetOrConsumer;
  dh_LabelsToRemove : list string;
  dh_VersionLabel : string;
  dh_Matches : list IstioMatch;
  dh_Updating : bool;
  dh_Subset : Subset;
}.
Definition dh_set_Updating (b : bool) (h : DeploymentHandler) : DeploymentHandler :=
  mkDeploymentHandler (dh_UniqueName h) (dh_UniqueVersion h) (dh_SubsetName h) (dh_Owner h)
    (dh_BaseDeployment h) (dh_DeploymentType h) (dh_LabelsToRemove h) (dh_VersionLabel h)
    (dh_Matches h) b (dh_Subset h).

Definition NewDeploymentHandler (subsetData : DynamicEnvReconcileData) (dt : SubsetOrConsumer)
    (labelsToRemove : list string) (versionLabel : string) : DeploymentHandler :=
  let uniqueVersion := UniqueDynamicEnvName (rd_Identifier subsetData) in
  let uniqueName := MkSubsetUniqueName (s_Name (rd_Subset subsetData)) uniqueVersion in
  {| dh_UniqueName := uniqueName;
     dh_UniqueVersion := uniqueVersion;
     dh_SubsetName := MKSubsetName (rd_Subset subsetData);
     dh_Owner := rd_Identifier subsetData;
     dh_BaseDeployment := rd_BaseDeployment subsetData;
     dh_DeploymentType := dt;
     dh_LabelsToRemove := labelsToRemove;
     dh_VersionLabel := versionLabel;
     dh_Matches := rd_Matches subsetData;
     dh_Updating := false;
     dh_Subset := rd_Subset subsetData |}.

(** ** Pure parts *)
Fixpoint findContainerIndex_from (idx : nat) (containers : list Container) (defaultName : string) :
    result error nat :=
  match containers with
  | [] => Err (ErrorS ("container name " +:+ defaultName +:+ " does'nt exist"))
  | c :: rest => if decide (c_Name c = defaultName) then Ok idx
                 else findContainerIndex_from (S idx) rest defaultName
  end.
Definition findContainerIndex := findContainerIndex_from 0.

Fixpoint most_recent (typ : string) (conditions : list DeploymentCondition)
    (found : option DeploymentCondition) : option DeploymentCondition :=
  match conditions with
  | [] => found
  | c :: rest =>
      most_recent typ rest
        (if decide (dc_Type c = typ) then
           match found with
           | Some result => if decide (dc_LastUpdateTime result < dc_LastUpdateTime c)%Z then Some c else found
           | None => Some c
           end
         else found)
  end.
Definition getMostRecentConditionForType (typ : string) (conditions : list DeploymentCondition) :
    option DeploymentCondition := most_recent typ conditions None.

(** The status of a deployment that was found. *)
Definition deployment_lifecycle (updating : bool) (conditions : list DeploymentCondition) : LifeCycleStatus :=
  match getMostRecentConditionForType "Progressing" conditions with
  | None => Unknown
  | Some processing =>
      if decide (dc_Status processing = "True") then
        if decide (dc_Reason processing = "NewReplicaSetAvailable") then Running
        else if updating then Updating else Initializing
      else Failed
  end.

(** extensions/deployment_extensions.go: the hook, which does nothing here. *)
Record DeploymentExtensionData := mkExtensionData {
  ext_BaseDeployment : Deployment;
  ext_Matches : list IstioMatch;
  ext_Subset : Subset;
  ext_DynamicEnvName : string;
}.
Definition ExtendOverridingDeployment (deployment : Deployment) (data : DeploymentExtensionData) :
    Deployment * option error := (deployment, None).

Section handler.
Context {W : Type} `{Client W} `{MapOrder} `{SubsetHash}.
Implicit Types (h : DeploymentHandler).

(** ** The overriding deployment *)
Definition createContainerTemplate (containers : list Container) (containerOverrides : ContainerOverrides) :
    M W (result error (Container * nat)) :=
  match findContainerIndex containers (co_ContainerName containerOverrides) with
  | Err err => mret (Err err)
  | Ok idx =>
      match containers !! idx with
      | None => panic
      | Some container =>
          let image := if decide (co_Image containerOverrides <> "") then co_Image containerOverrides
                       else c_Image container in
          let command := if decide (0 < length (default [] (co_Command containerOverrides)))
                         then default [] (co_Command containerOverrides) else c_Command container in
          env ← alloc (MergeEnvVars (c_Env container) (default [] (co_Env containerOverrides)));
          mret (Ok (mkContainer (c_Name container) image command env (c_other container), idx))
      end
  end.
(** The override loops; [what] is the error's prefix. *)
Fixpoint override_containers (what : string) (containers : list Container)
    (overrides : list ContainerOverrides) : M W (result error (list Container)) :=
  match overrides with
  | [] => mret (Ok containers)
  | c :: rest =>
      res ← createContainerTemplate containers c;
      match res with
      | Err err => mret (Err (Wrapf what err))
      | Ok (container, idx) => override_containers what (<[idx := container]> containers) rest
      end
  end.

(** Writes to the labels of the copy, the removal of unwanted ones. *)
Definition overriding_labels h (labels : gomap string) : outcome (gomap string) :=
  labels ← mset labels (dh_VersionLabel h) (dh_UniqueVersion h);
  labels ← mset labels DynamicEnvLabel "true";
  Ret (foldl mdelete labels (dh_LabelsToRemove h)).
Definition overriding_selector h (selector : option LabelSelector) : outcome (option LabelSelector) :=
  match selector with
  | None => Panic
  | Some s =>
      matchLabels ← mset (ls_MatchLabels s) (dh_VersionLabel h) (dh_UniqueVersion h);
      Ret (Some (mkLabelSelector matchLabels (ls_other s)))
  end.
(** [*newSpec.Replicas = replicas] *)
Definition overriding_replicas h (current : option Z) : outcome (option Z) :=
  match current with
  | None => Panic
  | Some _ => Ret (Some (default 1%Z (s_Replicas (dh_Subset h))))
  end.
Definition overriding_template_labels h (labels : gomap string) : outcome (gomap string) :=
  labels ← mset labels (dh_VersionLabel h) (dh_UniqueVersion h);
  mset labels DynamicEnvLabel "true".

Definition createOverridingDeployment h : M W (result error Deployment) :=
  let base := dh_BaseDeployment h in
  let newSpec := dp_Spec base in
  labels ← lift (overriding_labels h (dp_Labels base));
  selector ← lift (overriding_selector h (ds_Selector newSpec));
  replicas ← lift (overriding_replicas h (ds_Replicas newSpec));
  let template := ds_Template newSpec in
  tlabels ← lift (overriding_template_labels h (pt_Labels template));
  podLabels ← range (mread (s_PodLabels (dh_Subset h)));
  tlabels ← lift (set_all id podLabels tlabels);
  containers ← override_containers ("processing containers in subset " +:+ s_Name (dh_Subset h))
                 (pt_Containers template) (s_Containers (dh_Subset h));
  match containers with
  | Err err => mret (Err err)
  | Ok containers =>
      initContainers ← override_containers ("processing init-containers in subset " +:+ s_Name (dh_Subset h))
                         (pt_InitContainers template) (s_InitContainers (dh_Subset h));
      match initContainers with
      | Err err => mret (Err err)
      | Ok initContainers =>
          let dep := mkDeployment (dh_UniqueName h) (s_Namespace (dh_Subset h)) labels None
            (mkDeploymentSpec replicas selector
               (mkPodTemplate tlabels containers initContainers (pt_other template)) (ds_other newSpec))
            [] "" in
          let depData := mkExtensionData base (dh_Matches h) (dh_Subset h) (nn_Name (dh_Owner h)) in
          let '(dep, err) := ExtendOverridingDeployment dep depData in
          match err with
          | Some err => mret (Err err)
          | None => mret (Ok (AddToAnnotation (dh_Owner h) dep))
          end
      end
  end.

(** ** Handle *)
Definition setStatus h (status : LifeCycleStatus) : M W (option error) :=
  AddDeploymentStatusEntry (dh_SubsetName h)
    (mkResourceStatus (dh_UniqueName h) (s_Namespace (dh_Subset h)) status) (dh_DeploymentType h).

Definition UpdateIfRequired h : M W (DeploymentHandler * option error) :=
  let s := dh_Subset h in
  existingHash ← match dh_DeploymentType h with
                 | CONSUMER => GetHashForConsumer (dh_SubsetName h)
                 | SUBSET => GetHashForSubset (dh_SubsetName h)
                 end;
  match Hash s with
  | Err err => mret (h, Some (Wrapf ("could not calculate hash of subset '" +:+ s_Namespace s +:+ "/"
                                     +:+ s_Name s +:+ "'") err))
  | Ok hash =>
      if decide (existingHash <> hash) then
        let h := dh_set_Updating true h in
        newDeployment ← createOverridingDeployment h;
        match newDeployment with
        | Err err => mret (h, Some err)
        | Ok newDeployment =>
            err ← setStatus h Updating;
            match err with
            | Some err => mret (h, Some (Wrapf ("failed to update status (prior to update deployment: "
                                                +:+ dh_UniqueName h +:+ ")") err))
            | None =>
                err ← call (UpdateDeployment newDeployment);
                match err with
                | Some err => mret (h, Some (Wrapf ("error updating subset " +:+ dh_UniqueName h) err))
                | None =>
                    err ← ApplyHash (dh_SubsetName h) hash (dh_DeploymentType h);
                    mret (h, Wrapf ("setting subset hash for '" +:+ dh_UniqueName h +:+ "'") <$> err)
                end
            end
        end
      else mret (h, None)
  end.

Definition searchName h : NamespacedName := mkNN (s_Namespace (dh_Subset h)) (dh_UniqueName h).

Definition create_deployment h : M W (option error) :=
  err ← setStatus h Initializing;
  match err with
  | Some err => mret (Some (Wrapf ("failed to update status (prior to adding deployment: "
                                   +:+ dh_UniqueName h +:+ ")") err))
  | None =>
      sDeployment ← createOverridingDeployment h;
      match sDeployment with
      | Err err2 => mret (Some err2)
      | Ok sDeployment =>
          err2 ← call (CreateDeployment sDeployment);
          match err2 with
          | Some err2 => mret (Some err2)
          | None =>
              match Hash (dh_Subset h) with
              | Err err => mret (Some (Wrapf ("calculating hash for " +:+ Quote (dh_UniqueName h)) err))
              | Ok hash =>
                  err ← ApplyHash (dh_SubsetName h) hash (dh_DeploymentType h);
                  mret (Wrapf ("setting subset hash on deployment creation " +:+ Quote (dh_UniqueName h)) <$> err)
              end
          end
      end
  end.
Definition DeploymentHandler_Handle h : M W (DeploymentHandler * option error) :=
  r ← call (GetDeployment (searchName h));
  match r with
  | Err err =>
      if IsNotFound err then err ← create_deployment h; mret (h, err)
      else mret (h, Some err)
  | Ok _ => UpdateIfRequired h
  end.

(** ** Status *)
Definition DeploymentHandler_GetStatus h : M W (result error ResourceStatus) :=
  let genStatus s := mkResourceStatus (dh_UniqueName h) (s_Namespace (dh_Subset h)) s in
  r ← call (GetDeployment (searchName h));
  match r with
  | Err err => if IsNotFound err then mret (Ok (genStatus Missing))
               else mret (Err (Wrapf "error searching for deployment" err))
  | Ok deployment => mret (Ok (genStatus (deployment_lifecycle (dh_Updating h) (dp_Conditions deployment))))
  end.
Definition DeploymentHandler_ApplyStatus h (rs : ResourceStatus) : M W (option error) :=
  AddDeploymentStatusEntry (dh_SubsetName h) rs (dh_DeploymentType h).

Definition DeploymentHandler_SR h : SRHandler W :=
  mkSRHandler (DeploymentHandler_GetStatus h) (DeploymentHandler_ApplyStatus h) (dh_SubsetName h).
End handler.

(** ** Lemmas: finding containers and conditions *)
Lemma findContainerIndex_from_spec idx cs name :
  match findContainerIndex_from idx cs name with
  | Ok i => exists j c, i = idx + j /\ cs !! j = Some c /\ c_Name c = name /\
              forall k c', k < j -> cs !! k = Some c' -> c_Name c' <> name
  | Err _ => name ∉ map c_Name cs
  end.
Proof.
  revert idx. induction cs as [|c cs IH]; intros idx; simpl; [apply not_elem_of_nil|].
  case_decide as Hc.
  - exists 0, c. split_and!; try done; lia.
  - specialize (IH (S idx)). destruct (findContainerIndex_from _ cs name) as [i|e].
    + destruct IH as (j & c' & -> & Hj & Hn & Hk). exists (S j), c'. split_and!; try done; [lia|].
      intros [|k] c'' Hlt Hk'; simpl in *; [congruence|]. eapply (Hk k); [lia|done].
    + rewrite elem_of_cons. intros [?|?]; [by destruct Hc|done].
Qed.

(** The step of the scan, as a relation on what was found so far. *)
Definition latest (typ : string) (seen : list DeploymentCondition) (r : option DeploymentCondition) : Prop :=
  match r with
  | Some c => exists l1 l2, seen = l1 ++ c :: l2 /\ dc_Type c = typ /\
      (forall d, d ∈ l1 -> dc_Type d = typ -> (dc_LastUpdateTime d < dc_LastUpdateTime c)%Z) /\
      (forall d, d ∈ l2 -> dc_Type d = typ -> (dc_LastUpdateTime d <= dc_LastUpdateTime c)%Z)
  | None => forall d, d ∈ seen -> dc_Type d <> typ
  end.
Lemma most_recent_latest typ seen conditions found :
  latest typ seen found -> latest typ (seen ++ conditions) (most_recent typ conditions found).
Proof.
  revert seen found. induction conditions as [|c conditions IH]; intros seen found Hl; simpl.
  { by rewrite app_nil_r. }
  rewrite app_snoc_cons. apply IH. clear IH conditions. case_decide as Ht.
  2: { destruct found as [r|]; simpl in *.
       - destruct Hl as (l1 & l2 & -> & Hr & H1 & H2). exists l1, (l2 ++ [c]).
         split_and!; [by rewrite <- app_assoc|done|done|].
         intros d [Hd|Hd]%elem_of_app Hdt; [by apply H2|]. apply list_elem_of_singleton in Hd. congruence.
       - intros d [Hd|Hd]%elem_of_app; [by apply Hl|]. apply list_elem_of_singleton in Hd. congruence. }
  destruct found as [r|]; simpl in *.
  - destruct Hl as (l1 & l2 & -> & Hr & H1 & H2). case_decide as Hlt; simpl.
    + exists (l1 ++ r :: l2), []. split_and!; [done|done| |by intros d ?%elem_of_nil].
      intros d [Hd|[->|Hd]%elem_of_cons]%elem_of_app Hdt; [pose proof (H1 d Hd Hdt)|done|pose proof (H2 d Hd Hdt)]; lia.
    + exists l1, (l2 ++ [c]). split_and!; [by rewrite <- app_assoc|done|done|].
      intros d [Hd|Hd]%elem_of_app Hdt; [by apply H2|]. apply list_elem_of_singleton in Hd as ->. lia.
  - exists seen, []. split_and!; [done|done| |by intros d ?%elem_of_nil]. intros d Hd Hdt. by destruct (Hl d Hd).
Qed.

(** [getMostRecentConditionForType] is right: it answers with nothing exactly
    when no condition has the type, and otherwise with the first of the
    conditions of that type that were updated last; so a deployment is reported
    running exactly when its latest progress condition is true for the reason
    that its new replica set is available. *)
Theorem getMostRecentConditionForType_latest (typ : string) (conditions : list DeploymentCondition) (b : bool) :
  latest typ conditions (getMostRecentConditionForType typ conditions) /\
  (deployment_lifecycle b conditions = Running <->
   exists c, getMostRecentConditionForType "Progressing" conditions = Some c /\
     dc_Status c = "True" /\ dc_Reason c = "NewReplicaSetAvailable").
Proof.
  split.
  - apply (most_recent_latest typ [] conditions None). by intros d ?%elem_of_nil.
  - unfold deployment_lifecycle. destruct (getMostRecentConditionForType _ _) as [c|].
    + split.
      * intros Hr. exists c. split; [done|]. repeat case_decide; try done. by destruct b.
      * intros (c' & [= <-] & Hs & Hr). by rewrite !decide_True.
    + split; [done|]. by intros (c & ? & _).
Qed.

(** ** Lemmas: container overrides *)
Definition overrides_container (o : ContainerOverrides) (c c' : Container) : Prop :=
  c_Name c' = c_Name c /\ c_other c' = c_other c /\
  c_Image c' = (if decide (co_Image o = "") then c_Image c else co_Image o) /\
  c_Command c' = (match co_Command o with Some (x :: l) => x :: l | _ => c_Command c end) /\
  exists next, c_Env c' = (MergeEnvVars (c_Env c) (default [] (co_Env o)) next).1.

(** Where the names are distinct: the container of each override is overridden,
    the others are untouched. *)
Definition overridden (ovs : list ContainerOverrides) (cs cs' : list Container) : Prop :=
  length cs' = length cs /\
  forall i c, cs !! i = Some c -> exists c', cs' !! i = Some c' /\
    (forall o, o ∈ ovs -> co_ContainerName o = c_Name c -> overrides_container o c c') /\
    ((forall o, o ∈ ovs -> co_ContainerName o <> c_Name c) -> c' = c).

Section overrides.
Context {W : Type} `{Client W} `{MapOrder}.

(** Only the allocator moves. *)
Definition allocates (c c' : ctx W) : Prop :=
  cx_log c' = cx_log c /\ cx_de c' = cx_de c /\ cx_world c' = cx_world c.
Lemma allocates_trans c1 c2 c3 : allocates c1 c2 -> allocates c2 c3 -> allocates c1 c3.
Proof. unfold allocates. intuition congruence. Qed.

Lemma wp_createContainerTemplate cs o c :
  wp (createContainerTemplate cs o) (fun res c' => allocates c c' /\
    match res with
    | Ok (container, idx) => exists old, cs !! idx = Some old /\ c_Name old = co_ContainerName o /\
        overrides_container o old container
    | Err _ => co_ContainerName o ∉ map c_Name cs
    end) c.
Proof.
  unfold createContainerTemplate, findContainerIndex.
  pose proof (findContainerIndex_from_spec 0 cs (co_ContainerName o)) as Hf.
  destruct (findContainerIndex_from _ _ _) as [i|e]; [|by apply wp_ret].
  destruct Hf as (j & old & -> & Hj & Hn & _). simpl. rewrite Hj. cbv zeta.
  apply wp_bind, wp_alloc, wp_ret. split; [done|]. exists old. split_and!; [done|done|].
  unfold overrides_container. simpl. split_and!; [done|done| | |by eexists].
  - repeat case_decide; done.
  - by destruct (co_Command o) as [[|x l]|].
Qed.

Lemma map_name_insert cs idx old container :
  cs !! idx = Some old -> c_Name container = c_Name old -> map c_Name (<[idx := container]> cs) = map c_Name cs.
Proof.
  intros Hl Hn. apply list_eq. intros i. rewrite !list_lookup_fmap.
  destruct (decide (i = idx)) as [->|Hne].
  - rewrite list_lookup_insert_eq by by eapply lookup_lt_Some. rewrite Hl. simpl. by rewrite Hn.
  - by rewrite list_lookup_insert_ne by done.
Qed.
Lemma NoDup_name_index cs i j c c' :
  NoDup (map c_Name cs) -> cs !! i = Some c -> cs !! j = Some c' -> c_Name c = c_Name c' -> i = j.
Proof.
  intros Hnd Hi Hj Hn. eapply (NoDup_lookup _ i j (c_Name c) Hnd); rewrite list_lookup_fmap.
  - by rewrite Hi.
  - by rewrite Hj, Hn.
Qed.

Lemma wp_override_containers what cs ovs c :
  NoDup (map c_Name cs) -> NoDup (map co_ContainerName ovs) ->
  wp (override_containers what cs ovs) (fun res c' => allocates c c' /\
    match res with
    | Ok cs' => overridden ovs cs cs'
    | Err _ => exists o, o ∈ ovs /\ co_ContainerName o ∉ map c_Name cs
    end) c.
Proof.
  intros Hcs Hovs. revert cs c Hcs. induction ovs as [|o ovs IH]; intros cs c Hcs; simpl.
  { apply wp_ret. split; [done|]. split; [done|]. intros i x Hx. exists x. split; [done|].
    split; [by intros o ?%elem_of_nil|done]. }
  apply NoDup_cons in Hovs as [Ho Hovs]. apply wp_bind.
  eapply wp_mono; [|apply wp_createContainerTemplate]. intros [[container idx]|e] c1 [Hal Hres].
  2: { apply wp_ret. split; [done|]. exists o. split; [by left|done]. }
  destruct Hres as (old & Hold & Hname & Hov). pose proof Hov as (Hn & _).
  assert (Hmap := map_name_insert _ _ _ _ Hold Hn).
  eapply wp_mono; [|apply IH; [done|by rewrite Hmap]]. intros res c2 [Hal2 HQ].
  split; [by eapply allocates_trans|]. destruct res as [cs'|e].
  - destruct HQ as [Hlen Hall]. rewrite length_insert in Hlen. split; [done|]. intros i x Hx.
    destruct (decide (i = idx)) as [->|Hne].
    + rewrite Hx in Hold. injection Hold as ->.
      destruct (Hall idx container) as (c' & Hc' & _ & Hkeep).
      { apply list_lookup_insert_eq. by eapply lookup_lt_Some. }
      rewrite Hkeep in Hc'.
      2: { intros o' Ho' He. apply Ho. apply list_elem_of_fmap. exists o'. split; [congruence|done]. }
      exists container. split; [done|]. split.
      * intros o' [->|Ho']%elem_of_cons He; [done|]. destruct Ho.
        apply list_elem_of_fmap. exists o'. split; [congruence|done].
      * intros Hno. by destruct (Hno o (list_elem_of_here _ _)).
    + destruct (Hall i x) as (c' & Hc' & Hsome & Hnone); [by rewrite list_lookup_insert_ne by done|].
      exists c'. split; [done|]. split.
      * intros o' [->|Ho']%elem_of_cons He; [|by apply Hsome]. destruct Hne.
        eapply (NoDup_name_index cs); [done..|congruence].
      * intros Hno. apply Hnone. intros o' Ho'. apply Hno. by right.
  - destruct HQ as (o' & Ho' & Hnot). exists o'. split; [by right|]. by rewrite <- Hmap.
Qed.
(** Without distinctness: the loop still returns. *)
Lemma wp_override_any what cs ovs (c : ctx W) :
  wp (override_containers what cs ovs) (fun _ c' => allocates c c' /\ True) c.
Proof.
  revert cs c. induction ovs as [|o ovs IH]; intros cs c; simpl; [by apply wp_ret|]. apply wp_bind.
  eapply wp_mono; [|apply wp_createContainerTemplate]. intros [[container idx]|e] c1 [Hal _]; [|by apply wp_ret].
  eapply wp_mono; [|apply IH]. intros r c2 [Hal2 _]. split; [by eapply allocates_trans|done].
Qed.
End overrides.

(** ** Lemmas: the overriding deployment *)

(** The fields the code writes through must be there. *)
Definition overridable (base : Deployment) : Prop :=
  is_Some (dp_Labels base) /\ is_Some (ds_Selector (dp_Spec base) ≫= ls_MatchLabels) /\
  is_Some (ds_Replicas (dp_Spec base)) /\ is_Some (pt_Labels (ds_Template (dp_Spec base))).

Definition spec_of (h : DeploymentHandler) (dep : Deployment) : Prop :=
  let base := dh_BaseDeployment h in
  let s := dh_Subset h in
  let t := ds_Template (dp_Spec base) in
  let t' := ds_Template (dp_Spec dep) in
  dp_Name dep = dh_UniqueName h /\ dp_Namespace dep = s_Namespace s /\
  ds_Replicas (dp_Spec dep) = Some (default 1%Z (s_Replicas s)) /\
  (forall k, mlookup (dp_Labels dep) k =
     if decide (k ∈ dh_LabelsToRemove h) then None else if decide (k = DynamicEnvLabel) then Some "true"
     else if decide (k = dh_VersionLabel h) then Some (dh_UniqueVersion h)
     else mlookup (dp_Labels base) k) /\
  (exists m, ds_Selector (dp_Spec dep) ≫= ls_MatchLabels = Some m /\
     forall k, m !! k = if decide (k = dh_VersionLabel h) then Some (dh_UniqueVersion h)
                        else mlookup (ds_Selector (dp_Spec base) ≫= ls_MatchLabels) k) /\
  (forall k, mlookup (pt_Labels t') k =
     match mlookup (s_PodLabels s) k with
     | Some v => Some v
     | None => if decide (k = DynamicEnvLabel) then Some "true"
               else if decide (k = dh_VersionLabel h) then Some (dh_UniqueVersion h)
               else mlookup (pt_Labels t) k
     end) /\
  pt_other t' = pt_other t /\ ds_other (dp_Spec dep) = ds_other (dp_Spec base) /\
  owned_by (dh_Owner h) dep.

Lemma foldl_mdelete (ls : list string) (m : gomap string) k :
  mlookup (foldl mdelete m ls) k = if decide (k ∈ ls) then None else mlookup m k.
Proof.
  revert m. induction ls as [|l ls IH]; intros m; cbn [foldl].
  { by rewrite decide_False by apply not_elem_of_nil. }
  rewrite IH. unfold mlookup. rewrite mread_mdelete. destruct (decide (k = l)) as [->|Hne].
  - rewrite (decide_True (P:=l ∈ l :: ls)) by by left. case_decide; [done|]. apply lookup_delete_eq.
  - rewrite lookup_delete_ne by done. repeat case_decide; try done; exfalso; set_solver.
Qed.

Section create.
Context {W : Type} `{Client W} `{MapOrder}.
Implicit Types (h : DeploymentHandler).

(** The containers, in terms of what [override_containers] guarantees. *)
Lemma wp_createOverridingDeployment h c (P I : result error (list Container) -> Prop) :
  overridable (dh_BaseDeployment h) ->
  let t := ds_Template (dp_Spec (dh_BaseDeployment h)) in
  (forall what c, wp (W:=W) (override_containers what (pt_Containers t) (s_Containers (dh_Subset h)))
     (fun r c' => allocates c c' /\ P r) c) ->
  (forall what c, wp (W:=W) (override_containers what (pt_InitContainers t) (s_InitContainers (dh_Subset h)))
     (fun r c' => allocates c c' /\ I r) c) ->
  wp (W:=W) (createOverridingDeployment h) (fun res c' => allocates c c' /\
    match res with
    | Ok dep => spec_of h dep /\ P (Ok (pt_Containers (ds_Template (dp_Spec dep)))) /\
        I (Ok (pt_InitContainers (ds_Template (dp_Spec dep))))
    | Err e => (exists e', P (Err e')) \/ (exists e', I (Err e'))
    end) c.
Proof.
  intros ([bl Hbl] & [ml Hml] & [rp Hrp] & [tl Htl]) t HP HI. unfold createOverridingDeployment. cbv zeta.
  destruct (ds_Selector (dp_Spec (dh_BaseDeployment h))) as [sel|] eqn:Hsel; [|done]. simpl in Hml.
  apply wp_bind, wp_lift. unfold overriding_labels. rewrite Hbl. eexists. split; [reflexivity|].
  apply wp_bind, wp_lift. unfold overriding_selector. rewrite Hml. eexists. split; [reflexivity|].
  apply wp_bind, wp_lift. unfold overriding_replicas. rewrite Hrp. eexists. split; [reflexivity|].
  apply wp_bind, wp_lift. unfold overriding_template_labels. rewrite Htl. eexists. split; [reflexivity|].
  apply wp_bind, wp_range. intros pod Hpod. apply wp_bind, wp_lift.
  eexists. split; [by apply (set_all_map_to_list id (mread (s_PodLabels (dh_Subset h))))|].
  rewrite map_fmap_id. apply wp_bind. eapply wp_mono; [|apply HP].
  intros [cs|e] c1 [Hal1 HcP]; [|apply wp_ret; split; [exact Hal1|left; by eexists]].
  apply wp_bind. eapply wp_mono; [|apply HI].
  assert (Hal : forall c2, allocates c1 c2 -> allocates c c2) by (intros c2; by apply allocates_trans).
  intros [ics|e] c2 [Hal2 HcI]; [|apply wp_ret; split; [by apply Hal|right; by eexists]].
  apply wp_ret. split; [by apply Hal|]. split; [|done].
  unfold spec_of. simpl. split_and!; try done.
  - intros k. rewrite foldl_mdelete. case_decide; [done|]. rewrite Hbl. unfold mlookup at 1. simpl.
    rewrite !lookup_insert. by repeat case_decide; subst.
  - eexists. split; [done|]. intros k. rewrite Hsel. simpl. rewrite Hml, lookup_insert.
    by repeat case_decide; subst.
  - intros k. rewrite Htl. unfold mlookup. simpl. rewrite lookup_union.
    destruct (mread _ !! k) as [v|]; simpl; [by destruct (_ !! k)|].
    rewrite !lookup_insert. rewrite (left_id None _). by repeat case_decide; subst.
Qed.
End create.

(** C19.  The overriding deployment is the one the subset describes.  When the base
    deployment has the fields it is copied from, and the containers of the base
    and the overrides of the subset have distinct names, the deployment has the
    unique name, the subset's namespace, its replicas or one, the version in its
    labels, selector and template, the subset's pod labels on its template, the
    unwanted labels removed, each container that is named by an override
    overridden as it says and every other container as it was, and the
    environment as its owner; the only error is an override that names no
    container; and nothing is written to the API. *)
Theorem createOverridingDeployment_spec {W} `{Client W} `{MapOrder} (h : DeploymentHandler) (c : ctx W)
    (Hbase : overridable (dh_BaseDeployment h)) :
  let t := ds_Template (dp_Spec (dh_BaseDeployment h)) in
  let s := dh_Subset h in
  NoDup (map c_Name (pt_Containers t)) -> NoDup (map co_ContainerName (s_Containers s)) ->
  NoDup (map c_Name (pt_InitContainers t)) -> NoDup (map co_ContainerName (s_InitContainers s)) ->
  wp (createOverridingDeployment h) (fun res c' =>
      cx_log c' = cx_log c /\ cx_de c' = cx_de c /\
      match res with
      | Ok dep =>
          spec_of h dep /\
          overridden (s_Containers s) (pt_Containers t) (pt_Containers (ds_Template (dp_Spec dep))) /\
          overridden (s_InitContainers s) (pt_InitContainers t) (pt_InitContainers (ds_Template (dp_Spec dep)))
      | Err _ =>
          (exists o, o ∈ s_Containers s /\ co_ContainerName o ∉ map c_Name (pt_Containers t)) \/
          (exists o, o ∈ s_InitContainers s /\ co_ContainerName o ∉ map c_Name (pt_InitContainers t))
      end) c.
Proof.
  intros t s Hc Ho Hi Hio.
  set (P cs ovs := fun r : result error (list Container) => match r with
    | Ok cs' => overridden ovs cs cs'
    | Err _ => exists o, o ∈ ovs /\ co_ContainerName o ∉ map c_Name cs
    end).
  eapply wp_mono; [|apply (wp_createOverridingDeployment h c
    (P (pt_Containers t) (s_Containers s)) (P (pt_InitContainers t) (s_InitContainers s)) Hbase)].
  - intros [dep|e] c' [(Hlog & Hde & _) Hres]; (split; [done|]; split; [done|]); [done|].
    by destruct Hres as [[? ?]|[? ?]]; [left|right].
  - intros what c1. by apply wp_override_containers.
  - intros what c1. by apply wp_override_containers.
Qed.

Lemma not_overridable_panics {W} `{MapOrder} h (c : ctx W) :
  ~ overridable (dh_BaseDeployment h) -> (createOverridingDeployment h c).1 = Panic.
Proof.
  unfold overridable. intros Hn. unfold createOverridingDeployment, overriding_labels, overriding_selector,
    overriding_replicas, overriding_template_labels, mbind, M_bind, lift.
  destruct (dp_Labels _); [|done]. destruct (ds_Selector _) as [sel|]; [|done]. simpl in *.
  destruct (ls_MatchLabels sel); [|done]. destruct (ds_Replicas _); [|done]. simpl.
  destruct (pt_Labels _); [|done]. destruct Hn. by split_and!; eexists.
Qed.
#[export] Instance overridable_dec base : Decision (overridable base).
Proof. unfold overridable. apply _. Defined.

(** Building the overriding deployment panics exactly when the base deployment
    lacks labels, a selector with match labels, a replica count, or labels on its
    template; a deployment without labels of its own is a valid one. *)
Theorem createOverridingDeployment_panics {W} `{Client W} `{MapOrder} (h : DeploymentHandler) (c : ctx W) :
  (createOverridingDeployment h c).1 = Panic <-> ~ overridable (dh_BaseDeployment h).
Proof.
  split.
  - intros Hp Hb. pose proof (wp_createOverridingDeployment h c (fun _ => True) (fun _ => True) Hb) as Hwp.
    unfold wp in Hwp. destruct (createOverridingDeployment h c) as [[a|] c']; [done|]. apply Hwp.
    + intros what c1. apply wp_override_any.
    + intros what c1. apply wp_override_any.
  - apply not_overridable_panics.
Qed.

(** *** An example *)
Module DeploymentExample.
Definition base : Deployment :=
  mkDeployment "reviews" "default" (Some {[ "app" := "reviews"; "argocd" := "x" ]}) None
    (mkDeploymentSpec (Some 3%Z)
       (Some (mkLabelSelector (Some {[ "app" := "reviews" ]}) ""))
       (mkPodTemplate (Some {[ "app" := "reviews" ]})
          [mkContainer "main" "reviews:v1" [] [mkEnvVar "A" "1" None] ""; mkContainer "proxy" "envoy" [] [] ""]
          [] "") "") [] "".
Definition subset : Subset :=
  mkSubset "reviews" "default" (Some {[ "team" := "blue" ]}) None
    [mkContainerOverrides "main" "reviews:v2" None (Some [mkEnvVar "A" "2" None])] [] "".
Definition data : DynamicEnvReconcileData := mkReconcileData (mkNN "default" "env") base subset [].
Definition handler : DeploymentHandler := NewDeploymentHandler data SUBSET ["argocd"] "version".
(** The hash of any subset is its name's length. *)
Definition hash : SubsetHash := fun s => Ok (Z.of_nat (str_len (s_Name s)) mod 2 ^ 64)%Z.
End DeploymentExample.

Lemma createOverridingDeployment_spec_witness :
  let h := DeploymentExample.handler in
  let t := ds_Template (dp_Spec (dh_BaseDeployment h)) in
  let s := dh_Subset h in
  let c := start empty_cluster example_de in
  wp (createOverridingDeployment (H1:=canonical_order) h) (fun res c' =>
      cx_log c' = cx_log c /\ cx_de c' = cx_de c /\
      match res with
      | Ok dep =>
          spec_of h dep /\
          overridden (s_Containers s) (pt_Containers t) (pt_Containers (ds_Template (dp_Spec dep))) /\
          overridden (s_InitContainers s) (pt_InitContainers t) (pt_InitContainers (ds_Template (dp_Spec dep)))
      | Err _ =>
          (exists o, o ∈ s_Containers s /\ co_ContainerName o ∉ map c_Name (pt_Containers t)) \/
          (exists o, o ∈ s_InitContainers s /\ co_ContainerName o ∉ map c_Name (pt_InitContainers t))
      end) c.
Proof.
  intros h t s c. apply (createOverridingDeployment_spec (W:=cluster) h c).
  - split_and!; eexists; reflexivity.
  - apply (bool_decide_unpack _). vm_compute. exact I.
  - apply (bool_decide_unpack _). vm_compute. exact I.
  - constructor.
  - constructor.
Defined.

(** ** The hash decides whether to write *)
Section handle.
Context {W : Type} `{Client W} `{!StatusEcho W} `{MapOrder} `{SubsetHash}.
Implicit Types (h : DeploymentHandler).

Lemma wp_setStatus h status (c : ctx W) :
  wp (setStatus h status) (fun err c' =>
    err = None -> dh_DeploymentType h = SUBSET -> is_Some (de_SubsetsStatus (cx_de c'))) c.
Proof.
  unfold setStatus, AddDeploymentStatusEntry. destruct (dh_DeploymentType h) eqn:Ht.
  2: { eapply wp_mono; [|apply (runs_AddDeploymentStatusEntry _ _ CONSUMER)]. done. }
  unfold addSubsetDeploymentStatusEntry. apply wp_bind, wp_safeGetSubsetsStatus.
  destruct (negb _); [|apply wp_ret; by eexists].
  apply wp_bind, wp_write_SubsetsStatus; [by eexists|]. apply wp_update_status; [done|].
  intros de' w ev Hde _ _. simpl. unfold de_SubsetsStatus. rewrite Hde. by eexists.
Qed.
Lemma wp_create_any h (c : ctx W) :
  overridable (dh_BaseDeployment h) ->
  wp (createOverridingDeployment h) (fun _ c' => cx_de c' = cx_de c) c.
Proof.
  intros Hb. eapply wp_mono; [|apply (wp_createOverridingDeployment h c (fun _ => True) (fun _ => True) Hb)].
  - by intros r c' [(_ & Hde & _) _].
  - intros; apply wp_override_any.
  - intros; apply wp_override_any.
Qed.

(** After a run without error the status records the hash of the subset. *)
Definition in_sync h (de : DynamicEnv) : Prop :=
  exists z, Hash (dh_Subset h) = Ok z /\ recorded_hash de (dh_SubsetName h) (dh_DeploymentType h) = z.
Definition hash_range : Prop := forall s z, Hash s = Ok z -> (0 <= z < 2 ^ 64)%Z.

Lemma wp_UpdateIfRequired h (c : ctx W) :
  hash_range -> overridable (dh_BaseDeployment h) ->
  wp (UpdateIfRequired h) (fun res c' =>
    (res.2 = None -> in_sync h (cx_de c')) /\
    (in_sync h (cx_de c) -> res = (h, None) /\ cx_log c' = cx_log c)) c.
Proof.
  intros Hrange Hb. unfold UpdateIfRequired. apply wp_bind, wp_GetHash.
  destruct (Hash (dh_Subset h)) as [z|e] eqn:Hz.
  2: { apply wp_ret. split; [done|]. intros (z & Hz' & _). congruence. }
  case_decide as Hne.
  2: { apply wp_ret. split; [|done]. by exists z. }
  assert (Hno : in_sync h (cx_de c) -> False) by (intros (z' & Hz' & Heq); congruence).
  cbv zeta. apply wp_bind. eapply wp_mono; [|by apply wp_create_any]. intros [dep|e] c1 Hde1.
  2: { apply wp_ret. split; [done|]. by intros ?%Hno. }
  apply wp_bind. eapply wp_mono; [|apply wp_setStatus]. intros [e|] c2 Hsome.
  { apply wp_ret. split; [done|]. by intros ?%Hno. }
  apply wp_bind, wp_call. intros [e|] w _.
  { apply wp_ret. split; [done|]. by intros ?%Hno. }
  apply wp_bind. eapply wp_mono; [|apply wp_ApplyHash; [by eapply Hrange|by apply Hsome]].
  intros err c3 Herr. apply wp_ret. split; [|by intros ?%Hno]. intros Hn. destruct err; [done|].
  exists z. split; [done|]. by apply Herr.
Qed.
Lemma wp_create_deployment h (c : ctx W) :
  hash_range -> overridable (dh_BaseDeployment h) ->
  wp (create_deployment h) (fun err c' => err = None -> in_sync h (cx_de c')) c.
Proof.
  intros Hrange Hb. unfold create_deployment. apply wp_bind.
  eapply wp_mono; [|apply wp_setStatus]. intros [e|] c1 Hsome; [by apply wp_ret|].
  apply wp_bind. eapply wp_mono; [|by apply wp_create_any]. intros [dep|e] c2 Hde2; [|by apply wp_ret].
  apply wp_bind, wp_call. intros [e|] w _; [by apply wp_ret|].
  destruct (Hash (dh_Subset h)) as [z|e] eqn:Hz; [|by apply wp_ret].
  apply wp_bind. eapply wp_mono; [|apply wp_ApplyHash; [by eapply Hrange|]].
  - intros err c3 Herr. apply wp_ret. intros Hn. destruct err; [done|]. exists z. split; [done|]. by apply Herr.
  - simpl. rewrite Hde2. by apply Hsome.
Qed.
End handle.

(** ** What the handler writes *)
Section writes.
Context {W : Type} `{Client W} `{MapOrder} `{SubsetHash}.
Implicit Types (h : DeploymentHandler).

Definition own_deployment h (d : Deployment) : Prop :=
  dp_Name d = dh_UniqueName h /\ dp_Namespace d = s_Namespace (dh_Subset h) /\
  ds_Replicas (dp_Spec d) = Some (default 1%Z (s_Replicas (dh_Subset h))) /\ owned_by (dh_Owner h) d.
(** One object, and the status: it is looked up once, first; it is created only
    when it was not found, and updated only when it was. *)
Definition writes_own h : tspec := fun seen R q _ =>
  let own := mkNN (s_Namespace (dh_Subset h)) (dh_UniqueName h) in
  match q with
  | GetDeployment n => n = own /\ seen = []
  | CreateDeployment d => own_deployment h d /\
      exists e, IsNotFound e = true /\ head seen = Some (Event (GetDeployment own) (Err e))
  | UpdateDeployment d => own_deployment h d /\ exists d0, head seen = Some (Event (GetDeployment own) (Ok d0))
  | UpdateDynamicEnvStatus _ | Now => True
  | _ => False
  end.
(** What the two branches may call. *)
Definition creates_own h : spec := fun R q _ =>
  match q with CreateDeployment d => own_deployment h d | UpdateDynamicEnvStatus _ | Now => True | _ => False end.
Definition updates_own h : spec := fun R q _ =>
  match q with UpdateDeployment d => own_deployment h d | UpdateDynamicEnvStatus _ | Now => True | _ => False end.
Lemma created_own h (c : ctx W) r c' :
  createOverridingDeployment h c = (Ret r, c') ->
  match r with Ok dep => own_deployment h dep | Err _ => True end.
Proof.
  intros E. destruct (decide (overridable (dh_BaseDeployment h))) as [Hb|Hn].
  - pose proof (wp_createOverridingDeployment (W:=W) h c (fun _ => True) (fun _ => True) Hb) as Hwp.
    unfold wp in Hwp. rewrite E in Hwp. destruct r as [dep|]; [|done].
    destruct Hwp as (_ & (Hs1 & Hs2 & Hs3 & _ & _ & _ & _ & _ & Hs4) & _); [intros; apply wp_override_any..|done].
  - exfalso. apply not_overridable_panics with (c:=c) in Hn. by rewrite E in Hn.
Qed.
Lemma emits_override P what cs ovs : emits (W:=W) P (override_containers what cs ovs).
Proof.
  revert cs. induction ovs as [|o ovs IH]; intros cs; simpl; [emits_tac|].
  unfold createContainerTemplate. emits_tac.
Qed.
Lemma emits_createOverridingDeployment P h : emits (W:=W) P (createOverridingDeployment h).
Proof. unfold createOverridingDeployment. emits_tac; apply emits_override. Qed.
Lemma emits_AddDeploymentStatusEntry (P : spec) k s tpe :
  (forall de r, P _ (UpdateDynamicEnvStatus de) r) -> emits (W:=W) P (AddDeploymentStatusEntry k s tpe).
Proof.
  intros HP. unfold AddDeploymentStatusEntry, addConsumerDeploymentStatusEntry, addSubsetDeploymentStatusEntry,
    safeGetSubsetsStatus, safeGetConsumersStatus, write_SubsetsStatus, write_ConsumersStatus. emits_tac.
Qed.
Lemma emits_ApplyHash (P : spec) k hash tpe :
  (forall de r, P _ (UpdateDynamicEnvStatus de) r) -> emits (W:=W) P (ApplyHash k hash tpe).
Proof.
  intros HP. unfold ApplyHash, setHashForConsumer, setHashForSubset, write_SubsetsStatus, write_ConsumersStatus.
  emits_tac.
Qed.
Lemma emits_create_deployment h : emits (W:=W) (creates_own h) (create_deployment h).
Proof.
  unfold create_deployment. apply emits_bind; [by apply emits_AddDeploymentStatusEntry|].
  intros [e|]; [apply emits_ret|].
  eapply emits_bind_result; [apply emits_createOverridingDeployment|apply created_own|].
  intros [dep|e] Hdep; [|apply emits_ret]. apply emits_bind; [by apply emits_call|].
  intros [e|]; [apply emits_ret|]. destruct (Hash _); [|apply emits_ret].
  apply emits_bind; [by apply emits_ApplyHash|]. intros err. apply emits_ret.
Qed.
Lemma emits_UpdateIfRequired h : emits (W:=W) (updates_own h) (UpdateIfRequired h).
Proof.
  unfold UpdateIfRequired. apply emits_bind.
  { destruct (dh_DeploymentType h); [unfold GetHashForSubset|unfold GetHashForConsumer]; emits_tac. }
  intros existing. destruct (Hash _); [|apply emits_ret]. case_decide; [|apply emits_ret]. cbv zeta.
  eapply emits_bind_result; [apply emits_createOverridingDeployment|apply created_own|].
  intros [dep|e] Hdep; [|apply emits_ret]. apply emits_bind; [by apply emits_AddDeploymentStatusEntry|].
  intros [e|]; [apply emits_ret|]. apply emits_bind; [by apply emits_call|].
  intros [e|]; [apply emits_ret|]. apply emits_bind; [by apply emits_ApplyHash|]. intros err. apply emits_ret.
Qed.
Lemma traces_DeploymentHandler_Handle h :
  traces (W:=W) (writes_own h) [] (DeploymentHandler_Handle h) (fun _ _ => True).
Proof.
  unfold DeploymentHandler_Handle. apply traces_bind, traces_call. intros r. split; [done|]. destruct r as [d|e].
  - apply (traces_emits _ _ _ _ (emits_UpdateIfRequired h)). intros s R q r [l ->].
    destruct q; simpl; try done. intros Hd. split; [done|]. by exists d.
  - destruct (IsNotFound e) eqn:He; [|by apply traces_ret]. apply traces_bind. eapply traces_mono.
    { apply (traces_emits _ _ _ _ (emits_create_deployment h)). intros s R q r [l ->].
      destruct q; simpl; try done. intros Hd. split; [done|]. by exists e. }
    intros err s _ _. by apply traces_ret.
Qed.
End writes.

(** C30.  The deployment handler touches one deployment, and creates it only when
    it is missing.  Whatever the API answers, [Handle] looks up the deployment
    with the unique name in the subset's namespace, once and before any other
    call; it creates this deployment only if the lookup said it does not exist,
    updates it only if the lookup found it, in both cases with the replicas the
    subset asks for; it deletes nothing; its only other calls update the
    environment's status. *)
Theorem DeploymentHandler_Handle_writes {W} `{Client W} `{MapOrder} `{SubsetHash} (h : DeploymentHandler) (c : ctx W) :
  exists l, cx_log (DeploymentHandler_Handle h c).2 = cx_log c ++ l /\ ordered (writes_own h) [] l.
Proof. destruct (traces_DeploymentHandler_Handle h c) as (l & [Hl _] & Ho & _). by exists l. Qed.

(** C23.  Handling a deployment settles it.  When the hash is a 64-bit number, the
    base deployment has the fields it is copied from and the API echoes status
    updates, [Handle] does not panic; and when it reports no error, handling the
    same subset again makes a single call, the lookup of the deployment: if the
    deployment is still there it is neither created nor updated, and the handler
    and the status stay as they are. *)
Theorem DeploymentHandler_Handle_settles {W} `{Client W} `{MapOrder} `{SubsetHash} (h : DeploymentHandler)
    (c : ctx W) (Hecho : StatusEcho W) (Hhash : hash_range) (Hbase : overridable (dh_BaseDeployment h)) :
  wp (DeploymentHandler_Handle h) (fun res c' => res.2 = None ->
      wp (DeploymentHandler_Handle h) (fun res2 c2 =>
          exists r rest, cx_log c2 = cx_log c' ++ Event (GetDeployment (searchName h)) r :: rest /\
            forall d, r = Ok d -> rest = [] /\ res2 = (h, None)) c') c.
Proof.
  set (settled (c' : ctx W) := in_sync h (cx_de c')).
  assert (Hfirst : wp (DeploymentHandler_Handle h) (fun res c' => res.2 = None -> settled c') c).
  { unfold DeploymentHandler_Handle. apply wp_bind, wp_call. intros [d|e] w _.
    - eapply wp_mono; [|by apply wp_UpdateIfRequired]. intros res c1 [Hs _]. exact Hs.
    - destruct (IsNotFound e); [|by apply wp_ret]. apply wp_bind.
      eapply wp_mono; [|by apply wp_create_deployment]. intros err c1 Hs. by apply wp_ret. }
  eapply wp_mono; [|exact Hfirst]. intros res c' Hs Hn. specialize (Hs Hn).
  clear Hfirst. unfold DeploymentHandler_Handle. apply wp_bind, wp_call. intros [d|e] w _.
  - eapply wp_mono; [|by apply wp_UpdateIfRequired]. intros res2 c2 [_ Hq]. destruct (Hq Hs) as [-> ->].
    exists (Ok d), []. done.
  - destruct (IsNotFound e).
    2: { apply wp_ret. exists (Err e), []. split; [done|]. intros d [=]. }
    apply wp_bind. eapply wp_mono; [|eapply wp_emits;
      [apply (emits_create_deployment h)|by apply wp_create_deployment]].
    intros err c2 (_ & l & Hl & _). apply wp_ret. exists (Err e), l. split; [|by intros d [=]].
    rewrite Hl. simpl. by rewrite <- app_assoc.
Qed.
Lemma DeploymentHandler_Handle_settles_witness :
  let h := DeploymentExample.handler in
  let c := start empty_cluster example_de in
  let handle := DeploymentHandler_Handle (H1:=canonical_order) (H2:=DeploymentExample.hash) h in
  wp handle (fun res c' => res.2 = None ->
      wp handle (fun res2 c2 =>
          exists r rest, cx_log c2 = cx_log c' ++ Event (GetDeployment (searchName h)) r :: rest /\
            forall d, r = Ok d -> rest = [] /\ res2 = (h, None)) c') c.
Proof.
  intros h c handle.
  apply (DeploymentHandler_Handle_settles (W:=cluster) (H2:=DeploymentExample.hash) h c fake_client_echo).
  - intros s z [= <-]. apply Z.mod_pos_bound. lia.
  - split_and!; eexists; reflexivity.
Defined.

(** C31.  The overriding deployment selects its own pods: if the base deployment's
    selector matches its template, does not use the operator's own label, and the
    subset's pod labels contradict neither it nor the version, then every entry
    of the new selector is a label of the new template, which therefore carries
    the environment's version. *)
Theorem createOverridingDeployment_selects {W} `{Client W} `{MapOrder} (h : DeploymentHandler) (c : ctx W)
    (Hbase : overridable (dh_BaseDeployment h)) :
  let sel k := mlookup (ds_Selector (dp_Spec (dh_BaseDeployment h)) ≫= ls_MatchLabels) k in
  let tmpl k := mlookup (pt_Labels (ds_Template (dp_Spec (dh_BaseDeployment h)))) k in
  dh_VersionLabel h <> DynamicEnvLabel -> sel DynamicEnvLabel = None ->
  (forall k v, sel k = Some v -> tmpl k = Some v) ->
  (forall k v, mlookup (s_PodLabels (dh_Subset h)) k = Some v ->
     if decide (k = dh_VersionLabel h) then v = dh_UniqueVersion h else forall v', sel k = Some v' -> v = v') ->
  wp (createOverridingDeployment h) (fun res _ => forall dep, res = Ok dep ->
      forall k v, mlookup (ds_Selector (dp_Spec dep) ≫= ls_MatchLabels) k = Some v ->
        mlookup (pt_Labels (ds_Template (dp_Spec dep))) k = Some v) c.
Proof.
  intros sel tmpl Hver Hdyn Hsel Hpod.
  eapply wp_mono; [|apply (wp_createOverridingDeployment h c (fun _ => True) (fun _ => True) Hbase)];
    [|intros; apply wp_override_any..].
  intros res c' [_ Hres] dep ->. destruct Hres as ((_ & _ & _ & _ & (m & Hm & Hk) & Ht & _) & _).
  intros k v Hv. rewrite Hm in Hv. unfold mlookup, mread in Hv; simpl in Hv. rewrite Hk in Hv.
  rewrite Ht. specialize (Hpod k). destruct (mlookup (s_PodLabels _) k) as [p|].
  - specialize (Hpod p eq_refl). case_decide; [congruence|]. f_equal. by apply Hpod.
  - destruct (decide (k = DynamicEnvLabel)) as [->|Hne].
    + rewrite decide_False in Hv by congruence. unfold sel in Hdyn. congruence.
    + case_decide; [done|]. by apply Hsel.
Qed.
Lemma createOverridingDeployment_selects_witness :
  let h := DeploymentExample.handler in
  let c := start empty_cluster example_de in
  wp (createOverridingDeployment (H1:=canonical_order) h) (fun res _ => forall dep, res = Ok dep ->
      forall k v, mlookup (ds_Selector (dp_Spec dep) ≫= ls_MatchLabels) k = Some v ->
        mlookup (pt_Labels (ds_Template (dp_Spec dep))) k = Some v) c.
Proof.
  intros h c. apply (createOverridingDeployment_selects (W:=cluster) h c).
  - split_and!; eexists; reflexivity.
  - discriminate.
  - reflexivity.
  - intros k v Hk. exact Hk.
  - intros k v Hk. unfold mlookup, mread in Hk. simpl in Hk. apply lookup_singleton_Some in Hk as [<- <-].
    intros v' Hv'. discriminate Hv'.
Defined.

(** An override without a container name is an error, not the first container:
    when every container has a name, as the API requires, no container is found
    for the empty name. *)
Theorem findContainerIndex_unnamed (cs : list Container) (Hnamed : Forall (fun c => c_Name c <> "") cs) :
  findContainerIndex cs "" = Err (ErrorS "container name  does'nt exist").
Proof.
  unfold findContainerIndex. generalize 0. induction Hnamed as [|c cs Hc _ IH]; intros n; simpl; [done|].
  by rewrite decide_False.
Qed.
Lemma findContainerIndex_unnamed_witness :
  findContainerIndex (pt_Containers (ds_Template (dp_Spec DeploymentExample.base))) ""
  = Err (ErrorS "container name  does'nt exist").
Proof. apply findContainerIndex_unnamed. repeat constructor; discriminate. Defined.
