(* ===== verification/DestinationRuleHandler.v ===== *)
(** * The destination-rule handler (pkg/handlers/destinationrule_handler.go)

    For every service host of a subset, a destination rule that names the new
    version, next to the rule of the default version. *)

From stdpp Require Import base gmap sets list strings.
From S2P Require Import Prelude GoStrings Sha256 K8s Types Helpers Watches Client FakeCluster StatusManager Model.

Record DestinationRuleHandler := mkDestinationRuleHandler {
  drh_UniqueName : string;
  drh_UniqueVersion : string;
  drh_Namespace : string;
  drh_SubsetName : string;
  drh_VersionLabel : string;
  drh_DefaultVersion : string;
  drh_ServiceHosts : list string;
  drh_Owner : NamespacedName;
  drh_ignoredMissing : list string;
  drh_activeHosts : list string;
}.
Definition drh_set (ignoredMissing activeHosts : list string) (h : DestinationRuleHandler) :
    DestinationRuleHandler :=
  mkDestinationRuleHandler (drh_UniqueName h) (drh_UniqueVersion h) (drh_Namespace h) (drh_SubsetName h)
    (drh_VersionLabel h) (drh_DefaultVersion h) (drh_ServiceHosts h) (drh_Owner h) ignoredMissing activeHosts.
Definition drh_add_ignored (host : string) (h : DestinationRuleHandler) : DestinationRuleHandler :=
  drh_set (drh_ignoredMissing h ++ [host]) (drh_activeHosts h) h.
Definition drh_add_active (host : string) (h : DestinationRuleHandler) : DestinationRuleHandler :=
  drh_set (drh_ignoredMissing h) (drh_activeHosts h ++ [host]) h.

Definition NewDestinationRuleHandler (subsetData : DynamicEnvReconcileData) (versionLabel defaultVersion : string)
    (serviceHosts : list string) : DestinationRuleHandler :=
  let uniqueVersion := UniqueDynamicEnvName (rd_Identifier subsetData) in
  let uniqueName := MkSubsetUniqueName (s_Name (rd_Subset subsetData)) uniqueVersion in
  {| drh_UniqueName := uniqueName;
     drh_UniqueVersion := uniqueVersion;
     drh_Namespace := s_Namespace (rd_Subset subsetData);
     drh_SubsetName := MKSubsetName (rd_Subset subsetData);
     drh_VersionLabel := versionLabel;
     drh_DefaultVersion := defaultVersion;
     drh_ServiceHosts := serviceHosts;
     drh_Owner := rd_Identifier subsetData;
     drh_ignoredMissing := [];
     drh_activeHosts := [] |}.

Definition calculateDRName (h : DestinationRuleHandler) (serviceHost : string) : string :=
  drh_UniqueName h +:+ "-" +:+ serviceHost.

(** [s.Labels[h.VersionLabel] == h.DefaultVersion]; a missing label reads as empty. *)
Definition has_default_version (h : DestinationRuleHandler) (dr : DestinationRule) : bool :=
  existsb (fun s => bool_decide (mget "" (sb_Labels s) (drh_VersionLabel h) = drh_DefaultVersion h)) (dr_Subsets dr).
Definition serves_host (h : DestinationRuleHandler) (hostName : string) (dr : DestinationRule) : bool :=
  MatchNamespacedHost hostName (drh_Namespace h) (dr_Host dr) (dr_Namespace dr).
Fixpoint find_default_rule (h : DestinationRuleHandler) (hostName : string) (items : list DestinationRule) :
    option DestinationRule :=
  match items with
  | [] => None
  | dr :: rest =>
      if serves_host h hostName dr && has_default_version h dr then Some dr
      else find_default_rule h hostName rest
  end.

Section handler.
Context {W : Type} `{Client W} `{MapOrder}.
Implicit Types (h : DestinationRuleHandler).

Definition locateDestinationRuleByHostname h (hostName : string) : M W (result error DestinationRule) :=
  r ← call (ListDestinationRules (drh_Namespace h));
  match r with
  | Err err => mret (Err (Wrapf "error listing existing destination rules" err))
  | Ok items =>
      match find_default_rule h hostName items with
      | Some dr => mret (Ok dr)
      | None => mret (Err IgnoredMissing)
      end
  end.

Definition overriding_rule h (serviceHost host : string) : DestinationRule :=
  mkDestinationRule (calculateDRName h serviceHost) (drh_Namespace h)
    (Some {[ drh_VersionLabel h := drh_UniqueVersion h ]}) None host
    [mkDRSubset (drh_UniqueVersion h) (Some {[ drh_VersionLabel h := drh_UniqueVersion h ]})].
Definition generateOverridingDestinationRule h (serviceHost : string) : M W (result error DestinationRule) :=
  r ← locateDestinationRuleByHostname h serviceHost;
  match r with
  | Err err => mret (Err (Wrapf ("locating default destination rule for '" +:+ fmt_strings (drh_ServiceHosts h)
                                 +:+ "'") err))
  | Ok originalDestinationRule => mret (Ok (overriding_rule h serviceHost (dr_Host originalDestinationRule)))
  end.

Definition setStatus h (subset drName : string) (status : LifeCycleStatus) : M W (option error) :=
  AddDestinationRuleStatusEntry subset (mkResourceStatus drName (drh_Namespace h) status).

Definition createMissingDestinationRule h (destinationRuleName serviceHost : string) :
    M W (DestinationRuleHandler * option error) :=
  err ← setStatus h (drh_SubsetName h) destinationRuleName Initializing;
  match err with
  | Some err => mret (h, Some (Wrapf ("failed to update status (prior to launching destination rule: "
                                      +:+ serviceHost +:+ ")") err))
  | None =>
      r ← generateOverridingDestinationRule h serviceHost;
      match r with
      | Err err =>
          if AsIgnoredMissing err then mret (drh_add_ignored serviceHost h, None)
          else mret (h, Some (Wrapf ("creating destination rule for '" +:+ serviceHost +:+ "'") err))
      | Ok newDestinationRule =>
          let newDestinationRule := AddToAnnotation (drh_Owner h) newDestinationRule in
          err ← call (CreateDestinationRule newDestinationRule);
          match err with
          | Some err => mret (h, Some (Wrapf ("error deploying new destination rule version="
                                              +:+ Quote (drh_UniqueName h) +:+ " service-host="
                                              +:+ Quote destinationRuleName) err))
          | None => mret (drh_add_active serviceHost h, None)
          end
      end
  end.

Fixpoint handle_hosts h (hosts : list string) : M W (DestinationRuleHandler * option error) :=
  match hosts with
  | [] => mret (h, None)
  | serviceHost :: rest =>
      let drName := calculateDRName h serviceHost in
      r ← call (GetDestinationRule (mkNN (drh_Namespace h) drName));
      match r with
      | Err err =>
          if IsNotFound err then
            res ← createMissingDestinationRule h drName serviceHost;
            let '(h, err) := res in
            match err with
            | Some err => mret (h, Some (Wrapf ("creating destination rule for '" +:+ serviceHost +:+ "'") err))
            | None => handle_hosts h rest
            end
          else mret (h, Some (Wrapf ("error locating existing destination rule by name (" +:+ serviceHost
                                     +:+ ")") err))
      | Ok _ => handle_hosts (drh_add_active serviceHost h) rest
      end
  end.
Definition DestinationRuleHandler_Handle h : M W (DestinationRuleHandler * option error) :=
  res ← handle_hosts h (drh_ServiceHosts h);
  let '(h, err) := res in
  match err with
  | Some err => mret (h, Some err)
  | None =>
      if decide (length (drh_activeHosts h) = 0)
      then mret (h, Some (ErrorS ("no base destination rules were found for subset: " +:+ drh_UniqueName h)))
      else mret (h, None)
  end.

Fixpoint get_statuses h (hosts : list string) (statuses : list ResourceStatus) :
    M W (result error (list ResourceStatus)) :=
  match hosts with
  | [] => mret (Ok statuses)
  | sh :: rest =>
      let drName := calculateDRName h sh in
      let genStatus s := mkResourceStatus drName (drh_Namespace h) s in
      r ← call (GetDestinationRule (mkNN (drh_Namespace h) drName));
      match r with
      | Err err =>
          if IsNotFound err then
            if Contains (drh_ignoredMissing h) sh
            then get_statuses h rest (statuses ++ [genStatus IgnoredMissingDR])
            else get_statuses h rest (statuses ++ [genStatus Missing])
          else mret (Err (Wrapf ("error locating existing destination rule by name (" +:+ drName +:+ ")") err))
      | Ok _ => get_statuses h rest (statuses ++ [genStatus Running])
      end
  end.
Definition DestinationRuleHandler_GetStatus h : M W (result error (list ResourceStatus)) :=
  get_statuses h (drh_ServiceHosts h) [].

Fixpoint DestinationRuleHandler_ApplyStatus h (statuses : list ResourceStatus) : M W (option error) :=
  match statuses with
  | [] => mret None
  | rs :: rest =>
      err ← AddDestinationRuleStatusEntry (drh_SubsetName h) rs;
      match err with
      | Some err => mret (Some err)
      | None => DestinationRuleHandler_ApplyStatus h rest
      end
  end.
Definition DestinationRuleHandler_GetHosts h : list string := drh_activeHosts h.

Definition DestinationRuleHandler_MR h : MRHandler W :=
  mkMRHandler (DestinationRuleHandler_GetStatus h) (DestinationRuleHandler_ApplyStatus h)
    (drh_SubsetName h) (DestinationRuleHandler_GetHosts h).
End handler.

(** ** Lemmas *)
Lemma find_default_rule_spec h hostName items :
  match find_default_rule h hostName items with
  | Some dr => dr ∈ items /\ serves_host h hostName dr = true /\ has_default_version h dr = true
  | None => forall dr, dr ∈ items -> serves_host h hostName dr && has_default_version h dr = false
  end.
Proof.
  induction items as [|dr items IH]; simpl; [by intros dr ?%elem_of_nil|].
  destruct (serves_host h hostName dr && has_default_version h dr) eqn:E.
  - apply andb_true_iff in E as [? ?]. split; [by left|done].
  - destruct (find_default_rule h hostName items) as [x|].
    + destruct IH as (? & ? & ?). split; [by right|done].
    + by intros d [->|Hd]%elem_of_cons; [|apply IH].
Qed.

(** The fields no operation changes. *)
Definition same_config (h h' : DestinationRuleHandler) : Prop := drh_set [] [] h = drh_set [] [] h'.
#[export] Instance same_config_equiv : Equivalence same_config.
Proof. split; [done|by intros ? ? ?|intros ? ? ? ? ?; by etrans]. Qed.
Lemma same_config_add_active h sh : same_config h (drh_add_active sh h).
Proof. done. Qed.
Lemma same_config_add_ignored h sh : same_config h (drh_add_ignored sh h).
Proof. done. Qed.

Section handle.
Context {W : Type} `{Client W} `{MapOrder}.
Implicit Types (h : DestinationRuleHandler).

(** [sh] was handled: at most one of the two lists grows, by [sh]. *)
Definition adds h sh h' : Prop := h' = drh_add_active sh h \/ h' = drh_add_ignored sh h.

Lemma wp_createMissing h name sh (c : ctx W) :
  wp (createMissingDestinationRule h name sh) (fun res _ =>
    if decide (res.2 = None) then adds h sh res.1 else res.1 = h) c.
Proof.
  unfold createMissingDestinationRule, generateOverridingDestinationRule, locateDestinationRuleByHostname.
  apply wp_bind. eapply wp_mono; [|apply runs_AddDestinationRuleStatusEntry]. intros [e|] c1 _.
  { by apply wp_ret. }
  apply wp_bind, wp_bind, wp_bind, wp_call. intros [items|e] w _.
  - destruct (find_default_rule h sh items) as [dr|]; apply wp_ret, wp_ret; simpl.
    + apply wp_bind, wp_call. intros [e|] w' _; apply wp_ret; simpl; [done|by left].
    + apply wp_ret. by right.
  - apply wp_ret, wp_ret. simpl. destruct (AsIgnoredMissing e); apply wp_ret; simpl; [by right|done].
Qed.

Definition partitioned h (hosts : list string) (res : DestinationRuleHandler * option error) : Prop :=
  same_config h res.1 /\
  exists act ign, drh_activeHosts res.1 = drh_activeHosts h ++ act /\
    drh_ignoredMissing res.1 = drh_ignoredMissing h ++ ign /\
    act `sublist_of` hosts /\ ign `sublist_of` hosts /\
    (res.2 = None -> act ++ ign ≡ₚ hosts).
Lemma wp_handle_rules h hosts (c : ctx W) : wp (handle_hosts h hosts) (fun res _ => partitioned h hosts res) c.
Proof.
  revert h c. induction hosts as [|sh hosts IH]; intros h c; simpl.
  { apply wp_ret. split; [done|]. exists [], []. rewrite !app_nil_r. done. }
  assert (Hstop : forall e, partitioned h (sh :: hosts) (h, Some e)).
  { intros e. split; [done|]. exists [], []. rewrite !app_nil_r. split_and!; try done; apply sublist_nil_l. }
  assert (Hnext : forall h' c', adds h sh h' ->
            wp (handle_hosts h' hosts) (fun res _ => partitioned h (sh :: hosts) res) c').
  { intros h' c' Hadd. eapply wp_mono; [|apply IH]. intros res c2 (Hcfg & act & ign & Ha & Hi & Hsa & Hsi & Hp).
    destruct Hadd as [->| ->].
    - split; [etrans; [apply same_config_add_active|exact Hcfg]|]. exists (sh :: act), ign. simpl in *.
      split_and!; [by rewrite Ha, <- app_assoc|done|by constructor|by constructor|].
      intros Hn. simpl. by rewrite (Hp Hn).
    - split; [etrans; [apply same_config_add_ignored|exact Hcfg]|]. exists act, (sh :: ign). simpl in *.
      split_and!; [done|by rewrite Hi, <- app_assoc|by constructor|by constructor|].
      intros Hn. by rewrite <- Permutation_middle, (Hp Hn). }
  apply wp_bind, wp_call. intros [dr|e] w _; [by apply Hnext; left|].
  destruct (IsNotFound e); [|by apply wp_ret]. apply wp_bind.
  eapply wp_mono; [|apply wp_createMissing]. intros [h' [e'|]] c1 Hres; simpl in Hres.
  - subst h'. by apply wp_ret.
  - by apply Hnext.
Qed.
End handle.

(** [DestinationRuleHandler.Handle] never panics and keeps its books straight:
    whatever the API answers, the hosts it reports as active and the hosts it
    ignores as missing are, in order, service hosts it was given; and when it
    reports no error every service host, repetitions included, is in exactly one
    of the two lists and at least one host is active. *)
Theorem DestinationRuleHandler_Handle_hosts {W} `{Client W} (h : DestinationRuleHandler)
    (c : ctx W) (Hnew : drh_activeHosts h = [] /\ drh_ignoredMissing h = []) :
  wp (DestinationRuleHandler_Handle h) (fun res _ =>
      let active := DestinationRuleHandler_GetHosts res.1 in
      let ignored := drh_ignoredMissing res.1 in
      active `sublist_of` drh_ServiceHosts h /\ ignored `sublist_of` drh_ServiceHosts h /\
      (res.2 = None -> active ++ ignored ≡ₚ drh_ServiceHosts h /\ active <> [])) c.
Proof.
  unfold DestinationRuleHandler_Handle, DestinationRuleHandler_GetHosts. apply wp_bind.
  eapply wp_mono; [|apply wp_handle_rules]. intros [h' err] c1 (_ & act & ign & Ha & Hi & Hsa & Hsi & Hp).
  destruct Hnew as [Hna Hni]. simpl in *. rewrite Hna in Ha. rewrite Hni in Hi. simpl in *. subst act ign.
  destruct err as [e|]; [by apply wp_ret|]. case_decide as Hl; apply wp_ret; [done|]. split_and!; [done..|].
  intros _. split; [by apply Hp|]. simpl. intros Hn. apply Hl. by rewrite Hn.
Qed.

(** *** An example *)
Module RuleExample.
Definition handler : DestinationRuleHandler :=
  NewDestinationRuleHandler
    (mkReconcileData (mkNN "default" "env")
       (mkDeployment "reviews" "default" None None
          (mkDeploymentSpec None None (mkPodTemplate None [] [] "") "") [] "")
       (mkSubset "reviews" "default" None None [] [] "") []) "version" "shared" ["reviews"; "reviews-internal"].
Definition rule : DestinationRule :=
  mkDestinationRule "reviews" "default" None None "reviews" [mkDRSubset "shared" (Some {[ "version" := "shared" ]})].
Definition k : cluster := k_set_rules {[ mkNN "default" "reviews" := rule ]} empty_cluster.
End RuleExample.

Lemma DestinationRuleHandler_Handle_hosts_witness :
  let h := RuleExample.handler in
  wp (DestinationRuleHandler_Handle h) (fun res _ =>
      let active := DestinationRuleHandler_GetHosts res.1 in
      let ignored := drh_ignoredMissing res.1 in
      active `sublist_of` drh_ServiceHosts h /\ ignored `sublist_of` drh_ServiceHosts h /\
      (res.2 = None -> active ++ ignored ≡ₚ drh_ServiceHosts h /\ active <> [])) (start RuleExample.k example_de).
Proof.
  intros h. exact (DestinationRuleHandler_Handle_hosts h (start RuleExample.k example_de) (conj eq_refl eq_refl)).
Defined.

(** ** What the handler writes *)
Section writes.
Context {W : Type} `{Client W}.
Implicit Types (h : DestinationRuleHandler).

(** The rule of the new version, next to [original]. *)
Definition new_rule h (sh : string) (original d : DestinationRule) : Prop :=
  dr_Name d = drh_UniqueName h +:+ "-" +:+ sh /\ dr_Namespace d = drh_Namespace h /\
  dr_Labels d = Some {[ drh_VersionLabel h := drh_UniqueVersion h ]} /\ dr_Host d = dr_Host original /\
  dr_Subsets d = [mkDRSubset (drh_UniqueVersion h) (Some {[ drh_VersionLabel h := drh_UniqueVersion h ]})] /\
  owned_by (drh_Owner h) d.
(** New rules only, each for one service host, next to a rule the API just listed
    that serves this host with the default version. *)
Definition creates_rules h (hosts : list string) : tspec := fun seen R q _ =>
  match q with
  | GetDestinationRule n => exists sh, sh ∈ hosts /\ n = mkNN (drh_Namespace h) (drh_UniqueName h +:+ "-" +:+ sh)
  | ListDestinationRules ns => ns = drh_Namespace h
  | CreateDestinationRule d => exists sh items original, sh ∈ hosts /\
      last seen = Some (Event (ListDestinationRules (drh_Namespace h)) (Ok items)) /\ original ∈ items /\
      MatchNamespacedHost sh (drh_Namespace h) (dr_Host original) (dr_Namespace original) = true /\
      (exists s, s ∈ dr_Subsets original /\ mget "" (sb_Labels s) (drh_VersionLabel h) = drh_DefaultVersion h) /\
      new_rule h sh original d
  | UpdateDynamicEnvStatus _ | Now => True
  | _ => False
  end.
Lemma overriding_rule_new h sh original :
  new_rule h sh original (AddToAnnotation (drh_Owner h) (overriding_rule h sh (dr_Host original))).
Proof. done. Qed.
Lemma emits_AddDestinationRuleStatusEntry (P : spec) k s :
  (forall de r, P _ (UpdateDynamicEnvStatus de) r) -> emits (W:=W) P (AddDestinationRuleStatusEntry k s).
Proof.
  intros HP. unfold AddDestinationRuleStatusEntry, safeGetSubsetsStatus, write_SubsetsStatus. emits_tac.
Qed.
(** What is known of a rule generated for [sh]. *)
Definition generated h sh (r : result error DestinationRule) (seen : list event) : Prop :=
  match r with
  | Ok d => exists items original,
      last seen = Some (Event (ListDestinationRules (drh_Namespace h)) (Ok items)) /\ original ∈ items /\
      serves_host h sh original = true /\ has_default_version h original = true /\
      d = overriding_rule h sh (dr_Host original)
  | Err _ => True
  end.
Lemma traces_generate h hosts sh seen :
  traces (W:=W) (creates_rules h hosts) seen (generateOverridingDestinationRule h sh) (generated h sh).
Proof.
  unfold generateOverridingDestinationRule, locateDestinationRuleByHostname.
  apply traces_bind, traces_bind, traces_call. intros [items|e]; (split; [done|]).
  2: { by apply traces_ret, traces_ret. }
  pose proof (find_default_rule_spec h sh items) as Hf.
  destruct (find_default_rule h sh items) as [dr|]; apply traces_ret, traces_ret; [|done].
  destruct Hf as (Hin & ? & ?). exists items, dr. by rewrite last_snoc.
Qed.
Lemma traces_createMissing h hosts sh seen :
  sh ∈ hosts ->
  traces (W:=W) (creates_rules h hosts) seen (createMissingDestinationRule h (calculateDRName h sh) sh)
    (fun res _ => same_config h res.1).
Proof.
  intros Hsh. unfold createMissingDestinationRule. apply traces_bind. eapply traces_mono.
  { apply (traces_emits (fun R q _ => match q with UpdateDynamicEnvStatus _ => True | _ => False end)).
    - by apply emits_AddDestinationRuleStatusEntry.
    - intros s R q r _. by destruct q. }
  intros [e|] s _ _; [by apply traces_ret|].
  apply traces_bind. eapply traces_mono; [apply traces_generate|]. intros [d|e] s' _ Hd.
  2: { destruct (AsIgnoredMissing e); by apply traces_ret. }
  destruct Hd as (items & original & Hlast & Hin & Hs & Hv & ->). apply traces_bind, traces_call. intros r. split.
  - exists sh, items, original. apply existsb_exists in Hv as (x & Hx%list_elem_of_In & Hv).
    apply bool_decide_eq_true in Hv. split_and!; [done..| |apply overriding_rule_new]. by exists x.
  - destruct r; by apply traces_ret.
Qed.
Lemma creates_rules_config h h' hosts hosts' seen R q (r : R) :
  same_config h h' -> hosts' ⊆ hosts -> creates_rules h' hosts' seen R q r -> creates_rules h hosts seen R q r.
Proof.
  intros Hc Hs. unfold same_config, drh_set in Hc. simpl in Hc. injection Hc as H1 H2 H3 H4 H5 H6 H7 H8.
  destruct q; simpl; try done.
  - intros (sh & Hsh & ->). exists sh. split; [by apply Hs|]. by rewrite H1, H3.
  - by rewrite H3.
  - intros (sh & items & original & Hsh & Hrest). exists sh, items, original. split; [by apply Hs|].
    unfold new_rule in *. by rewrite H1, H2, H3, H5, H6, H8.
Qed.
Lemma traces_handle_hosts h hosts seen :
  traces (W:=W) (creates_rules h hosts) seen (handle_hosts h hosts) (fun _ _ => True).
Proof.
  revert h seen. induction hosts as [|sh hosts IH]; intros h seen; simpl; [by apply traces_ret|].
  assert (Hnext : forall h' seen', same_config h h' ->
            traces (W:=W) (creates_rules h (sh :: hosts)) seen' (handle_hosts h' hosts) (fun _ _ => True)).
  { intros h' seen' Hc. eapply traces_weaken; [|apply IH]. intros s R q r _. apply creates_rules_config; [done|].
    intros x Hx. by right. }
  apply traces_bind, traces_call. intros r. split; [exists sh; split; [by left|done]|].
  destruct r as [dr|e]; [by apply Hnext, same_config_add_active|].
  destruct (IsNotFound e); [|by apply traces_ret]. apply traces_bind.
  eapply traces_mono; [apply traces_createMissing; by left|].
  intros [h' [err|]] s _ Hc; [by apply traces_ret|by apply Hnext].
Qed.
Lemma traces_DestinationRuleHandler_Handle h seen :
  traces (W:=W) (creates_rules h (drh_ServiceHosts h)) seen (DestinationRuleHandler_Handle h) (fun _ _ => True).
Proof.
  unfold DestinationRuleHandler_Handle. apply traces_bind. eapply traces_mono; [apply traces_handle_hosts|].
  intros [h' [e|]] s _ _; [by apply traces_ret|]. case_decide; by apply traces_ret.
Qed.
End writes.

(** C29.  The rules the handler creates are the ones the environment needs, and it
    writes nothing else: whatever the API answers, [Handle] only creates rules
    named after one of its service hosts, in its namespace, marked as owned by
    the environment, whose single subset is the new version selected by the
    version label, for the host of a rule that the call just before listed and
    that serves that service host with the default version; it never updates or
    deletes a rule. *)
Theorem DestinationRuleHandler_Handle_writes {W} `{Client W} (h : DestinationRuleHandler) (c : ctx W) :
  exists l, cx_log (DestinationRuleHandler_Handle h c).2 = cx_log c ++ l /\
    ordered (creates_rules h (drh_ServiceHosts h)) [] l.
Proof. destruct (traces_DestinationRuleHandler_Handle h [] c) as (l & [Hl _] & Ho & _). by exists l. Qed.

(** ** Status *)
Section status.
Context {W : Type} `{Client W}.
Implicit Types (h : DestinationRuleHandler).

Definition rule_status h (log : list event) (sh : string) (rs : ResourceStatus) : Prop :=
  rs_Name rs = calculateDRName h sh /\ rs_Namespace rs = drh_Namespace h /\
  exists r, Event (GetDestinationRule (mkNN (drh_Namespace h) (calculateDRName h sh))) r ∈ log /\
    rs_Status rs = match r with
                   | Ok _ => Running
                   | Err _ => if decide (sh ∈ drh_ignoredMissing h) then IgnoredMissingDR else Missing
                   end.
Lemma wp_get_statuses h hosts acc c :
  wp (get_statuses h hosts acc) (fun res c' => exists l, cx_log c' = cx_log c ++ l /\
    forall statuses, res = Ok statuses ->
      exists new, statuses = acc ++ new /\ Forall2 (rule_status h l) hosts new) c.
Proof.
  revert acc c. induction hosts as [|sh hosts IH]; intros acc c; simpl.
  { apply wp_ret. exists []. rewrite app_nil_r. split; [done|]. intros st [= <-]. exists []. rewrite app_nil_r.
    split; [done|constructor]. }
  assert (Hnext : forall st r c1,
    let rs := mkResourceStatus (calculateDRName h sh) (drh_Namespace h) st in
    let e := Event (GetDestinationRule (mkNN (drh_Namespace h) (calculateDRName h sh))) r in
    cx_log c1 = cx_log c ++ [e] ->
    st = match r with Ok _ => Running
         | Err _ => if decide (sh ∈ drh_ignoredMissing h) then IgnoredMissingDR else Missing end ->
    wp (get_statuses h hosts (acc ++ [rs])) (fun res c' => exists l, cx_log c' = cx_log c ++ l /\
      forall statuses, res = Ok statuses ->
        exists new, statuses = acc ++ new /\ Forall2 (rule_status h l) (sh :: hosts) new) c1).
  { intros st r c1 rs e Hlog Hst. eapply wp_mono; [|apply IH]. intros res c2 (l & Hl & HQ).
    exists (e :: l). rewrite Hlog in Hl. rewrite <- app_assoc in Hl. split; [done|].
    intros sts Hres. destruct (HQ sts Hres) as (new & -> & Hf). exists (rs :: new).
    split; [by rewrite <- app_assoc|]. constructor.
    - split; [done|]. split; [done|]. exists r. split; [by left|done].
    - eapply Forall2_impl; [exact Hf|]. intros x y (Hn & Hns & r' & Hin & Hs). split_and!; [done..|].
      exists r'. split; [by right|done]. }
  apply wp_bind, wp_call. intros [dr|e] w _; [by apply (Hnext Running (Ok dr))|].
  destruct (IsNotFound e).
  - destruct (Contains _ _) eqn:Hc.
    + apply Contains_spec in Hc. apply (Hnext _ (Err e)); [done|]. by rewrite decide_True.
    + apply (Hnext _ (Err e)); [done|]. rewrite decide_False; [done|]. rewrite <- Contains_spec. by rewrite Hc.
  - apply wp_ret. eexists. split; [done|]. done.
Qed.
End status.

(** The reported status is what the API shows: [GetStatus] changes nothing and
    does not panic, and when it succeeds there is one entry per service host, in
    order: running if the lookup of the host's rule succeeded, and otherwise
    missing, or ignored when the host was put among the ignored ones. *)
Theorem DestinationRuleHandler_GetStatus_spec {W} `{Client W} (h : DestinationRuleHandler) (c : ctx W) :
  wp (DestinationRuleHandler_GetStatus h) (fun res c' => exists l, cx_log c' = cx_log c ++ l /\
      forall statuses, res = Ok statuses ->
        Forall2 (rule_status h l) (drh_ServiceHosts h) statuses) c.
Proof.
  eapply wp_mono; [|apply wp_get_statuses]. intros res c' (l & Hl & HQ). exists l. split; [done|].
  intros sts Hres. by destruct (HQ sts Hres) as (new & -> & Hf).
Qed.
