(* ===== verification/CleanupManager.v ===== *)
(** * The cleanup manager (pkg/model/cleanup_manager.go)

    Removal of what an environment created: of the subsets and consumers that
    left its spec, and of everything when it is deleted, guarded by one
    finalizer per kind of resource. *)

From stdpp Require Import base gmap sets list strings.
From S2P Require Import Prelude GoStrings Sha256 K8s Types Helpers Watches Client FakeCluster StatusManager Model VirtualServiceHandler VirtualServiceRouting.

Abbreviation SubsetsAndConsumersMap := (gmap string SubsetOrConsumer).

(** The name of a recorded resource. *)
Definition rs_nn (rs : ResourceStatus) : NamespacedName := mkNN (rs_Namespace rs) (rs_Name rs).
(** The [DynamicEnv]'s own name. *)
Definition de_nn (de : DynamicEnv) : NamespacedName := mkNN (de_Namespace de) (de_Name de).

(** The routes loop of [cleanupVirtualService]. *)
Definition cleanup_routes (version : string) (http : list HTTPRoute) : list HTTPRoute :=
  filter (fun route => HasPrefix (hr_Name route) (CalculateVirtualServicePrefix version "") = false) http.

(** Names of [statuses] that are not in [keys] are marked for removal. *)
Fixpoint mark_removed {S} (keys : list string) (tpe : SubsetOrConsumer) (statuses : list (string * S))
    (removed : SubsetsAndConsumersMap) : SubsetsAndConsumersMap :=
  match statuses with
  | [] => removed
  | (name, _) :: rest =>
      mark_removed keys tpe rest
        (if negb (Contains keys name) then <[name := tpe]> removed else removed)
  end.
Definition spec_names (subsetsAndConsumers : list SubsetType) : gmap string SubsetOrConsumer :=
  foldl (fun m st => <[MKSubsetName (stt_Subset st) := stt_Type st]> m) ∅ subsetsAndConsumers.

Section cleanup.
Context {W : Type} `{Client W} `{MapOrder}.

Definition CheckForRemovedSubsetsAndConsumers (subsetsAndConsumers : list SubsetType) :
    M W SubsetsAndConsumersMap :=
  allSubsetsAndConsumers ← range (spec_names subsetsAndConsumers);
  let keys := allSubsetsAndConsumers.*1 in
  de ← get_de;
  consumers ← range (mread (de_ConsumersStatus de));
  subsets ← range (mread (de_SubsetsStatus de));
  mret (mark_removed keys SUBSET subsets (mark_removed keys CONSUMER consumers ∅)).

(** ** One resource *)
Definition deleteDeployment (deployment : ResourceStatus) : M W (bool * option error) :=
  r ← call (GetDeployment (rs_nn deployment));
  match r with
  | Err err => if IsNotFound err then mret (false, None)
               else mret (false, Some (Wrapf "fetching deployment for deletion" err))
  | Ok dep =>
      err ← call (DeleteDeployment dep);
      match err with
      | Some err => mret (true, Some (Wrapf "deleting deployment" err))
      | None => mret (true, None)
      end
  end.
Definition deleteDestinationRule (dr : ResourceStatus) : M W (bool * option error) :=
  r ← call (GetDestinationRule (rs_nn dr));
  match r with
  | Err err => if IsNotFound err then mret (false, None)
               else mret (false, Some (Wrapf "fetching destination rule for deletion" err))
  | Ok toDelete =>
      err ← call (DeleteDestinationRule toDelete);
      match err with
      | Some err => mret (true, Some (Wrapf "deleting destination rule" err))
      | None => mret (true, None)
      end
  end.
Definition cleanupVirtualService (vs : ResourceStatus) : M W (option error) :=
  de ← get_de;
  let version := UniqueDynamicEnvName (de_nn de) in
  r ← call (GetVirtualService (rs_nn vs));
  match r with
  | Err err => if IsNotFound err then mret None else mret (Some err)
  | Ok found =>
      let found := vs_set_Http (cleanup_routes version (vs_Http found)) found in
      let found := RemoveFromAnnotation (de_nn de) found in
      r ← call (UpdateVirtualService found);
      match r with
      | Err err => mret (Some err)
      | Ok _ => mret None
      end
  end.

(** ** Lists of resources; [count] is the number found. *)
Fixpoint delete_each (delete : ResourceStatus -> M W (bool * option error)) (msg : string)
    (items : list ResourceStatus) (runningCount : nat) : M W (nat * option error) :=
  match items with
  | [] => mret (runningCount, None)
  | item :: rest =>
      res ← delete item;
      let '(found, err) := res in
      match err with
      | Some err => mret (runningCount, Some (Wrapf msg err))
      | None => delete_each delete msg rest (if found : bool then S runningCount else runningCount)
      end
  end.
Fixpoint cleanup_each (items : list ResourceStatus) : M W (option error) :=
  match items with
  | [] => mret None
  | item :: rest =>
      err ← cleanupVirtualService item;
      match err with
      | Some err => mret (Some err)
      | None => cleanup_each rest
      end
  end.

Definition deleteAllDeployments : M W (nat * option error) :=
  de ← get_de;
  ss ← range (mread (de_SubsetsStatus de));
  cs ← range (mread (de_ConsumersStatus de));
  delete_each deleteDeployment "deleting all deployments"
    (map (fun s => ss_Deployment s.2) ss ++ map (fun c => cs_ResourceStatus c.2) cs) 0.
Definition deleteAllDestinationRules : M W (nat * option error) :=
  de ← get_de;
  ss ← range (mread (de_SubsetsStatus de));
  delete_each deleteDestinationRule "deleting destination rule"
    (concat (map (fun s => ss_DestinationRules s.2) ss)) 0.
Definition cleanupVirtualServices : M W (option error) :=
  de ← get_de;
  ss ← range (mread (de_SubsetsStatus de));
  err ← cleanup_each (concat (map (fun s => ss_VirtualServices s.2) ss));
  mret (Wrapf "cleaning up all virtual services" <$> err).

(** ** Everything, when the environment is deleted *)
Definition deleteFinalizer (finalizer : string) : M W (option error) :=
  de ← get_de;
  let remainingFinalizers := RemoveItemFromStringSlice finalizer (de_Finalizers de) in
  _ ← put_de (set_Finalizers remainingFinalizers de);
  err ← update_de;
  mret (Wrapf ("error removing " +:+ finalizer +:+ " finalizer") <$> err).

Definition finalize_counted (finalizer : string) (deleteAll : M W (nat * option error)) :
    M W (option error) :=
  de ← get_de;
  if Contains (de_Finalizers de) finalizer then
    res ← deleteAll;
    let '(count, err) := res in
    match err with
    | Some err => mret (Some err)
    | None => if decide (count = 0) then deleteFinalizer finalizer else mret None
    end
  else mret None.
Definition finalize_virtual_services : M W (option error) :=
  de ← get_de;
  if Contains (de_Finalizers de) CleanupVirtualServices then
    err ← cleanupVirtualServices;
    match err with
    | Some err => mret (Some err)
    | None => deleteFinalizer CleanupVirtualServices
    end
  else mret None.
Definition DeleteAllResources : M W (Result * option error) :=
  err ← finalize_counted DeleteDeployments deleteAllDeployments;
  match err with
  | Some err => mret (zero_Result, Some err)
  | None =>
      err ← finalize_counted DeleteDestinationRules deleteAllDestinationRules;
      match err with
      | Some err => mret (zero_Result, Some err)
      | None =>
          err ← finalize_virtual_services;
          mret (zero_Result, err)
      end
  end.

(** ** Subsets and consumers that left the spec *)
Definition removeConsumer (name : string) : M W (bool * option error) :=
  de ← get_de;
  match mlookup (de_ConsumersStatus de) name with
  | Some st =>
      res ← deleteDeployment (cs_ResourceStatus st);
      let '(found, err) := res in
      match err with
      | Some err => mret (true, Some (Wrapf "remove consumer" err))
      | None =>
          if found : bool then
            de ← get_de;
            let status := mget zero_ConsumerStatus (de_ConsumersStatus de) name in
            let rs := cs_ResourceStatus status in
            _ ← write_ConsumersStatus name
                  (mkConsumerStatus (mkResourceStatus (rs_Name rs) (rs_Namespace rs) Removing)
                     (cs_Hash status) (cs_Errors status));
            err ← update_status;
            mret (true, err)
          else
            de ← get_de;
            _ ← put_de (set_ConsumersStatus (mdelete (de_ConsumersStatus de) name) de);
            err ← update_status;
            mret (false, err)
      end
  | None => mret (false, None)
  end.

(** The three loops of [removeSubset] over one subset's resources. *)
Fixpoint remove_rules (drs : list ResourceStatus) (exists_ : bool) : M W (result error bool) :=
  match drs with
  | [] => mret (Ok exists_)
  | dr :: rest =>
      res ← deleteDestinationRule dr;
      let '(found, err) := res in
      match err with
      | Some err => mret (Err (Wrapf "removing subset" err))
      | None => remove_rules rest (if found : bool then found else exists_)
      end
  end.
Definition remove_resources (st : SubsetStatus) : M W (result error bool) :=
  res ← deleteDeployment (ss_Deployment st);
  let '(found, err) := res in
  match err with
  | Some err => mret (Err (Wrapf "removing subset" err))
  | None =>
      res ← remove_rules (ss_DestinationRules st) found;
      match res with
      | Err err => mret (Err err)
      | Ok exists_ =>
          err ← cleanup_each (ss_VirtualServices st);
          match err with
          | Some err => mret (Err (Wrapf "removing subset" err))
          | None => mret (Ok exists_)
          end
      end
  end.
Definition removeSubset (name : string) : M W (bool * option error) :=
  de ← get_de;
  res ← match mlookup (de_SubsetsStatus de) name with
        | Some st => remove_resources st
        | None => mret (Ok false)
        end;
  match res with
  | Err err => mret (true, Some err)
  | Ok exists_ =>
      if exists_ : bool then
        de ← get_de;
        let status := mget zero_SubsetStatus (de_SubsetsStatus de) name in
        let d := ss_Deployment status in
        _ ← write_SubsetsStatus name
              (mkSubsetStatus (mkResourceStatus (rs_Name d) (rs_Namespace d) Removing)
                 (ss_DestinationRules status) (ss_VirtualServices status) (ss_Errors status)
                 (ss_Hash status));
        err ← update_status;
        mret (true, err)
      else
        de ← get_de;
        _ ← put_de (set_SubsetsStatus (mdelete (de_SubsetsStatus de) name) de);
        err ← update_status;
        mret (false, err)
  end.

Fixpoint remove_each (items : list (string * SubsetOrConsumer)) (inProgress : bool) :
    M W (bool * option error) :=
  match items with
  | [] => mret (inProgress, None)
  | (name, typ) :: rest =>
      res ← (if bool_decide (typ = CONSUMER) then removeConsumer name else removeSubset name);
      let '(processing, err) := res in
      match err with
      | Some err =>
          mret (processing, Some (Wrapf (if bool_decide (typ = CONSUMER) then "delete removed consumer"
                                         else "delete removed subset") err))
      | None => remove_each rest (if processing : bool then true else inProgress)
      end
  end.
Definition RemoveSubsetsAndConsumers (subsetsAndConsumers : SubsetsAndConsumersMap) :
    M W (bool * option error) :=
  items ← range subsetsAndConsumers;
  remove_each items false.
End cleanup.

(** ** Lemmas: what left the spec *)
Lemma spec_names_lookup sts name :
  is_Some (spec_names sts !! name) <-> name ∈ map (fun st => MKSubsetName (stt_Subset st)) sts.
Proof.
  unfold spec_names. assert (Hg : forall m : gmap string SubsetOrConsumer,
    is_Some (foldl (fun m st => <[MKSubsetName (stt_Subset st) := stt_Type st]> m) m sts !! name) <->
    is_Some (m !! name) \/ name ∈ map (fun st => MKSubsetName (stt_Subset st)) sts).
  { induction sts as [|st sts IH]; intros m; simpl; [rewrite elem_of_nil; tauto|].
    rewrite IH, elem_of_cons, lookup_insert_is_Some. destruct (decide (MKSubsetName (stt_Subset st) = name)); naive_solver. }
  rewrite Hg, lookup_empty. split; [|by right]. by intros [[? [=]]|].
Qed.
Lemma mark_removed_lookup {S} keys tpe (statuses : list (string * S)) removed name :
  mark_removed keys tpe statuses removed !! name =
  (if bool_decide (name ∈ statuses.*1 /\ name ∉ keys) then Some tpe else removed !! name).
Proof.
  revert removed. induction statuses as [|[n s] statuses IH]; intros removed.
  { rewrite bool_decide_eq_false_2; [done|]. by intros [?%elem_of_nil _]. }
  cbn [mark_removed]. rewrite fmap_cons, IH. cbn [fst].
  case_bool_decide as H1; case_bool_decide as H2.
  - done.
  - exfalso. apply H2. destruct H1. split; [by right|done].
  - destruct H2 as [[->|Hin]%elem_of_cons Hk]; [|by destruct H1].
    assert (Contains keys n = false) as ->.
    { apply not_true_iff_false. by rewrite Contains_spec. }
    simpl. by rewrite lookup_insert_eq.
  - destruct (Contains keys n) eqn:Hc; [done|]. simpl. apply lookup_insert_ne. intros ->.
    apply H2. split; [by left|]. rewrite <- Contains_spec. by rewrite Hc.
Qed.

(** C32.  What an update removes is exactly what left the spec: whatever order the
    maps are visited in, a name is marked for removal as a subset when the
    status records a subset of that name and no subset or consumer of the spec
    has it, as a consumer when only the consumers' status records it; the
    computation changes nothing and calls nobody. *)
Theorem CheckForRemovedSubsetsAndConsumers_spec {W} `{MapOrder} (sts : list SubsetType) (c : ctx W) :
  let names := map (fun st => MKSubsetName (stt_Subset st)) sts in
  wp (CheckForRemovedSubsetsAndConsumers sts) (fun removed c' =>
      cx_de c' = cx_de c /\ cx_log c' = cx_log c /\
      forall name, removed !! name =
        if decide (name ∈ names) then None
        else if decide (is_Some (mlookup (de_SubsetsStatus (cx_de c)) name)) then Some SUBSET
        else if decide (is_Some (mlookup (de_ConsumersStatus (cx_de c)) name)) then Some CONSUMER
        else None) c.
Proof.
  intros names. unfold CheckForRemovedSubsetsAndConsumers.
  apply wp_bind, wp_range. intros all Hall. apply wp_bind, wp_get_de.
  apply wp_bind, wp_range. intros cs Hcs. apply wp_bind, wp_range. intros ss Hss. apply wp_ret.
  split; [done|]. split; [done|]. intros name.
  assert (Hkeys : name ∈ all.*1 <-> name ∈ names).
  { rewrite Hall, elem_of_map_to_list_keys. apply spec_names_lookup. }
  assert (Hs : name ∈ ss.*1 <-> is_Some (mlookup (de_SubsetsStatus (cx_de c)) name)).
  { by rewrite Hss, elem_of_map_to_list_keys. }
  assert (Hc : name ∈ cs.*1 <-> is_Some (mlookup (de_ConsumersStatus (cx_de c)) name)).
  { by rewrite Hcs, elem_of_map_to_list_keys. }
  rewrite !mark_removed_lookup, lookup_empty.
  repeat case_bool_decide; repeat case_decide; try done; tauto.
Qed.

(** ** What the log shows of a recorded resource *)
Definition recorded_deployments (de : DynamicEnv) : list ResourceStatus :=
  map (fun s => ss_Deployment s.2) (map_to_list (mread (de_SubsetsStatus de))) ++
  map (fun c => cs_ResourceStatus c.2) (map_to_list (mread (de_ConsumersStatus de))).
Definition recorded_rules (de : DynamicEnv) : list ResourceStatus :=
  concat (map (fun s => ss_DestinationRules s.2) (map_to_list (mread (de_SubsetsStatus de)))).
Definition recorded_services (de : DynamicEnv) : list ResourceStatus :=
  concat (map (fun s => ss_VirtualServices s.2) (map_to_list (mread (de_SubsetsStatus de)))).

Definition cleaned_service (de : DynamicEnv) (found : VirtualService) : VirtualService :=
  RemoveFromAnnotation (de_nn de)
    (vs_set_Http (cleanup_routes (UniqueDynamicEnvName (de_nn de)) (vs_Http found)) found).

Definition absent_deployment (log : list event) (rs : ResourceStatus) : Prop :=
  exists e, IsNotFound e = true /\ Event (GetDeployment (rs_nn rs)) (Err e) ∈ log.
Definition deleted_deployment (log : list event) (rs : ResourceStatus) : Prop :=
  exists d, Event (GetDeployment (rs_nn rs)) (Ok d) ∈ log /\ Event (DeleteDeployment d) None ∈ log.
Definition absent_rule (log : list event) (rs : ResourceStatus) : Prop :=
  exists e, IsNotFound e = true /\ Event (GetDestinationRule (rs_nn rs)) (Err e) ∈ log.
Definition deleted_rule (log : list event) (rs : ResourceStatus) : Prop :=
  exists d, Event (GetDestinationRule (rs_nn rs)) (Ok d) ∈ log /\ Event (DeleteDestinationRule d) None ∈ log.
Definition clean_service (de : DynamicEnv) (log : list event) (rs : ResourceStatus) : Prop :=
  (exists e, IsNotFound e = true /\ Event (GetVirtualService (rs_nn rs)) (Err e) ∈ log) \/
  (exists found stored, Event (GetVirtualService (rs_nn rs)) (Ok found) ∈ log /\
     Event (UpdateVirtualService (cleaned_service de found)) (Ok stored) ∈ log).

(** Facts about the log stay true when it grows. *)
Class LogMono (P : list event -> ResourceStatus -> Prop) : Prop :=
  log_mono : forall l1 l2 rs, l1 ⊆ l2 -> P l1 rs -> P l2 rs.
#[export] Instance absent_deployment_mono : LogMono absent_deployment.
Proof. intros l1 l2 rs Hs (e & ? & ?). exists e. auto. Qed.
#[export] Instance deleted_deployment_mono : LogMono deleted_deployment.
Proof. intros l1 l2 rs Hs (e & ? & ?). exists e. auto. Qed.
#[export] Instance absent_rule_mono : LogMono absent_rule.
Proof. intros l1 l2 rs Hs (e & ? & ?). exists e. auto. Qed.
#[export] Instance deleted_rule_mono : LogMono deleted_rule.
Proof. intros l1 l2 rs Hs (e & ? & ?). exists e. auto. Qed.
#[export] Instance clean_service_mono de : LogMono (clean_service de).
Proof. intros l1 l2 rs Hs [(e & ? & ?)|(f & s & ? & ?)]; [left; exists e; auto|right; exists f, s; auto]. Qed.
Lemma log_mono_Forall P `{!LogMono P} l1 l2 items : l1 ⊆ l2 -> Forall (P l1) items -> Forall (P l2) items.
Proof. intros Hs Hf. eapply Forall_impl; [exact Hf|]. intros rs. by apply log_mono. Qed.

(** [m] only calls the API: it extends the log and keeps the shared object. *)
Definition extends {W A} (m : M W A) (Q : A -> list event -> Prop) (c : ctx W) : Prop :=
  wp m (fun a c' => cx_de c' = cx_de c /\ exists l, cx_log c' = cx_log c ++ l /\ Q a l) c.

Section delete_lemmas.
Context {W : Type} `{Client W} `{MapOrder}.

Lemma extends_ret {A} (a : A) (Q : A -> list event -> Prop) c : Q a [] -> extends (W:=W) (mret a) Q c.
Proof. intros HQ. apply wp_ret. split; [done|]. exists []. by rewrite app_nil_r. Qed.
Lemma extends_bind {A B} (m : M W A) (f : A -> M W B) (P : A -> list event -> Prop) Q c :
  extends m P c ->
  (forall a l c', P a l -> cx_de c' = cx_de c -> extends (f a) (fun b l' => Q b (l ++ l')) c') ->
  extends (m ≫= f) Q c.
Proof.
  intros Hm Hf. apply wp_bind. eapply wp_mono; [|exact Hm]. intros a c' (Hde & l & Hl & HP).
  eapply wp_mono; [|apply (Hf a l c' HP Hde)]. intros b c'' (Hde' & l' & Hl' & HQ).
  split; [congruence|]. exists (l ++ l'). by rewrite Hl', Hl, app_assoc.
Qed.
Lemma extends_call {R} (q : req R) (Q : R -> list event -> Prop) c :
  (forall r, Q r [Event q r]) -> extends (call q) Q c.
Proof. intros HQ. apply wp_call. intros r w _. split; [done|]. eauto. Qed.

Lemma extends_deleteDeployment rs c :
  extends (deleteDeployment rs) (fun (res : bool * option error) l => res.2 = None ->
    if res.1 then deleted_deployment l rs else absent_deployment l rs) c.
Proof.
  unfold deleteDeployment. eapply extends_bind.
  { apply (extends_call _ (fun r l => l = [Event (GetDeployment (rs_nn rs)) r])). done. }
  intros [d|e] l c1 -> _.
  - eapply extends_bind; [apply (extends_call _ (fun r l => l = [Event (DeleteDeployment d) r])); done|].
    intros [e|] l c2 -> _; apply extends_ret; [done|]. intros _. exists d. simpl. split; [by left|right; by left].
  - destruct (IsNotFound e) eqn:He; apply extends_ret; [|done]. intros _. exists e. split; [done|by left].
Qed.
Lemma extends_deleteDestinationRule rs c :
  extends (deleteDestinationRule rs) (fun (res : bool * option error) l => res.2 = None ->
    if res.1 then deleted_rule l rs else absent_rule l rs) c.
Proof.
  unfold deleteDestinationRule. eapply extends_bind.
  { apply (extends_call _ (fun r l => l = [Event (GetDestinationRule (rs_nn rs)) r])). done. }
  intros [d|e] l c1 -> _.
  - eapply extends_bind; [apply (extends_call _ (fun r l => l = [Event (DeleteDestinationRule d) r])); done|].
    intros [e|] l c2 -> _; apply extends_ret; [done|]. intros _. exists d. simpl. split; [by left|right; by left].
  - destruct (IsNotFound e) eqn:He; apply extends_ret; [|done]. intros _. exists e. split; [done|by left].
Qed.
Lemma extends_cleanupVirtualService rs c :
  extends (cleanupVirtualService rs) (fun err l => err = None -> clean_service (cx_de c) l rs) c.
Proof.
  unfold cleanupVirtualService. apply wp_bind, wp_get_de. cbv zeta.
  apply (extends_bind _ _ (fun r l => l = [Event (GetVirtualService (rs_nn rs)) r])).
  { by apply extends_call. }
  intros [v|e] l c1 -> _.
  - eapply extends_bind;
      [apply (extends_call _ (fun r l => l = [Event (UpdateVirtualService (cleaned_service (cx_de c) v)) r])); done|].
    intros [s|e] l c2 -> _; apply extends_ret; [|done]. intros _. right. exists v, s. simpl.
    split; [by left|right; by left].
  - destruct (IsNotFound e) eqn:He; apply extends_ret; [|done]. intros _. left. exists e. split; [done|by left].
Qed.

(** The counting loop, for any deletion that reports what it found. *)
Lemma extends_delete_each del msg (deleted absent : list event -> ResourceStatus -> Prop)
    `{!LogMono deleted, !LogMono absent} items n c :
  (forall rs c, extends (W:=W) (del rs) (fun (res : bool * option error) l => res.2 = None ->
     if res.1 then deleted l rs else absent l rs) c) ->
  extends (delete_each del msg items n) (fun (res : nat * option error) l => res.2 = None ->
    exists there gone, items ≡ₚ there ++ gone /\ res.1 = n + length there /\
      Forall (deleted l) there /\ Forall (absent l) gone) c.
Proof.
  intros Hdel. revert n c. induction items as [|rs items IH]; intros n c; simpl.
  { apply extends_ret. intros _. exists [], []. simpl. split_and!; try done. }
  eapply extends_bind; [apply Hdel|]. intros [found [e|]] l c1 Hrs _; [by apply extends_ret|].
  specialize (Hrs eq_refl). simpl in Hrs. eapply wp_mono; [|apply (IH _ c1)].
  intros [k err] c2 (Hde & l' & Hl' & HQ). split; [done|]. exists l'. split; [done|].
  intros He. destruct (HQ He) as (there & gone & Hp & Hk & Hd & Ha). simpl in *.
  apply (log_mono_Forall _ _ (l ++ l')) in Hd; [|solve_sub].
  apply (log_mono_Forall _ _ (l ++ l')) in Ha; [|solve_sub].
  destruct found.
  - exists (rs :: there), gone. split_and!; [by rewrite Hp|simpl; lia| |done].
    constructor; [|done]. eapply log_mono; [|exact Hrs]. solve_sub.
  - exists there, (rs :: gone). split_and!; [by rewrite Hp, Permutation_middle|done|done|].
    constructor; [|done]. eapply log_mono; [|exact Hrs]. solve_sub.
Qed.
Lemma extends_cleanup_each items c :
  extends (cleanup_each items) (fun err l => err = None -> Forall (clean_service (cx_de c) l) items) c.
Proof.
  remember (cx_de c) as de eqn:Hde. revert c Hde. induction items as [|rs items IH]; intros c Hde; simpl.
  { apply extends_ret. constructor. }
  eapply extends_bind; [apply extends_cleanupVirtualService|].
  intros [e|] l c1 Hrs Hde1; [by apply extends_ret|]. specialize (Hrs eq_refl). rewrite <- Hde in *.
  eapply wp_mono; [|apply (IH c1); congruence]. intros err c2 (Hde2 & l' & Hl' & HQ).
  split; [done|]. exists l'. split; [done|]. intros He. constructor.
  - eapply log_mono; [|exact Hrs]. solve_sub.
  - eapply log_mono_Forall; [apply _| |by apply HQ]. solve_sub.
Qed.
End delete_lemmas.

(** ** Lemmas: all resources of a kind *)
Section delete_all.
Context {W : Type} `{Client W} `{MapOrder}.

(** Map iteration lists what the status records, in some order. *)
Lemma map_concat_perm {A B} (f : A -> list B) (l k : list A) :
  l ≡ₚ k -> concat (map f l) ≡ₚ concat (map f k).
Proof.
  induction 1; simpl; [done| |by rewrite !app_assoc, (Permutation_app_comm (f y))|by etrans].
  by apply Permutation_app_head.
Qed.
Definition counted (deleted absent : list event -> ResourceStatus -> Prop) (recorded : list ResourceStatus)
    (res : nat * option error) (l : list event) : Prop :=
  res.2 = None -> exists there gone, recorded ≡ₚ there ++ gone /\ res.1 = length there /\
    Forall (deleted l) there /\ Forall (absent l) gone.

Lemma extends_deleteAllDeployments c :
  extends (W:=W) deleteAllDeployments
    (counted deleted_deployment absent_deployment (recorded_deployments (cx_de c))) c.
Proof.
  unfold deleteAllDeployments. apply wp_bind, wp_get_de.
  apply wp_bind, wp_range. intros ss Hss. apply wp_bind, wp_range. intros cs Hcs.
  eapply wp_mono; [|apply (extends_delete_each _ _ deleted_deployment absent_deployment);
                    apply extends_deleteDeployment].
  intros [n err] c' (Hde & l & Hl & HQ). split; [done|]. exists l. split; [done|]. intros He.
  destruct (HQ He) as (there & gone & Hp & Hn & ?). exists there, gone. split; [|done].
  rewrite <- Hp. unfold recorded_deployments. by rewrite Hss, Hcs.
Qed.
Lemma extends_deleteAllDestinationRules c :
  extends (W:=W) deleteAllDestinationRules
    (counted deleted_rule absent_rule (recorded_rules (cx_de c))) c.
Proof.
  unfold deleteAllDestinationRules. apply wp_bind, wp_get_de. apply wp_bind, wp_range. intros ss Hss.
  eapply wp_mono; [|apply (extends_delete_each _ _ deleted_rule absent_rule);
                    apply extends_deleteDestinationRule].
  intros [n err] c' (Hde & l & Hl & HQ). split; [done|]. exists l. split; [done|]. intros He.
  destruct (HQ He) as (there & gone & Hp & Hn & ?). exists there, gone. split; [|done].
  rewrite <- Hp. by apply map_concat_perm.
Qed.
Lemma extends_cleanupVirtualServices c :
  extends (W:=W) cleanupVirtualServices (fun err l => err = None ->
    Forall (clean_service (cx_de c) l) (recorded_services (cx_de c))) c.
Proof.
  unfold cleanupVirtualServices. apply wp_bind, wp_get_de. apply wp_bind, wp_range. intros ss Hss.
  apply wp_bind. eapply wp_mono; [|apply extends_cleanup_each].
  intros err c' (Hde & l & Hl & HQ). apply wp_ret. split; [done|]. exists l. split; [done|].
  intros He. destruct err; [done|]. unfold recorded_services.
  rewrite <- (map_concat_perm (fun s => ss_VirtualServices s.2) _ _ Hss). by apply HQ.
Qed.
End delete_all.

(** Deleting all deployments of an environment is exact, whatever the API
    answers and whatever order the status maps are visited in: when no error is
    returned, the recorded deployments are those found, each of them deleted, and
    those the API says do not exist; the returned count is the number found, so
    it is zero exactly when every recorded deployment was seen to be gone. *)
Theorem deleteAllDeployments_counts {W} `{Client W} `{MapOrder} (c : ctx W) :
  wp deleteAllDeployments (fun '(count, err) c' =>
      cx_de c' = cx_de c /\
      exists l, cx_log c' = cx_log c ++ l /\
        (err = None ->
         exists there gone, recorded_deployments (cx_de c) ≡ₚ there ++ gone /\ count = length there /\
           Forall (deleted_deployment l) there /\ Forall (absent_deployment l) gone)) c.
Proof.
  eapply wp_mono; [|apply extends_deleteAllDeployments]. intros [n err] c' Hx. exact Hx.
Qed.

(** The same for destination rules. *)
Theorem deleteAllDestinationRules_counts {W} `{Client W} `{MapOrder} (c : ctx W) :
  wp deleteAllDestinationRules (fun '(count, err) c' =>
      cx_de c' = cx_de c /\
      exists l, cx_log c' = cx_log c ++ l /\
        (err = None ->
         exists there gone, recorded_rules (cx_de c) ≡ₚ there ++ gone /\ count = length there /\
           Forall (deleted_rule l) there /\ Forall (absent_rule l) gone)) c.
Proof.
  eapply wp_mono; [|apply extends_deleteAllDestinationRules]. intros [n err] c' Hx. exact Hx.
Qed.

(** ** Finalizers *)

(** What the operator relies on of an update of the environment: the answer has
    the finalizers and the spec it sent. *)
Class UpdateEcho (W : Type) `{Client W} : Prop := update_echo : forall de w de' w',
  exec (UpdateDynamicEnv de) w = (Ok de', w') ->
  de_Finalizers de' = de_Finalizers de /\ de_Spec de' = de_Spec de.

(** Every resource [fin] guards, as [de] records them, is gone or clean. *)
Definition settled (fin : string) (de : DynamicEnv) (log : list event) : Prop :=
  (fin = DeleteDeployments -> Forall (absent_deployment log) (recorded_deployments de)) /\
  (fin = DeleteDestinationRules -> Forall (absent_rule log) (recorded_rules de)) /\
  (fin = CleanupVirtualServices -> Forall (clean_service de log) (recorded_services de)).
Lemma settled_mono fin de l1 l2 : l1 ⊆ l2 -> settled fin de l1 -> settled fin de l2.
Proof.
  intros Hs (H1 & H2 & H3).
  split_and!; intros He; (eapply log_mono_Forall; [apply _|exact Hs|auto]).
Qed.

(** [e] is an update of the environment, with [de] as the object sent. *)
Definition env_update (e : event) (de : DynamicEnv) : Prop :=
  match ev_req e with UpdateDynamicEnv de' => de' = de | _ => False end.
Definition no_env_update (l : list event) : Prop := forall e de, e ∈ l -> ~ env_update e de.
(** A finalizer is first missing from an update only when its resources are settled. *)
Definition finalizers_safe (F : list string) (l : list event) : Prop :=
  forall l1 e de l2, l = l1 ++ e :: l2 -> env_update e de ->
    forall fin, fin ∈ F -> fin ∉ de_Finalizers de ->
      (forall e' de', e' ∈ l1 -> env_update e' de' -> fin ∈ de_Finalizers de') ->
      settled fin de l1.

Definition no_update_spec : spec := fun R q _ =>
  match q with UpdateDynamicEnv _ => False | _ => True end.
Lemma no_update_sat l : Forall (sat no_update_spec) l -> no_env_update l.
Proof.
  rewrite Forall_forall. intros Hl e de He Hup. apply Hl in He. destruct e as [R q r].
  unfold sat, env_update in *. simpl in *. by destruct q.
Qed.

Section finalizers.
Context {W : Type} `{Client W} `{MapOrder}.

Lemma emits_delete_each P del msg items n :
  (forall rs, emits (W:=W) P (del rs)) -> emits (W:=W) P (delete_each del msg items n).
Proof. intros Hd. revert n. induction items as [|rs items IH]; intros n; simpl; emits_tac. Qed.
Lemma emits_deleteDeployment rs : emits (W:=W) no_update_spec (deleteDeployment rs).
Proof. unfold deleteDeployment. emits_tac. Qed.
Lemma emits_deleteDestinationRule rs : emits (W:=W) no_update_spec (deleteDestinationRule rs).
Proof. unfold deleteDestinationRule. emits_tac. Qed.
Lemma emits_cleanup_each items : emits (W:=W) no_update_spec (cleanup_each items).
Proof. induction items as [|rs items IH]; simpl; [emits_tac|]. unfold cleanupVirtualService. emits_tac. Qed.

Lemma extends_emits {A} P (m : M W A) Q c :
  extends m Q c -> emits P m -> extends m (fun a l => Q a l /\ Forall (sat P) l) c.
Proof.
  intros Hx He. unfold extends, wp in *. destruct (He c) as (l & [Hl _] & HP).
  destruct (m c) as [[a|] c']; [|done]. destruct Hx as (Hde & l' & Hl' & HQ). simpl in Hl.
  split; [done|]. exists l'. split; [done|]. split; [done|].
  rewrite Hl' in Hl. by apply app_inv_head in Hl as ->.
Qed.

(** One phase of the deletion: nothing, or one update at its end. *)
Definition finalized (fin : string) (c : ctx W) (err : option error) (l : list event) (c' : ctx W) : Prop :=
  (no_env_update l /\ de_Finalizers (cx_de c') = de_Finalizers (cx_de c)) \/
  (exists l0 e d, l = l0 ++ [e] /\ no_env_update l0 /\ env_update e d /\ settled fin d l0 /\
     de_Finalizers d = RemoveItemFromStringSlice fin (de_Finalizers (cx_de c)) /\
     (err = None -> de_Finalizers (cx_de c') = de_Finalizers d)).
Definition phase (fin : string) (m : M W (option error)) : Prop := forall c,
  wp m (fun err c' => exists l, cx_log c' = cx_log c ++ l /\ finalized fin c err l c') c.

Lemma phase_deleteFinalizer `{!UpdateEcho W} fin c c1 l0 :
  cx_de c1 = cx_de c -> cx_log c1 = cx_log c ++ l0 -> no_env_update l0 -> settled fin (cx_de c) l0 ->
  wp (deleteFinalizer fin)
    (fun err c' => exists l, cx_log c' = cx_log c ++ l /\ finalized fin c err l c') c1.
Proof.
  intros Hde Hlog Hno Hset. unfold deleteFinalizer, update_de.
  apply wp_bind, wp_get_de. apply wp_bind, wp_put_de. apply wp_bind, wp_bind, wp_get_de.
  apply wp_bind, wp_call. cbn [cx_de cx_log cx_world]. rewrite Hde, Hlog.
  set (d := set_Finalizers _ _). intros [d'|e] w Hex.
  - apply wp_bind, wp_put_de, wp_ret, wp_ret. cbn [cx_de cx_log].
    exists (l0 ++ [Event (UpdateDynamicEnv d) (Ok d')]). rewrite app_assoc. split; [done|]. right.
    exists l0, (Event (UpdateDynamicEnv d) (Ok d')), d. split_and!; try done.
    intros _. by apply update_echo in Hex as [Hex _].
  - apply wp_ret, wp_ret. cbn [cx_de cx_log].
    exists (l0 ++ [Event (UpdateDynamicEnv d) (Err e)]). rewrite app_assoc. split; [done|]. right.
    exists l0, (Event (UpdateDynamicEnv d) (Err e)), d. by split_and!.
Qed.

Lemma phase_counted `{!UpdateEcho W} fin deleteAll (deleted absent : list event -> ResourceStatus -> Prop)
    (recorded : DynamicEnv -> list ResourceStatus) :
  (forall c, extends deleteAll (counted deleted absent (recorded (cx_de c))) c) ->
  emits no_update_spec deleteAll ->
  (forall de l, Forall (absent l) (recorded de) -> settled fin de l) ->
  phase fin (finalize_counted fin deleteAll).
Proof.
  intros Hx He Hs c. unfold finalize_counted. apply wp_bind, wp_get_de.
  destruct (Contains _ _).
  2: { apply wp_ret. exists []. rewrite app_nil_r. split; [done|]. left. split; [|done].
       by intros ? ? ?%elem_of_nil. }
  apply wp_bind. eapply wp_mono; [|apply (extends_emits _ _ _ _ (Hx c) He)].
  intros [count err] c1 (Hde & l & Hl & HQ & Hsat). apply no_update_sat in Hsat.
  destruct err as [e|].
  { apply wp_ret. exists l. split; [done|]. left. split; [done|]. by rewrite Hde. }
  case_decide as Hcount.
  - destruct (HQ eq_refl) as (there & gone & Hp & Hn & _ & Hgone). simpl in Hn. subst count.
    destruct there; [|done]. eapply phase_deleteFinalizer; [done..|].
    apply Hs. simpl in Hp. by rewrite Hp.
  - apply wp_ret. exists l. split; [done|]. left. split; [done|]. by rewrite Hde.
Qed.
Lemma phase_virtual_services `{!UpdateEcho W} : phase CleanupVirtualServices finalize_virtual_services.
Proof.
  intros c. unfold finalize_virtual_services. apply wp_bind, wp_get_de. destruct (Contains _ _).
  2: { apply wp_ret. exists []. rewrite app_nil_r. split; [done|]. left. split; [|done].
       by intros ? ? ?%elem_of_nil. }
  assert (He : emits (W:=W) no_update_spec cleanupVirtualServices).
  { unfold cleanupVirtualServices. apply emits_bind; [apply emits_get_de|]. intros de.
    apply emits_bind; [apply emits_range|]. intros ss.
    apply emits_bind; [apply emits_cleanup_each|]. intros err. apply emits_ret. }
  apply wp_bind. eapply wp_mono; [|apply (extends_emits _ _ _ _ (extends_cleanupVirtualServices c) He)].
  intros err c1 (Hde & l & Hl & HQ & Hsat). apply no_update_sat in Hsat. destruct err as [e|].
  { apply wp_ret. exists l. split; [done|]. left. split; [done|]. by rewrite Hde. }
  eapply phase_deleteFinalizer; [done..|]. by split_and!; [discriminate|discriminate|auto].
Qed.

(** The phases in sequence. *)
Definition safe_so_far (F : list string) (l : list event) (cur : list string) : Prop :=
  finalizers_safe F l /\
  forall fin, fin ∈ F -> fin ∈ cur \/ exists e de, e ∈ l /\ env_update e de /\ fin ∉ de_Finalizers de.

Lemma safe_no_update F l lp cur : safe_so_far F l cur -> no_env_update lp -> safe_so_far F (l ++ lp) cur.
Proof.
  intros [Hs Hc] Hno. split.
  - intros l1 e de l2 Heq Hup fin Hin Hnot Hfirst.
    apply app_eq_inv in Heq as [(k & -> & Hk)|(k & -> & ->)].
    + destruct k as [|x k]; simpl in Hk.
      * exfalso. apply (Hno e de); [|done]. rewrite <- Hk. by left.
      * injection Hk as <- ->. by apply (Hs l1 e de k eq_refl Hup).
    + exfalso. apply (Hno e de); [|done]. apply elem_of_app. right. by left.
  - intros fin Hin. destruct (Hc fin Hin) as [?|(e & de & ? & ?)]; [by left|right].
    exists e, de. split; [|done]. apply elem_of_app. by left.
Qed.
Lemma safe_update F l fin e d cur :
  safe_so_far F l cur -> env_update e d -> settled fin d l ->
  de_Finalizers d = RemoveItemFromStringSlice fin cur -> safe_so_far F (l ++ [e]) (de_Finalizers d).
Proof.
  intros [Hs Hc] Hup Hset Hd. split.
  - intros l1 e' de l2 Heq Hup' fin' Hin Hnot Hfirst.
    apply snoc_split in Heq as [[-> ->]|(k & ->)]; [|by apply (Hs l1 e' de k eq_refl Hup')].
    assert (d = de) as <-.
    { unfold env_update in *. destruct (ev_req e); try done. congruence. }
    destruct (Hc fin' Hin) as [Hcur|(e' & de' & He' & Hu' & Hn')]; [|by destruct Hn'; eauto].
    destruct (decide (fin' = fin)) as [->|Hne]; [done|]. destruct Hnot. rewrite Hd.
    by apply elem_of_RemoveItem.
  - intros fin' Hin. destruct (Hc fin' Hin) as [Hcur|(e' & de' & He' & Hu' & Hn')].
    + destruct (decide (fin' ∈ de_Finalizers d)); [by left|right]. exists e, d.
      split; [|done]. apply elem_of_app. right. by left.
    + right. exists e', de'. split; [|done]. apply elem_of_app. by left.
Qed.

Lemma safe_phase F l fin c err lp c' :
  safe_so_far F l (de_Finalizers (cx_de c)) -> finalized fin c err lp c' ->
  finalizers_safe F (l ++ lp) /\ (err = None -> safe_so_far F (l ++ lp) (de_Finalizers (cx_de c'))).
Proof.
  intros Hs [(Hno & Hde)|(l0 & e & d & -> & Hno & Hup & Hset & Hd & Hok)].
  - rewrite Hde. pose proof (safe_no_update _ _ _ _ Hs Hno) as Hs'. split; [apply Hs'|done].
  - rewrite app_assoc. pose proof (safe_no_update _ _ _ _ Hs Hno) as Hs'.
    assert (Hs2 : safe_so_far F ((l ++ l0) ++ [e]) (de_Finalizers d)).
    { eapply safe_update; [done|done| |done]. eapply settled_mono; [|done]. solve_sub. }
    split; [apply Hs2|]. intros He. by rewrite (Hok He).
Qed.

Lemma phase_step F fin m (c0 c : ctx W) l (Q : option error -> ctx W -> Prop) :
  phase fin m -> cx_log c = cx_log c0 ++ l -> safe_so_far F l (de_Finalizers (cx_de c)) ->
  (forall err c' l', cx_log c' = cx_log c0 ++ l' -> finalizers_safe F l' ->
     (err = None -> safe_so_far F l' (de_Finalizers (cx_de c'))) -> Q err c') ->
  wp m Q c.
Proof.
  intros Hm Hlog Hs HQ. eapply wp_mono; [|apply Hm]. intros err c' (lp & Hlp & Hf).
  destruct (safe_phase _ _ _ _ _ _ _ Hs Hf) as [Ha Hb].
  apply (HQ err c' (l ++ lp)); [by rewrite Hlp, Hlog, app_assoc|done|done].
Qed.
End finalizers.

Lemma DeleteAllResources_safe {W} `{Client W} `{MapOrder} (c : ctx W)
    (Hecho : UpdateEcho W) :
  wp DeleteAllResources (fun _ c' =>
      exists l, cx_log c' = cx_log c ++ l /\ finalizers_safe (de_Finalizers (cx_de c)) l) c.
Proof.
  unfold DeleteAllResources. apply wp_bind.
  assert (Hd : phase DeleteDeployments (finalize_counted DeleteDeployments (deleteAllDeployments (W:=W)))).
  { eapply phase_counted; [apply extends_deleteAllDeployments| |].
    - unfold deleteAllDeployments. emits_tac. apply emits_delete_each, emits_deleteDeployment.
    - intros de l Hf. by split_and!. }
  assert (Hr : phase DeleteDestinationRules
                 (finalize_counted DeleteDestinationRules (deleteAllDestinationRules (W:=W)))).
  { eapply phase_counted; [apply extends_deleteAllDestinationRules| |].
    - unfold deleteAllDestinationRules. emits_tac. apply emits_delete_each, emits_deleteDestinationRule.
    - intros de l Hf. by split_and!. }
  eapply (phase_step (de_Finalizers (cx_de c)) _ _ c c []); [exact Hd|by rewrite app_nil_r| |].
  { split; [|by left]. intros l1 e de l2 Heq. by apply app_cons_not_nil in Heq. }
  intros [e|] c1 l1 Hl1 Hs1 Hn1; [apply wp_ret; eauto|]. apply wp_bind.
  eapply phase_step; [exact Hr|exact Hl1|by apply Hn1|].
  intros [e|] c2 l2 Hl2 Hs2 Hn2; [apply wp_ret; eauto|]. apply wp_bind.
  eapply phase_step; [apply phase_virtual_services|exact Hl2|by apply Hn2|].
  intros err c3 l3 Hl3 Hs3 Hn3. apply wp_ret. eauto.
Qed.

(** C10.  No finalizer is given up early.  Whatever the API answers, as long as an
    accepted update of the environment keeps the finalizers it was sent,
    [DeleteAllResources] does not panic, and in the sequence of calls it makes,
    the first update that drops one of the environment's finalizers comes after
    the resources that finalizer guards are settled: for [DeleteDeployments] the
    API has said of every recorded deployment that it does not exist, for
    [DeleteDestinationRules] the same of every recorded rule, for
    [CleanupVirtualServices] every recorded service does not exist or has been
    written back without the environment's routes. *)
Theorem DeleteAllResources_finalizers_safe {W} `{Client W} `{MapOrder} (c : ctx W)
    (Hecho : UpdateEcho W) :
  wp DeleteAllResources (fun _ c' =>
      exists l, cx_log c' = cx_log c ++ l /\ finalizers_safe (de_Finalizers (cx_de c)) l) c.
Proof. by apply DeleteAllResources_safe. Qed.

Lemma fake_update_echo : UpdateEcho cluster.
Proof.
  intros de w de' w' E. unfold exec, fake_client, fake_exec in E.
  destruct (k_faults w !! k_calls w); [discriminate E|]. by injection E as <- _.
Qed.

Module CleanupExample.
Definition status : DynamicEnvStatus :=
  mkDynamicEnvStatus
    (Some {[ "default/reviews" := mkSubsetStatus (mkResourceStatus "reviews-default-env" "default" Running)
               [mkResourceStatus "default-env-reviews" "default" Running]
               [mkResourceStatus "reviews" "default" Running] None 0 ]}) None Ready 1 1.
Definition env : DynamicEnv :=
  set_Status status (set_Finalizers [DeleteDeployments; DeleteDestinationRules; CleanupVirtualServices]
    (mkDynamicEnv "env" "default" [] (Some 0%Z) (mkDynamicEnvSpec None [] []) zero_DynamicEnvStatus "")).
End CleanupExample.

Lemma DeleteAllResources_finalizers_safe_witness :
  let c := start empty_cluster CleanupExample.env in
  wp (DeleteAllResources (H1:=canonical_order)) (fun _ c' =>
      exists l, cx_log c' = cx_log c ++ l /\ finalizers_safe (de_Finalizers (cx_de c)) l) c.
Proof. intros c. apply (DeleteAllResources_finalizers_safe c). exact fake_update_echo. Defined.

(** ** Cleaning up undoes the edit *)

(** [m] makes the call [q], answered [r]. *)
Definition makes {W A R} (m : M W A) (c : ctx W) (q : req R) (r : R) : Prop :=
  exists l, cx_log (m c).2 = cx_log c ++ l /\ Event q r ∈ l.
Definition sent_service (e : event) : option VirtualService :=
  match ev_req e with UpdateVirtualService v => Some v | _ => None end.

Section undo.
Context {W : Type} `{Client W}.

Lemma emits_makes {A R} (P : spec) (m : M W A) c (q : req R) r : emits P m -> makes m c q r -> P R q r.
Proof.
  intros Hm (l & Hl & Hin). destruct (Hm c) as (l' & [Hl' _] & HP). rewrite Hl in Hl'.
  apply app_inv_head in Hl' as ->. rewrite Forall_forall in HP. exact (HP _ Hin).
Qed.
(** A cleanup reads the service and writes it back cleaned. *)
Lemma cleanup_run rs (c : ctx W) found w :
  exec (GetVirtualService (rs_nn rs)) (cx_world c) = (Ok found, w) ->
  wp (cleanupVirtualService rs) (fun err c' => exists answer,
    cx_log c' = cx_log c ++ [Event (GetVirtualService (rs_nn rs)) (Ok found);
                             Event (UpdateVirtualService (cleaned_service (cx_de c) found)) answer] /\
    err = match answer with Ok _ => None | Err e => Some e end) c.
Proof.
  intros Hget. unfold cleanupVirtualService. apply wp_bind, wp_get_de. cbv zeta. apply wp_bind, wp_call.
  rewrite Hget. intros r w' [= <- <-]. cbv beta iota zeta. apply wp_bind, wp_call. cbn [cx_log].
  intros [v|e] w' _; rewrite <- app_assoc; apply wp_ret; eexists; (split; [reflexivity|done]).
Qed.
Lemma cleanup_makes rs (c : ctx W) found w service' r :
  exec (GetVirtualService (rs_nn rs)) (cx_world c) = (Ok found, w) ->
  makes (cleanupVirtualService rs) c (UpdateVirtualService service') r ->
  service' = cleaned_service (cx_de c) found.
Proof.
  intros Hget (l & Hl & Hin%(list_elem_of_fmap_2 sent_service)).
  pose proof (cleanup_run rs c found w Hget) as Hrun. unfold wp in Hrun.
  destruct (cleanupVirtualService rs c) as [[err|] c']; [|done]. destruct Hrun as (answer & Hlog & _).
  cbn in Hl. rewrite Hlog in Hl. apply app_inv_head in Hl as <-. cbn in Hin.
  apply elem_of_cons in Hin as [[=]|[=]%list_elem_of_singleton]. done.
Qed.

Context `{RoutePrinter}.

(** A run of the handler that succeeds on a service without its routes sends it. *)
Lemma edit_sent `{MapOrder} h service sh (c : ctx W) seen :
  Forall well_formed (vs_Http service) ->
  routesConfiguredWithDynamicEnvRoutes (vs_Http service) (vh_RoutePrefix h) = false ->
  (updateVirtualService h service sh c).1 = Ret (seen, None) ->
  exists r, makes (updateVirtualService h service sh) c (UpdateVirtualService (edit_of h sh service)) r.
Proof.
  intros Hwf Hc Hret. pose proof (wp_update h service sh c Hwf) as Hrun. unfold wp in Hrun.
  destruct (updateVirtualService h service sh c) as [o c'] eqn:Erun. simpl in Hret. subst o.
  destruct Hrun as (log & Hlog & Hres & _).
  destruct (Hres eq_refl) as [[Hc' _]|[_ Hin]]; [congruence|]. eexists. unfold makes. rewrite Erun. by exists log.
Qed.

(** A route of one subset has the prefix of the whole environment. *)
Lemma ours_env_prefix data hosts dv r :
  ours (NewVirtualServiceHandler data hosts dv) r = true ->
  HasPrefix (hr_Name r) (CalculateVirtualServicePrefix (UniqueDynamicEnvName (rd_Identifier data)) "") = true.
Proof. intros Ho. eapply HasPrefix_trans; [exact Ho|apply subset_prefix_extends]. Qed.
Lemma cleanup_ours data hosts dv l :
  cleanup_routes (UniqueDynamicEnvName (rd_Identifier data))
    (filter (fun r => ours (NewVirtualServiceHandler data hosts dv) r = false) l)
  = cleanup_routes (UniqueDynamicEnvName (rd_Identifier data)) l.
Proof.
  unfold cleanup_routes. rewrite list_filter_filter. apply list_filter_iff. intros r. split; [by intros []|].
  intros Hc. split; [done|]. apply not_true_iff_false. intros Ho%ours_env_prefix. congruence.
Qed.
(** What a handler of the environment writes, cleaned, is what it was given. *)
Lemma update_cleaned `{MapOrder} data hosts dv sh service edited (c : ctx W) r :
  Forall (fun route => HasPrefix (hr_Name route)
    (CalculateVirtualServicePrefix (UniqueDynamicEnvName (rd_Identifier data)) "") = false) (vs_Http service) ->
  makes (updateVirtualService (NewVirtualServiceHandler data hosts dv) service sh) c (UpdateVirtualService edited) r ->
  cleanup_routes (UniqueDynamicEnvName (rd_Identifier data)) (vs_Http edited) = vs_Http service /\
  vs_Name edited = vs_Name service /\ vs_Namespace edited = vs_Namespace service /\
  vs_Hosts edited = vs_Hosts service /\ vs_other edited = vs_other service.
Proof.
  intros Hfresh. refine (emits_makes (only_writes (fun v => cleanup_routes _ (vs_Http v) = vs_Http service /\ _)) _ _ _ _ _).
  apply emits_updateVirtualService. intros l Hedit _. split; [|done].
  change (vs_Http (AddToAnnotation _ _)) with l.
  rewrite <- (cleanup_ours data hosts dv), (edit_keeps _ _ _ _ _ Hedit), cleanup_ours.
  apply filter_all. intros x Hx. rewrite Forall_forall in Hfresh. by apply Hfresh.
Qed.
End undo.

(** C16.  Cleaning up undoes the edit: take a virtual service none of whose routes
    carries the environment's prefix, and let [updateVirtualService], for any
    subset of the environment and any service host, send the service [edited] to
    an API server, whatever it answers.  When [cleanupVirtualService] for the
    same environment, against any API server and at any later time, then reads a
    service with the routes, name, namespace and hosts that were sent, it sends
    exactly one update: the service it read, its routes exactly those the
    service had before the edit, with the name, namespace and hosts it had; and
    it fails only with the error that update is answered with. *)
Theorem cleanup_undoes_update {W W'} `{Client W} `{Client W'} `{MapOrder} `{RoutePrinter}
    (data : DynamicEnvReconcileData) (hosts : list string) (defaultVersion serviceHost : string)
    (service edited found : VirtualService) (c : ctx W) (answer : result error VirtualService)
    (rs : ResourceStatus) (c1 : ctx W') (w : W')
    (Hfresh : Forall (fun route => HasPrefix (hr_Name route)
      (CalculateVirtualServicePrefix (UniqueDynamicEnvName (rd_Identifier data)) "") = false) (vs_Http service))
    (Hedit : makes (updateVirtualService (NewVirtualServiceHandler data hosts defaultVersion) service serviceHost)
               c (UpdateVirtualService edited) answer)
    (Hid : de_nn (cx_de c1) = rd_Identifier data)
    (Hget : exec (GetVirtualService (rs_nn rs)) (cx_world c1) = (Ok found, w))
    (Hfound : vs_Http found = vs_Http edited /\ vs_Name found = vs_Name edited /\
              vs_Namespace found = vs_Namespace edited /\ vs_Hosts found = vs_Hosts edited) :
  wp (cleanupVirtualService rs) (fun err c' => exists cleaned answer',
    cx_log c' = cx_log c1 ++ [Event (GetVirtualService (rs_nn rs)) (Ok found);
                              Event (UpdateVirtualService cleaned) answer'] /\
    err = match answer' with Ok _ => None | Err e => Some e end /\
    vs_Http cleaned = vs_Http service /\ vs_Name cleaned = vs_Name service /\
    vs_Namespace cleaned = vs_Namespace service /\ vs_Hosts cleaned = vs_Hosts service /\
    vs_other cleaned = vs_other found) c1.
Proof.
  destruct (update_cleaned _ _ _ _ _ _ _ _ Hfresh Hedit) as (Hr & Hn & Hns & Hh & _).
  destruct Hfound as (Fr & Fn & Fns & Fh).
  eapply wp_mono; [|by apply (cleanup_run rs c1 found w)]. intros err c' (answer' & Hlog & Herr).
  exists (cleaned_service (cx_de c1) found), answer'. split_and!; [exact Hlog|exact Herr| |by rewrite <- Hn|by rewrite <- Hns|by rewrite <- Hh|done].
  rewrite <- Hr, <- Fr, <- Hid. reflexivity.
Qed.

Module UndoExample.
Definition data : DynamicEnvReconcileData :=
  mkReconcileData (mkNN "default" "env")
    (mkDeployment "reviews" "default" None None (mkDeploymentSpec None None (mkPodTemplate None [] [] "") "") [] "")
    (mkSubset "reviews" "default" None None [] [] "") [RoutingExample.match_user "json"].
Definition service := RoutingExample.service.
(** What the handler sends for the service, and the server that has stored it. *)
Definition edited : VirtualService := Eval vm_compute in
  default service (last (omap sent_service (cx_log (updateVirtualService (H1:=canonical_order)
    (H2:=RoutingExample.printer) (NewVirtualServiceHandler data ["reviews"] "shared") service "reviews"
    (start empty_cluster CleanupExample.env)).2))).
Definition stored : cluster := k_set_virtualservices {[ vs_key edited := edited ]} empty_cluster.
Definition rs := mkResourceStatus "reviews" "default" "".
End UndoExample.

Lemma cleanup_undoes_update_witness :
  length (vs_Http UndoExample.edited) = 2 /\
  let c1 := start UndoExample.stored CleanupExample.env in
  wp (cleanupVirtualService UndoExample.rs) (fun err c' => exists cleaned answer',
    cx_log c' = cx_log c1 ++ [Event (GetVirtualService (mkNN "default" "reviews")) (Ok UndoExample.edited);
                              Event (UpdateVirtualService cleaned) answer'] /\
    err = match answer' with Ok _ => None | Err e => Some e end /\
    vs_Http cleaned = vs_Http UndoExample.service /\ vs_Name cleaned = "reviews" /\
    vs_Namespace cleaned = "default" /\ vs_Hosts cleaned = vs_Hosts UndoExample.service /\
    vs_other cleaned = vs_other UndoExample.edited) c1.
Proof.
  split; [reflexivity|]. intros c1.
  eapply (cleanup_undoes_update (H2:=canonical_order) (H3:=RoutingExample.printer) UndoExample.data ["reviews"] "shared"
    "reviews" UndoExample.service UndoExample.edited UndoExample.edited (start empty_cluster CleanupExample.env)
    (Ok UndoExample.edited) UndoExample.rs c1).
  - by repeat constructor.
  - eexists. split; [reflexivity|]. apply (list_elem_of_lookup_2 _ 1). vm_compute. reflexivity.
  - reflexivity.
  - vm_compute. reflexivity.
  - by split_and!.
Defined.

(** C40.  The cleanup of an environment also removes routes of others: when the name
    of one environment is the name of another followed by a dash and more, in
    the same namespace and within the length limits, no route that the handlers
    of the longer-named one create survives the cleanup of the shorter-named
    one. *)
Theorem cleanup_removes_foreign_routes `{RoutePrinter} (ns name more : string)
    (data : DynamicEnvReconcileData) (hosts : list string) (defaultVersion serviceHost inNamespace : string)
    (r : HTTPRoute) (im : IstioMatch) (http : list HTTPRoute)
    (Hns : str_len ns <= 20) (Hname : str_len (name +:+ "-" +:+ more) <= 40)
    (Hid : rd_Identifier data = mkNN ns (name +:+ "-" +:+ more)) :
  copy_of (NewVirtualServiceHandler data hosts defaultVersion) serviceHost inNamespace r im
    ∉ cleanup_routes (UniqueDynamicEnvName (mkNN ns name)) http.
Proof.
  intros [Hno _]%list_elem_of_filter. apply not_true_iff_false in Hno. apply Hno. clear Hno.
  unfold copy_of, NewVirtualServiceHandler. cbn [hr_Name vh_RoutePrefix]. rewrite Hid.
  rewrite !UniqueDynamicEnvName_short by (cbn [nn_Name nn_Namespace]; rewrite ?str_len_app in *; lia).
  cbn [nn_Name nn_Namespace]. rewrite !CalculateVirtualServicePrefix_eq. apply HasPrefix_spec.
  eexists. autorewrite with gostr. done.
Qed.
Lemma cleanup_removes_foreign_routes_witness :
  let data := mkReconcileData (mkNN "default" "env-blue")
    (mkDeployment "reviews" "default" None None
       (mkDeploymentSpec None None (mkPodTemplate None [] [] "") "") [] "")
    (mkSubset "reviews" "default" None None [] [] "") [RoutingExample.match_user "json"] in
  copy_of (H:=RoutingExample.printer) (NewVirtualServiceHandler data ["reviews"] "shared") "reviews" "default"
    RoutingExample.route (RoutingExample.match_user "json")
    ∉ cleanup_routes (UniqueDynamicEnvName (mkNN "default" "env"))
        [copy_of (H:=RoutingExample.printer) (NewVirtualServiceHandler data ["reviews"] "shared") "reviews" "default"
           RoutingExample.route (RoutingExample.match_user "json")].
Proof.
  intros data. apply (cleanup_removes_foreign_routes "default" "env" "blue"); [vm_compute; lia..|reflexivity].
Defined.

(** ** Removing one subset *)
Section remove.
Context {W : Type} `{Client W} `{MapOrder}.

Lemma extends_remove_rules drs b c :
  extends (W:=W) (remove_rules drs b) (fun res l =>
    res = Ok false -> b = false /\ Forall (absent_rule l) drs) c.
Proof.
  revert b c. induction drs as [|rs drs IH]; intros b c; simpl.
  { apply extends_ret. intros [= ->]. split; [done|constructor]. }
  eapply extends_bind; [apply extends_deleteDestinationRule|].
  intros [found [e|]] l c1 Hrs Hde; [by apply extends_ret|]. specialize (Hrs eq_refl). simpl in Hrs.
  eapply wp_mono; [|apply (IH _ c1)]. intros res c2 (Hde2 & l' & Hl' & HQ).
  split; [done|]. exists l'. split; [done|]. intros Hres. destruct (HQ Hres) as [Hb Hf].
  destruct found; [done|]. split; [done|]. constructor.
  - eapply log_mono; [|exact Hrs]. solve_sub.
  - eapply log_mono_Forall; [apply _| |exact Hf]. solve_sub.
Qed.
Definition subset_gone (de : DynamicEnv) (st : SubsetStatus) (l : list event) : Prop :=
  absent_deployment l (ss_Deployment st) /\ Forall (absent_rule l) (ss_DestinationRules st) /\
  Forall (clean_service de l) (ss_VirtualServices st).
Lemma extends_remove_resources st c :
  extends (W:=W) (remove_resources st) (fun res l => res = Ok false -> subset_gone (cx_de c) st l) c.
Proof.
  unfold remove_resources. eapply extends_bind; [apply extends_deleteDeployment|].
  intros [found [e|]] l c1 Hd Hde1; [by apply extends_ret|]. specialize (Hd eq_refl). simpl in Hd.
  eapply extends_bind; [apply extends_remove_rules|].
  intros [b|e] l1 c2 Hr Hde2; [|by apply extends_ret].
  eapply extends_bind; [apply extends_cleanup_each|].
  intros [e|] l2 c3 Hs Hde3; apply extends_ret; [done|]. intros [= ->].
  destruct (Hr eq_refl) as [-> Hrules]. specialize (Hs eq_refl). rewrite Hde2, Hde1 in Hs.
  split_and!.
  - eapply log_mono; [|exact Hd]. solve_sub.
  - eapply log_mono_Forall; [apply _| |exact Hrules]. solve_sub.
  - eapply log_mono_Forall; [apply _| |exact Hs]. solve_sub.
Qed.
(** A status update of the shared object, as the last call. *)
Lemma wp_update_status_last c (Q : option error -> ctx W -> Prop) :
  (forall err c' r, cx_log c' = cx_log c ++ [Event (UpdateDynamicEnvStatus (cx_de c)) r] -> Q err c') ->
  wp update_status Q c.
Proof.
  intros HQ. unfold update_status. apply wp_bind, wp_get_de. apply wp_bind, wp_call.
  intros [d|e] w _; [apply wp_bind, wp_put_de|]; apply wp_ret; by eapply HQ.
Qed.
End remove.

