(* ===== verification/Overlays.v ===== *)
(** * Many environments on one virtual service: overlays

    What the operator promises for a shared virtual service, without routes that
    are edited in place: the service is its base routes plus an ordered list of
    overlays, one per subset of an environment that is configured.  Which
    overlays these are is a function of the changes made so far: configuring a
    subset adds its overlay on top unless it is there, cleaning an environment up
    drops the overlays of that environment and no other.  The refinement theorem
    says that the handler's edits and the manager's cleanups, in any order and
    for any number of environments, implement exactly that function; the
    isolation theorem says what a request sees of it. *)

From stdpp Require Import base gmap sets list strings relations.
From S2P Require Import Prelude GoStrings Sha256 K8s Types Helpers Watches Client FakeCluster StatusManager Model VirtualServiceHandler VirtualServiceRouting CleanupManager.

(** ** The abstract service *)

(** A handler, and the service host it was asked to serve. *)
Record overlay := mkOverlay { ov_handler : VirtualServiceHandler; ov_host : string }.
Definition ov_prefix (o : overlay) : string := vh_RoutePrefix (ov_handler o).
Definition ov_version (o : overlay) : string := vh_UniqueVersion (ov_handler o).

(** The prefix of all routes of one environment. *)
Definition env_prefix (version : string) : string := CalculateVirtualServicePrefix version "".
Definition incomparable (p p' : string) : Prop := HasPrefix p p' = false /\ HasPrefix p' p = false.

Section abstract.
Context `{RoutePrinter} (ns : string) (base : list HTTPRoute).
Implicit Types (o : overlay) (ovs : list overlay) (r : HTTPRoute).

Definition overlay_copies o r : list HTTPRoute := copies_of (ov_handler o) (ov_host o) ns r.
Definition render_route ovs r : list HTTPRoute := (ovs ≫= fun o => overlay_copies o r) ++ [r].
(** The routes of the service with the overlays [ovs]. *)
Definition render ovs : list HTTPRoute := base ≫= render_route ovs.

(** Some copy of the overlay shows: it targets a route and has a match. *)
Definition shown o : bool := existsb (fun r => negb (bool_decide (overlay_copies o r = []))) base.

(** What is done to the service: a subset is configured, an environment is
    cleaned up. *)
Inductive change := Configure (o : overlay) | CleanUp (i : NamespacedName).
(** The subset is there already, by its routes' prefix. *)
Definition configured ovs o : bool := existsb (fun o' => bool_decide (ov_prefix o' = ov_prefix o) && shown o') ovs.
Definition apply_change ovs (ch : change) : list overlay :=
  match ch with
  | Configure o => if configured ovs o then ovs else ovs ++ [o]
  | CleanUp i => filter (fun o => ov_version o <> UniqueDynamicEnvName i) ovs
  end.
(** The overlays after these changes, in order, of a service without any. *)
Definition overlays_after (changes : list change) : list overlay := foldl apply_change [] changes.

Lemma overlays_after_snoc changes ch :
  overlays_after (changes ++ [ch]) = apply_change (overlays_after changes) ch.
Proof. unfold overlays_after. by rewrite foldl_app. Qed.
End abstract.

(** The environments [E] that share the service, the overlays [U] they may ask
    for, and the routes the service has of its own.  The clauses exclude the
    collisions of names recorded elsewhere in this development. *)
Record fleet (E : NamespacedName -> Prop) (U : overlay -> Prop) (base : list HTTPRoute) : Prop := mkFleet {
  fleet_handler : forall o, U o -> exists data hosts defaultVersion,
    ov_handler o = NewVirtualServiceHandler data hosts defaultVersion /\ E (rd_Identifier data);
  fleet_versions : forall i j, E i -> E j -> UniqueDynamicEnvName i <> UniqueDynamicEnvName j ->
    incomparable (env_prefix (UniqueDynamicEnvName i)) (env_prefix (UniqueDynamicEnvName j));
  fleet_subsets : forall o o', U o -> U o' -> ov_prefix o <> ov_prefix o' ->
    incomparable (ov_prefix o) (ov_prefix o');
  fleet_default : forall o o', U o -> U o' -> ov_version o <> vh_DefaultVersion (ov_handler o');
  fleet_well_formed : Forall well_formed base;
  fleet_base : forall i r, E i -> r ∈ base ->
    HasPrefix (hr_Name r) (env_prefix (UniqueDynamicEnvName i)) = false;
}.

(** ** The code's steps *)

(** [service'] is what one run of the operator makes of [service]: the service it
    sends, or, when it answers without an error and sends none, the service as it
    was.  Runs may be against different API servers, in any state, whatever they
    answer. *)
Inductive operator_step `{RoutePrinter} (E : NamespacedName -> Prop) (U : overlay -> Prop) :
    change -> VirtualService -> VirtualService -> Prop :=
| step_configure W `{Client W} `{MapOrder} (o : overlay) (service service' : VirtualService) (c : ctx W)
    (r : result error VirtualService) :
    U o ->
    makes (updateVirtualService (ov_handler o) service (ov_host o)) c (UpdateVirtualService service') r ->
    operator_step E U (Configure o) service service'
| step_configured W `{Client W} `{MapOrder} (o : overlay) (service seen : VirtualService) (c : ctx W) :
    U o ->
    (updateVirtualService (ov_handler o) service (ov_host o) c).1 = Ret (seen, None) ->
    (forall v r, ~ makes (updateVirtualService (ov_handler o) service (ov_host o)) c (UpdateVirtualService v) r) ->
    operator_step E U (Configure o) service service
| step_cleanup W `{Client W} (rs : ResourceStatus) (service service' : VirtualService) (c : ctx W) (w : W)
    (r : result error VirtualService) :
    E (de_nn (cx_de c)) ->
    exec (GetVirtualService (rs_nn rs)) (cx_world c) = (Ok service, w) ->
    makes (cleanupVirtualService rs) c (UpdateVirtualService service') r ->
    operator_step E U (CleanUp (de_nn (cx_de c))) service service'.

(** The runs that make the changes, one after the other. *)
Inductive operator_run `{RoutePrinter} (E : NamespacedName -> Prop) (U : overlay -> Prop) (original : VirtualService) :
    list change -> VirtualService -> Prop :=
| run_start : operator_run E U original [] original
| run_step changes ch service service' :
    operator_run E U original changes service -> operator_step E U ch service service' ->
    operator_run E U original (changes ++ [ch]) service'.

(** ** Names and destinations of the copies *)
Section fleet.
Context `{RoutePrinter} {E : NamespacedName -> Prop} {U : overlay -> Prop} {base : list HTTPRoute}.
Context (Hfleet : fleet E U base) (ns : string).
Implicit Types (o : overlay) (ovs : list overlay) (r x : HTTPRoute).

Lemma copies_named o r x : x ∈ overlay_copies ns o r -> HasPrefix (hr_Name x) (ov_prefix o) = true.
Proof.
  unfold overlay_copies, copies_of. destruct (targeted _ _ _ _); [|by intros ?%not_elem_of_nil].
  intros (im & -> & _)%list_elem_of_fmap. apply HasPrefix_app.
Qed.
Lemma prefix_of_env o i :
  U o -> ov_version o = UniqueDynamicEnvName i ->
  HasPrefix (ov_prefix o) (env_prefix (UniqueDynamicEnvName i)) = true.
Proof.
  intros (data & hosts & dv & Ho & _)%(fleet_handler _ _ _ Hfleet) Hv. unfold ov_prefix, ov_version in *.
  rewrite Ho in *. simpl in *. rewrite <- Hv. apply subset_prefix_extends.
Qed.
Lemma overlay_env o : U o -> exists i, E i /\ ov_version o = UniqueDynamicEnvName i.
Proof.
  intros (data & hosts & dv & Ho & HE)%(fleet_handler _ _ _ Hfleet). exists (rd_Identifier data).
  split; [done|]. unfold ov_version. by rewrite Ho.
Qed.

(** A copy carries the prefix of its own environment and no other. *)
Lemma copies_env o i r x :
  U o -> E i -> x ∈ overlay_copies ns o r ->
  HasPrefix (hr_Name x) (env_prefix (UniqueDynamicEnvName i)) = bool_decide (ov_version o = UniqueDynamicEnvName i).
Proof.
  intros HU Hi Hx%copies_named. apply eq_true_iff_eq. rewrite bool_decide_eq_true. split.
  - intros Hp. destruct (overlay_env o HU) as (j & Hj & Hv). rewrite Hv. apply dec_stable. intros Hne.
    destruct (fleet_versions _ _ _ Hfleet j i Hj Hi Hne) as [H1 H2].
    assert (Hj' := HasPrefix_trans _ _ _ Hx (prefix_of_env o j HU Hv)).
    destruct (HasPrefix_comparable _ _ _ Hj' Hp); congruence.
  - intros Hv. eapply HasPrefix_trans; [exact Hx|]. by apply prefix_of_env.
Qed.
Lemma base_not_ours o r : U o -> r ∈ base -> HasPrefix (hr_Name r) (ov_prefix o) = false.
Proof.
  intros HU Hr. apply not_true_iff_false. intros Hp. destruct (overlay_env o HU) as (i & Hi & Hv).
  assert (Hb := fleet_base _ _ _ Hfleet i r Hi Hr).
  by rewrite (HasPrefix_trans _ _ _ Hp (prefix_of_env o i HU Hv)) in Hb.
Qed.
(** The copies of one environment are no targets of another. *)
Lemma copies_not_targeted o o' r x :
  U o -> U o' -> x ∈ overlay_copies ns o r -> overlay_copies ns o' x = [].
Proof.
  intros HU HU' Hx. unfold overlay_copies, copies_of in *.
  destruct (targeted (ov_handler o) _ _ _) eqn:Ht; [|by apply not_elem_of_nil in Hx].
  apply list_elem_of_fmap in Hx as (im & -> & _).
  destruct (our_destinations_spec _ _ _ _ Ht) as [_ Hd].
  assert (targeted (ov_handler o') (ov_host o') ns (copy_of (ov_handler o) (ov_host o) ns r im) = false) as ->; [|done].
  apply existsb_false. intros rd Hrd. rewrite Forall_forall in Hd. specialize (Hd _ Hrd). unfold taken.
  destruct (rd_Destination rd) as [d|]; [|done]. injection Hd as ->.
  rewrite bool_decide_false; [by rewrite andb_false_r|]. by apply (fleet_default _ _ _ Hfleet o o').
Qed.
Lemma copies_well_formed o r : U o -> r ∈ base -> Forall well_formed (overlay_copies ns o r).
Proof.
  intros HU Hr. assert (Hnew : Forall well_formed (new_routes (ov_handler o) (ov_host o) ns [r])).
  { apply new_routes_wf, Forall_singleton. assert (Hwf := fleet_well_formed _ _ _ Hfleet).
    rewrite Forall_forall in Hwf. by apply Hwf. }
  unfold new_routes in Hnew. rewrite filter_cons, decide_True in Hnew by by apply base_not_ours.
  simpl in Hnew. rewrite app_nil_r in Hnew. by apply Forall_app in Hnew as [? _].
Qed.

Lemma elem_of_render ovs x :
  x ∈ render ns base ovs <-> (exists o r, o ∈ ovs /\ r ∈ base /\ x ∈ overlay_copies ns o r) \/ x ∈ base.
Proof.
  unfold render, render_route. rewrite list_elem_of_bind. setoid_rewrite elem_of_app.
  setoid_rewrite list_elem_of_bind. setoid_rewrite list_elem_of_singleton. split.
  - intros (r & [(o & Hx & Ho)| ->] & Hr); [left; by exists o, r|by right].
  - intros [(o & r & Ho & Hr & Hx)|Hx]; [|by exists x; auto]. exists r. split; [left; by exists o|done].
Qed.
Lemma render_well_formed ovs : Forall U ovs -> Forall well_formed (render ns base ovs).
Proof.
  rewrite !Forall_forall. intros HU x [(o & r & Ho & Hr & Hx)|Hx]%elem_of_render.
  - assert (Hc := copies_well_formed o r (HU _ Ho) Hr). rewrite Forall_forall in Hc. by apply Hc.
  - assert (Hwf := fleet_well_formed _ _ _ Hfleet). rewrite Forall_forall in Hwf. by apply Hwf.
Qed.

(** Configuring a subset adds its overlay on top. *)
Lemma edit_render o ovs :
  U o -> Forall U ovs -> routesConfiguredWithDynamicEnvRoutes (render ns base ovs) (ov_prefix o) = false ->
  new_routes (ov_handler o) (ov_host o) ns (render ns base ovs) = render ns base (ovs ++ [o]).
Proof.
  intros HU HUs Hc. unfold new_routes. rewrite (unconfigured_no_ours (ov_handler o) _ Hc).
  fold (overlay_copies ns o). unfold render. rewrite list_bind_assoc. apply list_bind_ext_in. intros r _.
  unfold render_route. rewrite bind_app, bind_app, <- app_assoc. cbn [mbind list_bind app].
  fold (overlay_copies ns o r). rewrite <- app_assoc. cbn [app].
  f_equal; [|by rewrite app_nil_r]. rewrite list_bind_assoc. apply list_bind_ext_in. intros o' Ho'.
  rewrite Forall_forall in HUs.
  transitivity (overlay_copies ns o' r ≫= fun x => [x]).
  - apply list_bind_ext_in. intros x Hx. fold (overlay_copies ns o x).
    by rewrite (copies_not_targeted o' o r x (HUs _ Ho') HU Hx).
  - apply list_bind_singleton.
Qed.
(** The code's test, a route with the prefix, is that the overlay is there. *)
Lemma configured_render o ovs :
  U o -> Forall U ovs ->
  routesConfiguredWithDynamicEnvRoutes (render ns base ovs) (ov_prefix o) = configured ns base ovs o.
Proof.
  intros HU HUs. rewrite Forall_forall in HUs. apply eq_true_iff_eq.
  unfold routesConfiguredWithDynamicEnvRoutes, configured, shown. rewrite !existsb_elem.
  setoid_rewrite andb_true_iff. setoid_rewrite bool_decide_eq_true. setoid_rewrite existsb_elem. split.
  - intros (x & [(o' & r & Ho' & Hr & Hx)|Hx]%elem_of_render & Hp).
    2: { by rewrite base_not_ours in Hp. }
    exists o'. split; [done|]. split.
    + apply dec_stable. intros Hne. destruct (fleet_subsets _ _ _ Hfleet o o' HU (HUs _ Ho') (not_eq_sym Hne)) as [H1 H2].
      apply copies_named in Hx. destruct (HasPrefix_comparable _ _ _ Hx Hp); congruence.
    + exists r. split; [done|]. rewrite bool_decide_eq_false_2; [done|]. intros Hn. rewrite Hn in Hx.
      by apply not_elem_of_nil in Hx.
  - intros (o' & Ho' & Hp & r & Hr & Hne%negb_true_iff%bool_decide_eq_false).
    destruct (overlay_copies ns o' r) as [|x l] eqn:Ec; [done|].
    assert (Hx : x ∈ overlay_copies ns o' r) by (rewrite Ec; by left).
    exists x. split; [apply elem_of_render; left; by exists o', r|]. rewrite <- Hp. by eapply copies_named.
Qed.
(** Cleaning an environment up drops its overlays. *)
Lemma cleanup_render i ovs :
  E i -> Forall U ovs ->
  cleanup_routes (UniqueDynamicEnvName i) (render ns base ovs)
  = render ns base (filter (fun o => ov_version o <> UniqueDynamicEnvName i) ovs).
Proof.
  intros Hi HUs. unfold cleanup_routes, render. rewrite list_filter_bind. apply list_bind_ext_in. intros r Hr.
  unfold render_route. rewrite filter_app. f_equal.
  2: { apply filter_all. intros x ->%list_elem_of_singleton. by apply (fleet_base _ _ _ Hfleet). }
  rewrite list_filter_bind. induction HUs as [|o ovs HU _ IH]; [done|]. rewrite bind_cons, IH, filter_cons.
  case_decide as Hd.
  - rewrite bind_cons. f_equal. apply filter_all. intros x Hx.
    change (CalculateVirtualServicePrefix _ "") with (env_prefix (UniqueDynamicEnvName i)).
    rewrite (copies_env o i r x HU Hi Hx). case_bool_decide; [congruence|done].
  - rewrite filter_none; [done|]. intros x Hx Hf. revert Hf.
    change (CalculateVirtualServicePrefix _ "") with (env_prefix (UniqueDynamicEnvName i)).
    rewrite (copies_env o i r x HU Hi Hx). case_bool_decide as Hv; [done|]. by destruct Hd.
Qed.
End fleet.

(** ** The operator implements the overlays *)

(** [service] shows the overlays [ovs] over the routes of [original], and is
    otherwise as it was, its owner annotation apart. *)
Definition shows `{RoutePrinter} (original : VirtualService) (ovs : list overlay) (service : VirtualService) : Prop :=
  vs_Http service = render (vs_Namespace original) (vs_Http original) ovs /\
  vs_Name service = vs_Name original /\ vs_Namespace service = vs_Namespace original /\
  vs_Hosts service = vs_Hosts original /\ vs_other service = vs_other original.

Lemma shows_nothing `{RoutePrinter} original : shows original [] original.
Proof. split; [|done]. unfold render, render_route. simpl. by rewrite list_bind_singleton. Qed.

Section simulation.
Context `{RoutePrinter} {E : NamespacedName -> Prop} {U : overlay -> Prop} {original : VirtualService}.
Context (Hfleet : fleet E U (vs_Http original)).
Local Abbreviation after := (apply_change (vs_Namespace original) (vs_Http original)).

Lemma apply_change_known ovs ch service service' :
  Forall U ovs -> operator_step E U ch service service' -> Forall U (after ovs ch).
Proof.
  intros HUs Hstep. destruct Hstep; simpl; try by apply Forall_filter.
  all: destruct (configured _ _ _ _); [done|]; apply Forall_app; by rewrite Forall_singleton.
Qed.
Lemma shown_configured o ovs service :
  U o -> Forall U ovs -> shows original ovs service ->
  routesConfiguredWithDynamicEnvRoutes (vs_Http service) (vh_RoutePrefix (ov_handler o)) =
  configured (vs_Namespace original) (vs_Http original) ovs o.
Proof. intros HU HUs (-> & _). by apply (configured_render Hfleet). Qed.
Lemma update_simulates {W} `{Client W} `{MapOrder} o ovs service service' (c : ctx W) r :
  U o -> Forall U ovs -> shows original ovs service ->
  makes (updateVirtualService (ov_handler o) service (ov_host o)) c (UpdateVirtualService service') r ->
  configured (vs_Namespace original) (vs_Http original) ovs o = false /\
  shows original (ovs ++ [o]) service'.
Proof.
  intros HU HUs Hs Hm. pose proof Hs as (Hhttp & Hn & Hns & Hh & Ho).
  refine (emits_makes (only_writes (fun v => _ /\ shows original (ovs ++ [o]) v)) _ _ _ _ _ Hm).
  apply emits_updateVirtualService. intros l El Hc. split; [by rewrite <- (shown_configured o ovs service)|].
  rewrite Hhttp in El, Hc. rewrite edit_well_formed, Hns in El by by apply (render_well_formed Hfleet).
  injection El as <-. split; [|done]. by apply (edit_render Hfleet).
Qed.
(** A run that succeeds and writes nothing found the subset configured. *)
Lemma idle_configured {W} `{Client W} `{MapOrder} o ovs service seen (c : ctx W) :
  U o -> Forall U ovs -> shows original ovs service ->
  (updateVirtualService (ov_handler o) service (ov_host o) c).1 = Ret (seen, None) ->
  (forall v r, ~ makes (updateVirtualService (ov_handler o) service (ov_host o)) c (UpdateVirtualService v) r) ->
  configured (vs_Namespace original) (vs_Http original) ovs o = true.
Proof.
  intros HU HUs Hs Hret Hidle. rewrite <- (shown_configured o ovs service) by done. apply dec_stable.
  intros Hc%not_true_iff_false. assert (Hwf : Forall well_formed (vs_Http service)).
  { destruct Hs as (-> & _). by apply (render_well_formed Hfleet). }
  pose proof (edit_sent (ov_handler o) service (ov_host o) c seen Hwf Hc Hret) as (r & Hm).
  by apply Hidle in Hm.
Qed.
Lemma step_simulates ovs ch service service' :
  Forall U ovs -> shows original ovs service -> operator_step E U ch service service' ->
  shows original (after ovs ch) service'.
Proof.
  intros HUs Hs Hstep. destruct Hstep as [W ?? o service service' c r HU Hm|W ?? o service seen c HU Hret Hidle
    |W ? rs service service' c w r HE Hget Hm]; simpl.
  - destruct (update_simulates o ovs service service' c r HU HUs Hs Hm) as [-> Hs']. exact Hs'.
  - by rewrite (idle_configured o ovs service seen c).
  - apply (cleanup_makes rs c service w) in Hm as ->; [|done]. destruct Hs as (Hhttp & Hrest).
    split; [|exact Hrest]. unfold cleaned_service. cbn. rewrite Hhttp. by apply (cleanup_render Hfleet).
Qed.
Lemma run_simulates changes service :
  operator_run E U original changes service ->
  let ovs := overlays_after (vs_Namespace original) (vs_Http original) changes in
  Forall U ovs /\ shows original ovs service.
Proof.
  intros Hrun ovs. subst ovs. induction Hrun as [|changes ch service service' _ [HU Hs] Hstep].
  - split; [constructor|apply shows_nothing].
  - rewrite overlays_after_snoc. split; [by eapply apply_change_known|by eapply step_simulates].
Qed.
End simulation.

(** C2.  The operator implements the overlays: start from a virtual service no
    environment has touched and let subsets of environments be configured on it
    and environments be cleaned up from it, any number of them, in any order,
    each change being one run of [updateVirtualService] or
    [cleanupVirtualService] against any API server.  Then the service shows
    exactly the overlays that these changes, in this order, leave: its own
    routes, in order, each behind the copies of the subsets that were configured
    and whose environments were not cleaned up since, in the order they were
    configured (a subset that is configured while its routes are there stays
    where it is); everything but the routes and the owner annotation is as it
    was.  The environments must not collide in their names, and none may have
    the version another takes for the default. *)
Theorem operator_refines_overlays `{RoutePrinter} (E : NamespacedName -> Prop) (U : overlay -> Prop)
    (original service : VirtualService) (changes : list change)
    (Hfleet : fleet E U (vs_Http original)) (Hrun : operator_run E U original changes service) :
  shows original (overlays_after (vs_Namespace original) (vs_Http original) changes) service.
Proof. by apply (run_simulates Hfleet). Qed.

(** ** What requests see of it *)
Lemma omap_filter_none {A B} (f : A -> option B) (P : A -> Prop) `{forall x, Decision (P x)} (l : list A) :
  (forall x, x ∈ l -> ~ P x -> f x = None) -> omap f (filter P l) = omap f l.
Proof.
  induction l as [|x l IH]; intros Hn; [done|]. rewrite filter_cons.
  assert (omap f (filter P l) = omap f l) as E by (apply IH; intros y Hy; apply Hn; by right).
  case_decide; cbn [omap list_omap]; [by rewrite E|]. rewrite (Hn x); [done|by left|done].
Qed.

Section isolation.
Context {Q : Type} `{IstioMatching Q} `{RoutePrinter} (ns : string).
Implicit Types (q : Q) (o : overlay) (ovs : list overlay) (r : HTTPRoute).

(** The copy of [r] that [o] shows to the request, if any. *)
Definition diverted q o r : option HTTPRoute :=
  if targeted (ov_handler o) (ov_host o) ns r then
    copy_of (ov_handler o) (ov_host o) ns r <$>
      head (filter (fun im => match_accepts q im = true) (vh_Matches (ov_handler o)))
  else None.
(** The first overlay that wants the request gets it. *)
Definition served q ovs r : HTTPRoute := default r (head (omap (fun o => diverted q o r) ovs)).

Definition unconditioned o r : Prop :=
  targeted (ov_handler o) (ov_host o) ns r = true ->
  Forall (fun im => compatible im r) (vh_Matches (ov_handler o)).

Lemma overlay_copies_accept q o r :
  unconditioned o r ->
  head (filter (fun x => route_accepts q x = true) (overlay_copies ns o r))
  = if route_accepts q r then diverted q o r else None.
Proof.
  intros Hc. unfold overlay_copies, copies_of, diverted.
  destruct (targeted _ _ _ _) eqn:Ht; [|by destruct (route_accepts q r)]. by apply copies_accept, Hc.
Qed.
Lemma render_route_accepts q ovs r rest :
  Forall (fun o => unconditioned o r) ovs ->
  head (filter (fun x => route_accepts q x = true) (render_route ns ovs r ++ rest))
  = if route_accepts q r then Some (served q ovs r) else head (filter (fun x => route_accepts q x = true) rest).
Proof.
  unfold render_route, served. induction 1 as [|o ovs Ho _ IH].
  - simpl. rewrite filter_cons. by destruct (route_accepts q r).
  - rewrite bind_cons, <- !app_assoc, filter_app, head_app, (overlay_copies_accept _ _ _ Ho).
    rewrite <- app_assoc in IH. simpl. destruct (route_accepts q r); [|exact IH].
    destruct (diverted q o r); [done|]. exact IH.
Qed.
Lemma route_for_render q base ovs :
  Forall (fun r => Forall (fun o => unconditioned o r) ovs) base ->
  route_for q (render ns base ovs) = served q ovs <$> route_for q base.
Proof.
  unfold route_for, render. induction 1 as [|r base Hr _ IH]; [done|].
  rewrite bind_cons, (render_route_accepts q ovs r _ Hr), IH, filter_cons. by destruct (route_accepts q r).
Qed.

(** No match of [o] wants the request. *)
Definition ignores q o : Prop := Forall (fun im => match_accepts q im = false) (vh_Matches (ov_handler o)).
Lemma diverted_ignores q o r : ignores q o -> diverted q o r = None.
Proof.
  intros Hi. unfold diverted. destruct (targeted _ _ _ _); [|done]. rewrite filter_none; [done|].
  unfold ignores in Hi. rewrite Forall_forall in Hi. intros im Him. by rewrite (Hi im Him).
Qed.
(** The change is about environments the request does not match: the one that
    is configured, or all overlays of the one that is cleaned up. *)
Definition indifferent q ovs (ch : change) : Prop :=
  match ch with
  | Configure o => ignores q o
  | CleanUp i => forall o, o ∈ ovs -> ov_version o = UniqueDynamicEnvName i -> ignores q o
  end.
Lemma served_nothing q ovs r : Forall (ignores q) ovs -> served q ovs r = r.
Proof.
  unfold served. induction 1 as [|o ovs Ho _ IH]; [done|]. simpl. by rewrite (diverted_ignores _ _ _ Ho).
Qed.
Lemma served_indifferent q base ovs ch r :
  indifferent q ovs ch -> served q (apply_change ns base ovs ch) r = served q ovs r.
Proof.
  unfold served. destruct ch as [o|i]; cbn [apply_change indifferent].
  - intros Ho. destruct (configured _ _ _ _); [done|]. rewrite omap_app. cbn.
    by rewrite (diverted_ignores _ _ _ Ho), app_nil_r.
  - intros Hi. f_equal. f_equal. apply omap_filter_none. intros o Ho Hv.
    apply diverted_ignores, Hi; [done|]. by apply dec_stable.
Qed.
End isolation.


(** *** Two environments on one service *)
Module OverlayExample.
Definition data (env user : string) : DynamicEnvReconcileData :=
  mkReconcileData (mkNN "default" env) (mkDeployment "reviews" "default" None None
     (mkDeploymentSpec None None (mkPodTemplate None [] [] "") "") [] "")
     (mkSubset "reviews" "default" None None [] [] "") [RoutingExample.match_user user].
Definition overlay_of (env user : string) : overlay :=
  mkOverlay (NewVirtualServiceHandler (data env user) ["reviews"] "shared") "reviews".
Definition blue := overlay_of "blue" "ann".
Definition green := overlay_of "green" "bob".
Definition envs (i : NamespacedName) : Prop := i = mkNN "default" "blue" \/ i = mkNN "default" "green".
Definition overlays (o : overlay) : Prop := o = blue \/ o = green.
Definition original := RoutingExample.service.

Definition env (name : string) : DynamicEnv :=
  set_Status (mkDynamicEnvStatus (Some {[ "default/reviews" := zero_SubsetStatus ]}) None "" 0 0)
    (mkDynamicEnv name "default" [] None (mkDynamicEnvSpec None [] []) zero_DynamicEnvStatus "").
Definition sent {A} (m : M cluster A) (c : ctx cluster) : VirtualService :=
  default original (last (omap sent_service (cx_log (m c).2))).
Definition configure (env_name : string) (o : overlay) (s : VirtualService) : VirtualService :=
  sent (updateVirtualService (H1:=canonical_order) (H2:=RoutingExample.printer) (ov_handler o) s "reviews")
    (start empty_cluster (env env_name)).
Definition cleanup (env_name : string) (s : VirtualService) : VirtualService :=
  sent (cleanupVirtualService (mkResourceStatus "reviews" "default" ""))
    (start (k_set_virtualservices {[ vs_key s := s ]} empty_cluster) (env env_name)).
Definition service1 := Eval vm_compute in configure "blue" blue original.
Definition service2 := Eval vm_compute in configure "green" green service1.
Definition service3 := Eval vm_compute in cleanup "blue" service2.

Lemma example_fleet : fleet envs overlays (vs_Http original).
Proof.
  split.
  - intros o [->| ->]; eexists _, _, _; (split; [reflexivity|]); [by left|by right].
  - intros i j [->| ->] [->| ->] Hne; try done; split; vm_compute; reflexivity.
  - intros o o' [->| ->] [->| ->] Hne; try done; split; vm_compute; reflexivity.
  - intros o o' [->| ->] [->| ->]; vm_compute; discriminate.
  - by repeat constructor.
  - intros i r [->| ->] ->%list_elem_of_singleton; vm_compute; reflexivity.
Qed.
Ltac makes_at k :=
  eexists; split; [reflexivity|]; apply (list_elem_of_lookup_2 _ k); vm_compute; reflexivity.
Ltac idle_here :=
  let l := fresh "l" in let Hl := fresh "Hl" in let Hin := fresh "Hin" in
  intros ? ? (l & Hl & Hin); vm_compute in Hl; subst l; by apply not_elem_of_nil in Hin.
(** Configure blue, configure green, green again, clean blue up. *)
Definition changes : list change :=
  [Configure blue; Configure green; Configure green; CleanUp (mkNN "default" "blue")].
Lemma example_run : operator_run (H:=RoutingExample.printer) envs overlays original changes service3.
Proof.
  apply (run_step (H:=RoutingExample.printer) envs overlays original
    [Configure blue; Configure green; Configure green] _ service2).
  1: apply (run_step (H:=RoutingExample.printer) envs overlays original [Configure blue; Configure green] _ service2).
  1: apply (run_step (H:=RoutingExample.printer) envs overlays original [Configure blue] _ service1).
  1: apply (run_step (H:=RoutingExample.printer) envs overlays original [] _ original); [constructor|].
  - apply (step_configure (H:=RoutingExample.printer) envs overlays cluster (H2:=canonical_order)
      blue original service1 (start empty_cluster (env "blue")) (Ok service1)); [by left|makes_at 1].
  - apply (step_configure (H:=RoutingExample.printer) envs overlays cluster (H2:=canonical_order)
      green service1 service2 (start empty_cluster (env "green")) (Ok service2)); [by right|makes_at 1].
  - apply (step_configured (H:=RoutingExample.printer) envs overlays cluster (H2:=canonical_order)
      green service2 service2 (start empty_cluster (env "green"))); [by right|vm_compute; reflexivity|idle_here].
  - eapply (step_cleanup (H:=RoutingExample.printer) envs overlays cluster
      (mkResourceStatus "reviews" "default" "") service2 service3
      (start (k_set_virtualservices {[ vs_key service2 := service2 ]} empty_cluster) (env "blue"))
      _ (Ok service3));
      [by left|vm_compute; reflexivity|makes_at 1].
Qed.
End OverlayExample.

Lemma operator_refines_overlays_witness :
  shows (H:=RoutingExample.printer) OverlayExample.original
    (overlays_after (H:=RoutingExample.printer) "default" (vs_Http OverlayExample.original) OverlayExample.changes)
    OverlayExample.service3.
Proof.
  apply (operator_refines_overlays (H:=RoutingExample.printer) OverlayExample.envs OverlayExample.overlays
           OverlayExample.original OverlayExample.service3 OverlayExample.changes).
  - exact OverlayExample.example_fleet.
  - exact OverlayExample.example_run.
Defined.
(** Only green is left. *)
Example overlays_left :
  map ov_prefix (overlays_after (H:=RoutingExample.printer) "default" (vs_Http OverlayExample.original)
    OverlayExample.changes) = ["dynamic-environment-default-green-reviews"].
Proof. vm_compute. reflexivity. Qed.


(** The same run seen by three users. *)
Example overlays_served :
  let serve u s := hr_Route <$> route_for (H:=RoutingExample.matching) (RoutingExample.request u) (vs_Http s) in
  let version x := fmap dst_Subset ∘ rd_Destination <$> default [] x in
  version (serve "ann" OverlayExample.service2) = [Some "default-blue"] /\
  version (serve "bob" OverlayExample.service2) = [Some "default-green"] /\
  version (serve "bob" OverlayExample.service3) = [Some "default-green"] /\
  serve "ann" OverlayExample.service3 = Some (hr_Route RoutingExample.route) /\
  serve "eve" OverlayExample.service2 = Some (hr_Route RoutingExample.route).
Proof. vm_compute. done. Qed.
