(* ===== verification/Controller.v ===== *)
(** * The reconciler (internal/controller/dynamicenv_controller.go)

    One reconcile loop: fetch the environment, delete what it made when it is
    being deleted, otherwise remove what left its spec, run the handlers of
    every subset and consumer, collect their statuses and record the global
    state. *)

From stdpp Require Import base gmap sets list strings sorting.
From S2P Require Import Prelude GoStrings Sha256 K8s Types Helpers Watches Client FakeCluster StatusManager Model VirtualServiceHandler VirtualServiceRouting DeploymentHandler DestinationRuleHandler CleanupManager.

(** [k8s.io/apimachinery/pkg/labels]: selectors made from label sets. *)
Class LabelSets := {
  Selector : Type;
  AsValidatedSelector : gomap string -> result error Selector;
  Selector_Matches : Selector -> gomap string -> bool;
  Set_String : gomap string -> string;     (* [%v] of a label set *)
}.

Record DynamicEnvReconciler := mkReconciler {
  r_VersionLabel : string;
  r_DefaultVersion : string;
  r_LabelsToRemove : list string;
}.

Record ReconcileLoopStatus := mkRLS {
  rls_returnError : NonMaskingError;
  rls_degradedExists : bool;
  rls_subsetMessages : gmap string SubsetMessages;
  rls_consumerMessages : gmap string (list string);
  rls_nonReadyCS : gmap string bool;
}.
Definition zero_RLS : ReconcileLoopStatus := mkRLS None false ∅ ∅ ∅.
Record processStatusesResponse := mkPSR {
  psr_msgs : gmap string (list string);
  psr_degraded : bool;
  psr_nonReady : gmap string bool;
}.

(** Assignments to the fields. *)
Definition rls_force (e : error) (rls : ReconcileLoopStatus) : ReconcileLoopStatus :=
  mkRLS (ForceError (rls_returnError rls) (Some e)) (rls_degradedExists rls) (rls_subsetMessages rls)
    (rls_consumerMessages rls) (rls_nonReadyCS rls).
Definition rls_set_if (e : option error) (rls : ReconcileLoopStatus) : ReconcileLoopStatus :=
  mkRLS (SetIfNotMasking (rls_returnError rls) e) (rls_degradedExists rls) (rls_subsetMessages rls)
    (rls_consumerMessages rls) (rls_nonReadyCS rls).
Definition rls_non_ready (subset : string) (rls : ReconcileLoopStatus) : ReconcileLoopStatus :=
  mkRLS (rls_returnError rls) (rls_degradedExists rls) (rls_subsetMessages rls)
    (rls_consumerMessages rls) (<[subset := true]> (rls_nonReadyCS rls)).
Definition rls_degraded (rls : ReconcileLoopStatus) : ReconcileLoopStatus :=
  mkRLS (rls_returnError rls) true (rls_subsetMessages rls) (rls_consumerMessages rls) (rls_nonReadyCS rls).
Definition rls_message (subset : string) (add : SubsetMessages -> SubsetMessages) (rls : ReconcileLoopStatus) :
    ReconcileLoopStatus :=
  mkRLS (rls_returnError rls) (rls_degradedExists rls)
    (<[subset := add (default zero_SubsetMessages (rls_subsetMessages rls !! subset))]> (rls_subsetMessages rls))
    (rls_consumerMessages rls) (rls_nonReadyCS rls).
Definition addDeploymentMessage (subset : string) (tpe : SubsetOrConsumer) (msg : string)
    (rls : ReconcileLoopStatus) : ReconcileLoopStatus :=
  match tpe with
  | CONSUMER =>
      mkRLS (rls_returnError rls) (rls_degradedExists rls) (rls_subsetMessages rls)
        (<[subset := default [] (rls_consumerMessages rls !! subset) ++ [msg]]> (rls_consumerMessages rls))
        (rls_nonReadyCS rls)
  | SUBSET => rls_message subset (fun m => AppendDeploymentMsg m msg) rls
  end.

Definition mergeSubsetsAndConsumers (subsets consumers : list Subset) : list SubsetType :=
  map (mkSubsetType SUBSET) subsets ++ map (mkSubsetType CONSUMER) consumers.
Definition markedForDeletion (de : DynamicEnv) : bool := bool_decide (is_Some (de_DeletionTimestamp de)).

(** What is recorded of the statuses of one handler. *)
Definition psr_msg (subset msg : string) (p : processStatusesResponse) : processStatusesResponse :=
  mkPSR (<[subset := default [] (psr_msgs p !! subset) ++ [msg]]> (psr_msgs p)) (psr_degraded p) (psr_nonReady p).
Definition psr_non_ready (subset : string) (p : processStatusesResponse) : processStatusesResponse :=
  mkPSR (psr_msgs p) (psr_degraded p) (<[subset := true]> (psr_nonReady p)).
Definition psr_set_degraded (p : processStatusesResponse) : processStatusesResponse :=
  mkPSR (psr_msgs p) true (psr_nonReady p).

Definition globalState_of (nonReadyExists : bool) (rls : ReconcileLoopStatus) : GlobalReadyStatus :=
  let globalState := if negb nonReadyExists then Ready else Processing in
  let globalState := if rls_degradedExists rls then Degraded else globalState in
  if negb (NonMaskingError_IsNil (rls_returnError rls)) then Degraded else globalState.

Section reconciler.
Context {W : Type} `{Client W} `{MapOrder} `{RoutePrinter} `{SubsetHash} `{LabelSets}.
Implicit Types (r : DynamicEnvReconciler).

Definition ensureFinalizers : M W (option error) :=
  de ← get_de;
  if decide (length (de_Finalizers de) = 0) then
    _ ← put_de (set_Finalizers [DeleteDeployments; DeleteDestinationRules; CleanupVirtualServices] de);
    err ← update_de;
    mret (Wrapf "could not update finalizers" <$> err)
  else mret None.

(** ** Service hosts *)
Fixpoint matching_services (services : list Service) (ls : gomap string) : result error (list Service) :=
  match services with
  | [] => Ok []
  | service :: rest =>
      match AsValidatedSelector (sv_Selector service) with
      | Err err => Err (Wrapf ("error converting service selector (from: " +:+ Set_String (sv_Selector service)
                               +:+ ")") err)
      | Ok selector =>
          match matching_services rest ls with
          | Err err => Err err
          | Ok matching => if Selector_Matches selector ls then Ok (service :: matching) else Ok matching
          end
      end
  end.
Definition locateMatchingServiceHostnames (namespace : string) (ls : gomap string) :
    M W (result error (list string)) :=
  res ← call (ListServices namespace);
  match res with
  | Err err => mret (Err (Wrapf ("error fetching services list for namespace " +:+ namespace) err))
  | Ok services =>
      match matching_services services ls with
      | Err err => mret (Err err)
      | Ok [] => mret (Err (ErrorS ("couldn't find service with matching labels: (" +:+ Set_String ls
                                    +:+ ") in namespace: " +:+ namespace)))
      | Ok matchingServices => mret (Ok (sort_Strings (map sv_Name matchingServices)))
      end
  end.

(** ** The subsets and consumers *)

(** The part of the loop body for the destination rules and virtual services. *)
Definition process_routing r (subsetData : DynamicEnvReconcileData) (serviceHosts : list string)
    (rls : ReconcileLoopStatus) : M W (ReconcileLoopStatus * list (MRHandler W)) :=
  let s := rd_Subset subsetData in
  let subsetName := MKSubsetName s in
  let uniqueName := MkSubsetUniqueName (s_Name s) (UniqueDynamicEnvName (rd_Identifier subsetData)) in
  let defaultVersionForSubset := if decide (s_DefaultVersion s <> "") then s_DefaultVersion s
                                 else r_DefaultVersion r in
  res ← DestinationRuleHandler_Handle
          (NewDestinationRuleHandler subsetData (r_VersionLabel r) defaultVersionForSubset serviceHosts);
  let '(drh, err) := res in
  match err with
  | Some err =>
      mret (rls_message subsetName (fun m => AppendDestinationRuleMsg m (Error err)) (rls_force err rls),
            [DestinationRuleHandler_MR drh])
  | None =>
      res ← VirtualServiceHandler_Handle (NewVirtualServiceHandler subsetData serviceHosts defaultVersionForSubset);
      let '(vsh, err) := res in
      let rls :=
        match err with
        | Some err =>
            let msg := "error updating virtual service for subset (" +:+ uniqueName +:+ ")" in
            rls_message subsetName (fun m => AppendVirtualServiceMsg m (msg +:+ ": " +:+ Error err))
              (rls_force (Wrapf msg err) rls)
        | None => rls
        end in
      let commonHostExists := CommonValueExists (DestinationRuleHandler_GetHosts drh)
                                (VirtualServiceHandler_GetHosts vsh) in
      let rls :=
        if negb commonHostExists then
          rls_message subsetName (fun m => AppendGlobalMsg m
              "Couldn't find common active service hostname across DestinationRules and VirtualServices")
            (rls_non_ready subsetName (rls_degraded rls))
        else rls in
      mret (rls, [DestinationRuleHandler_MR drh; VirtualServiceHandler_MR vsh])
  end.

(** One turn of the loop: the new loop status and the handlers appended. *)
Definition process_one r (ident : NamespacedName) (st : SubsetType) (rls : ReconcileLoopStatus) :
    M W (ReconcileLoopStatus * list (SRHandler W) * list (MRHandler W)) :=
  let s := stt_Subset st in
  let subsetName := MKSubsetName s in
  res ← call (GetDeployment (mkNN (s_Namespace s) (s_Name s)));
  match res with
  | Err err =>
      let msg := "couldn't find the deployment we need to override (name: " +:+ s_Name s +:+ ", ns: "
                 +:+ s_Namespace s +:+ ")" in
      mret (rls_non_ready subsetName
              (addDeploymentMessage subsetName (stt_Type st) (msg +:+ ", " +:+ Error err)
                 (rls_force (Wrapf msg err) rls)), [], [])
  | Ok baseDeployment =>
      de ← get_de;
      let subsetData := mkReconcileData ident baseDeployment s (default [] (spec_IstioMatches (de_Spec de))) in
      res ← DeploymentHandler_Handle
              (NewDeploymentHandler subsetData (stt_Type st) (r_LabelsToRemove r) (r_VersionLabel r));
      let '(dh, err) := res in
      match err with
      | Some err =>
          mret (addDeploymentMessage subsetName (stt_Type st) (Error err) (rls_force err rls),
                [DeploymentHandler_SR dh], [])
      | None =>
          match stt_Type st with
          | CONSUMER => mret (rls, [DeploymentHandler_SR dh], [])
          | SUBSET =>
              hosts ← locateMatchingServiceHostnames (s_Namespace s)
                        (pt_Labels (ds_Template (dp_Spec baseDeployment)));
              match hosts with
              | Err err =>
                  let msg := "locating service hostname for deployment '" +:+ dp_Name baseDeployment +:+ "'" in
                  mret (rls_message subsetName (fun m => AppendGlobalMsg m (msg +:+ ": " +:+ Error err))
                          (rls_force (Wrapf msg err) rls), [DeploymentHandler_SR dh], [])
              | Ok serviceHosts =>
                  res ← process_routing r subsetData serviceHosts rls;
                  mret (res.1, [DeploymentHandler_SR dh], res.2)
              end
          end
      end
  end.
Fixpoint process_each r (ident : NamespacedName) (sts : list SubsetType) (rls : ReconcileLoopStatus)
    (deploymentHandlers : list (SRHandler W)) (mrHandlers : list (MRHandler W)) :
    M W (ReconcileLoopStatus * list (SRHandler W) * list (MRHandler W)) :=
  match sts with
  | [] => mret (rls, deploymentHandlers, mrHandlers)
  | st :: rest =>
      res ← process_one r ident st rls;
      let '(rls, dhs, mhs) := res in
      process_each r ident rest rls (deploymentHandlers ++ dhs) (mrHandlers ++ mhs)
  end.
Definition processSubsetsAndConsumers r : M W (ReconcileLoopStatus * list (SRHandler W) * list (MRHandler W)) :=
  de ← get_de;
  process_each r (de_nn de) (mergeSubsetsAndConsumers (spec_Subsets (de_Spec de)) (spec_Consumers (de_Spec de)))
    zero_RLS [] [].

(** ** The statuses *)
Fixpoint process_sr (srhs : list (SRHandler W)) (response : processStatusesResponse) (returnError : NonMaskingError) :
    M W (processStatusesResponse * NonMaskingError) :=
  match srhs with
  | [] => mret (response, returnError)
  | handler :: rest =>
      let subset := sr_GetSubset handler in
      res ← sr_GetStatus handler;
      match res with
      | Err err =>
          process_sr rest (psr_msg subset ("error fetching status: " +:+ Error err) response)
            (SetIfNotMasking returnError (Some err))
      | Ok newStatus =>
          err ← sr_ApplyStatus handler newStatus;
          let returnError := match err with Some err => SetIfNotMasking returnError (Some err) | None => returnError end in
          let response := match err with
                          | Some err => psr_msg subset ("error updating status: " +:+ Error err) response
                          | None => response
                          end in
          let response := if decide (rs_Status newStatus <> Running) then psr_non_ready subset response else response in
          let response := if IsFailedStatus (rs_Status newStatus) then psr_set_degraded response else response in
          process_sr rest response returnError
      end
  end.
Fixpoint count_failed (subset : string) (statuses : list ResourceStatus) (response : processStatusesResponse) :
    processStatusesResponse :=
  match statuses with
  | [] => response
  | s :: rest =>
      count_failed subset rest
        (if IsFailedStatus (rs_Status s) then psr_set_degraded (psr_non_ready subset response) else response)
  end.
Fixpoint process_mr (mrhs : list (MRHandler W)) (response : processStatusesResponse) (returnError : NonMaskingError) :
    M W (processStatusesResponse * NonMaskingError) :=
  match mrhs with
  | [] => mret (response, returnError)
  | handler :: rest =>
      let subset := mr_GetSubset handler in
      res ← mr_GetStatus handler;
      match res with
      | Err err =>
          process_mr rest (psr_msg subset ("error fetching status: " +:+ Error err) response)
            (SetIfNotMasking returnError (Some err))
      | Ok statuses =>
          err ← mr_ApplyStatus handler statuses;
          let returnError := match err with Some err => SetIfNotMasking returnError (Some err) | None => returnError end in
          let response := match err with
                          | Some err => psr_msg subset ("error updating status: " +:+ Error err) response
                          | None => response
                          end in
          process_mr rest (count_failed subset statuses response) returnError
      end
  end.
Definition processHandlersStatus (srhs : list (SRHandler W)) (mrhs : list (MRHandler W)) :
    M W (processStatusesResponse * option error) :=
  res ← process_sr srhs (mkPSR ∅ false ∅) None;
  let '(response, returnError) := res in
  res ← process_mr mrhs response returnError;
  let '(response, returnError) := res in
  mret (response, NonMaskingError_Get returnError).

(** ** Reconcile *)
Definition cleanup_removed (sts : list SubsetType) : M W (bool * option error) :=
  toRemove ← CheckForRemovedSubsetsAndConsumers sts;
  if decide (0 < size toRemove) then RemoveSubsetsAndConsumers toRemove else mret (false, None).

(** From the statuses to the answer. *)
Definition conclude (total : nat) (rls : ReconcileLoopStatus) (response : processStatusesResponse)
    (cleanupInProgress : bool) : M W (Result * option error) :=
  nonReady ← range (psr_nonReady response);
  let nonReadyCS := foldl (fun m '(k, v) => <[k := v]> m) (rls_nonReadyCS rls) nonReady in
  let rls := mkRLS (rls_returnError rls) (rls_degradedExists rls) (rls_subsetMessages rls)
               (rls_consumerMessages rls) nonReadyCS in
  let nonReadyExists := bool_decide (0 < size (psr_nonReady response)) || cleanupInProgress in
  let globalState := globalState_of nonReadyExists rls in
  _ ← SyncSubsetMessagesToStatus (rls_subsetMessages rls);
  _ ← SyncConsumerMessagesToStatus (rls_consumerMessages rls);
  err ← SetGlobalState globalState (Z.of_nat total) (Z.of_nat (size (rls_nonReadyCS rls)));
  let rls := match err with Some err => rls_set_if (Some err) rls | None => rls end in
  if nonReadyExists && NonMaskingError_IsNil (rls_returnError rls) then mret (mkResult true 0, None)
  else if IsConflict (NonMaskingError_Get (rls_returnError rls)) then mret (mkResult true 0, None)
  else mret (zero_Result, NonMaskingError_Get (rls_returnError rls)).

(** An environment that is not being deleted, its finalizers in place. *)
Definition reconcile_live r : M W (Result * option error) :=
  de ← get_de;
  let subsetsAndConsumers := mergeSubsetsAndConsumers (spec_Subsets (de_Spec de)) (spec_Consumers (de_Spec de)) in
  res ← cleanup_removed subsetsAndConsumers;
  let '(cleanupInProgress, cleanupError) := res in
  res ← processSubsetsAndConsumers r;
  let '(rls, deploymentHandlers, mrHandlers) := res in
  let rls := match cleanupError with Some err => rls_set_if (Some err) rls | None => rls end in
  res ← processHandlersStatus deploymentHandlers mrHandlers;
  let '(response, err) := res in
  let rls := match err with Some err => rls_set_if (Some err) rls | None => rls end in
  conclude (length subsetsAndConsumers) rls response cleanupInProgress.

Definition Reconcile r (req : NamespacedName) : M W (Result * option error) :=
  res ← call (GetDynamicEnv req);
  match res with
  | Err err =>
      if IsNotFound err then mret (zero_Result, None)
      else mret (zero_Result, Some (Wrapf "failed to fetch dynamic environment" err))
  | Ok dynamicEnv =>
      _ ← put_de dynamicEnv;
      if markedForDeletion dynamicEnv then DeleteAllResources
      else
        err ← ensureFinalizers;
        match err with
        | Some err => mret (zero_Result, Some err)
        | None => reconcile_live r
        end
  end.
End reconciler.

(** ** Service hosts *)

(** What a selector made from a label set means: every entry must be there. *)
Class LabelSetLaws `{LabelSets} : Prop := selector_matches : forall sel s ls,
  AsValidatedSelector sel = Ok s ->
  Selector_Matches s ls = true <-> map_Forall (fun k v => mread ls !! k = Some v) (mread sel).

Definition selects (ls : gomap string) (service : Service) : Prop :=
  map_Forall (fun k v => mread ls !! k = Some v) (mread (sv_Selector service)).
#[export] Instance selects_dec ls service : Decision (selects ls service).
Proof. unfold selects. apply _. Defined.

Lemma matching_services_spec `{LabelSetLaws} services ls matching :
  matching_services services ls = Ok matching -> matching = filter (selects ls) services.
Proof.
  revert matching. induction services as [|service services IH]; intros matching; simpl; [by intros [= <-]|].
  destruct (AsValidatedSelector (sv_Selector service)) as [s|] eqn:Es; [|done].
  destruct (matching_services services ls) as [m|]; [|done]. specialize (IH m eq_refl) as ->.
  pose proof (selector_matches _ s ls Es) as Hm. rewrite filter_cons. unfold selects at 2.
  destruct (Selector_Matches s ls); intros [= <-].
  - rewrite decide_True; [done|]. by apply Hm.
  - rewrite decide_False; [done|]. intros Hs%Hm. done.
Qed.
Lemma matching_services_sub `{LabelSets} services ls matching :
  matching_services services ls = Ok matching -> matching `sublist_of` services.
Proof.
  revert matching. induction services as [|service services IH]; intros matching; simpl; [by intros [= <-]|].
  destruct (AsValidatedSelector (sv_Selector service)) as [s|]; [|done].
  destruct (matching_services services ls) as [m|]; [|done]. specialize (IH m eq_refl).
  destruct (Selector_Matches s ls); intros [= <-]; by constructor.
Qed.
Lemma wp_locateMatchingServiceHostnames {W} `{Client W} `{LabelSetLaws} namespace ls (c : ctx W) :
  wp (locateMatchingServiceHostnames namespace ls) (fun res c' =>
    exists r, cx_de c' = cx_de c /\ cx_log c' = cx_log c ++ [Event (ListServices namespace) r] /\
      forall hosts, res = Ok hosts -> exists services, r = Ok services /\
        hosts ≡ₚ map sv_Name (filter (selects ls) services) /\ Sorted String.le hosts /\ hosts <> []) c.
Proof.
  unfold locateMatchingServiceHostnames. apply wp_bind, wp_call. intros [services|e] w _.
  2: { apply wp_ret. by exists (Err e). }
  destruct (matching_services services ls) as [matching|e] eqn:Em.
  2: { apply wp_ret. by exists (Ok services). }
  apply matching_services_spec in Em. destruct matching as [|m matching].
  { apply wp_ret. by exists (Ok services). }
  apply wp_ret. exists (Ok services). split; [done|]. split; [done|]. intros hosts [= <-].
  exists services. split; [done|]. rewrite <- Em. split; [apply sort_Strings_Permutation|].
  split; [apply sort_Strings_Sorted|]. intros Hn.
  pose proof (sort_Strings_Permutation (map sv_Name (m :: matching))) as Hp. simpl in Hp. rewrite Hn in Hp.
  by apply Permutation_nil_l in Hp.
Qed.

(** C27.  The service hosts of a subset are the right ones: with one call and no change,
    [locateMatchingServiceHostnames] answers, when it succeeds, with the names of
    exactly those services of the namespace whose selector the pod labels
    satisfy, sorted, and at least one. *)
Theorem locateMatchingServiceHostnames_spec {W} `{Client W} `{LabelSets} (namespace : string)
    (ls : gomap string) (c : ctx W) (Hlaws : LabelSetLaws) :
  wp (locateMatchingServiceHostnames namespace ls) (fun res c' =>
      exists r, cx_de c' = cx_de c /\ cx_log c' = cx_log c ++ [Event (ListServices namespace) r] /\
        forall hosts, res = Ok hosts -> exists services, r = Ok services /\
          hosts ≡ₚ map sv_Name (filter (selects ls) services) /\ Sorted String.le hosts /\ hosts <> []) c.
Proof. apply wp_locateMatchingServiceHostnames. Qed.

Module ReconcileExample.
(** Label sets as the library implements them, without its validation. *)
Definition labels : LabelSets :=
  {| Selector := gmap string string;
     AsValidatedSelector := fun s => Ok (mread s);
     Selector_Matches := fun s ls => bool_decide (map_Forall (fun k v => mread ls !! k = Some v) s);
     Set_String := fun _ => "map" |}.
Lemma labels_laws : LabelSetLaws (H:=labels).
Proof. intros sel s ls [= <-]. simpl. apply bool_decide_eq_true. Qed.
Definition services : list Service :=
  [mkService "reviews-b" "default" (Some {[ "app" := "reviews" ]});
   mkService "ratings" "default" (Some {[ "app" := "ratings" ]});
   mkService "reviews-a" "default" (Some {[ "app" := "reviews" ]})].
Definition k : cluster := mkCluster ∅ ∅ ∅ services ∅ 0 0 ∅.
End ReconcileExample.

Lemma locateMatchingServiceHostnames_spec_witness :
  let ls : gomap string := Some {[ "app" := "reviews" ]} in
  let c := start ReconcileExample.k example_de in
  wp (locateMatchingServiceHostnames (H4:=ReconcileExample.labels) "default" ls) (fun res c' =>
      exists r, cx_de c' = cx_de c /\ cx_log c' = cx_log c ++ [Event (ListServices "default") r] /\
        forall hosts, res = Ok hosts -> exists services, r = Ok services /\
          hosts ≡ₚ map sv_Name (filter (selects ls) services) /\ Sorted String.le hosts /\ hosts <> []) c.
Proof.
  intros ls c. apply (locateMatchingServiceHostnames_spec (H1:=ReconcileExample.labels) "default" ls c).
  exact ReconcileExample.labels_laws.
Defined.

(** A service without a selector is taken for a host of every subset of its
    namespace: when the lookup succeeds and the namespace lists such a service,
    its name is among the hosts, whatever the pod labels are. *)
Theorem selectorless_service_is_host {W} `{Client W} `{LabelSets} (namespace : string)
    (ls : gomap string) (c : ctx W) (Hlaws : LabelSetLaws) :
  wp (locateMatchingServiceHostnames namespace ls) (fun res c' => forall hosts, res = Ok hosts ->
      exists services, cx_log c' = cx_log c ++ [Event (ListServices namespace) (Ok services)] /\
        forall service, service ∈ services -> sv_Selector service = None -> sv_Name service ∈ hosts) c.
Proof.
  eapply wp_mono; [|apply wp_locateMatchingServiceHostnames].
  intros res c' (r & _ & Hlog & Hr) hosts Hres. destruct (Hr hosts Hres) as (services & -> & Hp & _).
  exists services. split; [done|]. intros service Hin Hnone.
  rewrite Hp. apply list_elem_of_fmap. exists service. split; [done|].
  apply list_elem_of_filter. split; [|done]. unfold selects. rewrite Hnone. apply map_Forall_empty.
Qed.
Lemma selectorless_service_is_host_witness :
  let ls : gomap string := Some {[ "app" := "reviews" ]} in
  let c := start (mkCluster ∅ ∅ ∅ (mkService "external" "default" None :: ReconcileExample.services) ∅ 0 0 ∅)
             example_de in
  wp (locateMatchingServiceHostnames (H4:=ReconcileExample.labels) "default" ls)
    (fun res c' => forall hosts, res = Ok hosts ->
      exists services, cx_log c' = cx_log c ++ [Event (ListServices "default") (Ok services)] /\
        forall service, service ∈ services -> sv_Selector service = None -> sv_Name service ∈ hosts) c.
Proof.
  intros ls c. apply (selectorless_service_is_host (H1:=ReconcileExample.labels) "default" ls c).
  exact ReconcileExample.labels_laws.
Defined.

(** ** Code that keeps the spec *)
Section keeps_spec.
Context {W : Type} `{Client W} `{!StatusEcho W} `{MapOrder}.

Definition keeps_spec {A} (m : M W A) : Prop := forall c,
  pwp m (fun _ c' => de_Spec (cx_de c') = de_Spec (cx_de c)) c.
Lemma keeps_spec_bind {A B} (m : M W A) (f : A -> M W B) :
  keeps_spec m -> (forall a, keeps_spec (f a)) -> keeps_spec (m ≫= f).
Proof.
  intros Hm Hf c. apply pwp_bind. eapply pwp_mono; [|apply Hm]. intros a c' Hc.
  eapply pwp_mono; [|apply Hf]. intros b c'' Hc'. congruence.
Qed.
Lemma keeps_spec_ret {A} (a : A) : keeps_spec (mret a).
Proof. done. Qed.
Lemma keeps_spec_get_de {B} (f : DynamicEnv -> M W B) :
  (forall c, pwp (f (cx_de c)) (fun _ c' => de_Spec (cx_de c') = de_Spec (cx_de c)) c) ->
  keeps_spec (get_de ≫= f).
Proof. intros Hf c. by apply pwp_bind, Hf. Qed.
Lemma keeps_spec_extends {A} (m : M W A) (Q : ctx W -> A -> list event -> Prop) :
  (forall c, extends m (Q c) c) -> keeps_spec m.
Proof. intros Hm c. apply wp_pwp. eapply wp_mono; [|apply Hm]. by intros a c' [-> _]. Qed.
Lemma keeps_spec_update_status : keeps_spec update_status.
Proof.
  intros c. unfold update_status, pwp, mbind, M_bind, get_de, call, put_de, mret, M_ret.
  destruct (exec _ _) as [[de'|e] w] eqn:E; [|done]. simpl. by apply status_echo in E as (_ & ? & _).
Qed.

Lemma keeps_spec_removeConsumer name : keeps_spec (removeConsumer name).
Proof.
  unfold removeConsumer. apply keeps_spec_bind; [done|]. intros de.
  destruct (mlookup _ _) as [st|]; [|apply keeps_spec_ret].
  apply keeps_spec_bind; [eapply (keeps_spec_extends _ (fun _ => _)); intros c; apply extends_deleteDeployment|].
  intros [found [e|]]; [apply keeps_spec_ret|]. destruct found.
  - apply keeps_spec_bind; [done|]. intros de'. cbv zeta. apply keeps_spec_bind.
    + intros c. unfold write_ConsumersStatus, pwp, mbind, M_bind, get_de, lift. by destruct (mset _ _ _).
    + intros _. apply keeps_spec_bind; [apply keeps_spec_update_status|]. intros err. apply keeps_spec_ret.
  - apply keeps_spec_get_de. intros c. apply pwp_bind. unfold pwp at 1, put_de.
    eapply pwp_mono; [|apply (keeps_spec_bind update_status (fun err => mret (false, err))
      keeps_spec_update_status (fun _ => keeps_spec_ret _))]. by intros a c' ->.
Qed.
Lemma keeps_spec_removeSubset name : keeps_spec (removeSubset name).
Proof.
  unfold removeSubset. apply keeps_spec_bind; [done|]. intros de. apply keeps_spec_bind.
  { destruct (mlookup _ _) as [st|]; [|apply keeps_spec_ret].
    eapply (keeps_spec_extends _ (fun c res l => res = Ok false -> subset_gone (cx_de c) st l)).
    intros c. apply extends_remove_resources. }
  intros [[]|e]; [| |apply keeps_spec_ret].
  - apply keeps_spec_bind; [done|]. intros de'. cbv zeta. apply keeps_spec_bind.
    + intros c. unfold write_SubsetsStatus, pwp, mbind, M_bind, get_de, lift. by destruct (mset _ _ _).
    + intros _. apply keeps_spec_bind; [apply keeps_spec_update_status|]. intros err. apply keeps_spec_ret.
  - apply keeps_spec_get_de. intros c. apply pwp_bind. unfold pwp at 1, put_de.
    eapply pwp_mono; [|apply (keeps_spec_bind update_status (fun err => mret (false, err))
      keeps_spec_update_status (fun _ => keeps_spec_ret _))]. by intros a c' ->.
Qed.
Lemma keeps_spec_cleanup_removed sts : keeps_spec (cleanup_removed sts).
Proof.
  unfold cleanup_removed. apply keeps_spec_bind.
  { intros c. unfold CheckForRemovedSubsetsAndConsumers. done. }
  intros toRemove. case_decide; [|apply keeps_spec_ret]. unfold RemoveSubsetsAndConsumers.
  apply keeps_spec_bind; [done|]. intros items. generalize false.
  induction items as [|[name typ] items IH]; intros b; simpl; [apply keeps_spec_ret|].
  apply keeps_spec_bind.
  { case_bool_decide; [apply keeps_spec_removeConsumer|apply keeps_spec_removeSubset]. }
  intros [processing [e|]]; [apply keeps_spec_ret|apply IH].
Qed.
End keeps_spec.

(** ** The loop status *)
Definition keys_in {V} (names : list string) (m : gmap string V) : Prop :=
  forall k, is_Some (m !! k) -> k ∈ names.
Lemma keys_in_insert {V} names (m : gmap string V) k v : k ∈ names -> keys_in names m -> keys_in names (<[k:=v]> m).
Proof. intros Hk Hm j [->|[_ Hj]]%lookup_insert_is_Some; [done|by apply Hm]. Qed.
Lemma keys_in_size {V} names (m : gmap string V) : keys_in names m -> size m <= length names.
Proof.
  intros Hm. rewrite <- length_map_to_list, <- (length_fmap fst). apply submseteq_length, NoDup_submseteq.
  - apply NoDup_fst_map_to_list.
  - intros k Hk%elem_of_map_to_list_keys. by apply Hm.
Qed.

(** The names recorded as not ready are those of the spec, and there is none as
    long as there is no error and nothing is degraded. *)
Definition rls_ok (names : list string) (rls : ReconcileLoopStatus) : Prop :=
  keys_in names (rls_nonReadyCS rls) /\
  (rls_returnError rls = None -> rls_degradedExists rls = false -> rls_nonReadyCS rls = ∅).
Lemma rls_ok_zero names : rls_ok names zero_RLS.
Proof. split; [|done]. intros k [v Hv]. simpl in Hv. by rewrite lookup_empty in Hv. Qed.
Lemma rls_ok_error names rls e : keys_in names (rls_nonReadyCS rls) -> rls_ok names (rls_force e rls).
Proof. intros Hk. by split. Qed.
Lemma rls_ok_message names k add rls : rls_ok names (rls_message k add rls) <-> rls_ok names rls.
Proof. done. Qed.
Lemma rls_ok_deployment_message names k tpe msg rls :
  rls_ok names (addDeploymentMessage k tpe msg rls) <-> rls_ok names rls.
Proof. by destruct tpe. Qed.
Lemma rls_ok_set_if names rls e : rls_ok names rls -> rls_ok names (rls_set_if e rls).
Proof. intros [Hk He]. split; [done|]. simpl. destruct (rls_returnError rls); [done|]. intros _. by apply He. Qed.

Section loop.
Context {W : Type} `{Client W} `{MapOrder} `{RoutePrinter} `{SubsetHash} `{LabelSets}.
Implicit Types (r : DynamicEnvReconciler).

(** The handlers keep the name of their subset. *)
Lemma pwp_DeploymentHandler_name h (c : ctx W) :
  pwp (DeploymentHandler_Handle h) (fun res _ => dh_SubsetName res.1 = dh_SubsetName h) c.
Proof.
  unfold DeploymentHandler_Handle. apply pwp_bind, pwp_any. intros [d|e] c1.
  - unfold UpdateIfRequired. apply pwp_bind, pwp_any. intros existing c2.
    destruct (Hash _); [|done]. case_decide; [|done]. cbv zeta.
    apply pwp_bind, pwp_any. intros [dep|e] c3; [|done]. apply pwp_bind, pwp_any. intros [e|] c4; [done|].
    apply pwp_bind, pwp_any. intros [e|] c5; [done|]. apply pwp_bind, pwp_any. intros err c6. done.
  - destruct (IsNotFound e); [|done]. apply pwp_bind, pwp_any. by intros err c2.
Qed.
Lemma pwp_VirtualServiceHandler_name h (c : ctx W) :
  pwp (VirtualServiceHandler_Handle h) (fun res _ => vh_SubsetName res.1 = vh_SubsetName h) c.
Proof.
  unfold VirtualServiceHandler_Handle. cbv zeta. apply pwp_bind.
  assert (Hh : forall hosts h c, pwp (VirtualServiceHandler.handle_hosts h hosts)
                 (fun res (_ : ctx W) => vh_SubsetName res.1 = vh_SubsetName h) c).
  { clear. induction hosts as [|sh hosts IH]; intros h c; simpl; [done|].
    apply pwp_bind, pwp_any. intros [lc [e|]] c1; [done|]. apply pwp_bind, pwp_any. intros [st b] c2.
    cbv zeta. eapply pwp_mono; [|apply IH]. intros res c3 ->. by destruct b. }
  eapply pwp_mono; [|apply Hh]. intros [h' [e|]] c1 Hn; simpl in Hn; [done|]. by case_decide.
Qed.
Lemma pwp_DestinationRuleHandler_name h (c : ctx W) :
  pwp (DestinationRuleHandler_Handle h) (fun res _ => drh_SubsetName res.1 = drh_SubsetName h) c.
Proof.
  unfold DestinationRuleHandler_Handle. apply pwp_bind. eapply pwp_mono; [|apply wp_pwp, wp_handle_rules].
  intros [h' err] c1 [Hc _]. unfold same_config in Hc. simpl in Hc.
  assert (drh_SubsetName h' = drh_SubsetName h) by (by injection Hc).
  destruct err; [done|]. by case_decide.
Qed.

Definition srs_in (names : list string) (hs : list (SRHandler W)) : Prop := Forall (fun h => sr_GetSubset h ∈ names) hs.
Definition mrs_in (names : list string) (hs : list (MRHandler W)) : Prop := Forall (fun h => mr_GetSubset h ∈ names) hs.

Lemma pwp_process_routing r data hosts rls names (c : ctx W) :
  rls_ok names rls -> MKSubsetName (rd_Subset data) ∈ names ->
  pwp (process_routing r data hosts rls) (fun res _ => rls_ok names res.1 /\ mrs_in names res.2) c.
Proof.
  intros Hok Hn. unfold process_routing. cbv zeta. apply pwp_bind.
  eapply pwp_mono; [|apply pwp_DestinationRuleHandler_name]. intros [drh [e|]] c1 Hd; simpl in Hd.
  { apply pwp_ret. simpl. split; [apply rls_ok_message, rls_ok_error, Hok|]. constructor; [|constructor].
    simpl. by rewrite Hd. }
  apply pwp_bind. eapply pwp_mono; [|apply pwp_VirtualServiceHandler_name]. intros [vsh err] c2 Hv; simpl in Hv.
  apply pwp_ret. simpl. split; [|repeat constructor; simpl; [by rewrite Hd|by rewrite Hv]].
  set (rls1 := match err with Some _ => _ | None => rls end).
  assert (Hok1 : rls_ok names rls1).
  { unfold rls1. destruct err; [|done]. apply rls_ok_message, rls_ok_error, Hok. }
  destruct (negb _); [|done]. split; [|done]. simpl. apply keys_in_insert; [done|apply Hok1].
Qed.
Lemma pwp_process_one r ident st rls names (c : ctx W) :
  rls_ok names rls -> MKSubsetName (stt_Subset st) ∈ names ->
  pwp (process_one r ident st rls)
    (fun '(rls', dhs, mhs) _ => rls_ok names rls' /\ srs_in names dhs /\ mrs_in names mhs) c.
Proof.
  intros Hok Hn. unfold process_one. cbv zeta. apply pwp_bind, pwp_any. intros [base|e] c1.
  2: { apply pwp_ret. split; [|split; constructor]. destruct (stt_Type st); (split; [|done]);
         (apply keys_in_insert; [done|apply Hok]). }
  apply pwp_bind. unfold pwp at 1, get_de. apply pwp_bind.
  eapply pwp_mono; [|apply pwp_DeploymentHandler_name]. intros [dh err] c2 Hd; simpl in Hd.
  assert (Hsr : srs_in names [DeploymentHandler_SR dh]).
  { constructor; [|constructor]. simpl. by rewrite Hd. }
  destruct err as [e|].
  { apply pwp_ret. split; [|split; [done|constructor]]. apply rls_ok_deployment_message, rls_ok_error, Hok. }
  destruct (stt_Type st); [|apply pwp_ret; split; [done|split; [done|constructor]]].
  apply pwp_bind, pwp_any. intros [hosts|e] c3.
  - apply pwp_bind. eapply pwp_mono; [|by apply (pwp_process_routing _ _ _ _ names)].
    intros [rls' mhs] c4 [Hr Hm]. by apply pwp_ret.
  - apply pwp_ret. split; [|split; [done|constructor]]. apply rls_ok_message, rls_ok_error, Hok.
Qed.
Lemma pwp_process_each r ident sts rls dhs mhs names (c : ctx W) :
  rls_ok names rls -> srs_in names dhs -> mrs_in names mhs ->
  Forall (fun st => MKSubsetName (stt_Subset st) ∈ names) sts ->
  pwp (process_each r ident sts rls dhs mhs)
    (fun '(rls', dhs', mhs') _ => rls_ok names rls' /\ srs_in names dhs' /\ mrs_in names mhs') c.
Proof.
  intros Hok Hd Hm Hsts. revert rls dhs mhs c Hok Hd Hm.
  induction Hsts as [|st sts Hst _ IH]; intros rls dhs mhs c Hok Hd Hm; simpl; [done|].
  apply pwp_bind. eapply pwp_mono; [|by apply (pwp_process_one _ _ _ _ names)].
  intros [[rls' dhs'] mhs'] c1 (Hok' & Hd' & Hm'). apply IH; [done| |]; by apply Forall_app.
Qed.
End loop.

Section outcome.
Context {W : Type} `{Client W} `{MapOrder} `{RoutePrinter} `{SubsetHash} `{LabelSets}.
Implicit Types (r : DynamicEnvReconciler).

Lemma pwp_process_sr srhs response e names (c : ctx W) :
  srs_in names srhs -> keys_in names (psr_nonReady response) ->
  pwp (process_sr srhs response e) (fun res _ => keys_in names (psr_nonReady res.1)) c.
Proof.
  intros Hs. revert response e c. induction Hs as [|h srhs Hh _ IH]; intros response e c Hk; simpl; [done|].
  apply pwp_bind, pwp_any. intros [rs|err] c1; [|by apply IH]. apply pwp_bind, pwp_any. intros err c2.
  apply IH. destruct (IsFailedStatus _); case_decide; destruct err; simpl; try apply keys_in_insert; done.
Qed.
Lemma count_failed_keys names subset statuses response :
  subset ∈ names -> keys_in names (psr_nonReady response) ->
  keys_in names (psr_nonReady (count_failed subset statuses response)).
Proof.
  intros Hn. revert response. induction statuses as [|s statuses IH]; intros response Hk; simpl; [done|].
  apply IH. destruct (IsFailedStatus _); [|done]. by apply keys_in_insert.
Qed.
Lemma pwp_process_mr mrhs response e names (c : ctx W) :
  mrs_in names mrhs -> keys_in names (psr_nonReady response) ->
  pwp (process_mr mrhs response e) (fun res _ => keys_in names (psr_nonReady res.1)) c.
Proof.
  intros Hs. revert response e c. induction Hs as [|h mrhs Hh _ IH]; intros response e c Hk; simpl; [done|].
  apply pwp_bind, pwp_any. intros [sts|err] c1; [|by apply IH]. apply pwp_bind, pwp_any. intros err c2.
  apply IH. apply count_failed_keys; [done|]. by destruct err.
Qed.
Lemma pwp_processHandlersStatus srhs mrhs names (c : ctx W) :
  srs_in names srhs -> mrs_in names mrhs ->
  pwp (processHandlersStatus srhs mrhs) (fun res _ => keys_in names (psr_nonReady res.1)) c.
Proof.
  intros Hs Hm. unfold processHandlersStatus. apply pwp_bind. eapply pwp_mono; [|apply (pwp_process_sr _ _ _ names)].
  - intros [response e] c1 Hk. apply pwp_bind. eapply pwp_mono; [|by apply (pwp_process_mr _ _ _ names)].
    intros [response' e'] c2 Hk'. by apply pwp_ret.
  - done.
  - intros k [v Hv]. simpl in Hv. by rewrite lookup_empty in Hv.
Qed.

Lemma foldl_insert_keys names (m : gmap string bool) (l : list (string * bool)) :
  keys_in names m -> Forall (fun p => p.1 ∈ names) l ->
  keys_in names (foldl (fun m '(k, v) => <[k := v]> m) m l).
Proof.
  intros Hm Hl. revert m Hm. induction Hl as [|[k v] l Hk _ IH]; intros m Hm; simpl; [done|].
  apply IH. by apply keys_in_insert.
Qed.

(** The state recorded at the end, and the answer. *)
Definition sent_state (total : nat) (s : DynamicEnvStatus) : Prop :=
  st_TotalCount s = Z.of_nat total /\ (0 <= st_TotalReady s <= st_TotalCount s)%Z /\
  (st_State s = Ready \/ st_State s = Processing \/ st_State s = Degraded) /\
  (st_State s = Ready -> st_TotalReady s = st_TotalCount s).
Definition answer_of (s : DynamicEnvStatus) (ok : bool) (res : Result * option error) : Prop :=
  (Requeue res.1 = true -> res.2 = None) /\
  (forall e, res.2 = Some e -> IsConflict (Some e) = false /\ (st_State s = Degraded \/ ok = false)) /\
  (res = (zero_Result, None) -> st_State s <> Processing /\ ok = true) /\
  (ok = true -> st_State s = Processing -> res = (mkResult true 0, None)).
Definition concludes (total : nat) (res : Result * option error) (log : list event) : Prop :=
  exists before sent ans,
    log = before ++ [Event (UpdateDynamicEnvStatus sent) ans] /\
    sent_state total (de_Status sent) /\
    answer_of (de_Status sent) (match ans with Ok _ => true | Err _ => false end) res.

Lemma pwp_SetGlobalState state total notReady (c : ctx W) :
  pwp (SetGlobalState state total notReady) (fun err c' => exists before sent ans,
    cx_log c' = before ++ [Event (UpdateDynamicEnvStatus sent) ans] /\
    st_State (de_Status sent) = state /\ st_TotalCount (de_Status sent) = total /\
    st_TotalReady (de_Status sent) = (total - notReady)%Z /\
    err = match ans with Ok _ => None | Err e => Some e end) c.
Proof.
  unfold SetGlobalState, update_status, pwp, mbind, M_bind, get_de, put_de, call, mret, M_ret. simpl.
  destruct (exec _ _) as [[d|e] w]; simpl; (do 3 eexists; split; [done|]; done).
Qed.
Lemma globalState_of_cases b rls :
  match globalState_of b rls, rls_returnError rls with
  | s, Some _ => s = Degraded
  | s, None => if rls_degradedExists rls then s = Degraded else s = if b then Processing else Ready
  end.
Proof.
  unfold globalState_of, NonMaskingError_IsNil. destruct (rls_returnError rls); simpl.
  - done.
  - by destruct (rls_degradedExists rls), b.
Qed.
(** A status that holds the state and counts computed from a loop status. *)
Lemma fits_sent_state b rls total s :
  st_State s = globalState_of b rls -> st_TotalCount s = Z.of_nat total ->
  size (rls_nonReadyCS rls) <= total /\
    st_TotalReady s = (st_TotalCount s - Z.of_nat (size (rls_nonReadyCS rls)))%Z ->
  (rls_returnError rls = None -> rls_degradedExists rls = false -> b = false -> rls_nonReadyCS rls = ∅) ->
  sent_state total s.
Proof.
  intros Hst Htc [Hsize Htr] Hempty. pose proof (globalState_of_cases b rls) as Hstate.
  split; [done|]. rewrite Htr. split; [lia|]. rewrite Hst. split.
  - destruct (rls_returnError rls); [by auto|]. destruct (rls_degradedExists rls); [by auto|]. destruct b; auto.
  - intros Hr. rewrite Hr in Hstate. destruct (rls_returnError rls); [done|].
    destruct (rls_degradedExists rls); [done|]. destruct b; [done|]. rewrite Hempty by done.
    rewrite map_size_empty. lia.
Qed.
Lemma pwp_conclude names rls response cleanupInProgress (c : ctx W) :
  rls_ok names rls -> keys_in names (psr_nonReady response) ->
  pwp (conclude (length names) rls response cleanupInProgress)
    (fun res c' => concludes (length names) res (cx_log c')) c.
Proof.
  intros [Hkeys Hempty] Hresp. unfold conclude. apply pwp_bind, wp_pwp, wp_range. intros l Hl. cbv zeta.
  set (all := foldl _ _ l). set (rls' := mkRLS _ _ _ _ all). set (b := _ || cleanupInProgress).
  assert (Hall : keys_in names all).
  { apply foldl_insert_keys; [done|]. apply Forall_forall. intros [k v] Hin. rewrite Hl in Hin.
    apply elem_of_map_to_list in Hin. apply Hresp. by eexists. }
  assert (Hsize : size all <= length names) by by apply keys_in_size.
  pose proof (globalState_of_cases b rls') as Hstate. set (state := globalState_of b rls') in *.
  apply pwp_bind, pwp_any. intros _ c1. apply pwp_bind, pwp_any. intros _ c2.
  apply pwp_bind. eapply pwp_mono; [|apply pwp_SetGlobalState].
  intros err c3 (before & sent & ans & Hlog & Hst & Htc & Htr & Herr). simpl in Htr.
  assert (Hsent : sent_state (length names) (de_Status sent)).
  { apply (fits_sent_state b rls'); [done|done|by rewrite Htr, Htc|].
    intros He Hd Hb. apply orb_false_iff in Hb as [Hb _]. apply bool_decide_eq_false in Hb.
    assert (psr_nonReady response = ∅) as Hn by (apply map_size_empty_inv; lia).
    rewrite Hn, map_to_list_empty in Hl. apply Permutation_nil_r in Hl as ->.
    unfold rls', all. simpl. by apply Hempty. }
  assert (Hans : forall res, answer_of (de_Status sent) (match ans with Ok _ => true | Err _ => false end) res ->
            concludes (length names) res (cx_log c3)) by (intros; by exists before, sent, ans).
  subst err. destruct ans as [d|e]; simpl.
  - assert (Hrls : rls_returnError rls' = rls_returnError rls) by done.
    unfold NonMaskingError_Get, NonMaskingError_IsNil. simpl in *.
    destruct (rls_returnError rls) as [e|] eqn:Ee; simpl.
    + rewrite andb_false_r.
      destruct (IsConflict (Some e)) eqn:Ec; apply pwp_ret, Hans; split_and!; simpl; rewrite ?Hst, ?Hstate; try done.
      intros e' [= <-]. split; [done|by left].
    + rewrite andb_true_r.
      destruct b; apply pwp_ret, Hans; split_and!; simpl; rewrite ?Hst; try done.
      * intros _. destruct (rls_degradedExists rls); by rewrite Hstate.
      * destruct (rls_degradedExists rls); by rewrite Hstate.
  - unfold NonMaskingError_Get, NonMaskingError_IsNil, rls_set_if, SetIfNotMasking. simpl.
    set (e' := match rls_returnError rls with Some _ => _ | None => _ end).
    assert (exists e0, e' = Some e0) as [e0 ->] by (unfold e'; destruct (rls_returnError rls); eauto).
    simpl. rewrite andb_false_r.
    destruct (IsConflict (Some e0)) eqn:Ec; apply pwp_ret, Hans; split_and!; simpl; try done.
    intros e1 [= <-]. split; [done|by right].
Qed.
End outcome.

Lemma pwp_reconcile_live {W} `{Client W} `{MapOrder} `{RoutePrinter} `{SubsetHash} `{LabelSets}
    (r : DynamicEnvReconciler) (c : ctx W) `{!StatusEcho W} :
  let spec := de_Spec (cx_de c) in
  pwp (reconcile_live r) (fun res c' =>
      concludes (length (mergeSubsetsAndConsumers (spec_Subsets spec) (spec_Consumers spec))) res (cx_log c')) c.
Proof.
  intros spec. unfold reconcile_live. apply pwp_bind. unfold pwp at 1, get_de. fold spec.
  set (sts := mergeSubsetsAndConsumers _ _). set (names := map (fun st => MKSubsetName (stt_Subset st)) sts).
  assert (Hlen : length sts = length names) by (unfold names; by rewrite length_map). rewrite Hlen.
  apply pwp_bind. eapply pwp_mono; [|apply keeps_spec_cleanup_removed]. intros [inProgress cleanupError] c1 Hspec.
  apply pwp_bind. unfold processSubsetsAndConsumers. apply pwp_bind. unfold pwp at 1, get_de.
  rewrite Hspec. fold spec sts.
  eapply pwp_mono; [|apply (pwp_process_each r _ sts _ _ _ names)].
  - intros [[rls dhs] mhs] c2 (Hok & Hd & Hm). apply pwp_bind.
    eapply pwp_mono; [|by apply (pwp_processHandlersStatus _ _ names)]. intros [response err] c3 Hresp.
    apply pwp_conclude; [|done].
    destruct cleanupError, err; repeat apply rls_ok_set_if; done.
  - apply rls_ok_zero.
  - constructor.
  - constructor.
  - apply Forall_forall. intros st Hst. apply list_elem_of_fmap. by exists st.
Qed.

(** C4.  A reconcile loop ends with a coherent record.  For an environment that is
    not being deleted, whenever the loop returns (it may panic on a base
    deployment that lacks a field), the last call it made is an update of the
    status, and the status it sent counts all subsets and consumers of the spec,
    says that between none and all of them are ready, and all of them when the
    state is ready.  The answer fits: no error together with a requeue; an error
    is never a conflict and goes with the degraded state unless writing the
    status failed; no error and no requeue means that the status was written and
    nothing is in progress; and when nothing went wrong but something is still in
    progress the loop asks to be run again. *)
Theorem reconcile_live_concludes {W} `{Client W} `{MapOrder} `{RoutePrinter} `{SubsetHash} `{LabelSets}
    (r : DynamicEnvReconciler) (c : ctx W) (Hecho : StatusEcho W) :
  let spec := de_Spec (cx_de c) in
  pwp (reconcile_live r) (fun res c' =>
      concludes (length (mergeSubsetsAndConsumers (spec_Subsets spec) (spec_Consumers spec))) res (cx_log c')) c.
Proof. by apply pwp_reconcile_live. Qed.
Lemma reconcile_live_concludes_witness :
  let r := mkReconciler "version" "shared" [] in
  let c := start ReconcileExample.k example_de in
  pwp (reconcile_live (H1:=canonical_order) (H2:=RoutingExample.printer) (H3:=DeploymentExample.hash)
         (H4:=ReconcileExample.labels) r)
    (fun res c' => concludes 0 res (cx_log c')) c.
Proof. intros r c. apply (reconcile_live_concludes r c). exact fake_client_echo. Defined.

(** ** What a loop writes *)
Section writes.
Context {W : Type} `{Client W} `{MapOrder} `{RoutePrinter} `{SubsetHash} `{LabelSets}.
Implicit Types (r : DynamicEnvReconciler).

(** [sh] is the name of a service the API listed for [namespace]. *)
Definition host_found (seen : list event) (namespace sh : string) : Prop :=
  exists services, Event (ListServices namespace) (Ok services) ∈ seen /\ sh ∈ map sv_Name services.
Lemma host_found_mono seen seen' ns sh : seen `prefix_of` seen' -> host_found seen ns sh -> host_found seen' ns sh.
Proof. intros [l ->] (services & Hs & Hsh). exists services. split; [|done]. apply elem_of_app. by left. Qed.

Definition process_writes r (ident : NamespacedName) (sts : list SubsetType) : tspec := fun seen R q _ =>
  let version := UniqueDynamicEnvName ident in
  let unique st := MkSubsetUniqueName (s_Name (stt_Subset st)) version in
  match q with
  | CreateDeployment d | UpdateDeployment d => exists st, st ∈ sts /\
      dp_Name d = unique st /\ dp_Namespace d = s_Namespace (stt_Subset st) /\ owned_by ident d
  | CreateDestinationRule d => exists st sh items original, st ∈ sts /\ stt_Type st = SUBSET /\
      host_found seen (s_Namespace (stt_Subset st)) sh /\
      last seen = Some (Event (ListDestinationRules (s_Namespace (stt_Subset st))) (Ok items)) /\ original ∈ items /\
      dr_Name d = unique st +:+ "-" +:+ sh /\ dr_Namespace d = s_Namespace (stt_Subset st) /\
      dr_Host d = dr_Host original /\
      dr_Subsets d = [mkDRSubset version (Some {[ r_VersionLabel r := version ]})] /\ owned_by ident d
  | UpdateVirtualService v => exists st data hosts dv, st ∈ sts /\ stt_Type st = SUBSET /\
      rd_Subset data = stt_Subset st /\ rd_Identifier data = ident /\
      exists sh service, host_found seen (s_Namespace (stt_Subset st)) sh /\ service_read seen service /\
        is_edit (NewVirtualServiceHandler data hosts dv) sh service v
  | GetDeployment _ | GetDestinationRule _ | GetVirtualService _ | ListServices _ | ListDestinationRules _
  | ListVirtualServices | UpdateDynamicEnvStatus _ | Now => True
  | _ => False
  end.

Lemma traces_process_routing r ident sts st data hosts rls seen :
  st ∈ sts -> stt_Type st = SUBSET -> rd_Subset data = stt_Subset st -> rd_Identifier data = ident ->
  (forall sh, sh ∈ hosts -> host_found seen (s_Namespace (stt_Subset st)) sh) ->
  traces (W:=W) (process_writes r ident sts) seen (process_routing r data hosts rls) (fun _ _ => True).
Proof.
  intros Hst Ht Hs Hid Hhosts. unfold process_routing. cbv zeta. apply traces_bind. eapply traces_mono.
  { eapply traces_weaken; [|apply traces_DestinationRuleHandler_Handle]. intros s R q x Hseen.
    destruct q; simpl; try done. intros (sh & items & original & Hsh & Hl & Hin & _ & _ & Hn & Hns & _ & Hh & Hsub & Hown).
    simpl in *. rewrite Hs, Hid in *. exists st, sh, items, original. split_and!; try done.
    eapply host_found_mono; [exact Hseen|by apply Hhosts]. }
  intros [drh [e|]] s Hseen _; [by apply traces_ret|]. apply traces_bind. eapply traces_mono.
  { eapply traces_weaken; [|apply traces_VirtualServiceHandler_Handle]. intros s' R q x Hseen'.
    destruct q; simpl; try done. intros (sh & service & Hsh & Hread & Hedit). simpl in Hsh.
    eexists st, data, _, _. split_and!; [done..|]. exists sh, service. split; [|split; [done|exact Hedit]].
    eapply host_found_mono; [|by apply Hhosts]. by etrans. }
  intros [vsh err] s' _ _. by apply traces_ret.
Qed.
Lemma traces_locateMatchingServiceHostnames r ident sts namespace ls seen :
  traces (W:=W) (process_writes r ident sts) seen (locateMatchingServiceHostnames namespace ls) (fun res s =>
    forall hosts sh, res = Ok hosts -> sh ∈ hosts -> host_found s namespace sh).
Proof.
  unfold locateMatchingServiceHostnames. apply traces_bind, traces_call. intros x. split; [done|].
  destruct x as [services|e]; [|by apply traces_ret].
  destruct (matching_services services ls) as [matching|e] eqn:Em; [|by apply traces_ret].
  apply matching_services_sub in Em. destruct matching as [|m ms]; apply traces_ret; [done|].
  intros hosts sh [= <-]. rewrite sort_Strings_Permutation.
  change (sv_Name m :: map sv_Name ms) with (sv_Name <$> m :: ms). intros (x & -> & Hx)%list_elem_of_fmap. exists services.
  split; [apply elem_of_app; right; by left|]. apply list_elem_of_fmap_2. eapply elem_of_submseteq; [exact Hx|by apply sublist_submseteq].
Qed.
Lemma traces_process_one r ident sts st rls seen :
  st ∈ sts ->
  traces (W:=W) (process_writes r ident sts) seen (process_one r ident st rls) (fun _ _ => True).
Proof.
  intros Hst. unfold process_one. cbv zeta. apply traces_bind, traces_call. intros [base|e]; (split; [done|]).
  2: { by apply traces_ret. }
  apply traces_get_de. intros de.
  apply traces_bind. eapply traces_mono.
  { eapply traces_frame; [|apply traces_DeploymentHandler_Handle]. intros s R q x.
    destruct q; simpl; try done; intros [(Hn & Hns & _ & Hown) _]; by exists st. }
  intros [dh [e|]] s _ _; [by apply traces_ret|]. destruct (stt_Type st) eqn:Ht; [|by apply traces_ret].
  apply traces_bind. eapply traces_mono; [apply traces_locateMatchingServiceHostnames|].
  intros [hosts|e] s' _ Hhosts; [|by apply traces_ret]. apply traces_bind. eapply traces_mono.
  { apply (traces_process_routing _ _ _ st); eauto. }
  intros res s'' _ _. by apply traces_ret.
Qed.
Lemma traces_process_each r ident all sts rls dhs mhs seen :
  sts ⊆ all ->
  traces (W:=W) (process_writes r ident all) seen (process_each r ident sts rls dhs mhs) (fun _ _ => True).
Proof.
  revert rls dhs mhs seen. induction sts as [|st sts IH]; intros rls dhs mhs seen Hs; simpl; [by apply traces_ret|].
  apply traces_bind. eapply traces_mono; [apply traces_process_one, Hs; by left|].
  intros [[rls' dhs'] mhs'] s _ _. apply IH. intros x Hx. apply Hs. by right.
Qed.
End writes.

(** C17.  Processing an environment's subsets and consumers stays within the
    environment: whatever the API answers, a deployment it creates or updates is
    named after one of them and the environment, in its namespace; a destination
    rule it creates is named after one of the subsets, the environment and a
    service the API listed in the subset's namespace, and adds the environment's
    version to the host of a rule it just listed; a virtual service it updates
    is one it has read, with the routes of the environment added for one of the
    subsets and a listed service; it deletes nothing and does not write the
    environment itself, its status apart. *)
Theorem process_each_writes {W} `{Client W} `{MapOrder} `{RoutePrinter} `{SubsetHash} `{LabelSets}
    (r : DynamicEnvReconciler) (ident : NamespacedName) (sts : list SubsetType) (c : ctx W) :
  exists l, cx_log (process_each r ident sts zero_RLS [] [] c).2 = cx_log c ++ l /\
    ordered (process_writes r ident sts) [] l.
Proof.
  destruct (traces_process_each r ident sts sts zero_RLS [] [] [] (reflexivity _) c) as (l & [Hl _] & Ho & _). by exists l.
Qed.

(** ** Two things the loop does not do *)

(** The [degraded] flag and the messages collected from the statuses reach
    neither the recorded state nor the answer. *)
Theorem conclude_ignores_degraded {W} `{Client W} `{MapOrder} (total : nat) (rls : ReconcileLoopStatus)
    (msgs : gmap string (list string)) (nonReady : gmap string bool) (inProgress : bool) (c : ctx W) :
  conclude total rls (mkPSR msgs true nonReady) inProgress c
  = conclude total rls (mkPSR ∅ false nonReady) inProgress c.
Proof. reflexivity. Qed.

(** An environment that has some finalizer already, whoever put it there, gets
    none of the operator's. *)
Theorem ensureFinalizers_skips {W} `{Client W} (c : ctx W) (f : string) (fs : list string) :
  de_Finalizers (cx_de c) = f :: fs -> ensureFinalizers c = (Ret None, c).
Proof. intros Hf. unfold ensureFinalizers, mbind, M_bind, get_de. by rewrite Hf. Qed.
