(* ===== verification/Totality.v ===== *)
(** * The reconciler always answers

    On base deployments that have the fields it copies, and virtual services
    whose routes have their destinations, no run of [Reconcile] panics, whatever
    else the API answers; what it answers is stated branch by branch. *)

From stdpp Require Import base gmap sets list strings sorting.
From S2P Require Import Prelude GoStrings Sha256 K8s Types Helpers Watches Client FakeCluster StatusManager Model VirtualServiceHandler VirtualServiceRouting Locating DeploymentHandler DestinationRuleHandler CleanupManager Controller.

(** What the operator relies on of the deployments it overrides. *)
Class OverridableBases (W : Type) `{Client W} : Prop := overridable_base : forall n w d w',
  exec (GetDeployment n) w = (Ok d, w') -> overridable d.

Section general.
Context {W : Type}.
Lemma wp_runs {A} (m : M W A) (Q : A -> ctx W -> Prop) c : runs m -> pwp m Q c -> wp m Q c.
Proof. intros Hr. specialize (Hr c). unfold wp, pwp in *. by destruct (m c) as [[] ?]. Qed.
Lemma runs_extends {A} (m : M W A) (Q : ctx W -> A -> list event -> Prop) :
  (forall c, extends m (Q c) c) -> runs m.
Proof. intros Hm c. eapply wp_mono; [|apply Hm]. done. Qed.
End general.
(** [runs] from a [wp] lemma. *)
Ltac runs_from L := let c := fresh in intros c; eapply wp_mono; [|apply L]; [done|..].

(** ** The cleanup manager *)
Section cleanup.
Context {W : Type} `{Client W} `{MapOrder}.

Lemma runs_deleteDeployment rs : runs (W:=W) (deleteDeployment rs).
Proof. eapply (runs_extends _ (fun _ => _)). intros c. apply extends_deleteDeployment. Qed.
Lemma runs_removeSubset name : runs (W:=W) (removeSubset name).
Proof.
  intros c. unfold removeSubset. apply wp_bind, wp_get_de.
  destruct (mlookup (de_SubsetsStatus (cx_de c)) name) as [st|] eqn:Hst.
  2: { apply wp_bind, wp_ret. revert c Hst. intros c _. apply (runs_bind get_de); [apply runs_get_de|]. intros de.
       runs_tac. }
  apply wp_bind. eapply wp_mono; [|apply extends_remove_resources]. intros [b|e] c1 (Hde & _); [|by apply wp_ret].
  destruct b; apply wp_bind, wp_get_de.
  2: { apply (runs_bind (put_de _)); [apply runs_put_de|]. intros _. runs_tac. }
  apply wp_bind, wp_write_SubsetsStatus.
  { rewrite Hde. destruct (de_SubsetsStatus (cx_de c)) eqn:E; [by eexists|].
    unfold mlookup, mread in Hst; simpl in Hst. by rewrite lookup_empty in Hst. }
  apply (runs_bind update_status); [apply runs_update_status|]. intros err. apply runs_ret.
Qed.
Lemma runs_removeConsumer name : runs (W:=W) (removeConsumer name).
Proof.
  intros c. unfold removeConsumer. apply wp_bind, wp_get_de.
  destruct (mlookup (de_ConsumersStatus (cx_de c)) name) as [st|] eqn:Hst; [|by apply wp_ret].
  apply wp_bind. eapply wp_mono; [|apply extends_deleteDeployment]. intros [found [e|]] c1 (Hde & _); [by apply wp_ret|].
  destruct found; apply wp_bind, wp_get_de.
  2: { apply (runs_bind (put_de _)); [apply runs_put_de|]. intros _. runs_tac. }
  cbv zeta. apply wp_bind. unfold write_ConsumersStatus. apply wp_bind, wp_get_de. apply wp_bind, wp_lift.
  assert (exists m, de_ConsumersStatus (cx_de c1) = Some m) as [m Hm].
  { rewrite Hde. destruct (de_ConsumersStatus (cx_de c)) eqn:E; [by eexists|].
    unfold mlookup, mread in Hst; simpl in Hst. by rewrite lookup_empty in Hst. }
  rewrite Hm. eexists. split; [reflexivity|]. apply wp_put_de.
  apply (runs_bind update_status); [apply runs_update_status|]. intros err. apply runs_ret.
Qed.
Lemma runs_cleanup_removed sts : runs (W:=W) (cleanup_removed sts).
Proof.
  unfold cleanup_removed. apply runs_bind.
  { unfold CheckForRemovedSubsetsAndConsumers. runs_tac. }
  intros toRemove. case_decide; [|apply runs_ret]. unfold RemoveSubsetsAndConsumers.
  apply runs_bind; [apply runs_range|]. intros items. generalize false.
  induction items as [|[name typ] items IH]; intros b; simpl; [apply runs_ret|].
  apply runs_bind.
  { case_bool_decide; [apply runs_removeConsumer|apply runs_removeSubset]. }
  intros [processing [e|]]; [apply runs_ret|apply IH].
Qed.
End cleanup.

(** ** The handlers *)
Section handlers.
Context {W : Type} `{Client W} `{MapOrder} `{RoutePrinter} `{SubsetHash} `{LabelSets}.

Lemma runs_DeploymentHandler_Handle h :
  StatusEcho W -> hash_range -> overridable (dh_BaseDeployment h) -> runs (W:=W) (DeploymentHandler_Handle h).
Proof.
  intros Hecho Hh Hb. unfold DeploymentHandler_Handle. apply runs_bind; [apply runs_call|]. intros [d|e].
  - by runs_from wp_UpdateIfRequired.
  - destruct (IsNotFound e); [|apply runs_ret]. apply runs_bind; [|intros err; apply runs_ret].
    by runs_from wp_create_deployment.
Qed.
Lemma runs_DestinationRuleHandler_Handle h : runs (W:=W) (DestinationRuleHandler_Handle h).
Proof.
  unfold DestinationRuleHandler_Handle. apply runs_bind; [|intros ?; runs_tac].
  runs_from wp_handle_rules.
Qed.
Lemma runs_VirtualServiceHandler_Handle h : WellFormedServices W -> runs (W:=W) (VirtualServiceHandler_Handle h).
Proof.
  intros Hwf. unfold VirtualServiceHandler_Handle. cbv zeta. apply runs_bind; [|intros ?; runs_tac].
  runs_from logs_handle_hosts.
Qed.

(** A handler whose status can be read and recorded. *)
Definition sr_runs (h : SRHandler W) : Prop :=
  runs (sr_GetStatus h) /\ forall rs, runs (sr_ApplyStatus h rs).
Definition mr_runs (h : MRHandler W) : Prop :=
  runs (mr_GetStatus h) /\ forall rs, runs (mr_ApplyStatus h rs).
Lemma sr_runs_DeploymentHandler h : sr_runs (DeploymentHandler_SR h).
Proof.
  split; simpl; [unfold DeploymentHandler_GetStatus; runs_tac|].
  intros rs. apply runs_AddDeploymentStatusEntry.
Qed.
Lemma mr_runs_DestinationRuleHandler h : mr_runs (DestinationRuleHandler_MR h).
Proof.
  split; simpl.
  - runs_from wp_get_statuses.
  - intros rs. induction rs as [|s rs IH]; simpl; [apply runs_ret|].
    apply runs_bind; [apply runs_AddDestinationRuleStatusEntry|]. intros [e|]; [apply runs_ret|apply IH].
Qed.
Lemma mr_runs_VirtualServiceHandler h : mr_runs (VirtualServiceHandler_MR h).
Proof.
  split; simpl.
  - unfold VirtualServiceHandler_GetStatus. apply runs_bind; [|intros ?; runs_tac].
    induction (concat _) as [|nn nns IH]; simpl; [apply runs_ret|]. runs_tac.
  - intros rs. induction rs as [|s rs IH]; simpl; [apply runs_ret|].
    apply runs_bind; [apply runs_AddVirtualServiceStatusEntry|]. intros [e|]; [apply runs_ret|apply IH].
Qed.

(** ** The loop *)
Context `{!StatusEcho W} `{!WellFormedServices W} `{!OverridableBases W} (Hhash : hash_range).

Lemma runs_locateMatchingServiceHostnames ns ls : runs (W:=W) (locateMatchingServiceHostnames ns ls).
Proof. unfold locateMatchingServiceHostnames. runs_tac. Qed.
Lemma wp_process_routing r data hosts rls (c : ctx W) :
  wp (process_routing r data hosts rls) (fun res _ => Forall mr_runs res.2) c.
Proof.
  unfold process_routing. cbv zeta. apply wp_bind. eapply wp_mono; [|apply runs_DestinationRuleHandler_Handle].
  intros [drh [e|]] c1 _.
  { apply wp_ret. apply Forall_singleton, mr_runs_DestinationRuleHandler. }
  apply wp_bind. eapply wp_mono; [|by apply runs_VirtualServiceHandler_Handle].
  intros [vsh err] c2 _. apply wp_ret. constructor; [apply mr_runs_DestinationRuleHandler|].
  apply Forall_singleton, mr_runs_VirtualServiceHandler.
Qed.
Definition all_run {A} (res : A * list (SRHandler W) * list (MRHandler W)) : Prop :=
  Forall sr_runs res.1.2 /\ Forall mr_runs res.2.
Lemma wp_process_one r ident st rls (c : ctx W) :
  wp (process_one r ident st rls) (fun res _ => all_run res) c.
Proof.
  unfold process_one. cbv zeta. apply wp_bind, wp_call. intros [base|e] w Hex.
  2: { apply wp_ret. by split; constructor. }
  apply wp_bind, wp_get_de. apply wp_bind. eapply wp_mono; [|apply runs_DeploymentHandler_Handle; [done..|]].
  2: { by eapply overridable_base. }
  intros [dh err] c1 _.
  assert (Hsr : Forall sr_runs [DeploymentHandler_SR (W:=W) dh]).
  { apply Forall_singleton, sr_runs_DeploymentHandler. }
  destruct err as [e|]; [apply wp_ret; by split|]. destruct (stt_Type st); [|apply wp_ret; by split].
  apply wp_bind. eapply wp_mono; [|apply runs_locateMatchingServiceHostnames].
  intros [hosts|e] c2 _; [|apply wp_ret; by split]. apply wp_bind.
  eapply wp_mono; [|apply wp_process_routing]. intros res c3 Hres. apply wp_ret. by split.
Qed.
Lemma wp_process_each r ident sts rls dhs mhs (c : ctx W) :
  Forall sr_runs dhs -> Forall mr_runs mhs ->
  wp (process_each r ident sts rls dhs mhs) (fun res _ => all_run res) c.
Proof.
  revert rls dhs mhs c. induction sts as [|st sts IH]; intros rls dhs mhs c Hd Hm; simpl; [by apply wp_ret|].
  apply wp_bind. eapply wp_mono; [|apply wp_process_one]. intros [[rls' dhs'] mhs'] c1 [Hd' Hm'].
  apply IH; by apply Forall_app.
Qed.
Lemma runs_processHandlersStatus dhs mhs :
  Forall sr_runs dhs -> Forall mr_runs mhs -> runs (W:=W) (processHandlersStatus dhs mhs).
Proof.
  intros Hd Hm. unfold processHandlersStatus.
  assert (Hsr : forall p e, runs (W:=W) (process_sr dhs p e)).
  { induction Hd as [|h dhs [Hg Ha] _ IH]; intros p e; simpl; [apply runs_ret|].
    apply runs_bind; [done|]. intros [s|err]; [|apply IH]. apply runs_bind; [apply Ha|]. intros err. apply IH. }
  assert (Hmr : forall p e, runs (W:=W) (process_mr mhs p e)).
  { induction Hm as [|h mhs [Hg Ha] _ IH]; intros p e; simpl; [apply runs_ret|].
    apply runs_bind; [done|]. intros [s|err]; [|apply IH]. apply runs_bind; [apply Ha|]. intros err. apply IH. }
  apply runs_bind; [apply Hsr|]. intros [p e]. apply runs_bind; [apply Hmr|]. intros [p' e']. apply runs_ret.
Qed.
Lemma runs_SyncConsumerMessagesToStatus msgs : runs (W:=W) (SyncConsumerMessagesToStatus msgs).
Proof.
  unfold SyncConsumerMessagesToStatus. apply runs_bind; [apply runs_range|]. intros l.
  induction l as [|[k ms] l IH]; simpl; [apply runs_ret|]. apply runs_bind; [apply runs_get_de|]. intros de.
  cbv zeta. apply runs_bind.
  { runs_from wp_sync_all. }
  intros errors. unfold mmake. simpl. apply runs_bind; [apply runs_lift|]. intros m.
  apply runs_bind; [apply runs_put_de|]. intros _. apply IH.
Qed.
Lemma runs_conclude total rls response b : runs (W:=W) (conclude total rls response b).
Proof.
  unfold conclude. apply runs_bind; [apply runs_range|]. intros nonReady. cbv zeta. apply runs_bind.
  { intros c. apply wp_bind, wp_range. intros l Hl. eapply wp_mono; [|apply wp_sync_subset_messages]; [done|].
    rewrite Hl. apply NoDup_fst_map_to_list. }
  intros _. apply runs_bind; [apply runs_SyncConsumerMessagesToStatus|]. intros _. apply runs_bind; [|intros ?; runs_tac].
  unfold SetGlobalState. runs_tac.
Qed.
Lemma runs_reconcile_live r : runs (W:=W) (reconcile_live r).
Proof.
  unfold reconcile_live. apply runs_bind; [apply runs_get_de|]. intros de. cbv zeta.
  apply runs_bind; [apply runs_cleanup_removed|]. intros [inProgress cleanupError].
  intros c. apply wp_bind. unfold processSubsetsAndConsumers. apply wp_bind, wp_get_de.
  eapply wp_mono; [|by apply wp_process_each]. intros [[rls dhs] mhs] c1 [Hd Hm].
  apply wp_bind. eapply wp_mono; [|by apply runs_processHandlersStatus]. intros [response err] c2 _.
  apply runs_conclude.
Qed.
End handlers.

(** ** What [Reconcile] answers *)
Definition spec_size (de : DynamicEnv) : nat :=
  length (mergeSubsetsAndConsumers (spec_Subsets (de_Spec de)) (spec_Consumers (de_Spec de))).

(** By branch, from the answers to the first calls: [w] is the world of the API and
    [before] the calls made when the run starts, [log] those made by its end. *)
Definition reconciled {W} `{Client W} (req : NamespacedName) (w : W) (before log : list event)
    (res : Result * option error) : Prop :=
  let '(first, w1) := exec (GetDynamicEnv req) w in
  let fetched := before ++ [Event (GetDynamicEnv req) first] in
  match first with
  | Err e => log = fetched /\
      res = (zero_Result, if IsNotFound e then None else Some (Wrapf "failed to fetch dynamic environment" e))
  | Ok de =>
      let sent := set_Finalizers [DeleteDeployments; DeleteDestinationRules; CleanupVirtualServices] de in
      if decide (is_Some (de_DeletionTimestamp de)) then
        exists l, log = fetched ++ l /\ finalizers_safe (de_Finalizers de) l
      else if decide (de_Finalizers de = []) then
        match (exec (UpdateDynamicEnv sent) w1).1 with
        | Err e => log = fetched ++ [Event (UpdateDynamicEnv sent) (Err e)] /\
            res = (zero_Result, Some (Wrapf "could not update finalizers" e))
        | Ok _ => concludes (spec_size de) res log
        end
      else concludes (spec_size de) res log
  end.

(** C3.  [Reconcile] always answers, and what it answers fits what it found.  When
    the deployments to override have the fields that are copied, the virtual
    services their destinations, and the API echoes updates, no run panics,
    whatever else the API answers.  An environment that is gone is no error and
    costs one call; any other failure to fetch it is returned; one that is being
    deleted loses no finalizer before the resources it guards; one without
    finalizers gets the operator's first, and when that fails the error is
    returned and nothing else is done; in all other cases the run ends by
    recording a state that fits the answer. *)
Theorem Reconcile_answers {W} `{Client W} `{MapOrder} `{RoutePrinter} `{SubsetHash} `{LabelSets}
    (r : DynamicEnvReconciler) (req : NamespacedName) (c : ctx W)
    (Hstatus : StatusEcho W) (Hupdate : UpdateEcho W) (Hservices : WellFormedServices W)
    (Hbases : OverridableBases W) (Hhash : hash_range) :
  wp (Reconcile r req) (fun res c' => reconciled req (cx_world c) (cx_log c) (cx_log c') res) c.
Proof.
  unfold Reconcile, reconciled. apply wp_bind, wp_call. intros first w Hfirst. rewrite Hfirst. cbv zeta. simpl.
  destruct first as [de|e]; [|destruct (IsNotFound e); by apply wp_ret].
  apply wp_bind, wp_put_de. unfold markedForDeletion. case_decide as Hdel.
  { rewrite bool_decide_eq_true_2 by done.
    eapply wp_mono; [|by apply DeleteAllResources_safe]. intros res c' (l & Hl & Hs). by exists l. }
  rewrite bool_decide_eq_false_2 by done. apply wp_bind.
  assert (Hlive : forall c1, de_Spec (cx_de c1) = de_Spec de ->
            wp (reconcile_live r) (fun res c' => concludes (spec_size de) res (cx_log c')) c1).
  { intros c1 Hspec. apply wp_runs; [by apply runs_reconcile_live|]. unfold spec_size. rewrite <- Hspec.
    by apply pwp_reconcile_live. }
  unfold ensureFinalizers. apply wp_bind, wp_get_de. simpl.
  rewrite (decide_ext (length (de_Finalizers de) = 0) (de_Finalizers de = [])) by apply length_zero_iff_nil.
  case_decide as Hf; [|by apply wp_ret, Hlive].
  apply wp_bind, wp_put_de. apply wp_bind. unfold update_de.
  apply wp_bind, wp_get_de. apply wp_bind, wp_call. simpl. intros [de'|e] w' Hex; rewrite Hex; simpl.
  - apply update_echo in Hex as [_ Hspec]. apply wp_bind, wp_put_de. do 2 apply wp_ret. by apply Hlive.
  - by do 3 apply wp_ret.
Qed.

(** A world in which every hypothesis holds: the base deployment, its service and
    routing exist, nothing of the environment does, and updates are echoed. *)
Module StaticCluster.
Definition env : DynamicEnv :=
  mkDynamicEnv "env" "default" [] None
    (mkDynamicEnvSpec (Some [RoutingExample.match_user "jason"]) [DeploymentExample.subset] [])
    zero_DynamicEnvStatus "".
Definition world_exec {R} (q : req R) (w : nat) : R * nat :=
  match q in req R return R * nat with
  | GetDynamicEnv _ => (Ok env, S w)
  | GetDeployment n =>
      (if decide (n = mkNN "default" "reviews") then Ok DeploymentExample.base else Err StaticServices.gone, S w)
  | ListServices _ => (Ok [mkService "reviews" "default" (Some {[ "app" := "reviews" ]})], S w)
  | ListDestinationRules _ => (Ok [RuleExample.rule], S w)
  | ListVirtualServices => (Ok [RoutingExample.service], S w)
  | GetVirtualService _ => (Ok RoutingExample.service, S w)
  | GetDestinationRule _ | ListDynamicEnvs => (Err StaticServices.gone, S w)
  | CreateDeployment _ | CreateDestinationRule _ | UpdateDeployment _ | DeleteDeployment _
  | DeleteDestinationRule _ => (None, S w)
  | UpdateVirtualService v => (Ok v, S w)
  | UpdateDynamicEnv de => (Ok (set_Status (wire_status (de_Status de)) de), S w)
  | UpdateDynamicEnvStatus de => (Ok (set_Status (wire_status (de_Status de)) de), S w)
  | Now => (Z.of_nat w, S w)
  end.
Definition client : Client nat := @world_exec.
Definition reconciler : DynamicEnvReconciler := mkReconciler "version" "shared" [].
(** What a run from the start answers. *)
Definition run : outcome (Result * option error) * ctx nat :=
  Reconcile (H:=client) (H1:=canonical_order) (H2:=RoutingExample.printer) (H3:=DeploymentExample.hash)
    (H4:=ReconcileExample.labels) reconciler (mkNN "default" "env") (mkCtx 0 example_de 0 0 []).
(** The objects a run writes, the status apart, by name. *)
Definition written (e : event) : option (string * string) :=
  match ev_req e with
  | CreateDeployment d => Some ("create deployment", dp_Name d)
  | UpdateDeployment d => Some ("update deployment", dp_Name d)
  | CreateDestinationRule d => Some ("create rule", dr_Name d)
  | UpdateVirtualService v => Some ("update service", vs_Name v)
  | UpdateDynamicEnv d => Some ("update environment", de_Name d)
  | DeleteDeployment d => Some ("delete deployment", dp_Name d)
  | DeleteDestinationRule d => Some ("delete rule", dr_Name d)
  | _ => None
  end.
(** The finalizers first; then the deployment, the rule and the routing; the
    deployment not being there yet, the loop asks to be run again. *)
Example run_answers :
  run.1 = Ret (mkResult true 0, None) /\
  omap written (cx_log run.2) =
    [("update environment", "env"); ("create deployment", "reviews-default-env");
     ("create rule", "reviews-default-env-reviews"); ("update service", "reviews")].
Proof. vm_compute. done. Qed.
Lemma status_echoes : StatusEcho nat (H:=client).
Proof. intros de w de' w'. by intros [= <- _]. Qed.
Lemma updates_echo : UpdateEcho nat (H:=client).
Proof. intros de w de' w'. by intros [= <- _]. Qed.
Lemma services_wf : WellFormedServices nat (H:=client).
Proof.
  split; intros *; unfold exec, client; simpl.
  - intros [= <- _]. by repeat constructor.
  - intros [= <- _]. by repeat constructor.
  - by intros [= <- _].
Qed.
Lemma bases_overridable : OverridableBases nat (H:=client).
Proof.
  intros n w d w'. unfold exec, client. simpl. case_decide; [|done]. intros [= <- _].
  apply (bool_decide_unpack _). by vm_compute.
Qed.
Lemma hashes_in_range : hash_range (H2:=DeploymentExample.hash).
Proof. intros s z [= <-]. apply Z.mod_pos_bound. lia. Qed.
End StaticCluster.

Lemma Reconcile_answers_witness :
  let c := mkCtx 0 example_de 0 0 [] in
  let req := mkNN "default" "env" in
  wp (Reconcile (H:=StaticCluster.client) (H1:=canonical_order) (H2:=RoutingExample.printer)
        (H3:=DeploymentExample.hash) (H4:=ReconcileExample.labels) StaticCluster.reconciler req)
    (fun res c' => reconciled (H:=StaticCluster.client) req 0 [] (cx_log c') res) c.
Proof.
  intros c req.
  apply (Reconcile_answers (H:=StaticCluster.client) (H1:=canonical_order) (H2:=RoutingExample.printer)
           (H3:=DeploymentExample.hash) (H4:=ReconcileExample.labels) StaticCluster.reconciler req c
           StaticCluster.status_echoes StaticCluster.updates_echo StaticCluster.services_wf
           StaticCluster.bases_overridable StaticCluster.hashes_in_range).
Defined.
