(* ===== verification/Deletion.v ===== *)
(** * Deletion completes

    A finalizer that is never removed blocks the deletion of an environment for
    ever.  Against an API that does what it is asked, deletes what it is told to
    delete and loses no update, two reconcile runs over an environment marked for
    deletion are enough: the first deletes, the second finds nothing left. *)

From stdpp Require Import base gmap sets list strings.
From S2P Require Import Prelude GoStrings Sha256 K8s Types Helpers Watches Client FakeCluster StatusManager Model VirtualServiceHandler VirtualServiceRouting DeploymentHandler DestinationRuleHandler CleanupManager Controller.

(** ** An API that cooperates

    [coop_ok] are the worlds without faults or other writers; what of them
    matters here is the stored environment and which deployments and rules are
    absent. *)
Class Cooperative (W : Type) `{Client W} := {
  coop_ok : W -> Prop;
  coop_env : W -> option DynamicEnv;
  no_deployment : W -> NamespacedName -> Prop;
  no_rule : W -> NamespacedName -> Prop;
}.
(** Nothing comes back, the environment is not touched. *)
Definition later {W} `{Cooperative W} (w w' : W) : Prop :=
  coop_ok w' /\ coop_env w' = coop_env w /\
  (forall n, no_deployment w n -> no_deployment w' n) /\ (forall n, no_rule w n -> no_rule w' n).
Class CooperativeLaws (W : Type) `{Cooperative W} : Prop := {
  (* an object marked for deletion without finalizers is gone *)
  coop_finalizers : forall w de, coop_ok w -> coop_env w = Some de ->
    is_Some (de_DeletionTimestamp de) -> de_Finalizers de <> [];
  coop_get_env : forall n w r w', coop_ok w -> exec (GetDynamicEnv n) w = (r, w') -> later w w' /\
    match coop_env w with Some de => r = Ok de | None => exists e, r = Err e /\ IsNotFound e = true end;
  coop_get_deployment : forall n w r w', coop_ok w -> exec (GetDeployment n) w = (r, w') -> later w w' /\
    ((exists d, r = Ok d /\ mkNN (dp_Namespace d) (dp_Name d) = n /\ ~ no_deployment w n) \/
     (exists e, r = Err e /\ IsNotFound e = true /\ no_deployment w n));
  coop_delete_deployment : forall d w r w', coop_ok w -> exec (DeleteDeployment d) w = (r, w') -> later w w' /\
    r = None /\ no_deployment w' (mkNN (dp_Namespace d) (dp_Name d));
  coop_get_rule : forall n w r w', coop_ok w -> exec (GetDestinationRule n) w = (r, w') -> later w w' /\
    ((exists d, r = Ok d /\ mkNN (dr_Namespace d) (dr_Name d) = n /\ ~ no_rule w n) \/
     (exists e, r = Err e /\ IsNotFound e = true /\ no_rule w n));
  coop_delete_rule : forall d w r w', coop_ok w -> exec (DeleteDestinationRule d) w = (r, w') -> later w w' /\
    r = None /\ no_rule w' (mkNN (dr_Namespace d) (dr_Name d));
  coop_get_service : forall n w r w', coop_ok w -> exec (GetVirtualService n) w = (r, w') -> later w w' /\
    match r with Ok _ => True | Err e => IsNotFound e = true end;
  coop_update_service : forall v w r w', coop_ok w -> exec (UpdateVirtualService v) w = (r, w') -> later w w' /\
    exists v', r = Ok v';
  (* the status stays; the object is gone with its last finalizer *)
  coop_update_env : forall de stored w r w', coop_ok w -> coop_env w = Some stored ->
    de_Status de = de_Status stored -> de_DeletionTimestamp de = de_DeletionTimestamp stored ->
    is_Some (de_DeletionTimestamp de) ->
    exec (UpdateDynamicEnv de) w = (r, w') ->
    coop_ok w' /\ (forall n, no_deployment w n -> no_deployment w' n) /\ (forall n, no_rule w n -> no_rule w' n) /\
    exists de', r = Ok de' /\ de_Finalizers de' = de_Finalizers de /\ de_Status de' = de_Status de /\
      de_DeletionTimestamp de' = de_DeletionTimestamp de /\
      coop_env w' = (if decide (de_Finalizers de = []) then None else Some de');
}.

Section deletion.
Context {W : Type} `{CooperativeLaws W} `{MapOrder} `{RoutePrinter} `{SubsetHash} `{LabelSets}.

#[export] Instance later_trans : Transitive (later (W:=W)).
Proof.
  intros w1 w2 w3 (? & He & Hd & Hr) (? & He' & Hd' & Hr'). split; [done|]. split; [congruence|]. auto.
Qed.

(** ** One resource, one list *)

(** [del] deletes the resources whose absence is [absent]: it answers whether
    there was one. *)
Definition deletes (absent : W -> NamespacedName -> Prop) (del : ResourceStatus -> M W (bool * option error)) : Prop :=
  forall rs c, coop_ok (cx_world c) -> wp (del rs) (fun res c' =>
    later (cx_world c) (cx_world c') /\ cx_de c' = cx_de c /\ res.2 = None /\
    absent (cx_world c') (rs_nn rs) /\ (absent (cx_world c) (rs_nn rs) -> res.1 = false)) c.

Lemma deletes_deployments : deletes no_deployment deleteDeployment.
Proof.
  intros rs c Hok. unfold deleteDeployment. apply wp_bind, wp_call. intros r w Hr.
  apply coop_get_deployment in Hr as [Hl Hr]; [|done]. destruct Hr as [(d & -> & Hn & Hno)|(e & -> & He & Hno)].
  - apply wp_bind, wp_call. intros r w' Hr. simpl in *.
    apply coop_delete_deployment in Hr as (Hl' & -> & Hd); [|by destruct Hl]. apply wp_ret. simpl.
    split; [by etrans|]. split; [done|]. split; [done|]. rewrite Hn in Hd. done.
  - rewrite He. apply wp_ret. simpl. destruct Hl as (? & ? & Hd & ?). split_and!; auto. done.
Qed.
Lemma deletes_rules : deletes no_rule deleteDestinationRule.
Proof.
  intros rs c Hok. unfold deleteDestinationRule. apply wp_bind, wp_call. intros r w Hr.
  apply coop_get_rule in Hr as [Hl Hr]; [|done]. destruct Hr as [(d & -> & Hn & Hno)|(e & -> & He & Hno)].
  - apply wp_bind, wp_call. intros r w' Hr. simpl in *.
    apply coop_delete_rule in Hr as (Hl' & -> & Hd); [|by destruct Hl]. apply wp_ret. simpl.
    split; [by etrans|]. split; [done|]. split; [done|]. rewrite Hn in Hd. done.
  - rewrite He. apply wp_ret. simpl. destruct Hl as (? & ? & ? & Hd). split_and!; auto. done.
Qed.

(** Absence only grows. *)
Definition grows (absent : W -> NamespacedName -> Prop) : Prop :=
  forall w w' n, later w w' -> absent w n -> absent w' n.
Lemma grows_deployments : grows no_deployment.
Proof. intros w w' n (_ & _ & Hd & _). apply Hd. Qed.
Lemma grows_rules : grows no_rule.
Proof. intros w w' n (_ & _ & _ & Hr). apply Hr. Qed.
Definition all_absent (absent : W -> NamespacedName -> Prop) (w : W) (items : list ResourceStatus) : Prop :=
  Forall (fun rs => absent w (rs_nn rs)) items.
Lemma all_absent_later absent w w' items :
  grows absent -> later w w' -> all_absent absent w items -> all_absent absent w' items.
Proof. intros Hg Hl Ha. eapply Forall_impl; [exact Ha|]. intros rs. by apply Hg. Qed.
Lemma later_refl w : coop_ok w -> later w w.
Proof. done. Qed.

Lemma wp_delete_each absent del msg items n c :
  deletes absent del -> grows absent -> coop_ok (cx_world c) ->
  wp (delete_each del msg items n) (fun res c' =>
    later (cx_world c) (cx_world c') /\ cx_de c' = cx_de c /\ res.2 = None /\
    all_absent absent (cx_world c') items /\ (all_absent absent (cx_world c) items -> res.1 = n)) c.
Proof.
  intros Hdel Hg. revert n c. induction items as [|rs items IH]; intros n c Hok; cbn [delete_each].
  { apply wp_ret. split; [by apply later_refl|]. split_and!; try done. constructor. }
  apply wp_bind. eapply wp_mono; [|by apply Hdel]. intros [found err] c1 (Hl & Hde & Herr & Ha & Hf).
  simpl in *. subst err. eapply wp_mono; [|apply IH; by destruct Hl].
  intros res c2 (Hl2 & Hde2 & He2 & Ha2 & Hn2). split; [by etrans|]. split; [congruence|]. split; [done|].
  split; [constructor; [by eapply Hg|done]|]. intros [Hrs Hitems]%Forall_cons. rewrite (Hf Hrs) in Hn2.
  apply Hn2. by eapply all_absent_later.
Qed.

(** ** The finalizers *)

(** The shared object is the stored one. *)
Definition synced (c : ctx W) : Prop :=
  coop_ok (cx_world c) /\ is_Some (de_DeletionTimestamp (cx_de c)) /\
  coop_env (cx_world c) = (if decide (de_Finalizers (cx_de c) = []) then None else Some (cx_de c)).
(** From one context to a later one: no finalizer is added, nothing comes back. *)
Definition progress (c c' : ctx W) : Prop :=
  synced c' /\ de_Status (cx_de c') = de_Status (cx_de c) /\ de_Finalizers (cx_de c') ⊆ de_Finalizers (cx_de c) /\
  (forall n, no_deployment (cx_world c) n -> no_deployment (cx_world c') n) /\
  (forall n, no_rule (cx_world c) n -> no_rule (cx_world c') n).
Lemma progress_later c c' : synced c -> later (cx_world c) (cx_world c') -> cx_de c' = cx_de c -> progress c c'.
Proof.
  intros (Hok & Hdel & He) (Hok' & He' & Hd & Hr) Hde. split.
  - split; [done|]. rewrite Hde. split; [done|]. by rewrite He'.
  - rewrite Hde. done.
Qed.
Lemma progress_trans c1 c2 c3 : progress c1 c2 -> progress c2 c3 -> progress c1 c3.
Proof.
  intros (_ & Hs & Hf & Hd & Hr) (? & Hs' & Hf' & Hd' & Hr'). split; [done|]. split; [congruence|].
  split; [set_solver|]. auto.
Qed.

Lemma wp_deleteFinalizer f (c : ctx W) :
  synced c -> f ∈ de_Finalizers (cx_de c) ->
  wp (deleteFinalizer f) (fun err c' => err = None /\ progress c c' /\ (f ∉ de_Finalizers (cx_de c')) /\
    forall x, x <> f -> x ∈ de_Finalizers (cx_de c) -> x ∈ de_Finalizers (cx_de c')) c.
Proof.
  intros (Hok & Hdel & Henv) Hf. rewrite decide_False in Henv by (intros E; rewrite E in Hf; by apply not_elem_of_nil in Hf).
  unfold deleteFinalizer, update_de. apply wp_bind, wp_get_de, wp_bind, wp_put_de, wp_bind.
  apply wp_bind, wp_get_de, wp_bind, wp_call. intros r w Hr. simpl in *.
  eapply coop_update_env in Hr as (Hok' & Hd & Hru & de' & -> & Hfin & Hst & Hts & Henv'); try done.
  apply wp_bind, wp_put_de. do 2 apply wp_ret. split; [done|].
  assert (Hsub : forall x, x ∈ de_Finalizers de' <-> x ∈ de_Finalizers (cx_de c) /\ x <> f).
  { rewrite Hfin. simpl. unfold RemoveItemFromStringSlice. intros x. rewrite list_elem_of_filter. naive_solver. }
  simpl. split_and!.
  - split; [split; [done|]; simpl; rewrite Hts, Hfin; done|]. split; [done|]. split; [|done].
    intros x Hx. by apply Hsub.
  - intros Hx. by apply Hsub in Hx as [_ Hx].
  - intros x Hne Hx. by apply Hsub.
Qed.

Lemma progress_deployments c c' items :
  progress c c' -> all_absent no_deployment (cx_world c) items -> all_absent no_deployment (cx_world c') items.
Proof. intros (_ & _ & _ & Hd & _) Ha. eapply Forall_impl; [exact Ha|]. intros rs. apply Hd. Qed.
Lemma progress_rules c c' items :
  progress c c' -> all_absent no_rule (cx_world c) items -> all_absent no_rule (cx_world c') items.
Proof. intros (_ & _ & _ & _ & Hr) Ha. eapply Forall_impl; [exact Ha|]. intros rs. apply Hr. Qed.

(** A counted finalizer: everything it guards is deleted, and it goes once
    there was nothing left. *)
Lemma wp_finalize_counted f absent items (deleteAll : M W (nat * option error)) (c : ctx W) :
  synced c -> (forall c c' : ctx W, progress c c' ->
    all_absent absent (cx_world c) items -> all_absent absent (cx_world c') items) ->
  wp deleteAll (fun res c' => later (cx_world c) (cx_world c') /\ cx_de c' = cx_de c /\ res.2 = None /\
     all_absent absent (cx_world c') items /\ (all_absent absent (cx_world c) items -> res.1 = 0)) c ->
  wp (finalize_counted f deleteAll) (fun err c' => err = None /\ progress c c' /\
     (f ∈ de_Finalizers (cx_de c) -> all_absent absent (cx_world c') items) /\
     (all_absent absent (cx_world c) items -> f ∉ de_Finalizers (cx_de c')) /\
     forall x, x <> f -> x ∈ de_Finalizers (cx_de c) -> x ∈ de_Finalizers (cx_de c')) c.
Proof.
  intros Hs Hg Hall. unfold finalize_counted. apply wp_bind, wp_get_de.
  destruct (Contains (de_Finalizers (cx_de c)) f) eqn:Hc.
  2: { assert (Hno : f ∉ de_Finalizers (cx_de c)) by (rewrite <- Contains_spec, Hc; done).
       apply wp_ret. split; [done|]. split; [|done]. by apply progress_later; [|apply later_refl; destruct Hs|]. }
  apply Contains_spec in Hc.
  apply wp_bind. eapply wp_mono; [|exact Hall]. intros [count err] c1 (Hl & Hde & He & Ha & Hn). simpl in *. subst err.
  pose proof (progress_later c c1 Hs Hl Hde) as Hp. case_decide as Hcount.
  - eapply wp_mono; [|apply wp_deleteFinalizer; [by destruct Hp|by rewrite Hde]].
    rewrite Hde. intros err c2 (-> & Hp2 & Hno & Hkeep). split; [done|]. split; [by eapply progress_trans|].
    split; [|done]. intros _. by eapply Hg.
  - apply wp_ret. split; [done|]. split; [done|]. split; [done|]. rewrite Hde. split; [|done].
    intros Habs. by rewrite (Hn Habs) in Hcount.
Qed.

Lemma wp_delete_all absent del msg items recorded (c : ctx W) :
  deletes absent del -> grows absent -> items ≡ₚ recorded -> coop_ok (cx_world c) ->
  wp (delete_each del msg items 0) (fun res c' =>
    later (cx_world c) (cx_world c') /\ cx_de c' = cx_de c /\ res.2 = None /\
    all_absent absent (cx_world c') recorded /\ (all_absent absent (cx_world c) recorded -> res.1 = 0)) c.
Proof.
  intros Hdel Hg Hp Hok. eapply wp_mono; [|by apply (wp_delete_each absent)].
  intros res c' (? & ? & ? & Ha & Hn). unfold all_absent in *. rewrite Hp in Ha, Hn. done.
Qed.
Lemma wp_deleteAllDeployments (c : ctx W) :
  coop_ok (cx_world c) ->
  wp deleteAllDeployments (fun res c' => later (cx_world c) (cx_world c') /\ cx_de c' = cx_de c /\ res.2 = None /\
    all_absent no_deployment (cx_world c') (recorded_deployments (cx_de c)) /\
    (all_absent no_deployment (cx_world c) (recorded_deployments (cx_de c)) -> res.1 = 0)) c.
Proof.
  intros Hok. unfold deleteAllDeployments. apply wp_bind, wp_get_de, wp_bind, wp_range. intros ss Hss.
  apply wp_bind, wp_range. intros cs Hcs.
  eapply wp_mono; [|apply (wp_delete_all no_deployment _ _ _ (recorded_deployments (cx_de c)));
    [apply deletes_deployments|apply grows_deployments| |done]].
  - intros res c' Hres. exact Hres.
  - unfold recorded_deployments. by rewrite Hss, Hcs.
Qed.
Lemma wp_deleteAllDestinationRules (c : ctx W) :
  coop_ok (cx_world c) ->
  wp deleteAllDestinationRules (fun res c' => later (cx_world c) (cx_world c') /\ cx_de c' = cx_de c /\
    res.2 = None /\ all_absent no_rule (cx_world c') (recorded_rules (cx_de c)) /\
    (all_absent no_rule (cx_world c) (recorded_rules (cx_de c)) -> res.1 = 0)) c.
Proof.
  intros Hok. unfold deleteAllDestinationRules. apply wp_bind, wp_get_de, wp_bind, wp_range. intros ss Hss.
  eapply wp_mono; [|apply (wp_delete_all no_rule _ _ _ (recorded_rules (cx_de c)));
    [apply deletes_rules|apply grows_rules| |done]].
  - intros res c' Hres. exact Hres.
  - unfold recorded_rules. rewrite <- !flat_map_concat_map. by apply Permutation_flat_map.
Qed.
Lemma wp_cleanup_each items (c : ctx W) :
  coop_ok (cx_world c) ->
  wp (cleanup_each items) (fun err c' => err = None /\ later (cx_world c) (cx_world c') /\ cx_de c' = cx_de c) c.
Proof.
  revert c. induction items as [|rs items IH]; intros c Hok; cbn [cleanup_each]; [by apply wp_ret|].
  apply wp_bind. eapply (wp_mono _ (fun err c' => err = None /\ later (cx_world c) (cx_world c') /\ cx_de c' = cx_de c)).
  { intros err c1 (-> & Hl & Hde). eapply wp_mono; [|apply IH; by destruct Hl]. intros err c2 (-> & Hl2 & Hde2).
    split; [done|]. split; [by etrans|congruence]. }
  unfold cleanupVirtualService. apply wp_bind, wp_get_de, wp_bind, wp_call. intros r w Hr.
  apply coop_get_service in Hr as [Hl Hr]; [|done]. destruct r as [found|e]; [|rewrite Hr; by apply wp_ret].
  apply wp_bind, wp_call. intros r w' Hr'. simpl in *.
  apply coop_update_service in Hr' as (Hl' & v' & ->); [|by destruct Hl]. apply wp_ret. simpl.
  split; [done|]. split; [by etrans|done].
Qed.

(** One run over an environment marked for deletion. *)
Definition one_run (c c' : ctx W) : Prop :=
  progress c c' /\ (CleanupVirtualServices ∉ de_Finalizers (cx_de c')) /\
  (DeleteDeployments ∈ de_Finalizers (cx_de c) ->
   all_absent no_deployment (cx_world c') (recorded_deployments (cx_de c))) /\
  (all_absent no_deployment (cx_world c) (recorded_deployments (cx_de c)) ->
   DeleteDeployments ∉ de_Finalizers (cx_de c')) /\
  (DeleteDestinationRules ∈ de_Finalizers (cx_de c) ->
   all_absent no_rule (cx_world c') (recorded_rules (cx_de c))) /\
  (all_absent no_rule (cx_world c) (recorded_rules (cx_de c)) ->
   DeleteDestinationRules ∉ de_Finalizers (cx_de c')).
Lemma recorded_status de de' : de_Status de' = de_Status de ->
  recorded_deployments de' = recorded_deployments de /\ recorded_rules de' = recorded_rules de.
Proof.
  unfold recorded_deployments, recorded_rules, de_SubsetsStatus, de_ConsumersStatus. by intros ->.
Qed.
Lemma wp_finalize_virtual_services (c : ctx W) :
  synced c ->
  wp finalize_virtual_services (fun err c' => err = None /\ progress c c' /\
    CleanupVirtualServices ∉ de_Finalizers (cx_de c')) c.
Proof.
  intros Hs. unfold finalize_virtual_services. apply wp_bind, wp_get_de.
  destruct (Contains (de_Finalizers (cx_de c)) CleanupVirtualServices) eqn:Hc.
  2: { assert (Hno : CleanupVirtualServices ∉ de_Finalizers (cx_de c)) by (rewrite <- Contains_spec, Hc; done).
       apply wp_ret. split; [done|]. split; [by apply progress_later; [|apply later_refl; destruct Hs|]|done]. }
  apply Contains_spec in Hc. apply wp_bind. unfold cleanupVirtualServices.
  apply wp_bind, wp_get_de, wp_bind, wp_range. intros ss _. apply wp_bind.
  eapply wp_mono; [|apply wp_cleanup_each; by destruct Hs]. intros err c1 (-> & Hl & Hde). apply wp_ret.
  simpl in *. pose proof (progress_later c c1 Hs Hl Hde) as Hp.
  eapply wp_mono; [|apply wp_deleteFinalizer; [by destruct Hp|by rewrite Hde]].
  intros err c2 (-> & Hp2 & Hno & _). split; [done|]. split; [by eapply progress_trans|done].
Qed.
Lemma wp_DeleteAllResources (c : ctx W) :
  synced c -> wp DeleteAllResources (fun res c' => res = (zero_Result, None) /\ one_run c c') c.
Proof.
  intros Hs. unfold DeleteAllResources. apply wp_bind. eapply wp_mono;
    [|apply (wp_finalize_counted DeleteDeployments no_deployment (recorded_deployments (cx_de c)));
      [done|intros ? ?; apply progress_deployments|by apply wp_deleteAllDeployments; destruct Hs]].
  intros ? c1 (-> & Hp1 & Hd1 & Hd2 & Hkeep). apply wp_bind.
  destruct (recorded_status (cx_de c) (cx_de c1)) as [_ Hrules]; [by destruct Hp1 as (_ & ? & _)|].
  pose proof (proj1 Hp1) as Hs1.
  eapply wp_mono; [|apply (wp_finalize_counted DeleteDestinationRules no_rule (recorded_rules (cx_de c1)));
      [done|intros ? ?; apply progress_rules|by apply wp_deleteAllDestinationRules; destruct Hs1]].
  rewrite Hrules. intros ? c2 (-> & Hp2 & Hr1 & Hr2 & _). apply wp_bind.
  eapply wp_mono; [|apply wp_finalize_virtual_services; by destruct Hp2]. intros err c3 (-> & Hp3 & Hv).
  apply wp_ret. split; [done|].
  assert (Hf2 : de_Finalizers (cx_de c3) ⊆ de_Finalizers (cx_de c2)) by by destruct Hp3 as (_ & _ & ? & _).
  assert (Hf1 : de_Finalizers (cx_de c2) ⊆ de_Finalizers (cx_de c1)) by by destruct Hp2 as (_ & _ & ? & _).
  split; [eapply progress_trans; [exact Hp1|by eapply progress_trans]|]. split; [done|]. split_and!.
  - intros Hin. eapply progress_deployments, progress_deployments, Hd1; done.
  - intros Ha Hin. apply (Hd2 Ha). auto.
  - intros Hin. eapply progress_rules, Hr1; [done|]. by apply Hkeep.
  - intros Ha Hin. apply Hr2; [by eapply progress_rules|]. auto.
Qed.
End deletion.

(** ** Two runs *)
Section runs.
Context {W : Type} `{CooperativeLaws W} `{MapOrder} `{RoutePrinter} `{SubsetHash} `{LabelSets}.

(** The run of an environment that is there and marked. *)
Lemma wp_Reconcile_marked r req (c : ctx W) de :
  coop_ok (cx_world c) -> coop_env (cx_world c) = Some de -> is_Some (de_DeletionTimestamp de) ->
  wp (Reconcile r req) (fun res c' => res = (zero_Result, None) /\
    exists c1, later (cx_world c) (cx_world c1) /\ cx_de c1 = de /\ one_run c1 c') c.
Proof.
  intros Hok Henv Hdel. unfold Reconcile. apply wp_bind, wp_call. intros res w Hget.
  apply coop_get_env in Hget as [Hl Hres]; [|done]. rewrite Henv in Hres. subst res.
  apply wp_bind, wp_put_de. unfold markedForDeletion. rewrite bool_decide_eq_true_2 by done.
  set (c1 := mkCtx _ de _ _ _). assert (Hs : synced c1).
  { split; [by destruct Hl|]. split; [done|]. simpl. destruct Hl as (Hok' & -> & _). rewrite Henv.
    by rewrite decide_False by by apply (coop_finalizers (cx_world c)). }
  eapply wp_mono; [|by apply wp_DeleteAllResources]. intros res c' [-> Hrun]. split; [done|].
  exists c1. done.
Qed.
(** The run of an environment that is gone. *)
Lemma wp_Reconcile_gone r req (c : ctx W) :
  coop_ok (cx_world c) -> coop_env (cx_world c) = None ->
  wp (Reconcile r req) (fun res c' => res = (zero_Result, None) /\ later (cx_world c) (cx_world c')) c.
Proof.
  intros Hok Henv. unfold Reconcile. apply wp_bind, wp_call. intros res w Hget.
  apply coop_get_env in Hget as [Hl Hres]; [|done]. rewrite Henv in Hres. destruct Hres as (e & -> & He).
  rewrite He. by apply wp_ret.
Qed.
End runs.

(** The finalizers the operator puts on an environment. *)
Definition own_finalizers : list string := [DeleteDeployments; DeleteDestinationRules; CleanupVirtualServices].
(** What is stored of [before]: nothing, or an environment that finalizers of
    others keep. *)
Definition released (before : DynamicEnv) (stored : option DynamicEnv) : Prop :=
  match stored with
  | Some de => de_Finalizers de <> [] /\
      forall f, f ∈ de_Finalizers de -> f ∈ de_Finalizers before /\ f ∉ own_finalizers
  | None => True
  end.

(** C11.  Deletion completes: against an API that does what it is asked, two
    reconcile runs over an environment marked for deletion return without error,
    panic or request to be run again, and leave none of the operator's
    finalizers on it, whatever its status records and in whatever order: only
    finalizers of others that it already had keep it, and if it had none it is
    gone.  By then every deployment and destination rule its
    status recorded is gone too, as far as it carried the finalizer that asks
    for it. *)
Theorem deletion_completes {W} `{CooperativeLaws W} `{MapOrder} `{RoutePrinter} `{SubsetHash} `{LabelSets}
    (r : DynamicEnvReconciler) (req : NamespacedName) (c : ctx W) (de : DynamicEnv)
    (Hok : coop_ok (cx_world c)) (Henv : coop_env (cx_world c) = Some de)
    (Hdel : is_Some (de_DeletionTimestamp de)) :
  wp (_ ← Reconcile r req; Reconcile r req) (fun res c' =>
    res = (zero_Result, None) /\ released de (coop_env (cx_world c')) /\
    (DeleteDeployments ∈ de_Finalizers de -> all_absent no_deployment (cx_world c') (recorded_deployments de)) /\
    (DeleteDestinationRules ∈ de_Finalizers de -> all_absent no_rule (cx_world c') (recorded_rules de))) c.
Proof.
  apply wp_bind. eapply wp_mono; [|by apply (wp_Reconcile_marked r req c de)].
  intros _ c1 (_ & c0 & _ & Hc0 & Hp & Hv & Hd & _ & Hr & _). rewrite Hc0 in *.
  pose proof Hp as ((Hok1 & Hdel1 & Henv1) & Hst & Hsub0 & _). rewrite Hc0 in Hsub0.
  destruct (recorded_status de (cx_de c1)) as [Ed Er]; [by rewrite <- Hc0|].
  case_decide as Hnil.
  - eapply wp_mono; [|by apply wp_Reconcile_gone]. intros res c2 (-> & Hl). split; [done|].
    split; [destruct Hl as (_ & -> & _); by rewrite Henv1|].
    split; intros Hin; [eapply all_absent_later; [apply grows_deployments|done|by apply Hd]|].
    eapply all_absent_later; [apply grows_rules|done|by apply Hr].
  - eapply wp_mono; [|by apply (wp_Reconcile_marked r req c1 (cx_de c1))].
    intros res c3 (-> & c2 & Hl & Hc2 & Hp2 & Hv2 & _ & Hd2 & _ & Hr2). rewrite Hc2, Ed, Er in *. split; [done|].
    pose proof Hp2 as ((_ & _ & Henv3) & _ & Hsub & _). rewrite Hc2 in Hsub. split.
    + rewrite Henv3. case_decide as Hnil3; [done|]. split; [done|]. intros f Hf.
      assert (Hin : f ∈ de_Finalizers de) by auto. split; [done|].
      unfold own_finalizers. rewrite !not_elem_of_cons. split_and!; [intros ->|intros ->|intros ->|apply not_elem_of_nil].
      * revert Hf. apply Hd2. eapply all_absent_later; [apply grows_deployments|exact Hl|]. by apply Hd.
      * revert Hf. apply Hr2. eapply all_absent_later; [apply grows_rules|exact Hl|]. by apply Hr.
      * done.
    + split; intros Hin; [eapply progress_deployments|eapply progress_rules]; try done.
      * eapply all_absent_later; [apply grows_deployments|done|by apply Hd].
      * eapply all_absent_later; [apply grows_rules|done|by apply Hr].
Qed.

(** *** A cooperating API server *)
Module CoopExample.
Record world := mkWorld {
  w_env : option DynamicEnv;
  w_deployments : gset NamespacedName;
  w_rules : gset NamespacedName;
}.
Definition gone : error := StatusErr NotFound "not found".
Definition deployment (n : NamespacedName) : Deployment :=
  mkDeployment (nn_Name n) (nn_Namespace n) None None
    (mkDeploymentSpec None None (mkPodTemplate None [] [] "") "") [] "".
Definition rule (n : NamespacedName) : DestinationRule :=
  mkDestinationRule (nn_Name n) (nn_Namespace n) None None "" [].
Definition world_exec {R} (q : req R) (w : world) : R * world :=
  match q in req R return R * world with
  | GetDynamicEnv _ => (match w_env w with Some de => Ok de | None => Err gone end, w)
  | GetDeployment n => (if decide (n ∈ w_deployments w) then Ok (deployment n) else Err gone, w)
  | GetDestinationRule n => (if decide (n ∈ w_rules w) then Ok (rule n) else Err gone, w)
  | GetVirtualService _ => (Err gone, w)
  | ListServices _ | ListDestinationRules _ | ListVirtualServices | ListDynamicEnvs => (Ok [], w)
  | CreateDeployment _ | CreateDestinationRule _ | UpdateDeployment _ => (Some gone, w)
  | UpdateVirtualService v => (Ok v, w)
  | UpdateDynamicEnv de => (Ok de, mkWorld (if decide (de_Finalizers de = []) then None else Some de)
                                     (w_deployments w) (w_rules w))
  | UpdateDynamicEnvStatus de => (Err gone, w)
  | DeleteDeployment d => (None, mkWorld (w_env w) (w_deployments w ∖ {[ mkNN (dp_Namespace d) (dp_Name d) ]}) (w_rules w))
  | DeleteDestinationRule d => (None, mkWorld (w_env w) (w_deployments w) (w_rules w ∖ {[ mkNN (dr_Namespace d) (dr_Name d) ]}))
  | Now => (0%Z, w)
  end.
#[export] Instance client : Client world := @world_exec.
#[export] Instance cooperative : Cooperative world := {|
  coop_ok := fun w => forall de, w_env w = Some de -> is_Some (de_DeletionTimestamp de) -> de_Finalizers de <> [];
  coop_env := w_env;
  no_deployment := fun w n => n ∉ w_deployments w;
  no_rule := fun w n => n ∉ w_rules w;
|}.
#[export] Instance cooperative_laws : CooperativeLaws world.
Proof.
  split.
  - intros w de Hok. apply Hok.
  - intros n w r w' Hok [= <- <-]. split; [done|]. simpl. destruct (w_env w); [done|]. by eexists.
  - intros n w r w' Hok [= <- <-]. split; [done|]. case_decide as Hn; [left|right; by eexists].
    exists (deployment n). split; [done|]. split; [by destruct n|]. simpl. tauto.
  - intros d w r w' Hok [= <- <-]. split; [split; [done|]; simpl; split_and!; [done|set_solver|done]|].
    split; [done|]. simpl. set_solver.
  - intros n w r w' Hok [= <- <-]. split; [done|]. case_decide as Hn; [left|right; by eexists].
    exists (rule n). split; [done|]. split; [by destruct n|]. simpl. tauto.
  - intros d w r w' Hok [= <- <-]. split; [split; [done|]; simpl; split_and!; [done|done|set_solver]|].
    split; [done|]. simpl. set_solver.
  - intros n w r w' Hok [= <- <-]. done.
  - intros v w r w' Hok [= <- <-]. split; [done|]. by eexists.
  - intros de stored w r w' Hok Hs Hst Hts Hdel [= <- <-]. simpl. split; [by intros de'; case_decide; [|intros [= <-]]|].
    split; [done|]. split; [done|]. by exists de.
Qed.
(** An environment with a deployment, a rule and a virtual service recorded. *)
Definition env : DynamicEnv :=
  mkDynamicEnv "env" "default" [DeleteDeployments; DeleteDestinationRules; CleanupVirtualServices] (Some 1%Z)
    (mkDynamicEnvSpec None [] [])
    (mkDynamicEnvStatus (Some {[ "default/reviews" :=
        mkSubsetStatus (mkResourceStatus "reviews-env" "default" Running)
          [mkResourceStatus "reviews-env-rule" "default" Running]
          [mkResourceStatus "reviews" "default" Running] None 0 ]}) None Ready 1 1) "".
Definition start : world :=
  mkWorld (Some env) {[ mkNN "default" "reviews-env"; mkNN "default" "reviews" ]} {[ mkNN "default" "reviews-env-rule" ]}.
End CoopExample.

Lemma deletion_completes_witness :
  let c := mkCtx CoopExample.start example_de 0 0 [] in
  let run := Reconcile (H:=CoopExample.client) (H1:=canonical_order) (H2:=RoutingExample.printer)
    (H3:=DeploymentExample.hash) (H4:=ReconcileExample.labels) (mkReconciler "version" "shared" []) (mkNN "default" "env") in
  wp (_ ← run; run) (fun res c' =>
    res = (zero_Result, None) /\ released CoopExample.env (coop_env (Cooperative:=CoopExample.cooperative) (cx_world c')) /\
    (DeleteDeployments ∈ de_Finalizers CoopExample.env ->
     all_absent (no_deployment (Cooperative:=CoopExample.cooperative)) (cx_world c') (recorded_deployments CoopExample.env)) /\
    (DeleteDestinationRules ∈ de_Finalizers CoopExample.env ->
     all_absent (no_rule (Cooperative:=CoopExample.cooperative)) (cx_world c') (recorded_rules CoopExample.env))) c.
Proof.
  intros c run.
  apply (deletion_completes (H1:=CoopExample.cooperative) (H2:=CoopExample.cooperative_laws) (H3:=canonical_order) (H4:=RoutingExample.printer)
    (H5:=DeploymentExample.hash) (H6:=ReconcileExample.labels) (mkReconciler "version" "shared" [])
    (mkNN "default" "env") c CoopExample.env).
  - intros de [= <-] _. discriminate.
  - reflexivity.
  - by eexists.
Defined.
