(* ===== verification/Process.v ===== *)
(** * The operator's process

    What cmd/main.go and the set-up methods ask of the operating system, of
    controller-runtime and of the metrics registry, as calls that answer an
    error or nothing, and programs over such calls that may end the process.
    What a call does is the host's, a parameter of [run]. *)

From Stdlib Require Import Ascii.
From stdpp Require Import base list strings.
From S2P Require Import Prelude GoStrings K8s Types Helpers Client StatusManager Model Controller.

(** ** What the set-up methods hand over *)
Inductive kind := DynamicEnvKind | DynamicEnvListKind | DeploymentKind | DestinationRuleKind | VirtualServiceKind.
Record GroupVersion := mkGroupVersion { gv_Group : string; gv_Version : string }.
(** The types added to the scheme. *)
Inductive type_group := ClientGoTypes | GroupTypes (gv : GroupVersion) | IstioTypes.
(** The handler of a watch and the filter of its events. *)
Inductive event_handler := AnnotationHandler.
Inductive event_filter := GenerationChangedPredicate.
(** What [NewControllerManagedBy] is told until [Complete]. *)
Record Builder := mkBuilder {
  b_For : kind;
  b_Watches : list (kind * event_handler);
  b_WithEventFilter : event_filter;
  b_Complete : DynamicEnvReconciler;
}.
(** [ctrl.Options]; the scheme is the one the types were added to. *)
Record ManagerOptions := mkManagerOptions {
  mo_MetricsBindAddress : string;
  mo_WebhookPort : Z;
  mo_HealthProbeBindAddress : string;
  mo_LeaderElection : bool;
  mo_LeaderElectionID : string;
}.

(** ** Calls *)
Inductive sys :=
| RegisterTypes (gv : GroupVersion) (types : list kind)
| AddToScheme (types : type_group)
| GetConfig
| NewManager (o : ManagerOptions)
| CompleteController (b : Builder)
| CompleteWebhook (k : kind)
| AddCollector
| AddHealthzCheck (name : string)
| AddReadyzCheck (name : string)
| StartManager
| RegisterCollector
| AwaitDone
| UnregisterCollector.
#[export] Instance kind_eq_dec : EqDecision kind.
Proof. solve_decision. Defined.
#[export] Instance reconciler_eq_dec : EqDecision DynamicEnvReconciler.
Proof. solve_decision. Defined.
#[export] Instance group_version_eq_dec : EqDecision GroupVersion.
Proof. solve_decision. Defined.
#[export] Instance type_group_eq_dec : EqDecision type_group.
Proof. solve_decision. Defined.
#[export] Instance event_handler_eq_dec : EqDecision event_handler.
Proof. solve_decision. Defined.
#[export] Instance event_filter_eq_dec : EqDecision event_filter.
Proof. solve_decision. Defined.
#[export] Instance builder_eq_dec : EqDecision Builder.
Proof. solve_decision. Defined.
#[export] Instance manager_options_eq_dec : EqDecision ManagerOptions.
Proof. solve_decision. Defined.
#[export] Instance sys_eq_dec : EqDecision sys.
Proof. solve_decision. Defined.

(** ** Programs *)
Inductive process (A : Type) :=
| Return (a : A)
| Exit (code : Z)
| Crash
| Ask (c : sys) (k : option error -> process A).
Arguments Return {A} a.
Arguments Exit {A} code.
Arguments Crash {A}.
Arguments Ask {A} c k.

Fixpoint process_bind_ {A B} (f : A -> process B) (p : process A) : process B :=
  match p with
  | Return a => f a
  | Exit code => Exit code
  | Crash => Crash
  | Ask c k => Ask c (fun err => process_bind_ f (k err))
  end.
#[export] Instance process_ret : MRet process := @Return.
#[export] Instance process_bind : MBind process := fun A B f p => process_bind_ f p.
Definition ask (c : sys) : process (option error) := Ask c Return.

(** How a program ends, with the calls it made and their answers. *)
Inductive ending (A : Type) :=
| Returned (a : A)
| Exited (code : Z)
| Crashed.
Arguments Returned {A} a.
Arguments Exited {A} code.
Arguments Crashed {A}.
Abbreviation trace := (list (sys * option error)).

Section run.
Context {W : Type} (host : sys -> W -> option error * W).

Fixpoint run {A} (p : process A) (w : W) : trace * ending A :=
  match p with
  | Return a => ([], Returned a)
  | Exit code => ([], Exited code)
  | Crash => ([], Crashed)
  | Ask c k =>
      let '(err, w') := host c w in
      let '(t, e) := run (k err) w' in ((c, err) :: t, e)
  end.

(** Every run of [p] ends as [Q] says, after the calls of [t]. *)
Definition ends {A} (p : process A) (Q : trace -> ending A -> Prop) : Prop :=
  forall w, Q (run p w).1 (run p w).2.

Lemma ends_return {A} (a : A) (Q : trace -> ending A -> Prop) : Q [] (Returned a) -> ends (Return a) Q.
Proof. by intros HQ w. Qed.
Lemma ends_exit {A} code (Q : trace -> ending A -> Prop) : Q [] (Exited code) -> ends (Exit code) Q.
Proof. by intros HQ w. Qed.
Lemma ends_crash {A} (Q : trace -> ending A -> Prop) : Q [] Crashed -> ends Crash Q.
Proof. by intros HQ w. Qed.
Lemma ends_mono {A} (p : process A) (P Q : trace -> ending A -> Prop) :
  ends p P -> (forall t e, P t e -> Q t e) -> ends p Q.
Proof. intros Hp HPQ w. apply HPQ, Hp. Qed.
Lemma ends_ask {A} c (k : option error -> process A) (Q : trace -> ending A -> Prop) :
  (forall err, ends (k err) (fun t e => Q ((c, err) :: t) e)) -> ends (Ask c k) Q.
Proof.
  intros Hk w. simpl. destruct (host c w) as [err w']. specialize (Hk err w').
  by destruct (run (k err) w').
Qed.
End run.

(** ** What the set-up code does with an error *)

(** [if err != nil { os.Exit(1) }]; the message goes to the log. *)
Definition or_exit (p : process (option error)) : process unit :=
  err ← p; match err with Some _ => Exit 1 | None => mret tt end.
(** [utilruntime.Must]. *)
Definition Must (p : process (option error)) : process unit :=
  err ← p; match err with Some _ => Crash | None => mret tt end.
(** [if err != nil { log }]. *)
Definition or_log (p : process (option error)) : process unit := _ ← p; mret tt.

(** ** Stages *)

(** A stage of a start: a call, and whether its failure ends the process. *)
Record stage := mkStage { stage_call : sys; stage_fatal : bool }.
(** The answers with which a start goes on. *)
Definition passed (s : stage) (err : option error) : Prop := stage_fatal s = true -> err = None.
(** A start makes the calls of its stages in order, up to and including the
    first fatal one that fails, which ends the process with status 1. *)
Inductive follows {A} (a : A) : list stage -> trace -> ending A -> Prop :=
| follows_nil : follows a [] [] (Returned a)
| follows_pass s stages err t e :
    passed s err -> follows a stages t e -> follows a (s :: stages) ((stage_call s, err) :: t) e
| follows_stop s stages err :
    stage_fatal s = true -> follows a (s :: stages) [(stage_call s, Some err)] (Exited 1).

Section stages.
Context {W : Type} (host : sys -> W -> option error * W).

Lemma ends_or_exit {A} (a : A) c stages (k : unit -> process A) :
  ends host (k tt) (follows a stages) ->
  ends host (or_exit (ask c) ≫= k) (follows a (mkStage c true :: stages)).
Proof.
  intros Hk. apply ends_ask. intros [err|]; simpl.
  - apply ends_exit. by apply (follows_stop _ (mkStage c true)).
  - eapply ends_mono; [exact Hk|]. intros t e Ht. by apply (follows_pass _ (mkStage c true)).
Qed.
Lemma ends_or_log {A} (a : A) c stages (k : unit -> process A) :
  ends host (k tt) (follows a stages) ->
  ends host (or_log (ask c) ≫= k) (follows a (mkStage c false :: stages)).
Proof.
  intros Hk. apply ends_ask. intros err. simpl. eapply ends_mono; [exact Hk|].
  intros t e Ht. by apply (follows_pass _ (mkStage c false)).
Qed.
End stages.

Lemma follows_prefix {A} (a : A) stages t e :
  follows a stages t e -> t.*1 `prefix_of` map stage_call stages.
Proof.
  induction 1 as [|s stages err t e _ _ [l IH]|s stages err _]; simpl; [done| |by eexists].
  exists l. by rewrite IH.
Qed.
(** A start that returns has made every call. *)
Lemma follows_returned {A} (a : A) stages t b :
  follows a stages t (Returned b) -> b = a /\ t.*1 = map stage_call stages /\
    Forall2 (fun s p => passed s p.2) stages t.
Proof.
  remember (Returned b) as e eqn:He. induction 1 as [|s stages err t e Hp _ IH|s stages err _]; simplify_eq/=.
  - done.
  - destruct IH as (-> & -> & IH); [done|]. split; [done|]. split; [done|]. by constructor.
Qed.
(** Any other has stopped at the stage that failed. *)
Lemma follows_stopped {A} (a : A) stages t e :
  follows a stages t e -> e <> Returned a -> e = Exited 1 /\
    exists l c err, t = l ++ [(c, Some err)] /\ mkStage c true ∈ stages.
Proof.
  induction 1 as [|s stages err t e _ _ IH|s stages err Hs]; intros He; [done| |].
  - destruct (IH He) as (-> & l & c & err' & -> & Hin). split; [done|]. eexists (_ :: l), c, err'.
    split; [done|]. by right.
  - split; [done|]. exists [], (stage_call s), err. split; [done|]. destruct s as [c f]. simpl in Hs |- *. subst f. left.
Qed.
