(* ===== verification/StatusInvariant.v ===== *)
(** * The shape of the status, through every operation

    A Hoare logic for what the operator keeps true of the custom resource it
    works on: [keeps I m Q] says that [m] preserves [I] of the shared object,
    sends the API no custom resource that breaks it, and answers something in
    [Q], whether or not it returns.  The invariant is the shape of the status;
    every operation of every component is shown to keep it. *)

From stdpp Require Import base gmap sets list strings.
From S2P Require Import Prelude GoStrings Sha256 K8s Types Helpers Watches Client FakeCluster StatusManager Model VirtualServiceHandler VirtualServiceRouting DeploymentHandler DestinationRuleHandler CleanupManager Controller.

(** ** The logic *)

(** [de'] is [de] as the API answers it: its status is off the wire. *)
Definition reads_back (de de' : DynamicEnv) : Prop :=
  de_Status de' = wire_status (de_Status de) /\ de_Spec de' = de_Spec de /\ de_nn de' = de_nn de.
(** The custom resources sent satisfy [I], the accepted ones are read back. *)
Definition sends (I : DynamicEnv -> Prop) : spec := fun R q =>
  match q in req R return R -> Prop with
  | UpdateDynamicEnv de => fun r => I de /\ match r with Ok de' => reads_back de de' | Err _ => True end
  | UpdateDynamicEnvStatus de => fun r => I de /\ match r with Ok de' => reads_back de de' | Err _ => True end
  | _ => fun _ => True
  end.
Definition env_write {R} (q : req R) : bool :=
  match q with UpdateDynamicEnv _ | UpdateDynamicEnvStatus _ => true | _ => false end.

(** [V] ties the object to the world; most code needs no such tie. *)
Definition keeps_with {W A} (V : W -> DynamicEnv -> Prop) (I : DynamicEnv -> Prop) (m : M W A) (Q : A -> Prop) : Prop :=
  forall c, V (cx_world c) (cx_de c) -> I (cx_de c) ->
  V (cx_world (m c).2) (cx_de (m c).2) /\ I (cx_de (m c).2) /\
  (exists l, cx_log (m c).2 = cx_log c ++ l /\ Forall (sat (sends I)) l) /\
  forall a, (m c).1 = Ret a -> Q a.
Abbreviation keeps I m Q := (keeps_with (fun _ _ => True) I m Q).
Abbreviation maintains I m := (keeps I m (fun _ => True)).
Abbreviation maintains_with V I m := (keeps_with V I m (fun _ => True)).
(** A tie that calls on other objects do not cut. *)
Class Stable {W} `{Client W} (V : W -> DynamicEnv -> Prop) : Prop :=
  stable : forall R (q : req R) w r w' de, env_write q = false -> exec q w = (r, w') -> V w de -> V w' de.
#[export] Instance stable_True {W} `{Client W} : Stable (fun (_ : W) _ => True).
Proof. done. Qed.

(** What is relied on of the API.  A status update that is accepted answers with
    the object it was sent, read back.  An update of the resource leaves the
    status, a subresource, as stored, and is accepted only if the version sent is
    the one stored.  [current w de]: the status stored for the version [de]
    carries is the status of [de].  That holds of what was just read, whatever
    is then done to the finalizers or to other objects; so an accepted update of
    a current object answers with it, read back, and that is current again. *)
Class ReadsBack (W : Type) `{Client W} := {
  current : W -> DynamicEnv -> Prop;
  current_stable :: Stable current;
  current_get : forall n w de w', exec (GetDynamicEnv n) w = (Ok de, w') -> current w' de;
  current_finalizers : forall w de f, current w de -> current w (set_Finalizers f de);
  update_reads_back : forall de w de' w', current w de -> exec (UpdateDynamicEnv de) w = (Ok de', w') ->
    reads_back de de' /\ current w' de';
  update_refused : forall de w e w', current w de -> exec (UpdateDynamicEnv de) w = (Err e, w') -> current w' de;
  status_reads_back : forall de w de' w', exec (UpdateDynamicEnvStatus de) w = (Ok de', w') -> reads_back de de';
}.
(** The invariant survives the wire. *)
Class Readable (I : DynamicEnv -> Prop) : Prop := readable : forall de de', reads_back de de' -> I de -> I de'.

Section logic.
Context {W : Type} `{Client W} {V : W -> DynamicEnv -> Prop} {I : DynamicEnv -> Prop}.

(** Code that makes no call and leaves the object alone. *)
Lemma keeps_pure {A} (m : M W A) (Q : A -> Prop) :
  (forall c, cx_world (m c).2 = cx_world c /\ cx_de (m c).2 = cx_de c /\ cx_log (m c).2 = cx_log c /\
    forall a, (m c).1 = Ret a -> Q a) -> keeps_with V I m Q.
Proof.
  intros Hm c HV Hc. destruct (Hm c) as (-> & -> & -> & HQ). split; [done|]. split; [done|]. split; [|done].
  exists []. by rewrite app_nil_r.
Qed.
Lemma keeps_ret {A} (a : A) (Q : A -> Prop) : Q a -> keeps_with V I (mret a) Q.
Proof. intros HQ. apply keeps_pure. intros c. split_and!; [done..|]. by intros a' [= <-]. Qed.
Lemma keeps_bind {A B} (m : M W A) (f : A -> M W B) (P : A -> Prop) (Q : B -> Prop) :
  keeps_with V I m P -> (forall a, P a -> keeps_with V I (f a) Q) -> keeps_with V I (m ≫= f) Q.
Proof.
  intros Hm Hf c HV Hc. destruct (Hm c HV Hc) as (HV1 & HI & (l & Hl & HP) & Ha). unfold mbind, M_bind.
  destruct (m c) as [[a|] c'] eqn:E; simpl in *; [|split; [done|]; split; [done|]; split; [by exists l|done]].
  destruct (Hf a (Ha a eq_refl) c' HV1 HI) as (HV2 & HI' & (l' & Hl' & HP') & HQ).
  split; [done|]. split; [done|]. split; [|done]. exists (l ++ l'). rewrite Hl', Hl, app_assoc. split; [done|].
  by apply Forall_app.
Qed.
Lemma keeps_weaken {A} (m : M W A) (P Q : A -> Prop) :
  keeps_with V I m P -> (forall a, P a -> Q a) -> keeps_with V I m Q.
Proof. intros Hm HPQ c HV Hc. destruct (Hm c HV Hc) as (? & ? & ? & Ha). split_and!; [done..|]. auto. Qed.
Lemma keeps_log {A} (m : M W A) (Q : A -> Prop) c :
  keeps_with V I m Q -> V (cx_world c) (cx_de c) -> I (cx_de c) ->
  exists l, cx_log (m c).2 = cx_log c ++ l /\ Forall (sat (sends I)) l.
Proof. intros Hm HV Hc. by destruct (Hm c HV Hc) as (_ & _ & ? & _). Qed.
(** The tie is cut after [m]. *)
Lemma keeps_log_untie {A B} (m : M W A) (f : A -> M W B) (Q : B -> Prop) c :
  keeps_with V I m (fun _ => True) -> (forall a, keeps I (f a) Q) -> V (cx_world c) (cx_de c) -> I (cx_de c) ->
  exists l, cx_log ((m ≫= f) c).2 = cx_log c ++ l /\ Forall (sat (sends I)) l.
Proof.
  intros Hm Hf HV Hc. destruct (Hm c HV Hc) as (_ & HI & (l & Hl & HP) & _). unfold mbind, M_bind.
  destruct (m c) as [[a|] c'] eqn:E; simpl in *; [|by exists l].
  destruct (Hf a c' Logic.I HI) as (_ & _ & (l' & Hl' & HP') & _).
  exists (l ++ l'). rewrite Hl', Hl, app_assoc. split; [done|]. by apply Forall_app.
Qed.
Lemma keeps_get_de {B} (g : DynamicEnv -> M W B) Q :
  (forall de, I de -> keeps_with V I (g de) Q) -> keeps_with V I (get_de ≫= g) Q.
Proof. intros Hg c HV Hc. exact (Hg (cx_de c) Hc c HV Hc). Qed.
Lemma keeps_put_de de (Q : unit -> Prop) : I de -> Q tt -> keeps_with (W:=W) (fun _ _ => True) I (put_de de) Q.
Proof.
  intros Hde HQ c _ Hc. split; [done|]. split; [done|]. split; [exists []; by rewrite app_nil_r|]. by intros [] _.
Qed.
Lemma keeps_lift {A} (o : outcome A) (Q : A -> Prop) : (forall a, o = Ret a -> Q a) -> keeps_with V I (lift o) Q.
Proof. intros HQ. by apply keeps_pure. Qed.
Lemma keeps_panic {A} (Q : A -> Prop) : keeps_with V I panic Q.
Proof. by apply keeps_pure. Qed.
Lemma keeps_call `{!Stable V} {R} (q : req R) (Q : R -> Prop) :
  env_write q = false -> (forall r, Q r) -> keeps_with V I (call q) Q.
Proof.
  intros Hq HQ c HV Hc. unfold call. destruct (exec q _) as [r w] eqn:E.
  split; [by eapply stable|]. split; [done|]. split; [|by intros a [= <-]].
  exists [Event q r]. split; [done|]. apply Forall_singleton. by destruct q.
Qed.
Lemma keeps_range `{MapOrder} {X} (m : gmap string X) (Q : list (string * X) -> Prop) :
  (forall l, l ≡ₚ map_to_list m -> Q l) -> keeps_with V I (range m) Q.
Proof. intros HQ. apply keeps_pure. intros c. split_and!; [done..|]. intros l [= <-]. apply HQ, map_range_perm. Qed.
Lemma keeps_alloc {A} (f : nat -> A * nat) : maintains_with V I (alloc f).
Proof. apply keeps_pure. intros c. unfold alloc. by destruct (f _). Qed.
Lemma keeps_computes {A} (m : M W A) o : computes m o -> maintains_with V I m.
Proof. intros Hm. apply keeps_pure. intros c. by destruct (Hm c) as [n ->]. Qed.

Context `{!ReadsBack W} `{!Readable I}.
Lemma keeps_update_status : maintains I update_status.
Proof.
  intros c HV Hc. unfold update_status, mbind, M_bind, get_de, call, put_de, mret, M_ret. simpl.
  destruct (exec _ _) as [[de'|e] w] eqn:E; simpl; (split; [done|]).
  - apply status_reads_back in E. split; [by eapply readable|]. split; [|done]. eexists. split; [done|].
    by apply Forall_singleton.
  - split; [done|]. split; [|done]. eexists. split; [done|]. by apply Forall_singleton.
Qed.
(** The finalizers of a current object. *)
Lemma keeps_update_finalizers {B} (f : list string) (k : option error -> M W B) (Q : B -> Prop) c :
  (forall de, I de -> I (set_Finalizers f de)) ->
  (forall err, keeps_with current I (k err) Q) ->
  current (cx_world c) (cx_de c) -> I (cx_de c) ->
  let m := _ ← put_de (set_Finalizers f (cx_de c)); err ← update_de; k err in
  current (cx_world (m c).2) (cx_de (m c).2) /\ I (cx_de (m c).2) /\
  (exists l, cx_log (m c).2 = cx_log c ++ l /\ Forall (sat (sends I)) l) /\
  forall a, (m c).1 = Ret a -> Q a.
Proof.
  intros Hf Hk HV Hc m. set (de := set_Finalizers f (cx_de c)).
  assert (Hde : I de) by by apply Hf. assert (HVde : current (cx_world c) de) by by apply current_finalizers.
  unfold m, update_de, mbind, M_bind, get_de, call, put_de, mret, M_ret. simpl. fold de.
  destruct (exec (UpdateDynamicEnv de) (cx_world c)) as [[de'|e] w] eqn:E; cbn [cx_world cx_de cx_epoch cx_next cx_log].
  - apply update_reads_back in E as [Hr Hcur]; [|done].
    destruct (Hk None (mkCtx w de' (cx_epoch c) (cx_next c) (cx_log c ++ [Event (UpdateDynamicEnv de) (Ok de')])))
      as (? & ? & (l & Hl & HP) & ?); [done|by eapply readable|].
    split_and!; [done..| |done]. exists (Event (UpdateDynamicEnv de) (Ok de') :: l).
    rewrite Hl. simpl. rewrite <- app_assoc. split; [done|]. by constructor.
  - apply update_refused in E; [|done].
    destruct (Hk (Some e) (mkCtx w de (cx_epoch c) (cx_next c) (cx_log c ++ [Event (UpdateDynamicEnv de) (Err e)])))
      as (? & ? & (l & Hl & HP) & ?); [done..|].
    split_and!; [done..| |done]. exists (Event (UpdateDynamicEnv de) (Err e) :: l).
    rewrite Hl. simpl. rewrite <- app_assoc. split; [done|]. by constructor.
Qed.
End logic.

Create HintDb keeps discriminated.
#[export] Hint Resolve keeps_update_status keeps_alloc : keeps.
(** Walk through a program; a callee is a lemma of the database. *)
Ltac keeps_step :=
  lazymatch goal with
  | |- keeps_with _ _ (@mret _ _ _ _) _ => apply keeps_ret
  | |- keeps_with _ _ panic _ => apply keeps_panic
  | |- keeps_with _ _ (put_de _) _ => apply keeps_put_de; [|done]
  | |- keeps_with _ _ (call _) _ => apply keeps_call; [reflexivity|try done]
  | |- keeps_with _ _ (lift _) _ => apply keeps_lift; intros ? ?
  | |- keeps_with _ _ (get_de ≫= _) _ => apply keeps_get_de; intros ? ?
  | |- keeps_with _ _ (range _ ≫= _) _ => eapply keeps_bind; [apply (keeps_range _ (fun _ => True)); done|intros ? _]
  | |- keeps_with _ _ (call _ ≫= _) _ => eapply keeps_bind; [apply (keeps_call _ (fun _ => True)); done|intros ? _]
  | |- keeps_with _ _ (put_de _ ≫= _) _ => eapply keeps_bind; [apply (keeps_put_de _ (fun _ => True)); [|done]|intros ? _]
  | |- keeps_with _ _ (lift _ ≫= _) _ => eapply keeps_bind; [apply keeps_lift; intros ? HQ; exact HQ|cbv beta; intros ? ?]
  | |- keeps_with _ _ (@mbind _ _ _ _ _ _) _ =>
      first [eapply keeps_bind; [solve [eauto with keeps typeclass_instances nocore]|cbv beta; intros ? ?]
            |eapply (keeps_bind _ _ (fun _ => True)); [|intros ? _]]
  | |- keeps_with _ _ (match ?x with _ => _ end) _ => destruct x
  | |- keeps_with _ _ (if ?x then _ else _) _ => destruct x
  | |- keeps_with _ _ (let _ := _ in _) _ => cbv zeta
  | |- keeps_with _ _ _ _ => first [solve [eauto with keeps typeclass_instances nocore] | progress cbv beta]
  end.
Ltac keeps_tac := repeat keeps_step; try done.

(** ** The shape of a status *)

(** One of the constants, or the zero value of an entry never set. *)
Definition valid_status (rs : ResourceStatus) : Prop := rs_Status rs = "" \/ rs_Status rs ∈ lifecycle_constants.
Definition valid_resources (l : list ResourceStatus) : Prop := NoDup (map rs_key l) /\ Forall valid_status l.
Definition valid_messages (l : list StatusError) : Prop := NoDup (messages l).
Definition valid_errors (e : SubsetErrors) : Prop :=
  valid_messages (ser_Deployment e) /\ valid_messages (ser_DestinationRule e) /\
  valid_messages (ser_VirtualServices e) /\ valid_messages (ser_Subset e).
Definition fits_int64 (h : Z) : Prop := (- 2 ^ 63 <= h < 2 ^ 63)%Z.
Record subset_ok (st : SubsetStatus) : Prop := mkSubsetOk {
  subset_deployment : valid_status (ss_Deployment st);
  subset_rules : valid_resources (ss_DestinationRules st);
  subset_services : valid_resources (ss_VirtualServices st);
  subset_errors : valid_errors (SafeGetSubsetErrors st);
  subset_hash : fits_int64 (ss_Hash st);
}.
Record consumer_ok (st : ConsumerStatus) : Prop := mkConsumerOk {
  consumer_status : valid_status (cs_ResourceStatus st);
  consumer_errors : valid_messages (cs_Errors st);
  consumer_hash : fits_int64 (cs_Hash st);
}.
Record status_ok (s : DynamicEnvStatus) : Prop := mkStatusOk {
  status_subsets : map_Forall (fun _ => subset_ok) (mread (st_SubsetsStatus s));
  status_consumers : map_Forall (fun _ => consumer_ok) (mread (st_ConsumersStatus s));
}.
(** The custom resource the operator works on. *)
Record env_ok (sp : DynamicEnvSpec) (nn : NamespacedName) (de : DynamicEnv) : Prop := mkEnvOk {
  env_spec : de_Spec de = sp;
  env_name : de_nn de = nn;
  env_status : status_ok (de_Status de);
}.

Lemma fits_int64_of h : fits_int64 (int64_of h).
Proof. unfold fits_int64, int64_of. pose proof (Z.mod_pos_bound (h + 2 ^ 63) (2 ^ 64) ltac:(lia)). lia. Qed.
Lemma constant_valid name ns s : s ∈ lifecycle_constants -> valid_status (mkResourceStatus name ns s).
Proof. by right. Qed.
Lemma zero_subset_ok : subset_ok zero_SubsetStatus.
Proof. repeat split; cbn; try (by constructor); try done; by left. Qed.
Lemma zero_consumer_ok : consumer_ok zero_ConsumerStatus.
Proof. repeat split; cbn; try (by constructor); try done; by left. Qed.
Lemma zero_status_ok : status_ok zero_DynamicEnvStatus.
Proof. split; apply map_Forall_empty. Qed.
Lemma sync_valid s l : valid_status s -> valid_resources l -> valid_resources (SyncStatusResources s l).2.
Proof.
  intros Hs [Hnd Hv]. split; [by apply sync_keys_NoDup|]. rewrite Forall_forall in *.
  intros x [->|[Hx _]]%elem_of_sync; auto.
Qed.

(** The wire keeps the shape, and leaves constants only. *)
Definition constant_status (rs : ResourceStatus) : Prop := rs_Status rs ∈ lifecycle_constants.
Record wired (s : DynamicEnvStatus) : Prop := mkWired {
  wired_subsets : map_Forall (fun _ st => constant_status (ss_Deployment st) /\
      Forall constant_status (ss_DestinationRules st) /\ Forall constant_status (ss_VirtualServices st))
    (mread (st_SubsetsStatus s));
  wired_consumers : map_Forall (fun _ st => constant_status (cs_ResourceStatus st)) (mread (st_ConsumersStatus s));
}.
Lemma wire_rs_valid rs : valid_status (wire_rs rs).
Proof. right. apply wire_lifecycle_constant. Qed.
Lemma wire_resources l : valid_resources l -> valid_resources (map wire_rs l).
Proof.
  intros [Hnd _]. split; [by rewrite map_map|]. apply Forall_forall. intros rs (r & -> & _)%list_elem_of_fmap.
  apply wire_rs_valid.
Qed.
Lemma wire_messages l : valid_messages l -> valid_messages (map wire_error l).
Proof. unfold valid_messages, messages. by rewrite map_map. Qed.
Lemma wire_subset_ok st : subset_ok st -> subset_ok (wire_subset st).
Proof.
  intros [_ Hr Hv He Hh]. split; [apply wire_rs_valid|by apply wire_resources..| |done].
  unfold SafeGetSubsetErrors in *. cbn. destruct (ss_Errors st) as [e|]; [|done].
  destruct He as (? & ? & ? & ?). split_and!; by apply wire_messages.
Qed.
Lemma wire_consumer_ok st : consumer_ok st -> consumer_ok (wire_consumer st).
Proof. intros [_ He Hh]. split; [apply wire_rs_valid|by apply wire_messages|done]. Qed.
Lemma mread_fmap {V V'} (f : V -> V') (m : gomap V) : mread (fmap (M:=gmap string) f <$> m) = f <$> mread m.
Proof. destruct m; [done|]. unfold mread. simpl. by rewrite fmap_empty. Qed.
Lemma wire_status_ok s : status_ok s -> status_ok (wire_status s).
Proof.
  intros [Hs Hc]. split; cbn [wire_status st_SubsetsStatus st_ConsumersStatus]; rewrite ?mread_omit, mread_fmap;
    apply map_Forall_fmap.
  - intros k st Hk. by apply wire_subset_ok, (Hs _ _ Hk).
  - intros k st Hk. by apply wire_consumer_ok, (Hc _ _ Hk).
Qed.
Lemma wire_wired s : wired (wire_status s).
Proof.
  assert (Hl : forall l, Forall constant_status (map wire_rs l)).
  { intros l. apply Forall_forall. intros rs (r & -> & _)%list_elem_of_fmap. apply wire_lifecycle_constant. }
  split; cbn [wire_status st_SubsetsStatus st_ConsumersStatus]; rewrite ?mread_omit, mread_fmap; apply map_Forall_fmap;
    intros k st _; cbn.
  - split; [apply wire_lifecycle_constant|]. split; apply Hl.
  - apply wire_lifecycle_constant.
Qed.
#[export] Instance env_ok_readable sp nn : Readable (env_ok sp nn).
Proof.
  intros de de' (Hs & Hsp & Hnn) [? ? Hok]. split; [congruence|congruence|]. rewrite Hs. by apply wire_status_ok.
Qed.

Section writes.
Context {sp : DynamicEnvSpec} {nn : NamespacedName}.
Implicit Types (de : DynamicEnv).
Lemma env_ok_subsets m de :
  env_ok sp nn de -> map_Forall (fun _ => subset_ok) (mread m) -> env_ok sp nn (set_SubsetsStatus m de).
Proof. intros [? ? [? ?]] Hm. by split; [..|split]. Qed.
Lemma env_ok_consumers m de :
  env_ok sp nn de -> map_Forall (fun _ => consumer_ok) (mread m) -> env_ok sp nn (set_ConsumersStatus m de).
Proof. intros [? ? [? ?]] Hm. by split; [..|split]. Qed.
Lemma env_ok_finalizers f de : env_ok sp nn de -> env_ok sp nn (set_Finalizers f de).
Proof. intros [? ? [? ?]]. by split; [..|split]. Qed.
Lemma env_ok_subset_at de k :
  env_ok sp nn de -> subset_ok (mget zero_SubsetStatus (de_SubsetsStatus de) k).
Proof.
  intros [_ _ [Hs _]]. unfold mget, mlookup, de_SubsetsStatus.
  destruct (mread (st_SubsetsStatus (de_Status de)) !! k) as [st|] eqn:E; simpl; [|apply zero_subset_ok].
  exact (Hs _ _ E).
Qed.
Lemma env_ok_consumer_at de k :
  env_ok sp nn de -> consumer_ok (mget zero_ConsumerStatus (de_ConsumersStatus de) k).
Proof.
  intros [_ _ [_ Hs]]. unfold mget, mlookup, de_ConsumersStatus.
  destruct (mread (st_ConsumersStatus (de_Status de)) !! k) as [st|] eqn:E; simpl; [|apply zero_consumer_ok].
  exact (Hs _ _ E).
Qed.
Lemma env_ok_mset_subset de m m' k v :
  env_ok sp nn de -> mread m = mread (de_SubsetsStatus de) -> mset m k v = Ret m' -> subset_ok v ->
  env_ok sp nn (set_SubsetsStatus m' de).
Proof.
  intros Hde Hm Hset Hv. apply env_ok_subsets; [done|]. destruct m as [g|]; [|done]. injection Hset as <-.
  cbn in *. subst g. apply map_Forall_insert_2; [done|]. by destruct Hde as [_ _ [? _]].
Qed.
Lemma env_ok_mset_consumer de m m' k v :
  env_ok sp nn de -> mread m = mread (de_ConsumersStatus de) -> mset m k v = Ret m' -> consumer_ok v ->
  env_ok sp nn (set_ConsumersStatus m' de).
Proof.
  intros Hde Hm Hset Hv. apply env_ok_consumers; [done|]. destruct m as [g|]; [|done]. injection Hset as <-.
  cbn in *. subst g. apply map_Forall_insert_2; [done|]. by destruct Hde as [_ _ [_ ?]].
Qed.
Lemma env_ok_make_subsets de : env_ok sp nn de -> env_ok sp nn (set_SubsetsStatus (mmake (de_SubsetsStatus de)) de).
Proof. intros Hde. apply env_ok_subsets; [done|]. by destruct Hde as [_ _ [? _]]. Qed.
Lemma env_ok_make_consumers de :
  env_ok sp nn de -> env_ok sp nn (set_ConsumersStatus (mmake (de_ConsumersStatus de)) de).
Proof. intros Hde. apply env_ok_consumers; [done|]. by destruct Hde as [_ _ [_ ?]]. Qed.
Lemma env_ok_delete_subset de k :
  env_ok sp nn de -> env_ok sp nn (set_SubsetsStatus (mdelete (de_SubsetsStatus de) k) de).
Proof.
  intros Hde. apply env_ok_subsets; [done|]. rewrite mread_mdelete. apply map_Forall_delete. by destruct Hde as [_ _ [? _]].
Qed.
Lemma env_ok_delete_consumer de k :
  env_ok sp nn de -> env_ok sp nn (set_ConsumersStatus (mdelete (de_ConsumersStatus de) k) de).
Proof.
  intros Hde. apply env_ok_consumers; [done|]. rewrite mread_mdelete. apply map_Forall_delete. by destruct Hde as [_ _ [_ ?]].
Qed.
End writes.

(** ** The status manager *)
Section status_manager.
Context {W : Type} `{Client W} `{MapOrder} {sp : DynamicEnvSpec} {nn : NamespacedName}.
Local Abbreviation I := (env_ok sp nn).
Context `{!ReadsBack W}.

Lemma keeps_write_SubsetsStatus k v : subset_ok v -> maintains I (write_SubsetsStatus (W:=W) k v).
Proof. intros Hv. unfold write_SubsetsStatus. keeps_tac. by eapply env_ok_mset_subset. Qed.
Lemma keeps_write_ConsumersStatus k v : consumer_ok v -> maintains I (write_ConsumersStatus (W:=W) k v).
Proof. intros Hv. unfold write_ConsumersStatus. keeps_tac. by eapply env_ok_mset_consumer. Qed.
Lemma keeps_safeGetSubsetsStatus k : keeps_with (W:=W) (fun _ _ => True) I (safeGetSubsetsStatus k) subset_ok.
Proof.
  unfold safeGetSubsetsStatus. keeps_tac; [by apply env_ok_make_subsets|]. by eapply env_ok_subset_at, env_ok_make_subsets.
Qed.
Lemma keeps_safeGetConsumersStatus k : keeps_with (W:=W) (fun _ _ => True) I (safeGetConsumersStatus k) consumer_ok.
Proof.
  unfold safeGetConsumersStatus. keeps_tac; [by apply env_ok_make_consumers|].
  by eapply env_ok_consumer_at, env_ok_make_consumers.
Qed.
Lemma keeps_sync_errors msg errors found result :
  keeps_with (W:=W) (fun _ _ => True) I (sync_errors msg errors found result) (fun _ => True).
Proof. revert found result. induction errors as [|e errors IH]; intros found result; cbn [sync_errors]; keeps_tac; apply IH. Qed.
Lemma keeps_SyncGlobalErrors msg errors :
  valid_messages errors -> keeps_with (W:=W) (fun _ _ => True) I (SyncGlobalErrors msg errors) valid_messages.
Proof.
  intros Hv c HV Hc. pose proof (wp_SyncGlobalErrors msg errors c) as Hwp.
  assert (Hk : maintains I (SyncGlobalErrors (W:=W) msg errors)).
  { unfold SyncGlobalErrors. keeps_tac; apply keeps_sync_errors. }
  destruct (Hk c HV Hc) as (_ & Hde & Hlog & _). split; [done|]. split; [done|]. split; [done|]. intros a Ha.
  apply wp_run in Hwp as (a' & Ha' & _ & Hm & _). rewrite Ha in Ha'. injection Ha' as <-.
  unfold valid_messages. rewrite Hm. by apply add_msg_NoDup.
Qed.
Lemma keeps_sync_all msgs errors :
  valid_messages errors -> keeps_with (W:=W) (fun _ _ => True) I (sync_all msgs errors) valid_messages.
Proof.
  revert errors. induction msgs as [|msg msgs IH]; intros errors Hv; cbn [sync_all]; [by apply keeps_ret|].
  eapply keeps_bind; [by apply keeps_SyncGlobalErrors|]. intros errors' Hv'. by apply IH.
Qed.
#[local] Hint Resolve keeps_safeGetSubsetsStatus
  keeps_safeGetConsumersStatus : keeps.

Lemma keeps_AddDeploymentStatusEntry subset s tpe :
  valid_status s -> maintains I (AddDeploymentStatusEntry (W:=W) subset s tpe).
Proof.
  intros Hs. unfold AddDeploymentStatusEntry, addSubsetDeploymentStatusEntry, addConsumerDeploymentStatusEntry.
  keeps_tac.
  - apply keeps_write_SubsetsStatus. by destruct H0.
  - apply keeps_write_ConsumersStatus. by destruct H0.
Qed.
Lemma keeps_AddDestinationRuleStatusEntry subset s :
  valid_status s -> maintains I (AddDestinationRuleStatusEntry (W:=W) subset s).
Proof.
  intros Hs. unfold AddDestinationRuleStatusEntry. eapply keeps_bind; [apply keeps_safeGetSubsetsStatus|].
  intros st Hst. pose proof (sync_valid s _ Hs (subset_rules _ Hst)) as Hl.
  destruct (SyncStatusResources _ _) as [modified l]. keeps_tac. apply keeps_write_SubsetsStatus. by destruct Hst.
Qed.
Lemma keeps_AddVirtualServiceStatusEntry subset s :
  valid_status s -> maintains I (AddVirtualServiceStatusEntry (W:=W) subset s).
Proof.
  intros Hs. unfold AddVirtualServiceStatusEntry. eapply keeps_bind; [apply keeps_safeGetSubsetsStatus|].
  intros st Hst. pose proof (sync_valid s _ Hs (subset_services _ Hst)) as Hl.
  destruct (SyncStatusResources _ _) as [modified l]. keeps_tac. apply keeps_write_SubsetsStatus. by destruct Hst.
Qed.
Lemma keeps_AddGlobalVirtualServiceError subset msg :
  maintains I (AddGlobalVirtualServiceError (W:=W) subset msg).
Proof.
  unfold AddGlobalVirtualServiceError. eapply keeps_bind; [apply keeps_safeGetSubsetsStatus|].
  intros st Hst. pose proof (subset_errors _ Hst) as (H1e & H2e & H3e & H4e). cbv zeta.
  eapply keeps_bind; [by apply keeps_SyncGlobalErrors|]. intros errors He. keeps_tac.
  apply keeps_write_SubsetsStatus. by destruct Hst.
Qed.
Lemma keeps_SetGlobalState state total notReady : maintains I (SetGlobalState (W:=W) state total notReady).
Proof. unfold SetGlobalState. keeps_tac. destruct H0 as [? ? [? ?]]. by split; [..|split]. Qed.
Lemma keeps_ApplyHash name hash tpe : maintains I (ApplyHash (W:=W) name hash tpe).
Proof.
  unfold ApplyHash, setHashForConsumer, setHashForSubset. keeps_tac.
  - apply keeps_write_SubsetsStatus. destruct (env_ok_subset_at _ name H0). split; [done..|]. apply fits_int64_of.
  - by apply env_ok_make_consumers.
  - apply keeps_write_ConsumersStatus. destruct (env_ok_consumer_at _ name H2). split; [done..|]. apply fits_int64_of.
Qed.
Lemma keeps_GetHash name : maintains I (GetHashForSubset (W:=W) name).
Proof. unfold GetHashForSubset. keeps_tac. Qed.
Lemma keeps_GetHashForConsumer name : maintains I (GetHashForConsumer (W:=W) name).
Proof. unfold GetHashForConsumer. keeps_tac. Qed.
Lemma keeps_sync_subset_messages l : maintains I (sync_subset_messages (W:=W) l).
Proof.
  induction l as [|[k msgs] l IH]; cbn [sync_subset_messages]; [by apply keeps_ret|].
  apply keeps_get_de. intros de Hde. cbv zeta. set (cs := mget _ (mmake _) k).
  assert (Hcs : subset_ok cs) by apply (env_ok_subset_at de k Hde).
  pose proof (subset_errors _ Hcs) as (H1e & H2e & H3e & H4e).
  do 4 (eapply keeps_bind; [by apply keeps_sync_all|intros ? ?]). keeps_tac.
  eapply env_ok_mset_subset; [done|by apply mread_mmake|done|]. by destruct Hcs.
Qed.
Lemma keeps_sync_consumer_messages l : maintains I (sync_consumer_messages (W:=W) l).
Proof.
  induction l as [|[k msgs] l IH]; cbn [sync_consumer_messages]; [by apply keeps_ret|].
  apply keeps_get_de. intros de Hde. cbv zeta. set (cs := mget _ (mmake _) k).
  assert (Hcs : consumer_ok cs) by apply (env_ok_consumer_at de k Hde).
  eapply keeps_bind; [by apply keeps_sync_all, (consumer_errors _ Hcs)|intros ? ?]. keeps_tac.
  eapply env_ok_mset_consumer; [done|by apply mread_mmake|done|]. by destruct Hcs.
Qed.
Lemma keeps_SyncSubsetMessagesToStatus msgs : maintains I (SyncSubsetMessagesToStatus (W:=W) msgs).
Proof. unfold SyncSubsetMessagesToStatus. keeps_tac. apply keeps_sync_subset_messages. Qed.
Lemma keeps_SyncConsumerMessagesToStatus msgs : maintains I (SyncConsumerMessagesToStatus (W:=W) msgs).
Proof. unfold SyncConsumerMessagesToStatus. keeps_tac. apply keeps_sync_consumer_messages. Qed.
End status_manager.
#[export] Hint Resolve keeps_AddGlobalVirtualServiceError keeps_SetGlobalState keeps_ApplyHash keeps_GetHash
  keeps_GetHashForConsumer keeps_SyncSubsetMessagesToStatus keeps_SyncConsumerMessagesToStatus : keeps.

(** ** The handlers *)
Definition valid_result (res : result error ResourceStatus) : Prop :=
  match res with Ok rs => valid_status rs | Err _ => True end.
Definition valid_results (res : result error (list ResourceStatus)) : Prop :=
  match res with Ok l => Forall valid_status l | Err _ => True end.
Ltac constant := apply constant_valid; apply (bool_decide_unpack _); vm_compute; exact Logic.I.

Lemma deployment_lifecycle_constant updating conditions :
  deployment_lifecycle updating conditions ∈ lifecycle_constants.
Proof.
  unfold deployment_lifecycle. repeat case_match; apply (bool_decide_unpack _); vm_compute; exact Logic.I.
Qed.

Section handlers.
Context {W : Type} `{Client W} `{MapOrder} {sp : DynamicEnvSpec} {nn : NamespacedName}.
Local Abbreviation I := (env_ok sp nn).
Context `{!ReadsBack W}.

Section deployment.
Context `{SubsetHash}.
Implicit Types (h : DeploymentHandler).
Lemma keeps_createContainerTemplate cs o : maintains I (createContainerTemplate (W:=W) cs o).
Proof. unfold createContainerTemplate. keeps_tac. Qed.
Lemma keeps_override_containers what cs ovs : maintains I (override_containers (W:=W) what cs ovs).
Proof.
  revert cs. induction ovs as [|o ovs IH]; intros cs; cbn [override_containers]; keeps_tac.
  apply keeps_createContainerTemplate.
Qed.
#[local] Hint Resolve keeps_override_containers : keeps.
Lemma keeps_createOverridingDeployment h : maintains I (createOverridingDeployment (W:=W) h).
Proof. unfold createOverridingDeployment. keeps_tac. Qed.
#[local] Hint Resolve keeps_createOverridingDeployment : keeps.
Lemma keeps_Handle_deployment h : maintains I (DeploymentHandler_Handle (W:=W) h).
Proof.
  unfold DeploymentHandler_Handle, UpdateIfRequired, create_deployment, DeploymentHandler.setStatus. keeps_tac;
    apply keeps_AddDeploymentStatusEntry; constant.
Qed.
Lemma keeps_GetStatus_deployment h : keeps I (DeploymentHandler_GetStatus (W:=W) h) valid_result.
Proof.
  unfold DeploymentHandler_GetStatus. keeps_tac; cbn; [|constant].
  apply constant_valid, deployment_lifecycle_constant.
Qed.
End deployment.

Section rules.
Implicit Types (h : DestinationRuleHandler).
Lemma keeps_handle_rules h hosts : maintains I (DestinationRuleHandler.handle_hosts (W:=W) h hosts).
Proof.
  revert h. induction hosts as [|sh hosts IH]; intros h; cbn [DestinationRuleHandler.handle_hosts]; keeps_tac.
  unfold createMissingDestinationRule, generateOverridingDestinationRule, locateDestinationRuleByHostname,
    DestinationRuleHandler.setStatus. keeps_tac.
  apply keeps_AddDestinationRuleStatusEntry; constant.
Qed.
#[local] Hint Resolve keeps_handle_rules : keeps.
Lemma keeps_Handle_rules h : maintains I (DestinationRuleHandler_Handle (W:=W) h).
Proof. unfold DestinationRuleHandler_Handle. keeps_tac. Qed.
Lemma keeps_get_statuses h hosts l :
  Forall valid_status l -> keeps I (get_statuses (W:=W) h hosts l) valid_results.
Proof.
  revert l. induction hosts as [|sh hosts IH]; intros l Hl; cbn [get_statuses]; [by apply keeps_ret|].
  assert (Hnext : forall s, s ∈ lifecycle_constants ->
    Forall valid_status (l ++ [mkResourceStatus (calculateDRName h sh) (drh_Namespace h) s])).
  { intros s Hs. apply Forall_app. split; [done|]. by apply Forall_singleton, constant_valid. }
  keeps_tac; apply IH, Hnext; apply (bool_decide_unpack _); vm_compute; exact Logic.I.
Qed.
Lemma keeps_ApplyStatus_rules h l :
  Forall valid_status l -> maintains I (DestinationRuleHandler_ApplyStatus (W:=W) h l).
Proof.
  induction 1 as [|rs l Hrs _ IH]; cbn [DestinationRuleHandler_ApplyStatus]; keeps_tac.
  by apply keeps_AddDestinationRuleStatusEntry.
Qed.
End rules.

Section services.
Context `{RoutePrinter}.
Implicit Types (h : VirtualServiceHandler).
Lemma keeps_updateVirtualService h service sh : maintains I (updateVirtualService (W:=W) h service sh).
Proof.
  unfold updateVirtualService. keeps_tac.
  - apply keeps_AddVirtualServiceStatusEntry. by left.
  - eapply keeps_computes, computes_build.
Qed.
Lemma keeps_update_refs h sh store refs b : maintains I (update_refs (W:=W) h sh store refs b).
Proof.
  revert store b. induction refs as [|i refs IH]; intros store b; cbn [update_refs]; keeps_tac.
  apply keeps_updateVirtualService.
Qed.
Lemma keeps_extractServiceFromDelegate h d services :
  maintains I (extractServiceFromDelegate (W:=W) h d services).
Proof. unfold extractServiceFromDelegate. keeps_tac. Qed.
Lemma keeps_add_delegates h items ds lc : maintains I (add_delegates (W:=W) h items ds lc).
Proof.
  revert lc. induction ds as [|d ds IH]; intros lc; cbn [add_delegates]; keeps_tac.
  apply keeps_extractServiceFromDelegate.
Qed.
Lemma keeps_locate_hosts h sh items idx service hosts lc :
  maintains I (locate_hosts (W:=W) h sh items idx service hosts lc).
Proof.
  revert lc. induction hosts as [|host hosts IH]; intros lc; cbn [locate_hosts]; keeps_tac.
  apply keeps_add_delegates.
Qed.
Lemma keeps_locate_loop h sh items idx services lc :
  maintains I (locate_loop (W:=W) h sh items idx services lc).
Proof.
  revert idx lc. induction services as [|s services IH]; intros idx lc; cbn [locate_loop]; keeps_tac.
  apply keeps_locate_hosts.
Qed.
Lemma keeps_handle_services h hosts : maintains I (VirtualServiceHandler.handle_hosts (W:=W) h hosts).
Proof.
  revert h. induction hosts as [|sh hosts IH]; intros h; cbn [VirtualServiceHandler.handle_hosts]; keeps_tac.
  - unfold locateVirtualServicesByServiceHost. keeps_tac. apply keeps_locate_loop.
  - apply keeps_update_refs.
Qed.
#[local] Hint Resolve keeps_handle_services : keeps.
Lemma keeps_Handle_services h : maintains I (VirtualServiceHandler_Handle (W:=W) h).
Proof. unfold VirtualServiceHandler_Handle. keeps_tac. Qed.
Lemma keeps_fetch_services nns : maintains I (fetch_services (W:=W) nns).
Proof. induction nns as [|n nns IH]; cbn [fetch_services]; keeps_tac. Qed.
Lemma keeps_GetStatus_services h : keeps I (VirtualServiceHandler_GetStatus (W:=W) h) valid_results.
Proof.
  unfold VirtualServiceHandler_GetStatus. keeps_tac; [apply keeps_fetch_services|]. cbn. apply Forall_forall.
  intros rs (v & -> & _)%list_elem_of_fmap. unfold getStatusForService.
  destruct (routesConfiguredWithDynamicEnvRoutes _ _); constant.
Qed.
Lemma keeps_ApplyStatus_services h l :
  Forall valid_status l -> maintains I (VirtualServiceHandler_ApplyStatus (W:=W) h l).
Proof.
  induction 1 as [|rs l Hrs _ IH]; cbn [VirtualServiceHandler_ApplyStatus]; keeps_tac.
  by apply keeps_AddVirtualServiceStatusEntry.
Qed.
End services.
End handlers.

(** ** The cleanup manager *)
Section cleanup.
Context {W : Type} `{Client W} `{MapOrder} {sp : DynamicEnvSpec} {nn : NamespacedName}.
Local Abbreviation I := (env_ok sp nn).
Context `{!ReadsBack W} {V : W -> DynamicEnv -> Prop} `{!Stable V}.

Lemma keeps_deleteDeployment rs : maintains_with V I (deleteDeployment (W:=W) rs).
Proof. unfold deleteDeployment. keeps_tac. Qed.
Lemma keeps_deleteDestinationRule rs : maintains_with V I (deleteDestinationRule (W:=W) rs).
Proof. unfold deleteDestinationRule. keeps_tac. Qed.
Lemma keeps_cleanupVirtualService rs : maintains_with V I (cleanupVirtualService (W:=W) rs).
Proof. unfold cleanupVirtualService. keeps_tac. Qed.
#[local] Hint Resolve keeps_deleteDeployment keeps_deleteDestinationRule keeps_cleanupVirtualService : keeps.
Lemma keeps_delete_each delete msg items n :
  (forall rs, maintains_with V I (delete rs)) -> maintains_with V I (delete_each (W:=W) delete msg items n).
Proof.
  intros Hd. revert n. induction items as [|rs items IH]; intros n; cbn [delete_each]; keeps_tac.
Qed.
Lemma keeps_cleanup_each items : maintains_with V I (cleanup_each (W:=W) items).
Proof. induction items as [|rs items IH]; cbn [cleanup_each]; keeps_tac. Qed.
#[local] Hint Resolve keeps_cleanup_each : keeps.
Lemma keeps_deleteAllDeployments : maintains_with V I (deleteAllDeployments (W:=W)).
Proof. unfold deleteAllDeployments. keeps_tac. apply keeps_delete_each, keeps_deleteDeployment. Qed.
Lemma keeps_deleteAllDestinationRules : maintains_with V I (deleteAllDestinationRules (W:=W)).
Proof. unfold deleteAllDestinationRules. keeps_tac. apply keeps_delete_each, keeps_deleteDestinationRule. Qed.
#[local] Hint Resolve keeps_deleteAllDeployments keeps_deleteAllDestinationRules : keeps.
End cleanup.
#[export] Hint Resolve keeps_deleteDeployment keeps_deleteDestinationRule keeps_cleanupVirtualService
  keeps_cleanup_each keeps_deleteAllDeployments keeps_deleteAllDestinationRules : keeps.

Section removal.
Context {W : Type} `{Client W} `{MapOrder} {sp : DynamicEnvSpec} {nn : NamespacedName}.
Local Abbreviation I := (env_ok sp nn).
Context `{!ReadsBack W}.

(** Deletion works on the object as it was read. *)
Lemma keeps_deleteFinalizer f : maintains_with current I (deleteFinalizer (W:=W) f).
Proof.
  intros c HV Hc. unfold deleteFinalizer.
  eapply (keeps_update_finalizers _ _ _ c); [intros de; apply env_ok_finalizers| |done|done].
  intros err. by apply keeps_ret.
Qed.
#[local] Hint Resolve keeps_deleteFinalizer : keeps.
Lemma keeps_DeleteAllResources : maintains_with current I (DeleteAllResources (W:=W)).
Proof.
  unfold DeleteAllResources, finalize_counted, finalize_virtual_services, cleanupVirtualServices. keeps_tac.
Qed.
Lemma keeps_removeConsumer name : maintains I (removeConsumer (W:=W) name).
Proof.
  unfold removeConsumer. keeps_tac.
  - apply keeps_write_ConsumersStatus. destruct (env_ok_consumer_at _ name H3). split; [constant|done..].
  - by apply env_ok_delete_consumer.
Qed.
Lemma keeps_remove_rules drs b : maintains I (remove_rules (W:=W) drs b).
Proof. revert b. induction drs as [|rs drs IH]; intros b; cbn [remove_rules]; keeps_tac. Qed.
#[local] Hint Resolve keeps_remove_rules : keeps.
Lemma keeps_removeSubset name : maintains I (removeSubset (W:=W) name).
Proof.
  unfold removeSubset, remove_resources. keeps_tac.
  - apply keeps_write_SubsetsStatus. destruct (env_ok_subset_at _ name H2). split; [constant|done..].
  - by apply env_ok_delete_subset.
Qed.
#[local] Hint Resolve keeps_removeConsumer keeps_removeSubset : keeps.
Lemma keeps_remove_each items b : maintains I (remove_each (W:=W) items b).
Proof. revert b. induction items as [|[name typ] items IH]; intros b; cbn [remove_each]; keeps_tac. Qed.
Lemma keeps_cleanup_removed sts : maintains I (cleanup_removed (W:=W) sts).
Proof.
  unfold cleanup_removed, CheckForRemovedSubsetsAndConsumers, RemoveSubsetsAndConsumers. keeps_tac.
  apply keeps_remove_each.
Qed.
End removal.

(** ** The reconciler *)
Section reconciler.
Context {W : Type} `{Client W} `{MapOrder} `{RoutePrinter} `{SubsetHash} `{LabelSets}.
Context {sp : DynamicEnvSpec} {nn : NamespacedName}.
Local Abbreviation I := (env_ok sp nn).
Context `{!ReadsBack W}.

Definition sr_keeps (h : SRHandler W) : Prop :=
  keeps I (sr_GetStatus h) valid_result /\ forall rs, valid_status rs -> maintains I (sr_ApplyStatus h rs).
Definition mr_keeps (h : MRHandler W) : Prop :=
  keeps I (mr_GetStatus h) valid_results /\ forall l, Forall valid_status l -> maintains I (mr_ApplyStatus h l).
Definition handlers_keep {A} (res : A * list (SRHandler W) * list (MRHandler W)) : Prop :=
  Forall sr_keeps res.1.2 /\ Forall mr_keeps res.2.

Lemma sr_keeps_deployment h : sr_keeps (DeploymentHandler_SR h).
Proof. split; [apply keeps_GetStatus_deployment|]. intros rs Hrs. by apply keeps_AddDeploymentStatusEntry. Qed.
Lemma mr_keeps_rules h : mr_keeps (DestinationRuleHandler_MR h).
Proof.
  split; [by apply keeps_get_statuses|]. intros l Hl. by apply keeps_ApplyStatus_rules.
Qed.
Lemma mr_keeps_services h : mr_keeps (VirtualServiceHandler_MR h).
Proof. split; [apply keeps_GetStatus_services|]. intros l Hl. by apply keeps_ApplyStatus_services. Qed.
#[local] Hint Resolve sr_keeps_deployment mr_keeps_rules mr_keeps_services : core.
#[local] Hint Resolve keeps_Handle_deployment keeps_Handle_rules keeps_Handle_services : keeps.

Ltac all_keep := cbn; repeat (apply Forall_cons_2; [by auto|]); apply Forall_nil_2.
Lemma keeps_locateMatchingServiceHostnames ns ls : maintains I (locateMatchingServiceHostnames (W:=W) ns ls).
Proof. unfold locateMatchingServiceHostnames. keeps_tac. Qed.
#[local] Hint Resolve keeps_locateMatchingServiceHostnames : keeps.
Lemma keeps_process_routing r data hosts rls :
  keeps I (process_routing (W:=W) r data hosts rls) (fun res => Forall mr_keeps res.2).
Proof. unfold process_routing. keeps_tac; all_keep. Qed.
#[local] Hint Resolve keeps_process_routing : keeps.
Lemma keeps_process_one r ident st rls : keeps I (process_one (W:=W) r ident st rls) handlers_keep.
Proof.
  unfold process_one. keeps_tac; (split; cbn; [all_keep|try done; all_keep]).
Qed.
Lemma keeps_process_each r ident sts rls dhs mhs :
  Forall sr_keeps dhs -> Forall mr_keeps mhs ->
  keeps I (process_each (W:=W) r ident sts rls dhs mhs) handlers_keep.
Proof.
  revert rls dhs mhs. induction sts as [|st sts IH]; intros rls dhs mhs Hd Hm; cbn [process_each].
  { by apply keeps_ret. }
  eapply keeps_bind; [apply keeps_process_one|]. intros [[rls' dhs'] mhs'] [Hd' Hm']. apply IH; by apply Forall_app.
Qed.
Lemma keeps_process_sr hs response e : Forall sr_keeps hs -> maintains I (process_sr (W:=W) hs response e).
Proof.
  intros Hhs. revert response e. induction Hhs as [|h hs [Hg Ha] _ IH]; intros response e; cbn [process_sr].
  { by apply keeps_ret. }
  eapply keeps_bind; [exact Hg|]. intros [rs|err] Hrs; [|apply IH].
  eapply keeps_bind; [by apply Ha|]. intros err _. cbv zeta. apply IH.
Qed.
Lemma keeps_process_mr hs response e : Forall mr_keeps hs -> maintains I (process_mr (W:=W) hs response e).
Proof.
  intros Hhs. revert response e. induction Hhs as [|h hs [Hg Ha] _ IH]; intros response e; cbn [process_mr].
  { by apply keeps_ret. }
  eapply keeps_bind; [exact Hg|]. intros [l|err] Hl; [|apply IH].
  eapply keeps_bind; [by apply Ha|]. intros err _. cbv zeta. apply IH.
Qed.
Lemma keeps_conclude total rls response b : maintains I (conclude (W:=W) total rls response b).
Proof. unfold conclude. keeps_tac. Qed.
Lemma keeps_reconcile_live r : maintains I (reconcile_live (W:=W) r).
Proof.
  unfold reconcile_live, processSubsetsAndConsumers, processHandlersStatus.
  apply keeps_get_de. intros de Hde. cbv zeta. eapply keeps_bind; [apply keeps_cleanup_removed|].
  intros [inProgress cleanupError] _. eapply keeps_bind.
  { apply keeps_get_de. intros de' Hde'. by apply keeps_process_each. }
  intros [[rls dhs] mhs] [Hd Hm]. cbv zeta. eapply (keeps_bind _ _ (fun _ => True)).
  { eapply keeps_bind; [by apply keeps_process_sr|]. intros [resp e] _.
    eapply keeps_bind; [by apply keeps_process_mr|]. intros [resp' e'] _. by apply keeps_ret. }
  intros [resp err] _. cbv zeta. apply keeps_conclude.
Qed.
Lemma keeps_ensureFinalizers : maintains_with current I (ensureFinalizers (W:=W)).
Proof.
  intros c HV Hc. unfold ensureFinalizers.
  change (get_de ≫= ?g) with (fun c : ctx W => g (cx_de c) c). cbv beta.
  case_decide; [|by apply keeps_ret].
  eapply (keeps_update_finalizers _ _ _ c); [intros de; apply env_ok_finalizers| |done|done].
  intros err. by apply keeps_ret.
Qed.

(** All the custom resources one call of [Reconcile] sends. *)
Lemma Reconcile_sends r req de w (c : ctx W) :
  exec (GetDynamicEnv req) (cx_world c) = (Ok de, w) -> I de ->
  exists l, cx_log (Reconcile r req c).2 = cx_log c ++ l /\ Forall (sat (sends I)) l.
Proof.
  intros Hget Hde. unfold Reconcile.
  assert (Hbody : forall c1, current (cx_world c1) (cx_de c1) -> I (cx_de c1) -> exists l,
    cx_log ((if markedForDeletion de then DeleteAllResources else
      err ← ensureFinalizers; match err with Some err => mret (zero_Result, Some err) | None => reconcile_live r end) c1).2
    = cx_log c1 ++ l /\ Forall (sat (sends I)) l).
  { intros c1 Hcur Hc1. destruct (markedForDeletion de).
    - eapply keeps_log; [apply keeps_DeleteAllResources|exact Hcur|exact Hc1].
    - eapply (keeps_log_untie _ _ (fun _ => True)); [apply keeps_ensureFinalizers| |exact Hcur|exact Hc1]. intros [err|]; [by apply keeps_ret|].
      apply keeps_reconcile_live. }
  unfold mbind at 1, M_bind at 1, call. rewrite Hget. cbn [fst snd].
  set (c1 := mkCtx _ (cx_de c) _ _ _). unfold mbind at 1, M_bind at 1, put_de. cbn [fst snd].
  destruct (Hbody (mkCtx (cx_world c1) de (cx_epoch c1) (cx_next c1) (cx_log c1))) as (l & Hl & HP);
    [by eapply current_get|done|].
  exists (Event (GetDynamicEnv req) (Ok de) :: l). split; [|by constructor].
  rewrite Hl. cbn. by rewrite <- app_assoc.
Qed.
End reconciler.
