(* ===== verification/Lifecycle.v ===== *)
(** * The life of one environment

    The custom resource from its creation on, as a step relation: users update
    it through the webhook or ask for its deletion, and the operator reconciles
    it, each run against an API server of its own choosing.  What holds of the
    stored resource in every reachable state. *)

From stdpp Require Import base gmap sets list strings relations.
From S2P Require Import Prelude GoStrings Sha256 K8s Types Helpers Watches Client FakeCluster StatusManager Webhook Model VirtualServiceHandler VirtualServiceRouting DeploymentHandler DestinationRuleHandler CleanupManager Controller Totality StatusInvariant.

(** The custom resource an event stores: an accepted write, as answered. *)
Definition accepted_env (e : event) : option DynamicEnv :=
  match ev_req e in req R return R -> option DynamicEnv with
  | UpdateDynamicEnv _ => fun r => match r with Ok de => Some de | Err _ => None end
  | UpdateDynamicEnvStatus _ => fun r => match r with Ok de => Some de | Err _ => None end
  | _ => fun _ => None
  end (ev_res e).
(** What is stored after the calls [l], when [de] was.  A write is only accepted
    when nobody else wrote in between. *)
Definition stored_after (de : DynamicEnv) (l : list event) : DynamicEnv := default de (last (omap accepted_env l)).

Definition set_DeletionTimestamp (t : option Z) (de : DynamicEnv) : DynamicEnv :=
  mkDynamicEnv (de_Name de) (de_Namespace de) (de_Finalizers de) t (de_Spec de) (de_Status de) (de_other de).

Inductive life_step (de : DynamicEnv) : DynamicEnv -> Prop :=
| life_update de' :                  (* an update the webhook admits; the status is a subresource *)
    ValidateUpdate de' de = None -> de_nn de' = de_nn de ->
    life_step de (set_Status (de_Status de) de')
| life_delete t :                    (* a deletion request *)
    life_step de (set_DeletionTimestamp (Some t) de)
| life_reconcile W `{Client W} `{!ReadsBack W} `{MapOrder} `{RoutePrinter} `{SubsetHash} `{LabelSets}
    (r : DynamicEnvReconciler) (req : NamespacedName) (c : ctx W) (w : W) (l : list event) :
    exec (GetDynamicEnv req) (cx_world c) = (Ok de, w) ->
    cx_log (Reconcile r req c).2 = cx_log c ++ l ->
    life_step de (stored_after de l).

(** The invariant of the stored resource. *)
Record stored_ok (created : DynamicEnv) (de : DynamicEnv) : Prop := mkStoredOk {
  stored_matches : spec_IstioMatches (de_Spec de) = spec_IstioMatches (de_Spec created);
  stored_name : de_nn de = de_nn created;
  stored_well_formed : well_formed_env de;
  stored_shape : status_ok (de_Status de);
  stored_wired : wired (de_Status de);
}.

Lemma well_formed_env_spec de de' : de_Spec de' = de_Spec de -> well_formed_env de -> well_formed_env de'.
Proof. intros Hs. unfold well_formed_env, all_subsets. by rewrite Hs. Qed.
Lemma well_formed_env_update de de' :
  spec_IstioMatches (de_Spec de') = spec_IstioMatches (de_Spec de) -> well_formed_subsets (all_subsets de') ->
  well_formed_env de -> well_formed_env de'.
Proof. intros Hm Hs (H1 & H2 & _ & H4). unfold well_formed_env. rewrite Hm. done. Qed.

(** An accepted write is the last object sent, read back. *)
Lemma accepted_sends I e de' :
  sat (sends I) e -> accepted_env e = Some de' -> exists de, I de /\ reads_back de de'.
Proof.
  destruct e as [R q r]. unfold sat, accepted_env. simpl. destruct q; try done; destruct r as [d|]; try done;
    intros [HI Hr] [= <-]; eauto.
Qed.
Lemma stored_after_sends I de l :
  Forall (sat (sends I)) l ->
  stored_after de l = de \/ exists sent, I sent /\ reads_back sent (stored_after de l).
Proof.
  intros Hl. unfold stored_after. destruct (last _) as [de'|] eqn:E; [|by left]. right. simpl.
  apply last_Some_elem_of, list_elem_of_omap in E as (e & He & Ha). rewrite Forall_forall in Hl.
  exact (accepted_sends I e de' (Hl _ He) Ha).
Qed.

Lemma life_step_ok created de de' : stored_ok created de -> life_step de de' -> stored_ok created de'.
Proof.
  intros [Hm Hn Hwf Hsh Hwi] Hstep. destruct Hstep as [de' Hv Hnn|t|W ? ? ? ? ? ? r req c w l Hget Hl].
  - apply ValidateUpdate_None in Hv as (Hm' & Hs' & _). split; [exact (eq_trans Hm' Hm)|exact (eq_trans Hnn Hn)| |done|done].
    eapply (well_formed_env_update de); done.
  - split; cbn; [done|done| |done|done]. by eapply (well_formed_env_spec de).
  - destruct (Reconcile_sends (sp:=de_Spec de) (nn:=de_nn de) r req de w c Hget) as (l' & Hl' & HP); [done|].
    rewrite Hl in Hl'. apply app_inv_head in Hl' as <-.
    destruct (stored_after_sends _ de l HP) as [-> |(sent & Hsent & Hrb)]; [done|].
    destruct (readable _ _ Hrb Hsent) as [Hsp Hnn' Hok]. split; [congruence|congruence| |done|].
    + by eapply well_formed_env_spec.
    + destruct Hrb as [-> _]. apply wire_wired.
Qed.

(** C12.  A custom resource that was admitted stays well formed for life.  However
    often users update it through the webhook or ask for its deletion and the
    operator reconciles it, against whatever API answers and in whatever map
    order, even when a run panics: its matches and its name are those it was
    created with, its spec is one the webhook would admit at creation; the
    resources and the messages the status records are listed once each, under
    one of the defined life-cycle states, and its hashes are 64-bit integers;
    and an update that leaves the spec alone, such as one of the finalizers, is
    always admitted, so that deletion cannot be blocked by the webhook. *)
Theorem lifecycle_well_formed `{MapOrder} (epoch : nat) (created de : DynamicEnv)
    (Hcreate : ValidateCreate epoch created = None)
    (Hlife : rtc life_step (set_Status zero_DynamicEnvStatus created) de) :
  stored_ok created de /\ forall de', de_Spec de' = de_Spec de -> ValidateUpdate de' de = None.
Proof.
  apply ValidateCreate_None in Hcreate.
  assert (Hok : stored_ok created de).
  { assert (Hinit : stored_ok created (set_Status zero_DynamicEnvStatus created)).
    { split; [done|done|done|apply zero_status_ok|split; apply map_Forall_empty]. }
    induction Hlife as [|x y z Hxy _ IH]; [done|]. eapply IH, life_step_ok; done. }
  split; [done|]. intros de' Hs. apply ValidateUpdate_allows_removal; [by rewrite Hs| |].
  - by destruct (stored_well_formed _ _ Hok) as (_ & _ & ? & _).
  - unfold all_subsets. by rewrite Hs.
Qed.

(** *** A life *)
Module LifeExample.
(** The server takes the status sent for the one stored. *)
#[export] Instance reads_back_static : ReadsBack nat (H:=StaticCluster.client).
Proof.
  refine {| current := fun _ _ => True |}; try done.
  - intros de w de' w' _. by intros [= <- _].
  - intros de w de' w'. by intros [= <- _].
Defined.
(** What is stored after the operator's first run. *)
Definition reconciled_env : DynamicEnv := stored_after StaticCluster.env (cx_log StaticCluster.run.2).
Example first_run_stores :
  de_Finalizers reconciled_env = [DeleteDeployments; DeleteDestinationRules; CleanupVirtualServices] /\
  st_State (de_Status reconciled_env) = Processing /\
  (rs_Status ∘ ss_Deployment) <$> (mlookup (de_SubsetsStatus reconciled_env) "default/reviews") = Some Missing.
Proof. vm_compute. done. Qed.
End LifeExample.

Lemma lifecycle_well_formed_witness :
  stored_ok StaticCluster.env LifeExample.reconciled_env /\
  forall de', de_Spec de' = de_Spec LifeExample.reconciled_env ->
    ValidateUpdate de' LifeExample.reconciled_env = None.
Proof.
  apply (lifecycle_well_formed (H:=canonical_order) 0 StaticCluster.env LifeExample.reconciled_env).
  - vm_compute. reflexivity.
  - eapply rtc_once. change (set_Status zero_DynamicEnvStatus StaticCluster.env) with StaticCluster.env.
    apply (life_reconcile StaticCluster.env nat (H:=StaticCluster.client) (ReadsBack0:=LifeExample.reads_back_static)
      (H1:=canonical_order) (H2:=RoutingExample.printer) (H3:=DeploymentExample.hash) (H4:=ReconcileExample.labels)
      StaticCluster.reconciler (mkNN "default" "env") (mkCtx 0 example_de 0 0 []) 1).
    + reflexivity.
    + reflexivity.
Defined.
