(* ===== verification/Wakes.v ===== *)
(** * Who is woken by a change

    What the operator writes carries the environment among its owners, and the
    watch handler turns the owners of a changed object into requests, so that
    every environment hears of changes to what it made.  The two halves, which
    the code keeps in different packages, put together. *)

From Stdlib Require Import Ascii.
From stdpp Require Import base gmap sets list strings relations.
From S2P Require Import Prelude GoStrings Sha256 K8s Types Helpers Watches Client FakeCluster StatusManager Model VirtualServiceHandler VirtualServiceRouting DeploymentHandler DestinationRuleHandler CleanupManager Overlays Controller Totality.

(** ** Events *)
Section events.
Context {O : Type} `{Annotated O}.
Implicit Types (evt : watch_event O) (o : O) (n : NamespacedName) (q : list NamespacedName).

(** The event is about [o], as it is now or as it was. *)
Definition concerns evt o : Prop :=
  match evt with
  | CreateEvent o' | DeleteEvent o' | GenericEvent o' => o' = o
  | UpdateEvent old new => old = o \/ new = o
  end.
(** Whatever event is about [o], if it is handled at all, [n] is requested. *)
Definition wakes o n : Prop := forall evt q q',
  concerns evt o -> EnqueueRequestForAnnotation evt q = Ret q' -> n ∈ q'.

Lemma addToQueue_acc o q q' :
  addToQueue o q = Ret q' <-> exists rs, addToQueue o [] = Ret rs /\ q' = q ++ rs.
Proof. rewrite !addToQueue_entries. apply enqueue_entries_acc. Qed.
Lemma requests_wake o rs n : addToQueue o [] = Ret rs -> n ∈ rs -> wakes o n.
Proof.
  intros Hrs Hn [o'|old new|o'|o'] q q'; simpl; try (intros -> (? & Ho & ->)%addToQueue_acc;
    rewrite Hrs in Ho; injection Ho as <-; apply elem_of_app; by right).
  intros Hc. destruct (addToQueue new q) as [q1|] eqn:E1; [|done]. simpl. intros E2.
  apply addToQueue_acc in E1 as (rs1 & E1 & ->), E2 as (rs2 & E2 & ->).
  rewrite !elem_of_app. destruct Hc as [-> | ->]; rewrite Hrs in *; naive_solver.
Qed.
Lemma entry_wakes o n : no_char "/" (nn_Namespace n) = true -> entry n ∈ entries o -> wakes o n.
Proof.
  intros Hn Hin evt q q' Hc Hq.
  assert (Hrs : exists rs, addToQueue o [] = Ret rs).
  { destruct evt as [o'|old new|o'|o']; simpl in Hc, Hq;
      try (rewrite Hc in Hq; apply addToQueue_acc in Hq as (rs & Hrs & _); by exists rs).
    destruct (addToQueue new q) as [q1|] eqn:E1; [|done]. simpl in Hq.
    apply addToQueue_acc in E1 as (rs1 & E1 & ->), Hq as (rs2 & E2 & ->). destruct Hc as [-> | ->]; eauto. }
  destruct Hrs as [rs Hrs]. eapply requests_wake; [exact Hrs| |exact Hc|exact Hq].
  rewrite addToQueue_entries in Hrs. by apply (enqueue_entries_elem _ _ _ Hrs).
Qed.
(** Requests and wakes depend on the annotations alone. *)
Lemma addToQueue_annotations {O'} `{Annotated O'} (o : O) (o' : O') q :
  GetAnnotations o = GetAnnotations o' -> addToQueue o q = addToQueue o' q.
Proof. unfold addToQueue. by intros ->. Qed.
End events.

(** ** A shared virtual service *)
Section shared.
Context `{RoutePrinter} {E : NamespacedName -> Prop} {U : overlay -> Prop} {original : VirtualService}.
Context (Hfleet : fleet E U (vs_Http original)).
Context (Hvalid : forall i, E i -> valid_owner i).
Context (Hversions : forall i j, E i -> E j -> UniqueDynamicEnvName i = UniqueDynamicEnvName j -> i = j).
Implicit Types (o : overlay) (ovs : list overlay) (i : NamespacedName) (service : VirtualService).

Definition ov_env o : NamespacedName := vh_Identifier (ov_handler o).
Definition present ovs i : Prop := exists o, o ∈ ovs /\ ov_env o = i.
(** The requests of the service: of the environments [E], those present. *)
Definition owned ovs service : Prop :=
  exists rs, addToQueue service [] = Ret rs /\ forall i, E i -> (i ∈ rs <-> present ovs i).

Lemma overlay_ident o : U o -> E (ov_env o) /\ ov_version o = UniqueDynamicEnvName (ov_env o).
Proof.
  intros (data & hosts & dv & Eh & HE)%(fleet_handler _ _ _ Hfleet). unfold ov_env, ov_version. by rewrite Eh.
Qed.
Lemma owned_add o ovs service service' :
  U o -> owned ovs service ->
  GetAnnotations service' = GetAnnotations (AddToAnnotation (ov_env o) service) -> owned (ovs ++ [o]) service'.
Proof.
  intros HU (rs & Hrs & Hi) Ha. destruct (overlay_ident o HU) as [HE _].
  eexists. split; [rewrite (addToQueue_annotations _ _ _ Ha); apply AddToAnnotation_requests; [by apply Hvalid|exact Hrs]|].
  intros i HEi. specialize (Hi i HEi).
  assert (Hp : present (ovs ++ [o]) i <-> present ovs i \/ i = ov_env o).
  { unfold present. setoid_rewrite elem_of_app. setoid_rewrite list_elem_of_singleton. naive_solver. }
  rewrite Hp. case_decide as Hin; [|rewrite elem_of_app, list_elem_of_singleton]; naive_solver.
Qed.
Lemma owned_drop j ovs service service' :
  E j -> Forall U ovs -> owned ovs service ->
  GetAnnotations service' = GetAnnotations (RemoveFromAnnotation j service) ->
  owned (filter (fun o => ov_version o <> UniqueDynamicEnvName j) ovs) service'.
Proof.
  intros HEj HUs (rs & Hrs & Hi) Ha. eexists.
  split; [rewrite (addToQueue_annotations _ _ _ Ha); by apply RemoveFromAnnotation_requests; [apply Hvalid|]|].
  intros i HEi. rewrite list_elem_of_filter, Hi by done. unfold present. setoid_rewrite list_elem_of_filter.
  rewrite Forall_forall in HUs. split.
  - intros [Hne (o & Ho & <-)]. exists o. split; [split; [|done]|done].
    destruct (overlay_ident o (HUs _ Ho)) as [HE ->]. intros Hv. by apply Hne, Hversions.
  - intros (o & [Hv Ho] & <-). split; [|eauto]. intros ->. by destruct (overlay_ident o (HUs _ Ho)) as [_ ?].
Qed.

Lemma step_owned ovs ch service service' :
  Forall U ovs -> shows original ovs service -> owned ovs service -> operator_step E U ch service service' ->
  owned (apply_change (vs_Namespace original) (vs_Http original) ovs ch) service'.
Proof.
  intros HUs Hs Ho Hstep. destruct Hstep as [W ?? o service service' c r HU Hm|W ?? o service seen c HU Hret Hidle
    |W ? rs service service' c w r HE Hget Hm]; cbn [apply_change].
  - destruct (update_simulates Hfleet o ovs service service' c r HU HUs Hs Hm) as [-> _].
    eapply (owned_add o ovs service); [done..|].
    refine (emits_makes (only_writes (fun v => _ v = _)) _ _ _ _ _ Hm).
    apply emits_updateVirtualService. done.
  - by rewrite (idle_configured Hfleet o ovs service seen c).
  - apply (cleanup_makes rs c service w) in Hm as ->; [|done]. by eapply owned_drop.
Qed.
Lemma run_owned changes service :
  operator_run E U original changes service -> owned [] original ->
  owned (overlays_after (vs_Namespace original) (vs_Http original) changes) service.
Proof.
  intros Hrun H0. induction Hrun as [|changes ch service service' Hrun IH Hstep]; [done|].
  destruct (run_simulates Hfleet changes service Hrun) as [HU Hs].
  rewrite overlays_after_snoc. by eapply step_owned.
Qed.
End shared.


(** Blue was cleaned up, green is still there. *)
Example service3_wakes : addToQueue OverlayExample.service3 [] = Ret [mkNN "default" "green"].
Proof. vm_compute. reflexivity. Qed.

(** ** What one environment makes *)
Lemma entries_owned {O} `{Annotated O} (o : O) n : valid_owner n -> owned_by n o -> entries o = [entry n].
Proof.
  intros Hn Ho. unfold entries. change (mget "" (Some (mread (GetAnnotations o))) NamespacedNameAnnotation)
    with (default "" (mlookup (GetAnnotations o) NamespacedNameAnnotation)). rewrite Ho. simpl.
  change (entry n) with (Join "," [entry n]) at 1. apply Split_Join_comma; [done|].
  intros w ->%list_elem_of_singleton. by apply entry_no_comma.
Qed.
Lemma owned_requests {O} `{Annotated O} (o : O) n : valid_owner n -> owned_by n o -> addToQueue o [] = Ret [n].
Proof.
  intros Hn Ho. rewrite addToQueue_entries, (entries_owned o n) by done. by apply enqueue_entries_cons_owner, Hn.
Qed.
Lemma edit_wakes `{RoutePrinter} h sh service v :
  valid_owner (vh_Identifier h) -> is_edit h sh service v -> wakes v (vh_Identifier h).
Proof.
  intros Hv (_ & _ & _ & _ & Ha & _). apply entry_wakes; [by apply Hv|]. unfold entries. rewrite Ha.
  fold (entries (AddToAnnotation (vh_Identifier h) service)). rewrite entries_AddToAnnotation by done.
  repeat case_decide; [by left|done|apply elem_of_app; right; by left].
Qed.

(** The objects made for [ident]: new ones cause its request and no other, and
    any event about an edited service that is handled causes it. *)
Definition waking (ident : NamespacedName) : spec := fun R q _ =>
  match q with
  | CreateDeployment d | UpdateDeployment d => addToQueue d [] = Ret [ident] /\ wakes d ident
  | CreateDestinationRule d => addToQueue d [] = Ret [ident] /\ wakes d ident
  | UpdateVirtualService v => wakes v ident
  | DeleteDeployment _ | DeleteDestinationRule _ | UpdateDynamicEnv _ => False
  | _ => True
  end.
Lemma process_writes_waking `{RoutePrinter} r ident sts seen l :
  valid_owner ident -> ordered (process_writes r ident sts) seen l -> Forall (sat (waking ident)) l.
Proof.
  intros Hv. revert seen. induction l as [|[R q x] l IH]; intros seen; [constructor|]. intros [He Hl].
  constructor; [|by eapply IH]. unfold sat in *. simpl in *.
  assert (Hown : forall O (HO : Annotated O) (o : O), owned_by ident o -> addToQueue o [] = Ret [ident] /\ wakes o ident).
  { intros O HO o Ho. pose proof (owned_requests o ident Hv Ho) as Hq. split; [done|].
    eapply requests_wake; [exact Hq|by left]. }
  destruct q; simpl in *; try done.
  - destruct He as (st & _ & _ & _ & Ho). by apply Hown.
  - destruct He as (st & sh & items & original & _ & _ & _ & _ & _ & _ & _ & _ & _ & Ho). by apply Hown.
  - destruct He as (st & _ & _ & _ & Ho). by apply Hown.
  - destruct He as (st & data & hosts & dv & _ & _ & _ & <- & sh & service & _ & _ & Hedit).
    exact (edit_wakes (NewVirtualServiceHandler data hosts dv) _ _ _ Hv Hedit).
Qed.

(** C18.  An environment is woken by changes to what it made.  Whatever the API
    answers, every deployment and destination rule that processing an
    environment's subsets and consumers creates or updates causes a request for
    this environment and for no other when it is created or deleted, every
    virtual service it updates carries the environment among its owners, and any
    event about one of these objects, such as an update to or from it, requests
    the environment if the watch handler handles it at all; nothing is deleted. *)
Theorem process_each_wakes {W} `{Client W} `{MapOrder} `{RoutePrinter} `{SubsetHash} `{LabelSets}
    (r : DynamicEnvReconciler) (ident : NamespacedName) (sts : list SubsetType) (c : ctx W)
    (Hident : valid_owner ident) :
  exists l, cx_log (process_each r ident sts zero_RLS [] [] c).2 = cx_log c ++ l /\ Forall (sat (waking ident)) l.
Proof.
  destruct (traces_process_each r ident sts sts zero_RLS [] [] [] (reflexivity _) c) as (l & [Hl _] & Ho & _).
  exists l. split; [done|]. by eapply process_writes_waking.
Qed.

Lemma process_each_wakes_witness :
  let ident := mkNN "default" "env" in
  let c := mkCtx 0 StaticCluster.env 0 0 [] in
  exists l, cx_log (process_each (H:=StaticCluster.client) (H1:=canonical_order) (H2:=RoutingExample.printer)
      (H3:=DeploymentExample.hash) (H4:=ReconcileExample.labels) StaticCluster.reconciler ident
      [mkSubsetType SUBSET DeploymentExample.subset] zero_RLS [] [] c).2 = cx_log c ++ l /\
    Forall (sat (waking ident)) l.
Proof.
  intros ident c. apply (process_each_wakes (H:=StaticCluster.client) (H1:=canonical_order)
    (H2:=RoutingExample.printer) (H3:=DeploymentExample.hash) (H4:=ReconcileExample.labels)).
  repeat split; reflexivity.
Defined.
