(* ===== verification/Quiet.v ===== *)
(** * Code that finds nothing to do

    A logic for runs that only read: against a server that answers from one
    snapshot of the cluster, a piece of code returns what it should, makes no
    write and leaves the resource as it is.  What it says of the handlers when
    the deployments run, the rules exist and the services have their routes. *)

From stdpp Require Import base gmap sets list strings sorting.
From S2P Require Import Prelude GoStrings Sha256 K8s Types Helpers Watches Client FakeCluster StatusManager Model VirtualServiceHandler VirtualServiceRouting Locating DeploymentHandler DestinationRuleHandler CleanupManager Controller Totality.

(** ** What an API server shows *)
Record snapshot := mkSnapshot {
  sn_env : DynamicEnv;
  sn_deployments : NamespacedName -> option Deployment;
  sn_rules : NamespacedName -> option DestinationRule;
  sn_services : string -> list Service;
  sn_virtualservices : list VirtualService;
}.
Definition vs_nn (v : VirtualService) : NamespacedName := mkNN (vs_Namespace v) (vs_Name v).

(** In the worlds of [P] the server answers reads of the objects of the cluster
    from the snapshot, *)
Class Reads {W} `{Client W} (P : W -> Prop) (k : snapshot) : Prop := {
  shows_deployment : forall n d w, sn_deployments k n = Some d -> P w ->
    exists w', exec (GetDeployment n) w = (Ok d, w') /\ P w';
  shows_rule : forall n d w, sn_rules k n = Some d -> P w ->
    exists w', exec (GetDestinationRule n) w = (Ok d, w') /\ P w';
  shows_services : forall ns w, P w ->
    exists w', exec (ListServices ns) w = (Ok (sn_services k ns), w') /\ P w';
  shows_virtualservices : forall w, P w ->
    exists w', exec ListVirtualServices w = (Ok (sn_virtualservices k), w') /\ P w';
  shows_virtualservice : forall v w, v ∈ sn_virtualservices k -> P w ->
    exists w', exec (GetVirtualService (vs_nn v)) w = (Ok v, w') /\ P w';
}.
(** and those of the environment too. *)
Class Answers {W} `{Client W} (P : W -> Prop) (k : snapshot) : Prop := {
  answers_reads :: Reads P k;
  shows_env : forall w, P w ->
    exists w', exec (GetDynamicEnv (de_nn (sn_env k))) w = (Ok (sn_env k), w') /\ P w';
}.

(** ** The virtual services of a host *)
Section found.
Context (items : list VirtualService).
Implicit Types (h : VirtualServiceHandler) (sh : string) (service v : VirtualService).

(** The delegates are there, something is found, and what is found is routed. *)
Definition delegates_listed h sh : Prop := forall service rt d, service ∈ items -> called_by h sh service ->
  rt ∈ vs_Http service -> hr_Delegate rt = Some d -> is_Some (find_listed d items 0).
Record host_in_place h sh : Prop := mkHostInPlace {
  place_delegates : delegates_listed h sh;
  place_found : exists v, found_for items h sh v;
  place_routed : forall v, found_for items h sh v ->
    routesConfiguredWithDynamicEnvRoutes (vs_Http v) (vh_RoutePrefix h) = true;
}.
End found.

Definition running (name namespace : string) : ResourceStatus := mkResourceStatus name namespace Running.

(** ** Code that only reads *)
Definition is_read (e : event) : Prop :=
  match ev_req e with
  | GetDynamicEnv _ | GetDeployment _ | GetDestinationRule _ | GetVirtualService _ | ListServices _
  | ListDestinationRules _ | ListVirtualServices | ListDynamicEnvs | Now => True
  | _ => False
  end.

Section quiet.
Context {W : Type} `{Client W} (P : W -> Prop) (de : DynamicEnv).

(** [m] returns something in [Q], reads only, and leaves [de] as it is. *)
Definition quietly {A} (m : M W A) (Q : A -> Prop) : Prop := forall c, P (cx_world c) -> cx_de c = de ->
  wp m (fun a c' => Q a /\ P (cx_world c') /\ cx_de c' = de /\
    exists l, cx_log c' = cx_log c ++ l /\ Forall is_read l) c.

Lemma quietly_ret {A} (a : A) (Q : A -> Prop) : Q a -> quietly (mret a) Q.
Proof. intros HQ c HP Hde. apply wp_ret. split_and!; [done..|]. exists []. by rewrite app_nil_r. Qed.
Lemma quietly_mono {A} (m : M W A) (Q Q' : A -> Prop) :
  quietly m Q -> (forall a, Q a -> Q' a) -> quietly m Q'.
Proof. intros Hm HQ c HP Hde. eapply wp_mono; [|by apply Hm]. intros a c' (? & ?). split; [by apply HQ|done]. Qed.
Lemma quietly_bind {A B} (m : M W A) (f : A -> M W B) (Q : A -> Prop) (Q' : B -> Prop) :
  quietly m Q -> (forall a, Q a -> quietly (f a) Q') -> quietly (m ≫= f) Q'.
Proof.
  intros Hm Hf c HP Hde. apply wp_bind. eapply wp_mono; [|by apply Hm].
  intros a c1 (HQ & HP1 & Hde1 & l & Hl & Hr). eapply wp_mono; [|by apply (Hf a)].
  intros b c2 (HQ' & HP2 & Hde2 & l' & Hl' & Hr'). split_and!; [done..|].
  exists (l ++ l'). rewrite Hl', Hl, app_assoc. split; [done|]. by apply Forall_app.
Qed.
Lemma quietly_get_de {B} (f : DynamicEnv -> M W B) (Q : B -> Prop) :
  quietly (f de) Q -> quietly (get_de ≫= f) Q.
Proof. intros Hf c HP Hde. apply wp_bind, wp_get_de. rewrite Hde. by apply Hf. Qed.
Lemma quietly_put_de {B} de' (f : unit -> M W B) (Q : B -> Prop) :
  de' = de -> quietly (f tt) Q -> quietly (put_de de' ≫= f) Q.
Proof.
  intros -> Hf c HP Hde. apply wp_bind, wp_put_de.
  eapply wp_mono; [|by apply Hf]. done.
Qed.
Lemma quietly_lift {A} (a : A) (Q : A -> Prop) : Q a -> quietly (lift (Ret a)) Q.
Proof. apply quietly_ret. Qed.
Lemma quietly_range `{MapOrder} {V} (m : gmap string V) (Q : list (string * V) -> Prop) :
  (forall l, l ≡ₚ map_to_list m -> Q l) -> quietly (range m) Q.
Proof.
  intros HQ c HP Hde. apply wp_range. intros l Hl. split; [by apply HQ|]. split_and!; [done..|].
  exists []. by rewrite app_nil_r.
Qed.
Lemma quietly_range_empty `{MapOrder} {V B} (f : list (string * V) -> M W B) (Q : B -> Prop) :
  quietly (f []) Q -> quietly (range ∅ ≫= f) Q.
Proof.
  intros Hf. eapply quietly_bind; [apply (quietly_range _ (fun l => l = [])); intros l Hl|by intros ? ->].
  rewrite map_to_list_empty in Hl. by apply Permutation_nil_r in Hl.
Qed.
(** A read with a known answer. *)
Lemma quietly_call {R B} (q : req R) (x : R) (f : R -> M W B) (Q : B -> Prop) :
  (forall w, P w -> exists w', exec q w = (x, w') /\ P w') -> is_read (Event q x) ->
  quietly (f x) Q -> quietly (call q ≫= f) Q.
Proof.
  intros Hq Hr Hf c HP Hde. apply wp_bind, wp_call. intros x' w E.
  destruct (Hq _ HP) as (w' & E' & HP'). rewrite E in E'. injection E' as -> ->.
  eapply wp_mono; [|by apply Hf]. intros b c' (HQ & HP2 & Hde2 & l & Hl & Hrl). split_and!; [done..|].
  exists (Event q x :: l). rewrite Hl. cbn. rewrite <- app_assoc. split; [done|]. by constructor.
Qed.
End quiet.

(** ** The status manager *)
Section status.
Context {W : Type} `{Client W} {P : W -> Prop} {de : DynamicEnv}.

Lemma make_same (m : gomap SubsetStatus) (name : string) st : mlookup m name = Some st -> mmake m = m.
Proof. destruct m; [done|]. unfold mlookup, mread. simpl. by rewrite lookup_empty. Qed.
Lemma make_same_consumer (m : gomap ConsumerStatus) (name : string) st : mlookup m name = Some st -> mmake m = m.
Proof. destruct m; [done|]. unfold mlookup, mread. simpl. by rewrite lookup_empty. Qed.
Lemma quietly_safeGetSubsetsStatus name st :
  mlookup (de_SubsetsStatus de) name = Some st -> quietly P de (safeGetSubsetsStatus name) (eq st).
Proof.
  intros Hst. unfold safeGetSubsetsStatus. apply quietly_get_de. cbv zeta.
  rewrite (make_same _ _ _ Hst). apply quietly_put_de; [by destruct de as [? ? ? ? ? []]|].
  apply quietly_ret. unfold mget. change (de_SubsetsStatus (set_SubsetsStatus ?m _)) with m. by rewrite Hst.
Qed.
Lemma quietly_safeGetConsumersStatus name st :
  mlookup (de_ConsumersStatus de) name = Some st -> quietly P de (safeGetConsumersStatus name) (eq st).
Proof.
  intros Hst. unfold safeGetConsumersStatus. apply quietly_get_de. cbv zeta.
  rewrite (make_same_consumer _ _ _ Hst). apply quietly_put_de; [by destruct de as [? ? ? ? ? []]|].
  apply quietly_ret. unfold mget. change (de_ConsumersStatus (set_ConsumersStatus ?m _)) with m. by rewrite Hst.
Qed.
Lemma IsEqual_refl rs : ResourceStatus_IsEqual rs rs = true.
Proof. unfold ResourceStatus_IsEqual. by rewrite !bool_decide_eq_true_2. Qed.
(** A status that is recorded is not recorded again. *)
Lemma sync_recorded s l : NoDup (map rs_key l) -> s ∈ l -> (SyncStatusResources s l).1 = false.
Proof.
  intros Hnd Hs. unfold SyncStatusResources. rewrite sync_resources_eq.
  rewrite (bool_decide_eq_true_2 (rs_key s ∈ map rs_key l)) by by apply list_elem_of_fmap_2.
  simpl. apply bool_decide_eq_false_2. intros Hx. apply Hx. clear Hx.
  assert (Hr : forall r, r ∈ l -> replace_status s r = r).
  { intros r Hr. unfold replace_status. case_decide as Hk; [|done].
    apply list_elem_of_lookup in Hs as [i Hi]. apply list_elem_of_lookup in Hr as [j Hj].
    assert (i = j) as ->; [|congruence].
    eapply (NoDup_lookup _ i j (rs_key s) Hnd); rewrite list_lookup_fmap; [by rewrite Hi|by rewrite Hj, <- Hk]. }
  clear Hnd Hs. induction l as [|x l IH]; simpl; [done|]. rewrite Hr by by left. f_equal. apply IH.
  intros r Hx. apply Hr. by right.
Qed.

Lemma quietly_AddSubsetEntry name st s :
  mlookup (de_SubsetsStatus de) name = Some st -> ss_Deployment st = s ->
  quietly P de (AddDeploymentStatusEntry name s SUBSET) (eq None).
Proof.
  intros Hst <-. unfold AddDeploymentStatusEntry, addSubsetDeploymentStatusEntry.
  eapply quietly_bind; [by apply quietly_safeGetSubsetsStatus|]. intros ? <-. rewrite IsEqual_refl. by apply quietly_ret.
Qed.
Lemma quietly_AddConsumerEntry name st s :
  mlookup (de_ConsumersStatus de) name = Some st -> cs_ResourceStatus st = s ->
  quietly P de (AddDeploymentStatusEntry name s CONSUMER) (eq None).
Proof.
  intros Hst <-. unfold AddDeploymentStatusEntry, addConsumerDeploymentStatusEntry.
  eapply quietly_bind; [by apply quietly_safeGetConsumersStatus|]. intros ? <-. rewrite IsEqual_refl. by apply quietly_ret.
Qed.
Lemma quietly_AddRuleEntry name st s :
  mlookup (de_SubsetsStatus de) name = Some st -> NoDup (map rs_key (ss_DestinationRules st)) ->
  s ∈ ss_DestinationRules st -> quietly P de (AddDestinationRuleStatusEntry name s) (eq None).
Proof.
  intros Hst Hnd Hs. unfold AddDestinationRuleStatusEntry.
  eapply quietly_bind; [by apply quietly_safeGetSubsetsStatus|]. intros ? <-.
  pose proof (sync_recorded _ _ Hnd Hs) as Hm. destruct (SyncStatusResources _ _) as [m l]. simpl in Hm. subst m.
  by apply quietly_ret.
Qed.
Lemma quietly_AddServiceEntry name st s :
  mlookup (de_SubsetsStatus de) name = Some st -> NoDup (map rs_key (ss_VirtualServices st)) ->
  s ∈ ss_VirtualServices st -> quietly P de (AddVirtualServiceStatusEntry name s) (eq None).
Proof.
  intros Hst Hnd Hs. unfold AddVirtualServiceStatusEntry.
  eapply quietly_bind; [by apply quietly_safeGetSubsetsStatus|]. intros ? <-.
  pose proof (sync_recorded _ _ Hnd Hs) as Hm. destruct (SyncStatusResources _ _) as [m l]. simpl in Hm. subst m.
  by apply quietly_ret.
Qed.
End status.

(** ** The handlers *)
Section handlers.
Context {W : Type} `{Client W} `{MapOrder} `{RoutePrinter} `{SubsetHash} `{LabelSets}.
Context {P : W -> Prop} {k : snapshot} `{!Reads P k}.
Local Abbreviation env := (sn_env k).

(** *** Deployments *)
Section deployment.
Implicit Types (h : DeploymentHandler).
(** The hash and the status the environment records for the subset of [h]. *)
Definition recorded_hash h : option Z :=
  match dh_DeploymentType h with
  | SUBSET => uint64_of ∘ ss_Hash <$> mlookup (de_SubsetsStatus env) (dh_SubsetName h)
  | CONSUMER => uint64_of ∘ cs_Hash <$> mlookup (de_ConsumersStatus env) (dh_SubsetName h)
  end.
Definition recorded_deployment h : option ResourceStatus :=
  match dh_DeploymentType h with
  | SUBSET => ss_Deployment <$> mlookup (de_SubsetsStatus env) (dh_SubsetName h)
  | CONSUMER => cs_ResourceStatus <$> mlookup (de_ConsumersStatus env) (dh_SubsetName h)
  end.
Lemma quietly_Handle_deployment h d hash :
  sn_deployments k (searchName h) = Some d -> Hash (dh_Subset h) = Ok hash -> recorded_hash h = Some hash ->
  quietly P env (DeploymentHandler_Handle h) (eq (h, None)).
Proof.
  intros Hd Hhash Hrec. unfold DeploymentHandler_Handle. eapply quietly_call; [intros w; by apply shows_deployment|done|].
  unfold UpdateIfRequired. cbv zeta. eapply (quietly_bind _ _ _ _ (eq hash)).
  - unfold recorded_hash in Hrec. destruct (dh_DeploymentType h); unfold GetHashForSubset, GetHashForConsumer;
      apply quietly_get_de; destruct (mlookup _ _); simplify_eq/=; by apply quietly_ret.
  - intros ? <-. rewrite Hhash, decide_False by tauto. by apply quietly_ret.
Qed.
Lemma quietly_status_deployment h d :
  sn_deployments k (searchName h) = Some d -> dh_Updating h = false ->
  deployment_lifecycle false (dp_Conditions d) = Running ->
  quietly P env (DeploymentHandler_GetStatus h) (eq (Ok (running (dh_UniqueName h) (s_Namespace (dh_Subset h))))).
Proof.
  intros Hd Hu Hrun. unfold DeploymentHandler_GetStatus. cbv zeta.
  eapply quietly_call; [intros w; by apply shows_deployment|done|]. rewrite Hu, Hrun. by apply quietly_ret.
Qed.
Lemma quietly_apply_deployment h rs :
  recorded_deployment h = Some rs -> quietly P env (DeploymentHandler_ApplyStatus h rs) (eq None).
Proof.
  unfold DeploymentHandler_ApplyStatus, recorded_deployment. destruct (dh_DeploymentType h); intros (st & Hst & ->)%fmap_Some.
  - by eapply quietly_AddSubsetEntry.
  - by eapply quietly_AddConsumerEntry.
Qed.
End deployment.

(** *** Destination rules *)
Section rules.
Implicit Types (h : DestinationRuleHandler).
Definition rule_there h (sh : string) : Prop :=
  is_Some (sn_rules k (mkNN (drh_Namespace h) (calculateDRName h sh))).
Lemma quietly_handle_rules h hosts :
  Forall (rule_there h) hosts ->
  quietly P env (DestinationRuleHandler.handle_hosts h hosts)
    (eq (drh_set (drh_ignoredMissing h) (drh_activeHosts h ++ hosts) h, None)).
Proof.
  intros Hf. remember hosts as hosts0 eqn:E in Hf. assert (Hsub : hosts ⊆ hosts0) by by subst.
  clear E. revert h Hf. induction hosts as [|sh hosts IH]; intros h Hf; cbn [DestinationRuleHandler.handle_hosts].
  { apply quietly_ret. rewrite app_nil_r. by destruct h. }
  cbv zeta. pose proof Hf as Hf'. rewrite Forall_forall in Hf'. destruct (Hf' sh) as [d Hd]; [set_solver|].
  eapply quietly_call; [intros w; by apply shows_rule|done|]. eapply quietly_mono.
  - apply IH; [set_solver|]. eapply Forall_impl; [exact Hf|]. done.
  - intros ? <-. f_equal. unfold drh_add_active, drh_set. simpl. by rewrite <- app_assoc.
Qed.
Lemma quietly_Handle_rules h hosts :
  drh_ServiceHosts h = hosts -> drh_activeHosts h = [] -> hosts <> [] -> Forall (rule_there h) hosts ->
  quietly P env (DestinationRuleHandler_Handle h) (eq (drh_set (drh_ignoredMissing h) hosts h, None)).
Proof.
  intros Hh Ha Hne Hf. unfold DestinationRuleHandler_Handle. rewrite Hh.
  eapply quietly_bind; [by apply quietly_handle_rules|]. intros ? <-. rewrite Ha. cbn [app].
  rewrite decide_False; [by apply quietly_ret|]. by destruct hosts.
Qed.
Lemma quietly_get_statuses h hosts l :
  Forall (rule_there h) hosts ->
  quietly P env (get_statuses h hosts l)
    (eq (Ok (l ++ map (fun sh => running (calculateDRName h sh) (drh_Namespace h)) hosts))).
Proof.
  intros Hf. revert l. induction Hf as [|sh hosts [d Hd] _ IH]; intros l; cbn [get_statuses].
  { apply quietly_ret. by rewrite app_nil_r. }
  cbv zeta. eapply quietly_call; [intros w; by apply shows_rule|done|]. eapply quietly_mono; [apply IH|].
  intros ? <-. by rewrite <- app_assoc.
Qed.
Lemma quietly_apply_rules h st l :
  mlookup (de_SubsetsStatus env) (drh_SubsetName h) = Some st -> NoDup (map rs_key (ss_DestinationRules st)) ->
  l ⊆ ss_DestinationRules st -> quietly P env (DestinationRuleHandler_ApplyStatus h l) (eq None).
Proof.
  intros Hst Hnd. induction l as [|rs l IH]; intros Hl; cbn [DestinationRuleHandler_ApplyStatus]; [by apply quietly_ret|].
  eapply quietly_bind; [eapply quietly_AddRuleEntry; [done..|set_solver]|]. intros ? <-. apply IH. set_solver.
Qed.
End rules.

(** *** Virtual services *)
Section services.
Local Abbreviation items := (sn_virtualservices k).
Context (Hwf : Forall (fun v => Forall well_formed (vs_Http v)) items).
Implicit Types (h : VirtualServiceHandler) (lc : located).

(** The located objects are listed ones that are found for the host. *)
Definition located_ok h sh lc : Prop := lc_store lc = items /\ forall i, i ∈ lc_refs lc -> found_at items h sh i.
(** What was located stays so, and the indices of [T] are. *)
Definition locates h sh (T : nat -> Prop) lc (res : located * option error) : Prop :=
  res.2 = None /\ located_ok h sh res.1 /\ forall i, i ∈ lc_refs lc \/ T i -> i ∈ lc_refs res.1.
Lemma locates_ret h sh (T : nat -> Prop) lc :
  located_ok h sh lc -> (forall i, T i -> i ∈ lc_refs lc) -> locates h sh T lc (lc, None).
Proof. intros Hlc HT. split; [done|]. split; [done|]. by intros i [?|?%HT]. Qed.
(** First to [lc1], then on. *)
Lemma locates_trans h sh (T1 T2 T : nat -> Prop) lc lc1 res :
  locates h sh T1 lc (lc1, None) -> locates h sh T2 lc1 res -> (forall i, T i -> T1 i \/ T2 i) ->
  locates h sh T lc res.
Proof.
  intros (_ & _ & Ha) (He & Hok & Hb) HT. split; [done|]. split; [done|].
  intros i [Hi|[Hi|Hi]%HT]; apply Hb; [left; apply Ha; by left|left; apply Ha; by right|by right].
Qed.
Lemma locates_snoc h sh lc i :
  located_ok h sh lc -> found_at items h sh i ->
  locates h sh (eq i) lc (mkLocated (lc_store lc) (lc_refs lc ++ [i]), None).
Proof.
  intros [Hs Hr] Hi. split; [done|]. split; [split; [done|]|]; intros j; cbn; rewrite elem_of_app, list_elem_of_singleton.
  - intros [?| ->]; auto.
  - by intros [?| ->]; [left|right].
Qed.

Lemma quietly_add_delegates h sh ds lc :
  located_ok h sh lc ->
  (forall d, d ∈ ds -> exists i, find_listed d items 0 = Some i /\ found_at items h sh i) ->
  quietly P env (add_delegates h items ds lc)
    (locates h sh (fun i => exists d, d ∈ ds /\ find_listed d items 0 = Some i) lc).
Proof.
  revert lc. induction ds as [|d ds IH]; intros lc Hlc Hds; cbn [add_delegates].
  { apply quietly_ret, locates_ret; [done|]. by intros i (d & ?%elem_of_nil & _). }
  destruct (Hds d) as (i & Hi & Hfound); [by left|]. unfold extractServiceFromDelegate. rewrite Hi.
  pose proof (locates_snoc h sh lc i Hlc Hfound) as Hstep. pose proof Hstep as (_ & Hlc1 & _). simpl in Hlc1.
  eapply quietly_mono; [apply (IH _ Hlc1); intros d' Hd'; apply Hds; by right|].
  intros res Hres. eapply locates_trans; [exact Hstep|exact Hres|].
  intros j (d' & [->|Hd']%elem_of_cons & Hj); [left; congruence|right; eauto].
Qed.
Context {sh : string}.
Lemma quietly_locate_hosts h idx service hosts lc :
  delegates_listed items h sh -> items !! idx = Some service -> hosts ⊆ vs_Hosts service -> located_ok h sh lc ->
  quietly P env (locate_hosts h sh items idx service hosts lc)
    (locates h sh (fun i => leads items h sh idx service i /\ exists host, host ∈ hosts /\
        MatchNamespacedHost sh (vh_Namespace h) host (vs_Namespace service) = true) lc).
Proof.
  intros Hrest Hidx. revert lc. induction hosts as [|host hosts IH]; intros lc Hsub Hlc; cbn [locate_hosts].
  { apply quietly_ret, locates_ret; [done|]. by intros i (_ & x & ?%elem_of_nil & _). }
  assert (Hin : service ∈ items) by by eapply list_elem_of_lookup_2.
  destruct (MatchNamespacedHost _ _ _ _) eqn:Hm.
  2: { eapply quietly_mono; [apply IH; [set_solver|done]|]. intros res Hres.
       eapply locates_trans; [by apply (locates_ret h sh (fun _ => False) lc)|exact Hres|].
       intros i (Hl & x & [->|Hx]%elem_of_cons & Hx2); [congruence|right; eauto]. }
  assert (Hcalled : called_by h sh service) by (exists host; split; [apply Hsub; by left|done]).
  destruct (resolve_returns h sh service) as [[useSelf ds] Hres].
  { rewrite Forall_forall in Hwf. by apply Hwf. }
  rewrite Hres. eapply quietly_bind; [by apply (quietly_lift _ _ _ (eq (useSelf, ds)))|]. intros ? <-. cbv zeta.
  set (lc1 := if useSelf then _ else _).
  assert (Hself : locates h sh (fun i => useSelf = true /\ i = idx) lc (lc1, None)).
  { unfold lc1. destruct useSelf; [|by apply locates_ret; [|intros i []]].
    eapply locates_trans; [apply (locates_snoc h sh lc idx Hlc)|apply (locates_ret _ _ (fun _ => False)); [|done]|].
    - exists idx, service. split; [done|]. split; [done|]. exists true, ds. split; [done|by left].
    - apply locates_snoc; [done|]. exists idx, service. split; [done|]. split; [done|]. exists true, ds. split; [done|by left].
    - intros i [_ ->]. by left. }
  pose proof Hself as (_ & Hlc1 & _). simpl in Hlc1.
  eapply quietly_bind; [apply (quietly_add_delegates h sh ds lc1 Hlc1)|].
  - intros d Hd. destruct (resolve_delegates _ _ _ _ _ _ Hres Hd) as (rt & Hrt & Hdel).
    destruct (Hrest service rt d Hin Hcalled Hrt Hdel) as [i Hi]. exists i. split; [done|].
    exists idx, service. split; [done|]. split; [done|]. exists useSelf, ds. split; [done|]. right. by exists d.
  - intros [lc2 err] Hds. pose proof Hds as (He & Hlc2 & _). simpl in He, Hlc2. subst err.
    eapply quietly_mono; [apply IH; [set_solver|done]|]. intros res Hrec.
    eapply locates_trans; [exact Hself| |].
    { eapply (locates_trans _ _ _ _ (fun i => exists d, d ∈ ds /\ _)); [exact Hds|exact Hrec|by left]. }
    intros i ((u & ds' & Hres' & Hl) & _). rewrite Hres in Hres'. injection Hres' as <- <-.
    destruct Hl as [Hl|Hl]; [by left|by right].
Qed.
Lemma quietly_locate_loop h idx services lc :
  delegates_listed items h sh -> drop idx items = services -> located_ok h sh lc ->
  quietly P env (locate_loop h sh items idx services lc)
    (locates h sh (fun i => exists j service, idx <= j /\ items !! j = Some service /\
        called_by h sh service /\ leads items h sh j service i) lc).
Proof.
  intros Hrest. revert idx lc. induction services as [|service services IH]; intros idx lc Hdrop Hlc; cbn [locate_loop].
  { apply quietly_ret, locates_ret; [done|]. intros i (j & service & Hle & Hj & _). exfalso.
    apply (f_equal length) in Hdrop. rewrite length_drop in Hdrop. apply lookup_lt_Some in Hj. simpl in Hdrop. lia. }
  assert (Hidx : items !! idx = Some service) by (rewrite <- (Nat.add_0_r idx), <- lookup_drop, Hdrop; done).
  eapply quietly_bind; [by eapply quietly_locate_hosts|]. intros [lc1 err] Ha.
  pose proof Ha as (He & Hlc1 & _). simpl in He, Hlc1. subst err.
  eapply quietly_mono; [apply IH; [by rewrite <- Nat.add_1_r, <- drop_drop, Hdrop|done]|].
  intros res Hb. eapply locates_trans; [exact Ha|exact Hb|].
  intros i (j & service' & Hle & Hj & Hc & Hl). destruct (decide (j = idx)) as [->|Hne]; [left|right].
  - rewrite Hidx in Hj. injection Hj as <-. split; [done|]. destruct Hc as (host & Hh & Hm). by exists host.
  - exists j, service'. split; [lia|done].
Qed.
Lemma quietly_locate h :
  delegates_listed items h sh ->
  quietly P env (locateVirtualServicesByServiceHost h sh)
    (fun res => res.2 = None /\ lc_store res.1 = items /\ forall i, i ∈ lc_refs res.1 <-> found_at items h sh i).
Proof.
  intros Hrest. unfold locateVirtualServicesByServiceHost.
  eapply quietly_call; [intros w; by apply shows_virtualservices|done|].
  eapply quietly_mono; [eapply quietly_locate_loop; [done|done|]|].
  { split; [done|]. by intros i ?%elem_of_nil. }
  intros res (He & [Hs Hok] & Hall). split; [done|]. split; [done|]. intros i. split; [apply Hok|].
  intros (idx & service & Hidx & Hc & Hl). apply Hall. right. exists idx, service. split; [lia|done].
Qed.
(** A service that has the routes is left alone. *)
Lemma quietly_update_refs h refs b :
  host_in_place items h sh -> (forall i, i ∈ refs -> found_at items h sh i) ->
  quietly P env (update_refs h sh items refs b) (fun res => b = true \/ refs <> [] -> res.2 = true).
Proof.
  intros Hrest. revert b. induction refs as [|i refs IH]; intros b Hrefs; cbn [update_refs].
  { apply quietly_ret. by intros [?|?]. }
  assert (Hfound : found_at items h sh i) by (apply Hrefs; by left).
  destruct (found_listed items h sh i Hfound) as [v Hv]. rewrite Hv.
  pose proof (place_routed _ _ _ Hrest v (ex_intro _ i (conj Hv Hfound))) as Hconf.
  unfold updateVirtualService. cbv zeta. rewrite Hconf.
  eapply quietly_bind; [by apply (quietly_ret _ _ _ (eq (v, None)))|]. intros ? <-. cbv beta iota zeta.
  rewrite list_insert_id by done. eapply quietly_mono; [apply IH; intros j Hj; apply Hrefs; by right|].
  intros res Hres _. apply Hres. by left.
Qed.
End services.

Implicit Types (h : VirtualServiceHandler).
Context (Hwf : Forall (fun v => Forall well_formed (vs_Http v)) (sn_virtualservices k)).

(** What a handler has found so far does not change what it finds. *)
Lemma host_in_place_set items h sh active vss :
  host_in_place items h sh -> host_in_place items (vh_set_hosts active vss h) sh.
Proof.
  intros [Hd [v Hf] Hr]. split; [exact Hd|exists v; by apply (found_for_set items h active vss)|].
  intros v' Hv'. apply Hr. by apply (found_for_set items h active vss).
Qed.

(** The services remembered for each of the hosts are those found for it. *)
Definition remembers (items : list VirtualService) h (hosts : list string)
    (vss : gmap string (list NamespacedName)) : Prop :=
  forall sh, sh ∈ hosts -> exists nns, vss !! sh = Some nns /\
    forall nn, nn ∈ nns <-> exists v, found_for items h sh v /\ nn = vs_nn v.
Lemma remembers_insert items h hosts vss sh nns :
  remembers items h hosts vss -> (forall nn, nn ∈ nns <-> exists v, found_for items h sh v /\ nn = vs_nn v) ->
  remembers items h (hosts ++ [sh]) (<[sh := nns]> vss).
Proof.
  intros Hr Hn sh' Hin. destruct (decide (sh' = sh)) as [->|Hne]; [exists nns; by rewrite lookup_insert_eq|].
  rewrite lookup_insert_ne by done. apply Hr. apply elem_of_app in Hin as [?|?%list_elem_of_singleton]; done.
Qed.
Lemma deref_found items h sh refs :
  (forall i, i ∈ refs <-> found_at items h sh i) ->
  forall nn, nn ∈ toNamespacedName (deref items refs) <-> exists v, found_for items h sh v /\ nn = vs_nn v.
Proof.
  intros Hrefs nn. unfold toNamespacedName, deref. rewrite list_elem_of_fmap. setoid_rewrite list_elem_of_omap. split.
  - intros (v & -> & i & Hi & Hv). exists v. split; [|done]. exists i. split; [done|]. by apply Hrefs.
  - intros (v & (i & Hv & Hi) & ->). exists v. split; [done|]. exists i. split; [by apply Hrefs|done].
Qed.
Lemma remembers_set items h hosts active vss vss' :
  remembers items (vh_set_hosts active vss h) hosts vss' <-> remembers items h hosts vss'.
Proof. unfold remembers. by setoid_rewrite found_for_set. Qed.

Lemma quietly_handle_services h hosts :
  Forall (host_in_place (sn_virtualservices k) h) hosts ->
  remembers (sn_virtualservices k) h (vh_activeHosts h) (vh_virtualServices h) ->
  quietly P env (VirtualServiceHandler.handle_hosts h hosts) (fun res => exists vss,
    res = (vh_set_hosts (vh_activeHosts h ++ hosts) vss h, None) /\
    remembers (sn_virtualservices k) h (vh_activeHosts h ++ hosts) vss).
Proof.
  revert h. induction hosts as [|sh hosts IH]; intros h Hrest Hrem; cbn [VirtualServiceHandler.handle_hosts].
  { apply quietly_ret. exists (vh_virtualServices h). rewrite app_nil_r. split; [by destruct h|done]. }
  apply Forall_cons in Hrest as [Hsh Hrest]. eapply quietly_bind; [by eapply quietly_locate, place_delegates|].
  intros [lc err] (He & Hstore & Hrefs). simpl in He, Hstore, Hrefs. subst err. cbv zeta. rewrite Hstore.
  set (vss := <[sh := _]> _). set (h1 := vh_set_hosts _ vss h).
  assert (Hne : lc_refs lc <> []).
  { destruct (place_found _ _ _ Hsh) as (v & i & _ & Hi%Hrefs). intros E. rewrite E in Hi. by apply elem_of_nil in Hi. }
  eapply quietly_bind; [apply (quietly_update_refs h1 (lc_refs lc) false); [by apply host_in_place_set|]|].
  { intros i Hi. by apply found_at_set, Hrefs. }
  intros [store b] Hb. simpl in Hb. rewrite (Hb (or_intror Hne)). eapply quietly_mono.
  - apply (IH (vh_set_hosts (vh_activeHosts h ++ [sh]) vss h)).
    + eapply Forall_impl; [exact Hrest|]. intros sh'. apply host_in_place_set.
    + apply remembers_set. cbn [vh_virtualServices vh_activeHosts vh_set_hosts]. apply remembers_insert; [done|].
      by apply deref_found.
  - intros res (vss' & -> & Hrem'). exists vss'. apply remembers_set in Hrem'.
    cbn [vh_activeHosts vh_set_hosts] in *. rewrite <- app_assoc in *. done.
Qed.
Lemma quietly_Handle_services h :
  vh_activeHosts h = [] -> vh_ServiceHosts h <> [] ->
  Forall (host_in_place (sn_virtualservices k) h) (vh_ServiceHosts h) ->
  quietly P env (VirtualServiceHandler_Handle h) (fun res => exists vss,
    res = (vh_set_hosts (vh_ServiceHosts h) vss h, None) /\
    remembers (sn_virtualservices k) h (vh_ServiceHosts h) vss).
Proof.
  intros Ha Hne Hrest. unfold VirtualServiceHandler_Handle. cbv zeta. eapply quietly_bind.
  { apply (quietly_handle_services (vh_set_hosts (vh_activeHosts h) ∅ h)).
    - eapply Forall_impl; [exact Hrest|]. intros sh. apply host_in_place_set.
    - cbn [vh_activeHosts vh_set_hosts]. rewrite Ha. by intros sh ?%elem_of_nil. }
  intros ? (vss & -> & Hrem). apply remembers_set in Hrem. cbn [vh_activeHosts vh_ServiceHosts vh_set_hosts] in *.
  rewrite Ha in *. cbn [app] in *. rewrite decide_False by by destruct (vh_ServiceHosts h).
  apply quietly_ret. by exists vss.
Qed.
Lemma quietly_fetch_services (R : VirtualService -> Prop) nns :
  (forall nn, nn ∈ nns -> exists v, v ∈ sn_virtualservices k /\ R v /\ nn = vs_nn v) ->
  quietly P env (fetch_services nns) (fun res => exists vs, res = Ok vs /\ Forall R vs /\ map vs_nn vs = nns).
Proof.
  induction nns as [|nn nns IH]; intros Hnns; cbn [fetch_services].
  { apply quietly_ret. by exists []. }
  destruct (Hnns nn) as (v & Hv & HR & ->); [by left|].
  eapply quietly_call; [intros w; by apply shows_virtualservice|done|].
  eapply quietly_bind; [apply IH; intros n' Hn'; apply Hnns; by right|]. intros ? (vs & -> & Hvs & Hmap).
  apply quietly_ret. exists (v :: vs). split; [done|]. split; [by constructor|]. simpl. by rewrite Hmap.
Qed.

(** The statuses are those of the services found for the hosts, all running. *)
Definition reports_found (items : list VirtualService) h (hosts : list string) (l : list ResourceStatus) : Prop :=
  forall rs, rs ∈ l <-> exists sh v, sh ∈ hosts /\ found_for items h sh v /\ rs = running (vs_Name v) (vs_Namespace v).
Lemma quietly_status_services h :
  Forall (host_in_place (sn_virtualservices k) h) (vh_ServiceHosts h) ->
  remembers (sn_virtualservices k) h (vh_ServiceHosts h) (vh_virtualServices h) ->
  quietly P env (VirtualServiceHandler_GetStatus h) (fun res =>
    exists l, res = Ok l /\ reports_found (sn_virtualservices k) h (vh_ServiceHosts h) l).
Proof.
  intros Hrest Hrem. unfold VirtualServiceHandler_GetStatus.
  set (ok := fun v => exists sh, sh ∈ vh_ServiceHosts h /\ found_for (sn_virtualservices k) h sh v).
  set (nns := concat _).
  assert (Hnns : forall nn, nn ∈ nns <-> exists v, ok v /\ nn = vs_nn v).
  { intros nn. unfold nns, ok. rewrite list_elem_of_In, in_concat. setoid_rewrite <- list_elem_of_In.
    setoid_rewrite list_elem_of_fmap. split.
    - intros (l & (sh & -> & Hsh) & Hnn). destruct (Hrem sh Hsh) as (l & El & Hl). rewrite El in Hnn.
      apply Hl in Hnn as (v & Hv & ->). eauto.
    - intros (v & (sh & Hsh & Hv) & ->). destruct (Hrem sh Hsh) as (l & El & Hl). exists l. split; [|apply Hl; eauto].
      exists sh. by rewrite El. }
  eapply quietly_bind; [apply (quietly_fetch_services ok nns)|].
  - intros nn (v & Hv & ->)%Hnns. exists v. split; [|done]. destruct Hv as (sh & _ & i & Hi & _).
    by eapply list_elem_of_lookup_2.
  - intros ? (vs & -> & Hvs & Hmap). apply quietly_ret. eexists. split; [done|]. intros rs. rewrite list_elem_of_fmap.
    rewrite Forall_forall in Hvs. rewrite Forall_forall in Hrest.
    assert (Hst : forall v, v ∈ vs -> getStatusForService h v = running (vs_Name v) (vs_Namespace v)).
    { intros v (sh & Hsh & Hv)%Hvs. unfold getStatusForService.
      by rewrite (place_routed _ _ _ (Hrest sh Hsh) v Hv). }
    split.
    + intros (v & -> & Hv). pose proof (Hvs v Hv) as (sh & Hsh & Hf). exists sh, v. by rewrite Hst.
    + intros (sh & v & Hsh & Hf & ->). assert (Hin : vs_nn v ∈ map vs_nn vs).
      { rewrite Hmap. apply Hnns. exists v. split; [by exists sh|done]. }
      apply list_elem_of_fmap in Hin as (v' & E & Hv'). exists v'. split; [|done]. rewrite Hst by done.
      injection E as -> ->. done.
Qed.
Lemma quietly_apply_services h st l :
  mlookup (de_SubsetsStatus env) (vh_SubsetName h) = Some st -> NoDup (map rs_key (ss_VirtualServices st)) ->
  l ⊆ ss_VirtualServices st -> quietly P env (VirtualServiceHandler_ApplyStatus h l) (eq None).
Proof.
  intros Hst Hnd. induction l as [|rs l IH]; intros Hl; cbn [VirtualServiceHandler_ApplyStatus]; [by apply quietly_ret|].
  eapply quietly_bind; [eapply quietly_AddServiceEntry; [done..|set_solver]|]. intros ? <-. apply IH. set_solver.
Qed.
End handlers.
