(* ===== verification/AtRest.v ===== *)
(** * An environment at rest

    The operator is driven by events its own writes cause, so a run that has
    nothing to do must not write anything new.  [at_rest] says when that is: all
    the environment asks for is there and running ([in_place]), and recorded.  A
    run against an API that shows such a cluster only reads, ends with a status
    update that changes nothing, asks for nothing, and so does every later run. *)

From stdpp Require Import base gmap sets list strings sorting.
From S2P Require Import Prelude GoStrings Sha256 K8s Types Helpers Watches Client FakeCluster StatusManager Model VirtualServiceHandler VirtualServiceRouting Locating DeploymentHandler DestinationRuleHandler CleanupManager Controller Totality Quiet.

(** ** What a status records *)
Inductive record :=
| RecDeployment (tpe : SubsetOrConsumer) (name : string) (rs : ResourceStatus)
| RecRule (name : string) (rs : ResourceStatus)
| RecService (name : string) (rs : ResourceStatus).
Definition recorded (de : DynamicEnv) (rec : record) : Prop :=
  match rec with
  | RecDeployment SUBSET name rs => ss_Deployment <$> mlookup (de_SubsetsStatus de) name = Some rs
  | RecDeployment CONSUMER name rs => cs_ResourceStatus <$> mlookup (de_ConsumersStatus de) name = Some rs
  | RecRule name rs => exists st, mlookup (de_SubsetsStatus de) name = Some st /\ rs ∈ ss_DestinationRules st
  | RecService name rs => exists st, mlookup (de_SubsetsStatus de) name = Some st /\ rs ∈ ss_VirtualServices st
  end.
(** No resource is listed twice. *)
Definition listed_once (de : DynamicEnv) : Prop :=
  map_Forall (fun _ st => NoDup (map rs_key (ss_DestinationRules st)) /\ NoDup (map rs_key (ss_VirtualServices st)))
    (mread (de_SubsetsStatus de)).

(** ** Rest *)
Section rest.
Context `{SubsetHash} `{LabelSets} (r : DynamicEnvReconciler) (k : snapshot).
Local Abbreviation env := (sn_env k).
Local Abbreviation items := (sn_virtualservices k).
Local Abbreviation parts := (mergeSubsetsAndConsumers (spec_Subsets (de_Spec env)) (spec_Consumers (de_Spec env))).
Implicit Types (s : Subset) (st : SubsetType) (base : Deployment) (hosts : list string) (services : list Service).

(** The handlers a run makes. *)
Definition subset_data base s : DynamicEnvReconcileData :=
  mkReconcileData (de_nn env) base s (default [] (spec_IstioMatches (de_Spec env))).
Definition default_version s : string :=
  if decide (s_DefaultVersion s <> "") then s_DefaultVersion s else r_DefaultVersion r.
Definition deployment_handler base st : DeploymentHandler :=
  NewDeploymentHandler (subset_data base (stt_Subset st)) (stt_Type st) (r_LabelsToRemove r) (r_VersionLabel r).
Definition rule_handler base s hosts : DestinationRuleHandler :=
  NewDestinationRuleHandler (subset_data base s) (r_VersionLabel r) (default_version s) hosts.
Definition service_handler base s hosts : VirtualServiceHandler :=
  NewVirtualServiceHandler (subset_data base s) hosts (default_version s).
(** The base deployment of a subset, and the hosts it is served under. *)
Definition based s base : Prop := sn_deployments k (mkNN (s_Namespace s) (s_Name s)) = Some base.
Definition served_under s base hosts : Prop := exists services,
  matching_services (sn_services k (s_Namespace s)) (pt_Labels (ds_Template (dp_Spec base))) = Ok services /\
  services <> [] /\ hosts = sort_Strings (map sv_Name services).

Record routing_in_place s base hosts : Prop := mkRoutingInPlace {
  place_served : served_under s base hosts;
  place_rules : Forall (rule_there (k:=k) (rule_handler base s hosts)) hosts;
  place_hosts : Forall (host_in_place items (service_handler base s hosts)) hosts;
}.
Definition part_in_place st : Prop := exists base d hash,
  let h := deployment_handler base st in
  based (stt_Subset st) base /\ sn_deployments k (searchName h) = Some d /\
  deployment_lifecycle false (dp_Conditions d) = Running /\
  Hash (stt_Subset st) = Ok hash /\ recorded_hash (k:=k) h = Some hash /\
  (stt_Type st = SUBSET -> exists hosts, routing_in_place (stt_Subset st) base hosts).

(** Everything the environment asks for is there and running; the status knows
    what is asked for and nothing else, and is as it comes from the wire. *)
Record in_place : Prop := mkInPlace {
  place_alive : de_DeletionTimestamp env = None;
  place_finalizers : de_Finalizers env <> [];
  place_once : NoDup (map (fun st => MKSubsetName (stt_Subset st)) parts);
  place_known : forall name,
    is_Some (mlookup (de_SubsetsStatus env) name) \/ is_Some (mlookup (de_ConsumersStatus env) name) ->
    name ∈ map (fun st => MKSubsetName (stt_Subset st)) parts;
  place_listed : listed_once env;
  place_wire : wire_status (de_Status env) = de_Status env;
  place_valid : Forall (fun v => Forall well_formed (vs_Http v)) items;
  place_parts : Forall part_in_place parts;
}.

(** What the status should record then. *)
Inductive wished : record -> Prop :=
| wished_deployment st base :
    st ∈ parts -> based (stt_Subset st) base ->
    wished (RecDeployment (stt_Type st) (MKSubsetName (stt_Subset st))
      (running (dh_UniqueName (deployment_handler base st)) (s_Namespace (stt_Subset st))))
| wished_rule s base hosts sh :
    mkSubsetType SUBSET s ∈ parts -> based s base -> served_under s base hosts -> sh ∈ hosts ->
    wished (RecRule (MKSubsetName s) (running (calculateDRName (rule_handler base s hosts) sh) (s_Namespace s)))
| wished_service s base hosts sh v :
    mkSubsetType SUBSET s ∈ parts -> based s base -> served_under s base hosts -> sh ∈ hosts ->
    found_for items (service_handler base s hosts) sh v ->
    wished (RecService (MKSubsetName s) (running (vs_Name v) (vs_Namespace v))).

Record at_rest : Prop := mkAtRest {
  rest_in_place : in_place;
  rest_recorded : forall rec, wished rec -> recorded env rec;
  rest_state : st_State (de_Status env) = Ready;
  rest_total : st_TotalCount (de_Status env) = Z.of_nat (length parts);
  rest_ready : st_TotalReady (de_Status env) = Z.of_nat (length parts);
}.
End rest.

(** A server that, besides, accepts a status update that changes nothing. *)
Class Shows {W} `{Client W} (P : W -> Prop) (k : snapshot) : Prop := {
  shows_answers :: Answers P k;
  shows_no_change : forall w, P w ->
    exists w', exec (UpdateDynamicEnvStatus (sn_env k)) w = (Ok (sn_env k), w') /\ P w';
}.

(** ** The loop *)
Section loop.
Context {W : Type} `{Client W} `{MapOrder} `{RoutePrinter} `{SubsetHash} `{LabelSets}.
Context (r : DynamicEnvReconciler) {P : W -> Prop} {k : snapshot} `{!Reads P k}.
Local Abbreviation env := (sn_env k).
Local Abbreviation items := (sn_virtualservices k).
Implicit Types (s : Subset) (st : SubsetType) (hosts : list string) (srh : SRHandler W) (mrh : MRHandler W).

(** The handlers the loop leaves behind. *)
Definition sr_of (p : SubsetType * Deployment) : SRHandler W := DeploymentHandler_SR (deployment_handler r k p.2 p.1).
Inductive mr_made :=
| RulesMade (s : Subset) (base : Deployment) (hosts : list string)
| ServicesMade (s : Subset) (base : Deployment) (hosts : list string) (vss : gmap string (list NamespacedName)).
Definition mr_of (m : mr_made) : MRHandler W :=
  match m with
  | RulesMade s base hosts => DestinationRuleHandler_MR (drh_set [] hosts (rule_handler r k base s hosts))
  | ServicesMade s base hosts vss => VirtualServiceHandler_MR (vh_set_hosts hosts vss (service_handler r k base s hosts))
  end.
Definition mr_ok (sts : list SubsetType) (m : mr_made) : Prop :=
  match m with
  | RulesMade s base hosts => mkSubsetType SUBSET s ∈ sts /\ based k s base /\ served_under k s base hosts
  | ServicesMade s base hosts vss => mkSubsetType SUBSET s ∈ sts /\ based k s base /\ served_under k s base hosts /\
      remembers items (service_handler r k base s hosts) hosts vss
  end.
Lemma mr_ok_mono sts sts' m : sts ⊆ sts' -> mr_ok sts m -> mr_ok sts' m.
Proof. intros Hs. destruct m; simpl; intros (Hin & ?); (split; [by apply Hs|done]). Qed.
(** One per part, and two more per subset. *)
Record made (sts : list SubsetType) (l : list (SubsetType * Deployment)) (ms : list mr_made) : Prop := mkMade {
  made_parts : l.*1 = sts;
  made_based : Forall (fun p => based k (stt_Subset p.1) p.2) l;
  made_ok : Forall (mr_ok sts) ms;
  made_rules : forall s, mkSubsetType SUBSET s ∈ sts -> exists base hosts, RulesMade s base hosts ∈ ms;
  made_services : forall s, mkSubsetType SUBSET s ∈ sts -> exists base hosts vss, ServicesMade s base hosts vss ∈ ms;
}.
Lemma made_nil : made [] [] [].
Proof. split; [done|constructor..|by intros ? ?%elem_of_nil|by intros ? ?%elem_of_nil]. Qed.
Lemma made_app sts1 l1 ms1 sts2 l2 ms2 : made sts1 l1 ms1 -> made sts2 l2 ms2 -> made (sts1 ++ sts2) (l1 ++ l2) (ms1 ++ ms2).
Proof.
  intros [A1 A2 A3 A4 A5] [B1 B2 B3 B4 B5]. split.
  - by rewrite fmap_app, A1, B1.
  - by apply Forall_app.
  - apply Forall_app. split; (eapply Forall_impl; [done|]); intros m; apply mr_ok_mono; set_solver.
  - intros s [Hs|Hs]%elem_of_app; [destruct (A4 s Hs) as (base & hosts & Hin)|destruct (B4 s Hs) as (base & hosts & Hin)];
      exists base, hosts; apply elem_of_app; [by left|by right].
  - intros s [Hs|Hs]%elem_of_app; [destruct (A5 s Hs) as (base & hosts & vss & Hin)|destruct (B5 s Hs) as (base & hosts & vss & Hin)];
      exists base, hosts, vss; apply elem_of_app; [by left|by right].
Qed.

Lemma based_fun s base base' : based k s base -> based k s base' -> base = base'.
Proof. unfold based. congruence. Qed.
Lemma served_fun s base hosts hosts' : served_under k s base hosts -> served_under k s base hosts' -> hosts = hosts'.
Proof. intros (? & E & _ & ->) (? & E' & _ & ->). congruence. Qed.
Lemma served_some s base hosts : served_under k s base hosts -> hosts <> [].
Proof.
  intros (services & _ & Hne & ->) E. apply Hne, (fmap_nil_inv sv_Name), Permutation_nil_r.
  by rewrite <- sort_Strings_Permutation, <- E.
Qed.
Lemma quietly_hosts s base hosts :
  served_under k s base hosts ->
  quietly P env (locateMatchingServiceHostnames (s_Namespace s) (pt_Labels (ds_Template (dp_Spec base)))) (eq (Ok hosts)).
Proof.
  intros (services & Hm & Hne & ->). unfold locateMatchingServiceHostnames.
  eapply quietly_call; [intros w; by apply shows_services|done|].
  cbv beta iota. rewrite Hm. destruct services; [done|]. by apply quietly_ret.
Qed.
Lemma common_host hosts : hosts <> [] -> CommonValueExists hosts hosts = true.
Proof.
  destruct hosts as [|sh hosts]; [done|]. intros _. unfold CommonValueExists. apply existsb_exists.
  exists sh. split; [by left|]. apply Contains_spec. by left.
Qed.

Context (Hwf : Forall (fun v => Forall well_formed (vs_Http v)) items).
Lemma quietly_routing base s hosts rls :
  based k s base -> routing_in_place r k s base hosts ->
  quietly P env (process_routing r (subset_data k base s) hosts rls) (fun res => res.1 = rls /\
    exists vss, res.2 = map mr_of [RulesMade s base hosts; ServicesMade s base hosts vss] /\
      remembers items (service_handler r k base s hosts) hosts vss).
Proof.
  intros Hbase [Hserved Hrules Hhosts]. pose proof (served_some _ _ _ Hserved) as Hne.
  unfold process_routing. cbv zeta. cbn [rd_Subset].
  eapply quietly_bind; [by apply (quietly_Handle_rules (rule_handler r k base s hosts) hosts)|]. intros ? <-.
  eapply quietly_bind; [by apply (quietly_Handle_services Hwf (service_handler r k base s hosts))|].
  intros ? (vss & -> & Hrem). cbv beta iota.
  change (DestinationRuleHandler_GetHosts _) with hosts. change (VirtualServiceHandler_GetHosts _) with hosts.
  rewrite common_host by done. apply quietly_ret. split; [done|]. by exists vss.
Qed.
Lemma made_consumer s base : based k s base -> made [mkSubsetType CONSUMER s] [(mkSubsetType CONSUMER s, base)] [].
Proof. intros Hb. split; [done|by apply Forall_singleton|constructor|..]; by intros ? [=]%list_elem_of_singleton. Qed.
Lemma made_subset s base hosts vss :
  based k s base -> served_under k s base hosts -> remembers items (service_handler r k base s hosts) hosts vss ->
  made [mkSubsetType SUBSET s] [(mkSubsetType SUBSET s, base)] [RulesMade s base hosts; ServicesMade s base hosts vss].
Proof.
  intros Hb Hs Hv. split; [done|by apply Forall_singleton| | |].
  - repeat constructor; simpl; try done; by apply list_elem_of_singleton.
  - intros ? [= ->]%list_elem_of_singleton. exists base, hosts. by left.
  - intros ? [= ->]%list_elem_of_singleton. exists base, hosts, vss. right. by left.
Qed.
(** The handlers of a loop. *)
Definition makes_handlers (sts : list SubsetType)
    (res : ReconcileLoopStatus * list (SRHandler W) * list (MRHandler W)) : Prop :=
  exists l ms, res = (zero_RLS, map sr_of l, map mr_of ms) /\ made sts l ms.
Lemma quietly_one st :
  part_in_place r k st -> quietly P env (process_one r (de_nn env) st zero_RLS) (makes_handlers [st]).
Proof.
  destruct st as [tpe s]. intros (base & d & hash & Hbase & Hd & Hrun & Hhash & Hrec & Hrout). cbn [stt_Subset stt_Type] in *.
  unfold process_one. cbv zeta. cbn [stt_Subset stt_Type].
  eapply quietly_call; [intros w; by apply shows_deployment|done|]. cbv beta iota. apply quietly_get_de.
  eapply quietly_bind; [by apply (quietly_Handle_deployment (deployment_handler r k base (mkSubsetType tpe s)) d hash)|].
  intros ? <-. cbv beta iota.
  destruct tpe.
  2: { apply quietly_ret. exists [(mkSubsetType CONSUMER s, base)], []. split; [done|]. by apply made_consumer. }
  destruct Hrout as [hosts Hrout]; [done|].
  eapply quietly_bind; [apply (quietly_hosts s base hosts), Hrout|]. intros ? <-. cbv beta iota.
  eapply quietly_bind; [by eapply quietly_routing|]. intros [rls mhs] (Hrls & vss & Hm & Hrem).
  cbn [fst snd] in Hrls, Hm. subst. apply quietly_ret.
  exists [(mkSubsetType SUBSET s, base)], [RulesMade s base hosts; ServicesMade s base hosts vss]. split; [done|].
  by apply made_subset; [|apply Hrout|].
Qed.
Lemma quietly_each sts sts0 l ms :
  Forall (part_in_place r k) sts -> made sts0 l ms ->
  quietly P env (process_each r (de_nn env) sts zero_RLS (map sr_of l) (map mr_of ms)) (makes_handlers (sts0 ++ sts)).
Proof.
  intros Hsts. revert sts0 l ms. induction Hsts as [|st sts Hst _ IH]; intros sts0 l ms Hmade; cbn [process_each].
  { apply quietly_ret. exists l, ms. by rewrite app_nil_r. }
  eapply quietly_bind; [by apply quietly_one|]. intros ? (l' & ms' & -> & Hm). rewrite <- !map_app.
  eapply quietly_mono; [by apply IH, (made_app sts0 l ms [st])|]. intros res. by rewrite <- app_assoc.
Qed.

(** *** What left the spec *)
Lemma quietly_cleanup sts :
  (forall name, is_Some (mlookup (de_SubsetsStatus env) name) \/ is_Some (mlookup (de_ConsumersStatus env) name) ->
    name ∈ map (fun st => MKSubsetName (stt_Subset st)) sts) ->
  quietly P env (cleanup_removed sts) (eq (false, None)).
Proof.
  intros Hknown. unfold cleanup_removed. eapply (quietly_bind _ _ _ _ (eq ∅)).
  - unfold CheckForRemovedSubsetsAndConsumers.
    eapply quietly_bind; [by apply (quietly_range _ _ _ (fun l => l ≡ₚ map_to_list (spec_names sts)))|]. intros all Hall.
    apply quietly_get_de.
    eapply quietly_bind; [by apply (quietly_range _ _ _ (fun l => l ≡ₚ map_to_list (mread (de_ConsumersStatus env))))|].
    intros cs Hcs.
    eapply quietly_bind; [by apply (quietly_range _ _ _ (fun l => l ≡ₚ map_to_list (mread (de_SubsetsStatus env))))|].
    intros ss Hss. apply quietly_ret. symmetry. apply map_eq. intros name. rewrite !mark_removed_lookup, lookup_empty.
    assert (Hin : name ∈ ss.*1 \/ name ∈ cs.*1 -> name ∈ all.*1).
    { rewrite Hall, Hss, Hcs, !elem_of_map_to_list_keys, spec_names_lookup. apply Hknown. }
    rewrite !bool_decide_eq_false_2; [done|naive_solver..].
  - intros ? <-. by apply quietly_ret.
Qed.

(** The statuses the handlers report. *)
Lemma quietly_sr_status st base :
  part_in_place r k st -> based k (stt_Subset st) base ->
  let h := deployment_handler r k base st in
  quietly P env (DeploymentHandler_GetStatus h) (eq (Ok (running (dh_UniqueName h) (s_Namespace (stt_Subset st))))).
Proof.
  intros (base' & d & hash & Hbase' & Hd & Hrun & _) Hbase h. pose proof (based_fun _ _ _ Hbase Hbase') as <-.
  by apply (quietly_status_deployment h d).
Qed.
Lemma quietly_rules_status s base hosts :
  part_in_place r k (mkSubsetType SUBSET s) -> based k s base -> served_under k s base hosts ->
  let h := drh_set [] hosts (rule_handler r k base s hosts) in
  quietly P env (DestinationRuleHandler_GetStatus h)
    (eq (Ok (map (fun sh => running (calculateDRName h sh) (s_Namespace s)) hosts))).
Proof.
  intros (base' & d & hash & Hbase' & _ & _ & _ & _ & Hrout) Hbase Hserved h.
  pose proof (based_fun _ _ _ Hbase Hbase') as <-. destruct Hrout as (hosts' & [Hs' Hrules _]); [done|].
  pose proof (served_fun _ _ _ _ Hserved Hs') as <-. by apply (quietly_get_statuses h hosts []).
Qed.
Lemma quietly_services_status s base hosts vss :
  part_in_place r k (mkSubsetType SUBSET s) -> based k s base -> served_under k s base hosts ->
  remembers items (service_handler r k base s hosts) hosts vss ->
  let h := vh_set_hosts hosts vss (service_handler r k base s hosts) in
  quietly P env (VirtualServiceHandler_GetStatus h)
    (fun res => exists l, res = Ok l /\ reports_found items (service_handler r k base s hosts) hosts l).
Proof.
  intros (base' & d & hash & Hbase' & _ & _ & _ & _ & Hrout) Hbase Hserved Hrem h.
  pose proof (based_fun _ _ _ Hbase Hbase') as <-. destruct Hrout as (hosts' & [Hs' _ Hhosts]); [done|].
  pose proof (served_fun _ _ _ _ Hserved Hs') as <-. eapply quietly_mono.
  - apply (quietly_status_services h); [|by apply remembers_set].
    eapply Forall_impl; [exact Hhosts|]. intros sh. apply host_in_place_set.
  - intros ? (l & -> & Hl). exists l. split; [done|]. intros rs. rewrite (Hl rs). cbn [vh_ServiceHosts vh_set_hosts h service_handler NewVirtualServiceHandler].
    split; intros (sh & v & Hsh & Hf & ->); exists sh, v; (split; [done|split; [|done]]); by apply (found_for_set items _ hosts vss).
Qed.

Lemma count_failed_running subset l p :
  Forall (fun rs => rs_Status rs = Running) l -> count_failed subset l p = p.
Proof. induction 1 as [|rs l Hrs _ IH]; simpl; [done|]. by rewrite Hrs. Qed.

(** *** Nothing to record *)
Local Abbreviation parts := (mergeSubsetsAndConsumers (spec_Subsets (de_Spec env)) (spec_Consumers (de_Spec env))).
(** Handlers with nothing to report but what is recorded. *)
Definition sr_quiet srh : Prop := exists rs, rs_Status rs = Running /\
  quietly P env (sr_GetStatus srh) (eq (Ok rs)) /\ quietly P env (sr_ApplyStatus srh rs) (eq None).
Definition mr_quiet mrh : Prop :=
  quietly P env (mr_GetStatus mrh) (fun res => exists l, res = Ok l /\
    Forall (fun rs => rs_Status rs = Running) l /\ quietly P env (mr_ApplyStatus mrh l) (eq None)).

Lemma part_at st : in_place r k -> st ∈ parts -> part_in_place r k st.
Proof. intros Hp Hst. pose proof (place_parts _ _ Hp) as Hparts. rewrite Forall_forall in Hparts. by apply Hparts. Qed.
Lemma wished_subset s (st : SubsetStatus) :
  in_place r k -> mlookup (de_SubsetsStatus env) (MKSubsetName s) = Some st ->
  NoDup (map rs_key (ss_DestinationRules st)) /\ NoDup (map rs_key (ss_VirtualServices st)).
Proof. intros Hp Hst. exact (place_listed _ _ Hp _ _ Hst). Qed.
Lemma sr_of_quiet st base : at_rest r k -> st ∈ parts -> based k (stt_Subset st) base -> sr_quiet (sr_of (st, base)).
Proof.
  intros [Hp Hrec _ _ _] Hst Hbase. eexists. split; [|split; [by apply quietly_sr_status; [apply part_at|]|]]; [done|].
  apply quietly_apply_deployment. pose proof (Hrec _ (wished_deployment _ _ _ _ Hst Hbase)) as Hr.
  unfold recorded_deployment. simpl in *. by destruct (stt_Type st).
Qed.
Lemma subset_entry s : in_place r k -> mkSubsetType SUBSET s ∈ parts ->
  is_Some (mlookup (de_SubsetsStatus env) (MKSubsetName s)).
Proof.
  intros Hp Hs. destruct (part_at _ Hp Hs) as (base & d & hash & _ & _ & _ & _ & Hh & _).
  unfold recorded_hash in Hh. simpl in Hh. destruct (mlookup _ _); [by eexists|done].
Qed.
Lemma mr_of_quiet m : at_rest r k -> mr_ok parts m -> mr_quiet (mr_of m).
Proof.
  intros [Hp Hrec _ _ _]. destruct m as [s base hosts|s base hosts vss]; simpl.
  - intros (Hs & Hbase & Hserved). pose proof (part_at _ Hp Hs) as Hpart. destruct (subset_entry s Hp Hs) as [st Hst].
    destruct (wished_subset s st Hp Hst) as [Hnd1 Hnd2].
    eapply quietly_mono; [by apply quietly_rules_status|]. intros ? <-. eexists. split; [done|].
    split; [by apply Forall_fmap, Forall_true|]. eapply quietly_apply_rules; [exact Hst|done|].
    intros rs (sh & -> & Hsh)%list_elem_of_fmap.
    destruct (Hrec _ (wished_rule _ _ _ _ _ _ Hs Hbase Hserved Hsh)) as (st' & Hst' & Hin).
    rewrite Hst in Hst'. by injection Hst' as ->.
  - intros (Hs & Hbase & Hserved & Hrem). pose proof (part_at _ Hp Hs) as Hpart.
    destruct (subset_entry s Hp Hs) as [st Hst]. destruct (wished_subset s st Hp Hst) as [Hnd1 Hnd2].
    eapply quietly_mono; [by apply quietly_services_status|]. intros ? (l & -> & Hl). exists l. split; [done|].
    split; [apply Forall_forall; by intros rs (sh & v & _ & _ & ->)%Hl|].
    eapply (quietly_apply_services Hwf); [exact Hst|done|]. intros rs (sh & v & Hsh & Hf & ->)%Hl.
    destruct (Hrec _ (wished_service _ _ _ _ _ _ _ Hs Hbase Hserved Hsh Hf)) as (st' & Hst' & Hin).
    rewrite Hst in Hst'. by injection Hst' as ->.
Qed.

Lemma quietly_process_sr srhs p e :
  (forall srh, srh ∈ srhs -> sr_quiet srh) -> quietly P env (process_sr srhs p e) (eq (p, e)).
Proof.
  induction srhs as [|srh srhs IH]; intros Hq; cbn [process_sr]; [by apply quietly_ret|].
  destruct (Hq srh) as (rs & Hrs & Hget & Happly); [by left|].
  cbv zeta. eapply quietly_bind; [exact Hget|]. intros ? <-. eapply quietly_bind; [exact Happly|]. intros ? <-.
  rewrite Hrs. apply IH. intros x Hx. apply Hq. by right.
Qed.
Lemma quietly_process_mr mrhs p e :
  (forall mrh, mrh ∈ mrhs -> mr_quiet mrh) -> quietly P env (process_mr mrhs p e) (eq (p, e)).
Proof.
  induction mrhs as [|mrh mrhs IH]; intros Hq; cbn [process_mr]; [by apply quietly_ret|].
  cbv zeta. eapply quietly_bind; [apply Hq; by left|]. intros ? (l & -> & Hl & Happly).
  eapply quietly_bind; [exact Happly|]. intros ? <-. rewrite count_failed_running by done.
  apply IH. intros x Hx. apply Hq. by right.
Qed.
Lemma quietly_statuses l ms :
  at_rest r k -> made parts l ms ->
  quietly P env (processHandlersStatus (map sr_of l) (map mr_of ms)) (eq (mkPSR ∅ false ∅, None)).
Proof.
  intros Hrest [Hl Hbased Hok _ _]. rewrite Forall_forall in Hbased. rewrite Forall_forall in Hok.
  unfold processHandlersStatus. eapply quietly_bind; [apply quietly_process_sr|].
  { intros srh ([st base] & -> & Hin)%list_elem_of_fmap. apply sr_of_quiet; [done| |exact (Hbased _ Hin)].
    rewrite <- Hl. by apply (list_elem_of_fmap_2 fst l (st, base)). }
  intros ? <-. eapply quietly_bind; [apply quietly_process_mr|].
  { intros mrh (m & -> & Hin)%list_elem_of_fmap. by apply mr_of_quiet; [|apply Hok]. }
  intros ? <-. by apply quietly_ret.
Qed.

(** *** The answer *)
Definition no_change : event := Event (UpdateDynamicEnvStatus env) (Ok env).
Definition so_far (log : list event) (c : ctx W) : Prop :=
  P (cx_world c) /\ cx_de c = env /\ exists l, cx_log c = log ++ l /\ Forall is_read l.
Definition quiet_end (log : list event) (c : ctx W) : Prop :=
  P (cx_world c) /\ exists l, cx_log c = log ++ l ++ [no_change] /\ Forall is_read l.
Lemma wp_quietly_bind {A B} (m : M W A) (f : A -> M W B) (Q : A -> Prop) R log c :
  quietly P env m Q -> (forall a c', Q a -> so_far log c' -> wp (f a) R c') -> so_far log c -> wp (m ≫= f) R c.
Proof.
  intros Hm Hf (HP & Hde & l & Hl & Hr). apply wp_bind. eapply wp_mono; [|by apply Hm].
  intros a c' (HQ & HP' & Hde' & l' & Hl' & Hr'). apply Hf; [done|]. split; [done|]. split; [done|].
  exists (l ++ l'). rewrite Hl', Hl, app_assoc. split; [done|]. by apply Forall_app.
Qed.
Lemma wp_state_quiet `{!Shows P k} total log (c : ctx W) :
  st_State (de_Status env) = Ready -> st_TotalCount (de_Status env) = total -> st_TotalReady (de_Status env) = total ->
  so_far log c -> wp (SetGlobalState Ready total 0) (fun e c' => e = None /\ quiet_end log c') c.
Proof.
  intros Hst Htot Hready (HP & Hde & l & Hl & Hr).
  assert (Hsame : set_Status (mkDynamicEnvStatus (st_SubsetsStatus (de_Status env)) (st_ConsumersStatus (de_Status env))
      Ready total (total - 0)) env = env).
  { rewrite Z.sub_0_r. clear -Hst Htot Hready. destruct env as [? ? ? ? ? []]; simpl in *. by subst. }
  unfold SetGlobalState. apply wp_bind, wp_get_de. cbv zeta. rewrite Hde, Hsame.
  apply wp_bind, wp_put_de. unfold update_status. apply wp_bind, wp_get_de. cbn [cx_de].
  apply wp_bind, wp_call. intros x w E. destruct (shows_no_change _ HP) as (w' & E' & HP').
  cbn [cx_world] in E. rewrite E in E'. injection E' as -> ->. apply wp_bind, wp_put_de, wp_ret.
  split; [done|]. split; [done|]. exists l. cbn. by rewrite Hl, app_assoc.
Qed.
Lemma quietly_range_nothing {V} : quietly P env (range (∅ : gmap string V)) (eq []).
Proof. apply quietly_range. intros l. by rewrite map_to_list_empty, Permutation_nil_r. Qed.
Lemma wp_conclude_quiet `{!Shows P k} total log (c : ctx W) :
  st_State (de_Status env) = Ready -> st_TotalCount (de_Status env) = Z.of_nat total ->
  st_TotalReady (de_Status env) = Z.of_nat total -> so_far log c ->
  wp (conclude total zero_RLS (mkPSR ∅ false ∅) false)
    (fun res c' => res = (zero_Result, None) /\ quiet_end log c') c.
Proof.
  intros Hst Htot Hready. unfold conclude. apply (wp_quietly_bind _ _ (eq [])); [apply quietly_range_nothing|].
  intros ? c1 <-. cbv zeta. cbn [foldl]. apply (wp_quietly_bind _ _ (eq tt)).
  { unfold SyncSubsetMessagesToStatus. apply quietly_range_empty. by apply quietly_ret. }
  intros ? c2 <-. apply (wp_quietly_bind _ _ (eq tt)).
  { unfold SyncConsumerMessagesToStatus. apply quietly_range_empty. by apply quietly_ret. }
  intros ? c3 <- Hc3. apply wp_bind. eapply wp_mono; [|by apply (wp_state_quiet (Z.of_nat total) log c3)].
  intros ? c4 [-> Hend]. by apply wp_ret.
Qed.

(** ** The runs *)
(** A run up to the handlers' statuses, with the statuses and the end to follow. *)
Lemma wp_Reconcile_in_place `{!Answers P k} (Q : Result * option error -> ctx W -> Prop) log (c : ctx W) :
  in_place r k -> P (cx_world c) -> cx_log c = log ->
  (forall l ms c', made parts l ms -> so_far log c' ->
    wp (processHandlersStatus (map sr_of l) (map mr_of ms)) (fun res c'' =>
      res = (mkPSR ∅ false ∅, None) /\ wp (conclude (length parts) zero_RLS (mkPSR ∅ false ∅) false) Q c'') c') ->
  wp (Reconcile r (de_nn env)) Q c.
Proof.
  intros [Halive Hfin _ Hknown _ _ _ Hparts] HP Hlog Hrest. unfold Reconcile.
  apply wp_bind, wp_call. intros x w E. destruct (shows_env (P:=P) _ HP) as (w' & E' & HP').
  rewrite E in E'. injection E' as -> ->. apply wp_bind, wp_put_de.
  unfold markedForDeletion. rewrite Halive, bool_decide_eq_false_2 by by intros [].
  set (c1 := mkCtx _ _ _ _ _).
  assert (Hc1 : so_far log c1).
  { split; [done|]. split; [done|]. eexists. cbn. split; [by rewrite Hlog|by repeat constructor]. }
  revert Hc1. generalize c1. clear c1. intros c1. apply (wp_quietly_bind _ _ (eq None)).
  { unfold ensureFinalizers. apply quietly_get_de. rewrite decide_False by by destruct (de_Finalizers env).
    by apply quietly_ret. }
  intros ? c2 <-. unfold reconcile_live. apply (wp_quietly_bind _ _ (eq env)).
  { intros ? ? ?. apply wp_get_de. split_and!; [done..|]. exists []. by rewrite app_nil_r. }
  intros ? c3 <-. cbv zeta. eapply wp_quietly_bind; [by apply quietly_cleanup|].
  intros ? c4 <-. cbv beta iota. eapply wp_quietly_bind.
  { unfold processSubsetsAndConsumers. apply quietly_get_de. apply (quietly_each _ [] [] []); [done|apply made_nil]. }
  intros ? c5 (l & ms & -> & Hm) Hc5. cbv beta iota.
  apply wp_bind. eapply wp_mono; [|by apply (Hrest l ms)]. by intros ? c6 [-> Hend].
Qed.
Lemma wp_Reconcile_quiet `{!Shows P k} log (c : ctx W) :
  at_rest r k -> P (cx_world c) -> cx_log c = log ->
  wp (Reconcile r (de_nn env)) (fun res c' => res = (zero_Result, None) /\ quiet_end log c') c.
Proof.
  intros Hrest HP Hlog. pose proof Hrest as [Hp _ Hst Htot Hready]. apply (wp_Reconcile_in_place _ log); [done..|].
  intros hs ms c5 Hm (HP5 & Hde5 & l & Hl & Hr). eapply wp_mono; [|by apply (quietly_statuses hs ms)].
  intros ? c6 (<- & HP6 & Hde6 & l' & Hl' & Hr'). split; [done|]. apply wp_conclude_quiet; [done..|].
  split; [done|]. split; [done|]. exists (l ++ l'). rewrite Hl', Hl, app_assoc. split; [done|]. by apply Forall_app.
Qed.
End loop.

(** One run after another. *)
Fixpoint Reconcile_times {W} `{Client W} `{MapOrder} `{RoutePrinter} `{SubsetHash} `{LabelSets}
    (r : DynamicEnvReconciler) (req : NamespacedName) (n : nat) : M W (list (Result * option error)) :=
  match n with
  | 0 => mret []
  | S n => res ← Reconcile r req; rest ← Reconcile_times r req n; mret (res :: rest)
  end.

(** A run after another leaves it so. *)
Lemma wp_Reconcile_times_quiet {W} `{Client W} `{MapOrder} `{RoutePrinter} `{SubsetHash} `{LabelSets}
    (P : W -> Prop) (k : snapshot) `{!Shows P k} (r : DynamicEnvReconciler) (n : nat) (c : ctx W) :
  at_rest r k -> P (cx_world c) ->
  wp (Reconcile_times r (de_nn (sn_env k)) n) (fun answers c' =>
      answers = replicate n (zero_Result, None) /\ P (cx_world c') /\
      exists reads, length reads = n /\ Forall (Forall is_read) reads /\
        cx_log c' = cx_log c ++ concat (map (fun l => l ++ [no_change (k:=k)]) reads)) c.
Proof.
  intros Hrest. revert c. induction n as [|n IH]; intros c HP; cbn [Reconcile_times].
  { apply wp_ret. split; [done|]. split; [done|]. exists []. by rewrite app_nil_r. }
  apply wp_bind. eapply wp_mono; [|by eapply (wp_Reconcile_quiet r (place_valid _ _ (rest_in_place _ _ Hrest)) (cx_log c))].
  intros ? c1 (-> & HP1 & l & Hl & Hr). apply wp_bind. eapply wp_mono; [|by apply IH].
  intros ? c2 (-> & HP2 & reads & Hlen & Hreads & Hl2). apply wp_ret. split; [done|]. split; [done|].
  exists (l :: reads). split; [simpl; by rewrite Hlen|]. split; [by constructor|].
  rewrite Hl2, Hl. cbn. by rewrite !app_assoc.
Qed.

(** C7.  An environment at rest stays at rest.  When everything the environment
    asks for is there, runs and is recorded as it is, every run, however many
    there are, in whatever map order, and whatever the handlers of its subsets
    and consumers look at, only reads, ends with one status update that changes
    nothing, reports no error and asks for no further run: the operator's own
    writes cannot wake it up again for ever. *)
Theorem Reconcile_at_rest {W} `{Client W} `{MapOrder} `{RoutePrinter} `{SubsetHash} `{LabelSets}
    (P : W -> Prop) (k : snapshot) (r : DynamicEnvReconciler) (n : nat) (c : ctx W)
    (Hshows : Shows P k) (Hrest : at_rest r k) (HP : P (cx_world c)) :
  wp (Reconcile_times r (de_nn (sn_env k)) n) (fun answers c' =>
      answers = replicate n (zero_Result, None) /\ P (cx_world c') /\
      exists reads, length reads = n /\ Forall (Forall is_read) reads /\
        cx_log c' = cx_log c ++ concat (map (fun l => l ++ [no_change (k:=k)]) reads)) c.
Proof. by apply wp_Reconcile_times_quiet. Qed.

(** ** The in-memory server *)

(** It stores [de], the other objects of [k], and has no faults to inject. *)
Definition stores (k : cluster) (de : DynamicEnv) (w : cluster) : Prop :=
  k_envs w !! de_key de = Some de /\ k_deployments w = k_deployments k /\ k_rules w = k_rules k /\
  k_services w = k_services k /\ k_virtualservices w = k_virtualservices k /\ k_faults w = ∅.
Definition snapshot_of (k : cluster) (de : DynamicEnv) : snapshot :=
  mkSnapshot de (fun n => k_deployments k !! n) (fun n => k_rules k !! n)
    (fun ns => filter (fun s => sv_Namespace s = ns) (k_services k)) (map_to_list (k_virtualservices k)).*2.
Definition keyed (k : cluster) : Prop := map_Forall (fun n v => vs_key v = n) (k_virtualservices k).
Lemma stores_no_fault k de w : stores k de w -> k_faults w !! k_calls w = None.
Proof. intros (_ & _ & _ & _ & _ & ->). apply lookup_empty. Qed.
Lemma fake_answers (k : cluster) (de : DynamicEnv) : keyed k -> Answers (stores k de) (snapshot_of k de).
Proof.
  intros Hkeys. split; [split|]; intros *; unfold exec, fake_client, fake_exec;
    cbn [snapshot_of sn_env sn_deployments sn_rules sn_services sn_virtualservices].
  - intros Hd Hw. rewrite (stores_no_fault k de) by done. destruct Hw as (? & He & Hw). exists (k_tick w). split; [|done]. f_equal.
    unfold fetch, k_tick; simpl. by rewrite He, Hd.
  - intros Hd Hw. rewrite (stores_no_fault k de) by done. destruct Hw as (? & ? & He & Hw). exists (k_tick w). split; [|done]. f_equal.
    unfold fetch, k_tick; simpl. by rewrite He, Hd.
  - intros Hw. rewrite (stores_no_fault k de) by done. destruct Hw as (? & ? & ? & He & Hw). exists (k_tick w). split; [|done].
    unfold k_tick; simpl. by rewrite He.
  - intros Hw. rewrite (stores_no_fault k de) by done. destruct Hw as (? & ? & ? & ? & He & Hw). exists (k_tick w). split; [|done].
    unfold k_tick; simpl. by rewrite He.
  - intros Hv Hw. rewrite (stores_no_fault k de) by done. destruct Hw as (? & ? & ? & ? & He & Hw). exists (k_tick w). split; [|done]. f_equal.
    apply list_elem_of_fmap in Hv as ([n v'] & -> & Hv%elem_of_map_to_list). specialize (Hkeys _ _ Hv).
    unfold fetch, k_tick; simpl. change (vs_nn v') with (vs_key v'). by rewrite He, Hkeys, Hv.
  - intros Hw. rewrite (stores_no_fault k de) by done. destruct Hw as (He & Hw). exists (k_tick w). split; [|done]. f_equal.
    unfold fetch, k_tick; simpl. change (de_nn de) with (de_key de). by rewrite He.
Qed.
Lemma fake_update (k : cluster) (de : DynamicEnv) s w : stores k de w -> exists w',
  exec (UpdateDynamicEnvStatus (set_Status s de)) w = (Ok (set_Status (wire_status s) de), w') /\
  stores k (set_Status (wire_status s) de) w'.
Proof.
  intros Hw. unfold exec, fake_client, fake_exec. rewrite (stores_no_fault k de) by done. destruct Hw as (He & Hw).
  eexists. split; [done|]. split; [|done]. apply lookup_insert_eq.
Qed.
Lemma fake_shows (k : cluster) (de : DynamicEnv) :
  keyed k -> wire_status (de_Status de) = de_Status de -> Shows (stores k de) (snapshot_of k de).
Proof.
  intros Hkeys Hwire. split; [by apply fake_answers|]. intros w Hw.
  destruct (fake_update k de (de_Status de) w Hw) as (w' & E & Hw').
  assert (Hsame : set_Status (de_Status de) de = de) by by destruct de. rewrite Hwire, Hsame in *. eauto.
Qed.

(** *** A cluster the operator settles *)
Module RestExample.
(** A subset and a consumer, nothing of theirs there yet. *)
Definition worker : Subset :=
  mkSubset "worker" "default" None None [mkContainerOverrides "main" "reviews:v3" None None] [] "".
Definition env : DynamicEnv :=
  mkDynamicEnv "env" "default" [] None
    (mkDynamicEnvSpec (Some [RoutingExample.match_user "jason"]) [DeploymentExample.subset] [worker])
    zero_DynamicEnvStatus "".
Definition base_worker : Deployment :=
  mkDeployment "worker" "default" (Some {[ "app" := "worker" ]}) None (dp_Spec DeploymentExample.base) [] "".
Definition created : cluster :=
  mkCluster {[ mkNN "default" "env" := env ]}
    (<[ mkNN "default" "worker" := base_worker ]> {[ mkNN "default" "reviews" := DeploymentExample.base ]})
    {[ mkNN "default" "reviews" := RuleExample.rule ]} [mkService "reviews" "default" (Some {[ "app" := "reviews" ]})]
    {[ mkNN "default" "reviews" := RoutingExample.service ]} 0 0 ∅.
Definition run (k : cluster) : outcome (Result * option error) * ctx cluster :=
  Reconcile (H1:=canonical_order) (H2:=RoutingExample.printer) (H3:=DeploymentExample.hash)
    (H4:=ReconcileExample.labels) StaticCluster.reconciler (mkNN "default" "env") (start k example_de).
(** The deployments' pods come up. *)
Definition available (k : cluster) : cluster :=
  k_set_deployments ((fun d => mkDeployment (dp_Name d) (dp_Namespace d) (dp_Labels d) (dp_Annotations d) (dp_Spec d)
     [mkDeploymentCondition "Progressing" "True" 1 "NewReplicaSetAvailable"] (dp_other d)) <$> k_deployments k) k.
Definition ready : cluster := Eval vm_compute in available (cx_world (run created).2).
Definition settled : cluster := Eval vm_compute in cx_world (run ready).2.

Definition settled_env : DynamicEnv := Eval vm_compute in default env (k_envs settled !! mkNN "default" "env").
Definition settled_service : VirtualService := Eval vm_compute in
  default RoutingExample.service (k_virtualservices settled !! mkNN "default" "reviews").
Definition seen : snapshot := snapshot_of settled settled_env.

(** Two runs, the deployments having become available in between, settle the
    environment. *)
Example settles :
  (run created).1 = Ret (mkResult true 0, None) /\
  omap StaticCluster.written (cx_log (run created).2) =
    [("update environment", "env"); ("create deployment", "reviews-default-env");
     ("create rule", "reviews-default-env-reviews"); ("update service", "reviews");
     ("create deployment", "worker-default-env")] /\
  (run ready).1 = Ret (zero_Result, None) /\
  st_State (de_Status settled_env) = Ready.
Proof. vm_compute. done. Qed.
Example ready_is_stored : available (cx_world (run created).2) = ready.
Proof. vm_cast_no_check (eq_refl ready). Qed.
Example settled_is_stored : cx_world (run ready).2 = settled.
Proof. vm_cast_no_check (eq_refl settled). Qed.

(** The concrete cluster, as the theorems see it. *)
#[local] Existing Instance ReconcileExample.labels.
#[local] Existing Instance DeploymentExample.hash.
Ltac compute_bool := apply (bool_decide_unpack _); vm_compute; exact I.
Lemma keyed_settled : keyed settled.
Proof. unfold keyed. compute_bool. Qed.
Lemma items : sn_virtualservices seen = [settled_service].
Proof. vm_compute. reflexivity. Qed.
Lemma only_service v : v ∈ sn_virtualservices seen -> v = settled_service.
Proof. rewrite items. apply list_elem_of_singleton. Qed.
Lemma found_service h sh v : found_for (sn_virtualservices seen) h sh v -> v = settled_service.
Proof. intros (i & Hi & _). eapply only_service, list_elem_of_lookup_2, Hi. Qed.
Definition base_of (name : string) : Deployment :=
  default DeploymentExample.base (sn_deployments seen (mkNN "default" name)).
Lemma served_only hosts :
  served_under seen DeploymentExample.subset (base_of "reviews") hosts <-> hosts = ["reviews"].
Proof.
  unfold served_under. set (m := matching_services _ _).
  assert (E : m = Ok [mkService "reviews" "default" (Some {[ "app" := "reviews" ]})]) by (vm_compute; reflexivity).
  rewrite E. split; [by intros (services & [= <-] & _ & ->)|]. intros ->. eexists. by split_and!.
Qed.
Lemma routed :
  host_in_place (sn_virtualservices seen)
    (service_handler StaticCluster.reconciler seen (base_of "reviews") DeploymentExample.subset ["reviews"]) "reviews".
Proof.
  split.
  - intros service rt d ->%only_service _ Hrt Hd. exfalso.
    assert (E : map hr_Delegate (vs_Http settled_service) = [None; None]) by (vm_compute; reflexivity).
    assert (Hin : hr_Delegate rt ∈ map hr_Delegate (vs_Http settled_service)) by by apply list_elem_of_fmap_2.
    rewrite E, Hd in Hin. by repeat (apply elem_of_cons in Hin as [?|Hin]); [..|apply elem_of_nil in Hin].
  - exists settled_service, 0. split; [rewrite items; done|]. exists 0, settled_service.
    split; [rewrite items; done|]. split; [exists "reviews"; split; [by left|vm_compute; reflexivity]|].
    exists true, []. split; [vm_compute; reflexivity|by left].
  - intros v ->%found_service. vm_compute. reflexivity.
Qed.

(** Everything is in place, whatever the status records. *)
Definition parts : list SubsetType := [mkSubsetType SUBSET DeploymentExample.subset; mkSubsetType CONSUMER worker].
Ltac part_in_place_tac name hash := exists (base_of name),
  (default DeploymentExample.base (sn_deployments seen (mkNN "default" (name +:+ "-default-env")))), hash;
  do 4 (split; [vm_compute; reflexivity|]).
Lemma routing_placed :
  routing_in_place StaticCluster.reconciler seen DeploymentExample.subset (base_of "reviews") ["reviews"].
Proof.
  split; [by apply served_only| |apply Forall_singleton, routed]. apply Forall_singleton. vm_compute. by eexists.
Qed.
Lemma placed_with (s : DynamicEnvStatus) :
  dom (mread (st_SubsetsStatus s)) ∪ dom (mread (st_ConsumersStatus s)) = {[ "default/reviews"; "default/worker" ]} ->
  listed_once (set_Status s settled_env) -> wire_status s = s ->
  uint64_of ∘ ss_Hash <$> mlookup (st_SubsetsStatus s) "default/reviews" = Some 7%Z ->
  uint64_of ∘ cs_Hash <$> mlookup (st_ConsumersStatus s) "default/worker" = Some 6%Z ->
  in_place StaticCluster.reconciler (snapshot_of settled (set_Status s settled_env)).
Proof.
  intros Hd Hl Hw Hh1 Hh2. split.
  - vm_compute. reflexivity.
  - vm_compute. discriminate.
  - change (NoDup ["default/reviews"; "default/worker"]). compute_bool.
  - intros name Hn. change (name ∈ ["default/reviews"; "default/worker"]).
    assert (Hname : name ∈ ({[ "default/reviews"; "default/worker" ]} : gset string)).
    { rewrite <- Hd. apply elem_of_union. unfold mlookup in Hn. by rewrite !elem_of_dom. }
    apply elem_of_union in Hname as [->%elem_of_singleton| ->%elem_of_singleton]; [by left|right; by left].
  - exact Hl.
  - exact Hw.
  - change (Forall (fun v => Forall well_formed (vs_Http v)) (sn_virtualservices seen)). rewrite items.
    apply Forall_singleton.
    assert (E : bool_decide (Forall well_formed (vs_Http settled_service)) = true) by (vm_compute; reflexivity).
    exact (bool_decide_eq_true_1 _ E).
  - apply Forall_cons; split; [|apply Forall_singleton].
    + part_in_place_tac "reviews" 7%Z. split; [exact Hh1|]. intros _. exists ["reviews"].
      destruct routing_placed as [H1 H2 H3]. by split.
    + part_in_place_tac "worker" 6%Z. split; [exact Hh2|]. intros [=].
Qed.
Ltac placed_tac := apply placed_with; [compute_bool|unfold listed_once; compute_bool|vm_compute; reflexivity..].
Lemma placed : in_place StaticCluster.reconciler seen.
Proof. change seen with (snapshot_of settled (set_Status (de_Status settled_env) settled_env)). placed_tac. Qed.
Lemma resting : at_rest StaticCluster.reconciler seen.
Proof.
  split; [exact placed| |vm_compute; reflexivity..].
  intros rec [st base Hst Hbase|s base hosts sh Hs Hbase Hserved Hsh|s base hosts sh v Hs Hbase Hserved Hsh Hf].
  - change (st ∈ parts) in Hst. by apply elem_of_cons in Hst as [->| ->%list_elem_of_singleton]; vm_compute.
  - change (mkSubsetType SUBSET s ∈ parts) in Hs.
    apply elem_of_cons in Hs as [[= ->]|[=]%list_elem_of_singleton].
    assert (base = base_of "reviews") as -> by (unfold based in Hbase; revert Hbase; vm_compute; by intros [= <-]).
    apply served_only in Hserved as ->. apply list_elem_of_singleton in Hsh as ->.
    eexists. split; [vm_compute; reflexivity|]. vm_compute. by left.
  - change (mkSubsetType SUBSET s ∈ parts) in Hs.
    apply elem_of_cons in Hs as [[= ->]|[=]%list_elem_of_singleton].
    apply found_service in Hf as ->.
    eexists. split; [vm_compute; reflexivity|]. vm_compute. by left.
Qed.
End RestExample.

Lemma Reconcile_at_rest_witness :
  at_rest (H:=DeploymentExample.hash) (H1:=ReconcileExample.labels) StaticCluster.reconciler RestExample.seen /\
  wp (Reconcile_times (H1:=canonical_order) (H2:=RoutingExample.printer) (H3:=DeploymentExample.hash)
        (H4:=ReconcileExample.labels) StaticCluster.reconciler (de_nn (sn_env RestExample.seen)) 3)
    (fun answers c' =>
      answers = replicate 3 (zero_Result, None) /\ stores RestExample.settled RestExample.settled_env (cx_world c') /\
      exists reads, length reads = 3 /\ Forall (Forall is_read) reads /\
        cx_log c' = [] ++ concat (map (fun l => l ++ [no_change (k:=RestExample.seen)]) reads))
    (start RestExample.settled example_de).
Proof.
  split; [exact RestExample.resting|].
  apply (Reconcile_at_rest (H1:=canonical_order) (H2:=RoutingExample.printer) (H3:=DeploymentExample.hash)
           (H4:=ReconcileExample.labels) (stores RestExample.settled RestExample.settled_env) RestExample.seen
           StaticCluster.reconciler 3 (start RestExample.settled example_de) 
           (fake_shows _ _ RestExample.keyed_settled (place_wire _ _ RestExample.placed)) RestExample.resting).
  repeat split.
Defined.
