(* ===== verification/Settling.v ===== *)
(** * Settling

    When everything an environment asks for is there and running, one run of the
    operator records it all: against a server that stores the status updates it
    is sent, the run ends at rest ([AtRest]), whatever the status recorded
    before, and whatever order the maps are visited in. *)

From stdpp Require Import base gmap sets list strings sorting.
From S2P Require Import Prelude GoStrings Sha256 K8s Types Helpers Watches Client FakeCluster StatusManager Model VirtualServiceHandler VirtualServiceRouting Locating DeploymentHandler DestinationRuleHandler CleanupManager Controller Totality Quiet AtRest.

(** ** A server that stores the status *)
Definition at_env (de : DynamicEnv) (k : snapshot) : snapshot :=
  mkSnapshot de (sn_deployments k) (sn_rules k) (sn_services k) (sn_virtualservices k).
(** The resource with other metadata: the server gives it a new version when it
    stores it. *)
Definition stamp (o : opaque) (de : DynamicEnv) : DynamicEnv :=
  mkDynamicEnv (de_Name de) (de_Namespace de) (de_Finalizers de) (de_DeletionTimestamp de) (de_Spec de) (de_Status de) o.
(** In the worlds of [P de] the resource [de] is stored, and reads answer with it
    and with the other objects of [k].  An update of its status is accepted; the
    status is stored as it comes from the wire, under a new version unless
    nothing changed. *)
Class Serves {W} `{Client W} (P : DynamicEnv -> W -> Prop) (k : snapshot) : Prop := {
  serves_answers :: forall de, Answers (P de) (at_env de k);
  serves_update : forall de s w, P de w -> exists o w', let stored := stamp o (set_Status (wire_status s) de) in
    exec (UpdateDynamicEnvStatus (set_Status s de)) w = (Ok stored, w') /\ P stored w';
  serves_no_change : forall de w, P de w -> wire_status (de_Status de) = de_Status de -> exists w',
    exec (UpdateDynamicEnvStatus de) w = (Ok de, w') /\ P de w';
}.
(** Reads and status updates. *)
Definition reads_or_records (e : event) : Prop :=
  match ev_req e with UpdateDynamicEnvStatus _ => True | _ => is_read e end.

(** ** Entries that the wire leaves alone *)
(** What came from the wire once is left alone. *)
Lemma wire_state_idemp state : omit_state (omit_state state) = omit_state state.
Proof.
  unfold omit_state at 2 3. destruct (decide (state = "")) as [->|Hs]; [done|].
  unfold wire_state, ParseGlobalReadyStatus. by repeat case_decide.
Qed.
Lemma wire_rs_idemp rs : wire_rs (wire_rs rs) = wire_rs rs.
Proof. unfold wire_rs. cbn. by rewrite wire_lifecycle_idemp. Qed.
Lemma wire_errors_idemp l : map wire_error (map wire_error l) = map wire_error l.
Proof.
  rewrite map_map. apply map_ext. intros e. unfold wire_error, wire_time. cbn. by rewrite Z.div_mul.
Qed.
Lemma map_idemp {A} (f : A -> A) l : (forall a, f (f a) = f a) -> map f (map f l) = map f l.
Proof. intros Hf. rewrite map_map. by apply map_ext. Qed.
Lemma wire_subset_idemp e : wire_subset (wire_subset e) = wire_subset e.
Proof.
  destruct e as [d rules services errors hash]. unfold wire_subset. cbn. rewrite wire_rs_idemp, !(map_idemp wire_rs _ wire_rs_idemp).
  f_equal. destruct errors as [[]|]; [|done]. unfold wire_errors. cbn. by rewrite !wire_errors_idemp.
Qed.
Lemma wire_consumer_idemp e : wire_consumer (wire_consumer e) = wire_consumer e.
Proof. unfold wire_consumer. cbn. by rewrite wire_rs_idemp, wire_errors_idemp. Qed.
Lemma gomap_idemp {V} (f : V -> V) (m : gomap V) : (forall a, f (f a) = f a) ->
  fmap (M:=gmap string) f <$> (fmap (M:=gmap string) f <$> m) = fmap (M:=gmap string) f <$> m.
Proof. intros Hf. destruct m as [m|]; [|done]. simpl. f_equal. rewrite <- map_fmap_compose. apply map_fmap_ext. intros i a _. apply Hf. Qed.
Lemma omit_map {V V'} (f : V -> V') (m : gomap V) :
  omit_empty (fmap (M:=gmap string) f <$> m) = fmap (M:=gmap string) f <$> omit_empty m.
Proof. destruct m as [g|]; [|done]. simpl. rewrite map_size_fmap. by case_decide. Qed.
Lemma omit_idemp {V} (m : gomap V) : omit_empty (omit_empty m) = omit_empty m.
Proof. destruct m as [g|]; [|done]. simpl. case_decide as Hs; [done|]. simpl. by rewrite decide_False. Qed.
Lemma omit_insert {V} (g : gmap string V) name (v : V) : omit_empty (Some (<[name := v]> g)) = Some (<[name := v]> g).
Proof.
  simpl. rewrite decide_False; [done|]. intros Hs%map_size_empty_inv. by apply insert_non_empty in Hs.
Qed.
Lemma wire_idemp s : wire_status (wire_status s) = wire_status s.
Proof.
  unfold wire_status. cbn. by rewrite (gomap_idemp wire_subset _ wire_subset_idemp), <- omit_map,
    (gomap_idemp wire_consumer _ wire_consumer_idemp), omit_idemp, wire_state_idemp.
Qed.
Lemma mlookup_not_nil {V} (m : gomap V) (name : string) (v : V) : mlookup m name = Some v -> exists g, m = Some g.
Proof. destruct m as [g|]; [by exists g|]. unfold mlookup, mread. simpl. by rewrite lookup_empty. Qed.
Lemma wire_running name namespace : wire_rs (running name namespace) = running name namespace.
Proof. reflexivity. Qed.
Lemma wire_subset_at s name st :
  wire_status s = s -> mlookup (st_SubsetsStatus s) name = Some st -> wire_subset st = st.
Proof.
  intros Hw Hst. apply (f_equal (fun x => mlookup (st_SubsetsStatus x) name)) in Hw.
  unfold wire_status, mlookup in *. cbn [st_SubsetsStatus] in Hw. destruct (st_SubsetsStatus s) as [m|]; [|done].
  unfold mread in *. simpl in *. rewrite lookup_fmap, Hst in Hw. by injection Hw.
Qed.
Lemma wire_consumer_at s name st :
  wire_status s = s -> mlookup (st_ConsumersStatus s) name = Some st -> wire_consumer st = st.
Proof.
  intros Hw Hst. apply (f_equal (fun x => mlookup (st_ConsumersStatus x) name)) in Hw.
  unfold wire_status in Hw. cbn [st_ConsumersStatus] in Hw. rewrite mlookup_omit in Hw. unfold mlookup in *. destruct (st_ConsumersStatus s) as [m|]; [|done].
  unfold mread in *. simpl in *. rewrite lookup_fmap, Hst in Hw. by injection Hw.
Qed.
Definition put_subset (name : string) (st : SubsetStatus) (s : DynamicEnvStatus) : DynamicEnvStatus :=
  mkDynamicEnvStatus (Some (<[name := st]> (mread (st_SubsetsStatus s)))) (st_ConsumersStatus s) (st_State s)
    (st_TotalCount s) (st_TotalReady s).
Definition put_consumer (name : string) (st : ConsumerStatus) (s : DynamicEnvStatus) : DynamicEnvStatus :=
  mkDynamicEnvStatus (st_SubsetsStatus s) (Some (<[name := st]> (mread (st_ConsumersStatus s)))) (st_State s)
    (st_TotalCount s) (st_TotalReady s).
Lemma wire_put_subset name st s :
  wire_status s = s -> wire_subset st = st -> wire_status (put_subset name st s) = put_subset name st s.
Proof.
  intros Hw Hst. unfold wire_status, put_subset in *. cbn in *. destruct s as [ss cs state t1 t2]; cbn in *.
  injection Hw as H1 H2 H3. rewrite H2, H3. f_equal. f_equal. rewrite fmap_insert, Hst. f_equal.
  destruct ss as [m|]; cbn in *; [by injection H1|apply fmap_empty].
Qed.
Lemma wire_put_consumer name st s :
  wire_status s = s -> wire_consumer st = st -> wire_status (put_consumer name st s) = put_consumer name st s.
Proof.
  intros Hw Hst. unfold wire_status, put_consumer in *. cbn in *. destruct s as [ss cs state t1 t2]; cbn in *.
  injection Hw as H1 H2 H3. assert (Hcs : wire_consumer <$> mread cs = mread cs).
  { destruct cs as [m|]; cbn in *; [|apply fmap_empty]. rewrite map_size_fmap in H2. case_decide; [done|by injection H2]. }
  rewrite H1, H3. f_equal. change (omit_empty (Some (wire_consumer <$> <[name := st]> (mread cs))) = Some (<[name := st]> (mread cs))).
  rewrite fmap_insert, Hst, Hcs. apply omit_insert.
Qed.
Lemma lookup_put_subset name st s n :
  mlookup (st_SubsetsStatus (put_subset name st s)) n = if decide (n = name) then Some st else mlookup (st_SubsetsStatus s) n.
Proof.
  unfold mlookup, put_subset, mread. cbn. case_decide as Hn; [subst; apply lookup_insert_eq|by apply lookup_insert_ne].
Qed.
Lemma lookup_put_consumer name st s n :
  mlookup (st_ConsumersStatus (put_consumer name st s)) n
  = if decide (n = name) then Some st else mlookup (st_ConsumersStatus s) n.
Proof.
  unfold mlookup, put_consumer, mread. cbn. case_decide as Hn; [subst; apply lookup_insert_eq|by apply lookup_insert_ne].
Qed.
(** Recording a running resource in a list of entries the wire leaves alone. *)
Lemma wire_sync rs l : wire_rs rs = rs -> map wire_rs l = l ->
  map wire_rs (SyncStatusResources rs l).2 = (SyncStatusResources rs l).2.
Proof.
  intros Hrs Hl. rewrite <- (map_id (SyncStatusResources rs l).2) at 2. apply map_ext_in.
  intros x Hx%list_elem_of_In. apply elem_of_sync in Hx as [->|[Hx _]]; [done|].
  apply list_elem_of_lookup in Hx as [i Hi]. pose proof (f_equal (fun y => y !! i) Hl) as E. simpl in E.
  change (map wire_rs l) with (wire_rs <$> l) in E. rewrite list_lookup_fmap, Hi in E. by injection E.
Qed.

Section settle.
Context {W : Type} `{Client W} `{MapOrder} `{RoutePrinter} `{SubsetHash} `{LabelSets}.
Context (r : DynamicEnvReconciler) {P : DynamicEnv -> W -> Prop} {k : snapshot} `{!Serves P k}.
Local Abbreviation env := (sn_env k).
Local Abbreviation items := (sn_virtualservices k).
Local Abbreviation parts := (mergeSubsetsAndConsumers (spec_Subsets (de_Spec env)) (spec_Consumers (de_Spec env))).
Implicit Types (s : DynamicEnvStatus) (rec : record) (name : string) (rs : ResourceStatus).
Context (Hplace : in_place r k).

(** The resource as it is stored in the course of the run. *)
Definition live s (o : opaque) : DynamicEnv := stamp o (set_Status s env).
Lemma live_start : env = live (de_Status env) (de_other env).
Proof. unfold live. by destruct env. Qed.
(** What holds of the status all along. *)
Record kept s : Prop := mkKept {
  kept_wire : wire_status s = s;
  kept_listed : listed_once (set_Status s env);
  kept_subsets : forall n, ss_Hash <$> mlookup (st_SubsetsStatus s) n = ss_Hash <$> mlookup (de_SubsetsStatus env) n;
  kept_consumers : forall n, cs_Hash <$> mlookup (st_ConsumersStatus s) n = cs_Hash <$> mlookup (de_ConsumersStatus env) n;
}.
Lemma kept_start : kept (de_Status env).
Proof. destruct Hplace. split; [done| |done|done]. unfold listed_once in *. by destruct env. Qed.
Lemma kept_is_Some {V} (f : V -> Z) (a b : option V) : f <$> a = f <$> b -> is_Some a -> is_Some b.
Proof. intros E Ha. apply (fmap_is_Some f). rewrite <- E. by apply fmap_is_Some. Qed.
Lemma part_kept s o st : kept s -> part_in_place r k st -> part_in_place r (at_env (live s o) k) st.
Proof.
  intros Hk (base & d & hash & Hbase & Hd & Hrun & Hhash & Hrec & Hrout). exists base, d, hash.
  split; [done|]. split; [done|]. split; [done|]. split; [done|]. split.
  - unfold recorded_hash in *. simpl in *. destruct (stt_Type st); rewrite option_fmap_compose in *;
      [by rewrite (kept_subsets s Hk)|by rewrite (kept_consumers s Hk)].
  - intros Ht. destruct (Hrout Ht) as (hosts & [Hs Hr Hh]). exists hosts. by split.
Qed.
Lemma place_kept s o : kept s -> in_place r (at_env (live s o) k).
Proof.
  intros Hk. pose proof Hplace as [_ _ _ Hknown _ _ _ Hparts]. destruct Hplace. split; try done.
  - intros name Hn. apply Hknown. destruct Hn as [Hn|Hn]; [left|right]; eapply kept_is_Some; [|exact Hn| |exact Hn].
    + apply (kept_subsets s Hk).
    + apply (kept_consumers s Hk).
  - apply Hk.
  - apply (kept_wire s Hk).
  - eapply Forall_impl; [exact Hparts|]. intros st. by apply part_kept.
Qed.

(** *** What is wished *)
Lemma wished_running rec : wished r k rec ->
  match rec with RecDeployment _ _ rs | RecRule _ rs | RecService _ rs => rs_Status rs = Running end.
Proof. by destruct 1. Qed.
Lemma wished_deployment_fun tpe name rs rs' :
  wished r k (RecDeployment tpe name rs) -> wished r k (RecDeployment tpe name rs') -> rs = rs'.
Proof.
  remember (RecDeployment tpe name rs) as rec eqn:E. destruct 1 as [st base Hst Hbase| |]; simplify_eq.
  remember (RecDeployment _ _ rs') as rec eqn:E. destruct 1 as [st' base' Hst' Hbase'| |]; simplify_eq.
  assert (st' = st) as ->; [|done].
  apply list_elem_of_lookup in Hst as [i Hi], Hst' as [j Hj]. pose proof (place_once _ _ Hplace) as Hnd.
  assert (i = j) as ->; [|congruence].
  eapply (NoDup_lookup _ i j (MKSubsetName (stt_Subset st)) Hnd); rewrite list_lookup_fmap; [by rewrite Hi|].
  rewrite Hj. simpl. congruence.
Qed.
Lemma wished_entry rec s : kept s -> wished r k rec ->
  match rec with
  | RecDeployment SUBSET name _ | RecRule name _ | RecService name _ => is_Some (mlookup (st_SubsetsStatus s) name)
  | RecDeployment CONSUMER name _ => is_Some (mlookup (st_ConsumersStatus s) name)
  end.
Proof.
  intros Hk. assert (Hpart : forall st, st ∈ parts -> match stt_Type st with
    | SUBSET => is_Some (mlookup (st_SubsetsStatus s) (MKSubsetName (stt_Subset st)))
    | CONSUMER => is_Some (mlookup (st_ConsumersStatus s) (MKSubsetName (stt_Subset st)))
    end).
  { intros st Hst. destruct (part_at _ st Hplace Hst) as (base & d & hash & _ & _ & _ & _ & Hh & _).
    unfold recorded_hash in Hh. simpl in Hh. destruct (stt_Type st); apply fmap_Some in Hh as (x & Hx & _);
      [eapply kept_is_Some; [symmetry; apply (kept_subsets s Hk)|by eexists]
      |eapply kept_is_Some; [symmetry; apply (kept_consumers s Hk)|by eexists]]. }
  destruct 1 as [st base Hst _|x base hosts sh Hs _ _ _|x base hosts sh v Hs _ _ _ _];
    [exact (Hpart _ Hst)|exact (Hpart _ Hs)|exact (Hpart _ Hs)].
Qed.

(** *** Code that records *)

(** [m] returns something in [Q]; it only reads and updates the status; what is
    recorded and wished stays recorded, and afterwards [R] is. *)
Definition settling s s' : Prop :=
  kept s' /\ forall rec, wished r k rec -> recorded (set_Status s env) rec -> recorded (set_Status s' env) rec.
Definition settles {A} (m : M W A) (Q : A -> Prop) (R : record -> Prop) : Prop := forall c s o,
  kept s -> cx_de c = live s o -> P (cx_de c) (cx_world c) ->
  wp m (fun a c' => Q a /\ exists s' o', settling s s' /\ (forall rec, R rec -> recorded (set_Status s' env) rec) /\
    cx_de c' = live s' o' /\ P (cx_de c') (cx_world c') /\
    exists l, cx_log c' = cx_log c ++ l /\ Forall reads_or_records l) c.

Lemma settles_ret {A} (a : A) (Q : A -> Prop) : Q a -> settles (mret a) Q (fun _ => False).
Proof.
  intros HQ c s o Hk Hde HP. apply wp_ret. split; [done|]. exists s, o. split; [by split|]. split; [done|].
  split; [done|]. split; [done|]. exists []. by rewrite app_nil_r.
Qed.
Lemma settles_bind {A B} (m : M W A) (f : A -> M W B) (Q : A -> Prop) (Q' : B -> Prop) (R R' : record -> Prop) :
  settles m Q R -> (forall rec, R rec -> wished r k rec) -> (forall a, Q a -> settles (f a) Q' R') ->
  settles (m ≫= f) Q' (fun rec => R rec \/ R' rec).
Proof.
  intros Hm HR Hf c s o Hk Hde HP. apply wp_bind. eapply wp_mono; [|by apply (Hm c s o)].
  intros a c1 (HQ & s1 & o1 & [Hk1 Hs1] & HR1 & Hde1 & HP1 & l1 & Hl1 & Hr1). eapply wp_mono; [|by apply (Hf a HQ c1 s1 o1)].
  intros b c2 (HQ' & s2 & o2 & [Hk2 Hs2] & HR2 & Hde2 & HP2 & l2 & Hl2 & Hr2). split; [done|]. exists s2, o2.
  split; [split; [done|]; intros rec Hw Hrec; by apply Hs2, Hs1|].
  split; [intros rec [Hrec|Hrec]; [apply Hs2; auto|by apply HR2]|]. split; [done|]. split; [done|].
  exists (l1 ++ l2). rewrite Hl2, Hl1, app_assoc. split; [done|]. by apply Forall_app.
Qed.
Lemma settles_mono {A} (m : M W A) (Q Q' : A -> Prop) (R R' : record -> Prop) :
  settles m Q R -> (forall a, Q a -> Q' a) -> (forall rec, R' rec -> R rec) -> settles m Q' R'.
Proof.
  intros Hm HQ HR c s o Hk Hde HP. eapply wp_mono; [|by apply (Hm c s o)].
  intros a c1 (Ha & s1 & o1 & Hs1 & HR1 & Hrest). split; [by apply HQ|]. exists s1, o1. split; [done|]. split; [|done].
  intros rec Hrec. by apply HR1, HR.
Qed.
Lemma reads_calm l : Forall is_read l -> Forall reads_or_records l.
Proof. intros Hl. eapply Forall_impl; [exact Hl|]. intros [R q x]. unfold reads_or_records. simpl. by destruct q. Qed.
Lemma settles_quiet {A} (m : M W A) (Q : A -> Prop) :
  (forall s o, kept s -> quietly (P (live s o)) (live s o) m Q) -> settles m Q (fun _ => False).
Proof.
  intros Hm c s o Hk Hde HP. eapply wp_mono; [|apply (Hm s o Hk); [by rewrite <- Hde|done]].
  intros a c1 (HQ & HP1 & Hde1 & l & Hl & Hr). split; [done|]. exists s, o. split; [by split|]. split; [done|].
  split; [done|]. split; [by rewrite Hde1|]. exists l. split; [done|]. by apply reads_calm.
Qed.
(** A quiet step first. *)
Lemma settles_quiet_bind {A B} (m : M W A) (f : A -> M W B) (Q : A -> Prop) (Q' : B -> Prop) (R' : record -> Prop) :
  (forall s o, kept s -> quietly (P (live s o)) (live s o) m Q) ->
  (forall a, Q a -> settles (f a) Q' R') -> settles (m ≫= f) Q' R'.
Proof.
  intros Hm Hf. eapply settles_mono; [eapply settles_bind; [by apply settles_quiet|done|exact Hf]|done|by right].
Qed.

(** *** One entry *)

(** The update of the stored status. *)
Lemma wp_update_kept s o (c : ctx W) (Q : option error -> ctx W -> Prop) :
  wire_status s = s -> cx_de c = live s o -> (exists s0, P (live s0 o) (cx_world c)) ->
  (forall c' o', cx_de c' = live s o' -> P (cx_de c') (cx_world c') ->
    (exists l, cx_log c' = cx_log c ++ l /\ Forall reads_or_records l) -> Q None c') ->
  wp update_status Q c.
Proof.
  intros Hw Hde [s0 HP] HQ. unfold update_status. apply wp_bind, wp_get_de, wp_bind, wp_call. intros x w E.
  destruct (serves_update (P:=P) (k:=k) (live s0 o) s (cx_world c) HP) as (o' & w' & E' & HP').
  rewrite Hw in *. change (stamp o' _) with (live s o') in *. change (set_Status s (live s0 o)) with (live s o) in E'.
  rewrite Hde, E' in E. injection E as <- <-. apply wp_bind, wp_put_de, wp_ret. apply (HQ _ o'); [done|done|].
  eexists. split; [by cbn|]. by repeat constructor.
Qed.

(** Writing one entry of a subset, with its hash as it was. *)
Lemma settles_write_subset name (st' : SubsetStatus -> SubsetStatus) :
  (forall s st, kept s -> mlookup (st_SubsetsStatus s) name = Some st ->
    wire_subset (st' st) = st' st /\ ss_Hash (st' st) = ss_Hash st /\
    NoDup (map rs_key (ss_DestinationRules (st' st))) /\ NoDup (map rs_key (ss_VirtualServices (st' st)))) ->
  (forall rs, wished r k (RecDeployment SUBSET name rs) -> forall st, ss_Deployment st = rs -> ss_Deployment (st' st) = rs) ->
  (forall rs, wished r k (RecRule name rs) -> forall st, rs ∈ ss_DestinationRules st -> rs ∈ ss_DestinationRules (st' st)) ->
  (forall rs, wished r k (RecService name rs) -> forall st, rs ∈ ss_VirtualServices st -> rs ∈ ss_VirtualServices (st' st)) ->
  forall c s st o, kept s -> cx_de c = live s o -> P (cx_de c) (cx_world c) ->
  mlookup (st_SubsetsStatus s) name = Some st ->
  wp (_ ← write_SubsetsStatus name (st' st); update_status) (fun e c' => e = None /\ exists s' o', settling s s' /\
    mlookup (st_SubsetsStatus s') name = Some (st' st) /\ cx_de c' = live s' o' /\ P (cx_de c') (cx_world c') /\
    exists l, cx_log c' = cx_log c ++ l /\ Forall reads_or_records l) c.
Proof.
  intros Hok Hdep Hrule Hserv c s st o Hk Hde HP Hst. destruct (Hok s st Hk Hst) as (Hwire & Hhash & Hnd1 & Hnd2).
  set (s' := put_subset name (st' st) s).
  assert (Hkept : settling s s').
  { split; [split|].
    - apply wire_put_subset; [by apply kept_wire|done].
    - unfold listed_once, s'. cbn. apply map_Forall_insert_2; [done|]. exact (kept_listed s Hk).
    - intros n. unfold s'. rewrite lookup_put_subset, <- (kept_subsets s Hk n). case_decide as Hn; [|done].
      subst n. rewrite Hst. simpl. by rewrite Hhash.
    - exact (kept_consumers s Hk).
    - intros [tpe n rs|n rs|n rs] Hw; cbn [recorded]; change (de_SubsetsStatus (set_Status ?x env)) with (st_SubsetsStatus x);
        [destruct tpe; [|done]|..]; unfold s'; rewrite lookup_put_subset; case_decide as Hn; try done; subst n.
      + rewrite Hst. simpl. intros [= Hd]. f_equal. by eapply Hdep.
      + intros (x & Hx & Hin). rewrite Hst in Hx. injection Hx as <-. eexists. split; [done|]. by eapply Hrule.
      + intros (x & Hx & Hin). rewrite Hst in Hx. injection Hx as <-. eexists. split; [done|]. by eapply Hserv. }
  apply wp_bind, wp_write_SubsetsStatus.
  { rewrite Hde. change (de_SubsetsStatus _) with (st_SubsetsStatus s).
    by destruct (mlookup_not_nil _ _ _ Hst) as [m ->]. }
  rewrite Hde. apply (wp_update_kept s' o).
  - apply Hkept.
  - done.
  - exists s. by rewrite <- Hde.
  - intros c' o' Hde' HP' Hlog. split; [done|]. exists s', o'. split; [done|]. split; [|done].
    unfold s'. rewrite lookup_put_subset. by rewrite decide_True.
Qed.
Lemma settles_write_consumer name (st' : ConsumerStatus -> ConsumerStatus) :
  (forall s st, kept s -> mlookup (st_ConsumersStatus s) name = Some st ->
    wire_consumer (st' st) = st' st /\ cs_Hash (st' st) = cs_Hash st) ->
  (forall rs, wished r k (RecDeployment CONSUMER name rs) ->
    forall st, cs_ResourceStatus st = rs -> cs_ResourceStatus (st' st) = rs) ->
  forall c s st o, kept s -> cx_de c = live s o -> P (cx_de c) (cx_world c) ->
  mlookup (st_ConsumersStatus s) name = Some st ->
  wp (_ ← write_ConsumersStatus name (st' st); update_status) (fun e c' => e = None /\ exists s' o', settling s s' /\
    mlookup (st_ConsumersStatus s') name = Some (st' st) /\ cx_de c' = live s' o' /\ P (cx_de c') (cx_world c') /\
    exists l, cx_log c' = cx_log c ++ l /\ Forall reads_or_records l) c.
Proof.
  intros Hok Hdep c s st o Hk Hde HP Hst. destruct (Hok s st Hk Hst) as (Hwire & Hhash).
  set (s' := put_consumer name (st' st) s).
  assert (Hkept : settling s s').
  { split; [split|].
    - apply wire_put_consumer; [by apply kept_wire|done].
    - exact (kept_listed s Hk).
    - exact (kept_subsets s Hk).
    - intros n. unfold s'. rewrite lookup_put_consumer, <- (kept_consumers s Hk n). case_decide as Hn; [|done].
      subst n. rewrite Hst. simpl. by rewrite Hhash.
    - intros [tpe n rs|n rs|n rs] Hw; cbn [recorded]; [|done|done].
      change (de_ConsumersStatus (set_Status ?x env)) with (st_ConsumersStatus x). destruct tpe; [done|].
      unfold s'. rewrite lookup_put_consumer. case_decide as Hn; [subst n|done].
      rewrite Hst. simpl. intros [= Hd]. f_equal. by eapply Hdep. }
  unfold write_ConsumersStatus. apply wp_bind, wp_bind, wp_get_de, wp_bind, wp_lift. rewrite Hde.
  change (de_ConsumersStatus _) with (st_ConsumersStatus s).
  destruct (mlookup_not_nil _ _ _ Hst) as [m Em]. rewrite Em. eexists. split; [done|]. apply wp_put_de, (wp_update_kept s' o).
  - apply Hkept.
  - unfold s', put_consumer. rewrite Em. done.
  - exists s. by rewrite <- Hde.
  - intros c' o' Hde' HP' Hlog. split; [done|]. exists s', o'. split; [done|]. split; [|done].
    unfold s'. rewrite lookup_put_consumer. by rewrite decide_True.
Qed.

(** Recording one resource: the entry is read, and written if that changes it. *)
Definition records_from (rec : record) (m : M W (option error)) s (c : ctx W) : Prop :=
  wp m (fun e c' => e = None /\ exists s' o', settling s s' /\ recorded (set_Status s' env) rec /\
    cx_de c' = live s' o' /\ P (cx_de c') (cx_world c') /\
    exists l, cx_log c' = cx_log c ++ l /\ Forall reads_or_records l) c.
Lemma settles_records rec {A} (get : M W A) (f : A -> M W (option error)) (Q : DynamicEnvStatus -> A -> Prop) :
  (forall s o, kept s -> quietly (P (live s o)) (live s o) get (Q s)) ->
  (forall c s a o, kept s -> cx_de c = live s o -> P (cx_de c) (cx_world c) -> Q s a -> records_from rec (f a) s c) ->
  settles (get ≫= f) (eq None) (eq rec).
Proof.
  intros Hget Hf c s o Hk Hde HP. apply wp_bind. eapply wp_mono; [|apply (Hget s o Hk); [by rewrite <- Hde|done]].
  intros a c1 (HQ & HP1 & Hde1 & l & Hl & Hr). eapply wp_mono; [|apply (Hf c1 s a o Hk Hde1); [by rewrite Hde1|done]].
  intros ? c2 (-> & s' & o' & Hs' & Hrec & Hde2 & HP2 & l' & Hl' & Hr'). split; [done|]. exists s', o'. split; [done|].
  split; [by intros ? <-|]. split; [done|]. split; [done|]. exists (l ++ l'). rewrite Hl', Hl, app_assoc.
  split; [done|]. apply Forall_app. split; [by apply reads_calm|done].
Qed.
Lemma records_already rec s o c :
  kept s -> cx_de c = live s o -> P (cx_de c) (cx_world c) -> recorded (set_Status s env) rec ->
  records_from rec (mret None) s c.
Proof.
  intros Hk Hde HP Hrec. apply wp_ret. split; [done|]. exists s, o. split; [by split|]. split; [done|]. split; [done|].
  split; [done|]. exists []. by rewrite app_nil_r.
Qed.
Lemma entry_wired s name (st : SubsetStatus) : kept s -> mlookup (st_SubsetsStatus s) name = Some st ->
  wire_rs (ss_Deployment st) = ss_Deployment st /\ map wire_rs (ss_DestinationRules st) = ss_DestinationRules st /\
  map wire_rs (ss_VirtualServices st) = ss_VirtualServices st /\ wire_errors <$> ss_Errors st = ss_Errors st /\
  NoDup (map rs_key (ss_DestinationRules st)) /\ NoDup (map rs_key (ss_VirtualServices st)).
Proof.
  intros Hk Hst. pose proof (wire_subset_at _ _ _ (kept_wire s Hk) Hst) as Hw. pose proof (kept_listed s Hk _ _ Hst).
  destruct st. unfold wire_subset in Hw. cbn in *. injection Hw as E1 E2 E3 E4. by rewrite E1, E2, E3, E4.
Qed.
Lemma running_wire rs : rs_Status rs = Running -> wire_rs rs = rs.
Proof. destruct rs; simpl. by intros ->. Qed.

Lemma settles_AddDeployment tpe name rs :
  wished r k (RecDeployment tpe name rs) ->
  settles (AddDeploymentStatusEntry name rs tpe) (eq None) (eq (RecDeployment tpe name rs)).
Proof.
  intros Hw. pose proof (running_wire _ (wished_running _ Hw)) as Hwire. destruct tpe; cbn [AddDeploymentStatusEntry].
  - unfold addSubsetDeploymentStatusEntry.
    apply (settles_records _ _ _ (fun s st => mlookup (st_SubsetsStatus s) name = Some st)).
    { intros s o Hk. destruct (wished_entry _ s Hk Hw) as [st Hst].
      eapply quietly_mono; [by apply (quietly_safeGetSubsetsStatus name st)|]. by intros ? <-. }
    intros c s st o Hk Hde HP Hst. destruct (ResourceStatus_IsEqual _ _) eqn:E; simpl.
    { apply ResourceStatus_IsEqual_spec in E. apply (records_already _ s o); [done..|]. cbn.
      change (de_SubsetsStatus _) with (st_SubsetsStatus s). rewrite Hst. simpl. by rewrite E. }
    eapply wp_mono; [|apply (settles_write_subset name (fun st => mkSubsetStatus rs (ss_DestinationRules st)
      (ss_VirtualServices st) (ss_Errors st) (ss_Hash st))) with (s := s) (o := o); [| |done|done|done..]].
    + intros e c' (-> & s' & o' & Hs' & Hl & Hrest). split; [done|]. exists s', o'. split; [done|]. split; [|done]. cbn.
      change (de_SubsetsStatus _) with (st_SubsetsStatus s'). by rewrite Hl.
    + intros s1 st1 Hk1 Hst1. destruct (entry_wired s1 name st1 Hk1 Hst1) as (_ & E2 & E3 & E4 & Hnd1 & Hnd2).
      unfold wire_subset. cbn. by rewrite Hwire, E2, E3, E4.
    + intros rs' Hw' st1 _. cbn. by eapply wished_deployment_fun.
  - unfold addConsumerDeploymentStatusEntry.
    apply (settles_records _ _ _ (fun s st => mlookup (st_ConsumersStatus s) name = Some st)).
    { intros s o Hk. destruct (wished_entry _ s Hk Hw) as [st Hst].
      eapply quietly_mono; [by apply (quietly_safeGetConsumersStatus name st)|]. by intros ? <-. }
    intros c s st o Hk Hde HP Hst. destruct (ResourceStatus_IsEqual _ _) eqn:E; simpl.
    { apply ResourceStatus_IsEqual_spec in E. apply (records_already _ s o); [done..|]. cbn.
      change (de_ConsumersStatus _) with (st_ConsumersStatus s). rewrite Hst. simpl. by rewrite E. }
    assert (Hrs : mkResourceStatus (rs_Name rs) (rs_Namespace rs) (rs_Status rs) = rs) by by destruct rs.
    rewrite Hrs. eapply wp_mono; [|apply (settles_write_consumer name (fun st => mkConsumerStatus rs (cs_Hash st)
      (cs_Errors st))) with (s := s) (o := o); [| |done..]].
    + intros e c' (-> & s' & o' & Hs' & Hl & Hrest). split; [done|]. exists s', o'. split; [done|]. split; [|done]. cbn.
      change (de_ConsumersStatus _) with (st_ConsumersStatus s'). by rewrite Hl.
    + intros s1 st1 Hk1 Hst1. pose proof (wire_consumer_at _ _ _ (kept_wire s1 Hk1) Hst1) as Hw1.
      destruct st1. unfold wire_consumer in *. cbn in *. injection Hw1 as E1 E2. by rewrite Hwire, E2.
    + intros rs' Hw' st1 _. cbn. by eapply wished_deployment_fun.
Qed.
Lemma sync_records rs rs' l :
  rs_Status rs = Running -> rs_Status rs' = Running -> rs' ∈ l -> rs' ∈ (SyncStatusResources rs l).2.
Proof.
  intros Hrs Hrs' Hin. apply elem_of_sync. destruct (decide (rs_key rs' = rs_key rs)) as [Hk|Hk]; [left|by right].
  apply key_status_eq; [done|congruence].
Qed.
Lemma settles_AddRule name rs :
  wished r k (RecRule name rs) ->
  settles (AddDestinationRuleStatusEntry name rs) (eq None) (eq (RecRule name rs)).
Proof.
  intros Hw. pose proof (wished_running _ Hw) as Hrun. pose proof (running_wire _ Hrun) as Hwire.
  unfold AddDestinationRuleStatusEntry.
  apply (settles_records _ _ _ (fun s st => mlookup (st_SubsetsStatus s) name = Some st)).
  { intros s o Hk. destruct (wished_entry _ s Hk Hw) as [st Hst].
    eapply quietly_mono; [by apply (quietly_safeGetSubsetsStatus name st)|]. by intros ? <-. }
  intros c s st o Hk Hde HP Hst. pose proof (sync_unmodified rs (ss_DestinationRules st)) as Hun.
  assert (Hin : rs ∈ (SyncStatusResources rs (ss_DestinationRules st)).2) by (apply elem_of_sync; by left).
  destruct (SyncStatusResources rs (ss_DestinationRules st)) as [[] l] eqn:E; simpl in *.
  2: { apply (records_already _ s o); [done..|]. exists st. split; [done|]. by rewrite <- (proj1 Hun eq_refl). }
  assert (El : l = (SyncStatusResources rs (ss_DestinationRules st)).2) by by rewrite E. rewrite El.
  eapply wp_mono; [|apply (settles_write_subset name (fun st => mkSubsetStatus (ss_Deployment st)
    (SyncStatusResources rs (ss_DestinationRules st)).2 (ss_VirtualServices st) (ss_Errors st) (ss_Hash st))) with (s := s) (o := o);
    [|done| |done|done..]].
  - intros e c' (-> & s' & o' & Hs' & Hl & Hrest). split; [done|]. exists s', o'. split; [done|]. split; [|done].
    eexists. split; [exact Hl|]. cbn. by rewrite E.
  - intros s1 st1 Hk1 Hst1. destruct (entry_wired s1 name st1 Hk1 Hst1) as (E1 & E2 & E3 & E4 & Hnd1 & Hnd2).
    unfold wire_subset. cbn. rewrite E1, wire_sync, E3, E4 by done. split_and!; [done..| |done]. by apply sync_keys_NoDup.
  - intros rs' Hw' st1. cbn. apply sync_records; [done|]. by apply wished_running in Hw'.
Qed.
Lemma settles_AddService name rs :
  wished r k (RecService name rs) ->
  settles (AddVirtualServiceStatusEntry name rs) (eq None) (eq (RecService name rs)).
Proof.
  intros Hw. pose proof (wished_running _ Hw) as Hrun. pose proof (running_wire _ Hrun) as Hwire.
  unfold AddVirtualServiceStatusEntry.
  apply (settles_records _ _ _ (fun s st => mlookup (st_SubsetsStatus s) name = Some st)).
  { intros s o Hk. destruct (wished_entry _ s Hk Hw) as [st Hst].
    eapply quietly_mono; [by apply (quietly_safeGetSubsetsStatus name st)|]. by intros ? <-. }
  intros c s st o Hk Hde HP Hst. pose proof (sync_unmodified rs (ss_VirtualServices st)) as Hun.
  assert (Hin : rs ∈ (SyncStatusResources rs (ss_VirtualServices st)).2) by (apply elem_of_sync; by left).
  destruct (SyncStatusResources rs (ss_VirtualServices st)) as [[] l] eqn:E; simpl in *.
  2: { apply (records_already _ s o); [done..|]. exists st. split; [done|]. by rewrite <- (proj1 Hun eq_refl). }
  assert (El : l = (SyncStatusResources rs (ss_VirtualServices st)).2) by by rewrite E. rewrite El.
  eapply wp_mono; [|apply (settles_write_subset name (fun st => mkSubsetStatus (ss_Deployment st)
    (ss_DestinationRules st) (SyncStatusResources rs (ss_VirtualServices st)).2 (ss_Errors st) (ss_Hash st))) with (s := s) (o := o);
    [|done|done| |done..]].
  - intros e c' (-> & s' & o' & Hs' & Hl & Hrest). split; [done|]. exists s', o'. split; [done|]. split; [|done].
    eexists. split; [exact Hl|]. cbn. by rewrite E.
  - intros s1 st1 Hk1 Hst1. destruct (entry_wired s1 name st1 Hk1 Hst1) as (E1 & E2 & E3 & E4 & Hnd1 & Hnd2).
    unfold wire_subset. cbn. rewrite E1, wire_sync, E2, E4 by done. split_and!; [done..|]. by apply sync_keys_NoDup.
  - intros rs' Hw' st1. cbn. apply sync_records; [done|]. by apply wished_running in Hw'.
Qed.

(** *** All handlers *)
Lemma settles_apply_rules (h : DestinationRuleHandler) l :
  (forall rs, rs ∈ l -> wished r k (RecRule (drh_SubsetName h) rs)) ->
  settles (DestinationRuleHandler_ApplyStatus h l) (eq None)
    (fun rec => exists rs, rs ∈ l /\ rec = RecRule (drh_SubsetName h) rs).
Proof.
  induction l as [|rs l IH]; intros Hl; cbn [DestinationRuleHandler_ApplyStatus].
  { eapply settles_mono; [by apply (settles_ret None (eq None))|done|]. by intros rec (rs & ?%elem_of_nil & _). }
  eapply settles_mono.
  - eapply settles_bind; [apply settles_AddRule, Hl; by left|intros ? <-; apply Hl; by left|].
    intros ? <-. apply IH. intros rs' Hrs'. apply Hl. by right.
  - done.
  - intros rec (rs' & [->|Hrs']%elem_of_cons & ->); [by left|right; eauto].
Qed.
Lemma settles_apply_services (h : VirtualServiceHandler) l :
  (forall rs, rs ∈ l -> wished r k (RecService (vh_SubsetName h) rs)) ->
  settles (VirtualServiceHandler_ApplyStatus h l) (eq None)
    (fun rec => exists rs, rs ∈ l /\ rec = RecService (vh_SubsetName h) rs).
Proof.
  induction l as [|rs l IH]; intros Hl; cbn [VirtualServiceHandler_ApplyStatus].
  { eapply settles_mono; [by apply (settles_ret None (eq None))|done|]. by intros rec (rs & ?%elem_of_nil & _). }
  eapply settles_mono.
  - eapply settles_bind; [apply settles_AddService, Hl; by left|intros ? <-; apply Hl; by left|].
    intros ? <-. apply IH. intros rs' Hrs'. apply Hl. by right.
  - done.
  - intros rec (rs' & [->|Hrs']%elem_of_cons & ->); [by left|right; eauto].
Qed.

Lemma settles_process_sr (l : list (SubsetType * Deployment)) p e :
  (forall st base, (st, base) ∈ l -> st ∈ parts /\ based k (stt_Subset st) base) ->
  settles (process_sr (map (sr_of r (k:=k)) l) p e) (eq (p, e)) (fun rec => exists st base, (st, base) ∈ l /\
    rec = RecDeployment (stt_Type st) (MKSubsetName (stt_Subset st))
      (running (dh_UniqueName (deployment_handler r k base st)) (s_Namespace (stt_Subset st)))).
Proof.
  induction l as [|[st base] l IH]; intros Hl; cbn [map process_sr].
  { eapply settles_mono; [by apply (settles_ret (p, e) (eq (p, e)))|done|]. by intros rec (? & ? & ?%elem_of_nil & _). }
  destruct (Hl st base) as [Hst Hbase]; [by left|]. cbv zeta.
  pose proof (wished_deployment r k st base Hst Hbase) as Hw. 
  apply (settles_quiet_bind _ _ (eq (Ok (running (dh_UniqueName (deployment_handler r k base st)) (s_Namespace (stt_Subset st)))))).
  { intros s o Hk. apply (quietly_sr_status r (k:=at_env (live s o) k) st base); [|done].
    by apply part_kept, part_at. }
  intros ? <-. eapply settles_mono.
  - eapply settles_bind; [by apply settles_AddDeployment|by intros ? <-|]. intros ? <-. cbv beta iota.
    rewrite decide_False by (intros Hn; by apply Hn). apply IH. intros st' base' Hin. apply Hl. by right.
  - done.
  - intros rec (st' & base' & [[= -> ->]|Hin]%elem_of_cons & ->); [by left|right; eauto].
Qed.

(** What a handler of several resources records. *)
Definition mr_records (m : mr_made) (rec : record) : Prop :=
  match m with
  | RulesMade x base hosts => exists sh, sh ∈ hosts /\
      rec = RecRule (MKSubsetName x) (running (calculateDRName (rule_handler r k base x hosts) sh) (s_Namespace x))
  | ServicesMade x base hosts _ => exists sh v, sh ∈ hosts /\ found_for items (service_handler r k base x hosts) sh v /\
      rec = RecService (MKSubsetName x) (running (vs_Name v) (vs_Namespace v))
  end.
Lemma mr_records_wished m rec : mr_ok r (k:=k) parts m -> mr_records m rec -> wished r k rec.
Proof.
  destruct m as [x base hosts|x base hosts vss]; simpl.
  - intros (Hs & Hbase & Hserved) (sh & Hsh & ->). by apply wished_rule.
  - intros (Hs & Hbase & Hserved & _) (sh & v & Hsh & Hf & ->). by eapply wished_service.
Qed.
Lemma settles_mr m : mr_ok r (k:=k) parts m -> exists G : list ResourceStatus -> Prop,
  (forall s o, kept s -> quietly (P (live s o)) (live s o) (mr_GetStatus (mr_of (W:=W) r (k:=k) m))
    (fun res => exists l, res = Ok l /\ G l)) /\
  forall l, G l -> Forall (fun rs => rs_Status rs = Running) l /\
    settles (mr_ApplyStatus (mr_of r (k:=k) m) l) (eq None) (mr_records m).
Proof.
  intros Hm. pose proof (fun rec => mr_records_wished m rec Hm) as Hw. destruct m as [x base hosts|x base hosts vss]; simpl in *.
  - destruct Hm as (Hs & Hbase & Hserved).
    exists (eq (map (fun sh => running (calculateDRName (rule_handler r k base x hosts) sh) (s_Namespace x)) hosts)). split.
    + intros s o Hk. eapply quietly_mono.
      * apply (quietly_rules_status r (k:=at_env (live s o) k) x base hosts); [|done..]. by apply part_kept, part_at.
      * intros ? <-. by eexists.
    + intros ? <-. split; [by apply Forall_fmap, Forall_true|]. eapply settles_mono; [apply settles_apply_rules|done|].
      * intros rs (sh & -> & Hsh)%list_elem_of_fmap. apply Hw. by exists sh.
      * intros rec (sh & Hsh & ->). eexists. split; [by apply (list_elem_of_fmap_2 _ hosts sh)|done].
  - destruct Hm as (Hs & Hbase & Hserved & Hrem). exists (reports_found items (service_handler r k base x hosts) hosts). split.
    + intros s o Hk.
      apply (quietly_services_status r (k:=at_env (live s o) k) x base hosts vss); [|done..]. by apply part_kept, part_at.
    + intros l Hl. split; [apply Forall_forall; by intros rs (sh & v & _ & _ & ->)%Hl|].
      eapply settles_mono; [apply settles_apply_services|done|].
      * intros rs (sh & v & Hsh & Hf & ->)%Hl. apply Hw. by exists sh, v.
      * intros rec (sh & v & Hsh & Hf & ->). eexists. split; [apply Hl; by exists sh, v|done].
Qed.
Lemma settles_process_mr (ms : list mr_made) p e :
  Forall (mr_ok r (k:=k) parts) ms ->
  settles (process_mr (map (mr_of r (k:=k)) ms) p e) (eq (p, e)) (fun rec => exists m, m ∈ ms /\ mr_records m rec).
Proof.
  induction 1 as [|m ms Hm _ IH]; cbn [map process_mr].
  { eapply settles_mono; [by apply (settles_ret (p, e) (eq (p, e)))|done|]. by intros rec (? & ?%elem_of_nil & _). }
  cbv zeta. destruct (settles_mr m Hm) as (G & Hget & Happly). eapply settles_quiet_bind; [exact Hget|].
  intros ? (l & -> & HG). destruct (Happly l HG) as [Hrun Hset]. cbv beta iota. eapply settles_mono.
  - eapply settles_bind; [exact Hset|intros rec; by apply mr_records_wished|]. intros ? <-. cbv beta iota.
    rewrite count_failed_running by done. exact IH.
  - done.
  - intros rec (m' & [->|Hin]%elem_of_cons & Hrec); [by left|right; eauto].
Qed.
Lemma settles_statuses (l : list (SubsetType * Deployment)) (ms : list mr_made) :
  made r (k:=k) parts l ms ->
  settles (processHandlersStatus (map (sr_of r (k:=k)) l) (map (mr_of r (k:=k)) ms)) (eq (mkPSR ∅ false ∅, None)) (wished r k).
Proof.
  intros [Hl Hbased Hok Hrules Hservices]. rewrite Forall_forall in Hbased. unfold processHandlersStatus.
  assert (Hin : forall st base, (st, base) ∈ l -> st ∈ parts /\ based k (stt_Subset st) base).
  { intros st base Hin. split; [|exact (Hbased _ Hin)]. rewrite <- Hl. by apply (list_elem_of_fmap_2 fst l (st, base)). }
  eapply settles_mono.
  - eapply settles_bind; [by apply settles_process_sr| |].
    + intros rec (st & base & Hst & ->). by destruct (Hin _ _ Hst); apply wished_deployment.
    + intros ? <-. cbv beta iota. eapply settles_bind; [by apply settles_process_mr| |].
      * rewrite Forall_forall in Hok. intros rec (m & Hm & Hrec). by eapply mr_records_wished; [apply Hok|].
      * intros ? <-. by apply (settles_ret _ (eq (mkPSR ∅ false ∅, None))).
  - done.
  - intros rec [st base Hst Hbase|x base hosts sh Hs Hbase Hserved Hsh|x base hosts sh v Hs Hbase Hserved Hsh Hf];
      [left|right; left|right; left].
    + rewrite <- Hl in Hst. apply list_elem_of_fmap in Hst as ([st' base'] & -> & Hp). destruct (Hin _ _ Hp) as [_ Hb].
      pose proof (based_fun _ _ _ Hbase Hb) as ->. by exists st', base'.
    + destruct (Hrules x Hs) as (base' & hosts' & Hm). exists (RulesMade x base' hosts'). split; [done|].
      rewrite Forall_forall in Hok. destruct (Hok _ Hm) as (_ & Hb' & Hs').
      pose proof (based_fun _ _ _ Hbase Hb') as <-. pose proof (served_fun _ _ _ _ Hserved Hs') as <-. by exists sh.
    + destruct (Hservices x Hs) as (base' & hosts' & vss & Hm). exists (ServicesMade x base' hosts' vss). split; [done|].
      rewrite Forall_forall in Hok. destruct (Hok _ Hm) as (_ & Hb' & Hs' & _).
      pose proof (based_fun _ _ _ Hbase Hb') as <-. pose proof (served_fun _ _ _ _ Hserved Hs') as <-. by exists sh, v.
Qed.

(** *** The run *)
#[local] Instance serves_start : Answers (P env) k.
Proof. assert (E : k = at_env env k) by by destruct k. rewrite E at 2. apply serves_answers. Qed.
Definition finished (s : DynamicEnvStatus) (total : Z) : DynamicEnvStatus :=
  mkDynamicEnvStatus (st_SubsetsStatus s) (st_ConsumersStatus s) Ready total total.
Lemma finished_kept s total : kept s -> kept (finished s total).
Proof.
  intros [Hw Hl Hs Hc]. split; [|exact Hl|exact Hs|exact Hc]. unfold wire_status, finished in *. cbn.
  destruct s as [ss cs state t1 t2]; cbn in *. injection Hw as E1 E2 E3. by rewrite E1, E2.
Qed.
Definition settled_end (log : list event) s (o : opaque) (c : ctx W) : Prop :=
  cx_de c = live s o /\ P (cx_de c) (cx_world c) /\
  exists l, cx_log c = log ++ l /\ Forall reads_or_records l.
Lemma wp_state_settles total s o log c :
  kept s -> settled_end log s o c ->
  wp (SetGlobalState Ready total 0) (fun e c' => e = None /\ exists o', settled_end log (finished s total) o' c') c.
Proof.
  intros Hk (Hde & HP & l & Hl & Hr). unfold SetGlobalState. apply wp_bind, wp_get_de. cbv zeta. rewrite Hde, Z.sub_0_r.
  apply wp_bind, wp_put_de. change (set_Status _ (live s o)) with (live (finished s total) o).
  apply wp_update_kept with (s := finished s total) (o := o); [by apply finished_kept|done|exists s; by rewrite <- Hde|].
  intros c' o' Hde' HP' (l' & Hl' & Hr'). split; [done|]. exists o'. split; [done|]. split; [done|]. exists (l ++ l').
  rewrite Hl'. cbn. rewrite Hl, app_assoc. split; [done|]. by apply Forall_app.
Qed.
Lemma wp_conclude_settles total s o log c :
  kept s -> settled_end log s o c ->
  wp (conclude total zero_RLS (mkPSR ∅ false ∅) false)
    (fun res c' => res = (zero_Result, None) /\ exists o', settled_end log (finished s (Z.of_nat total)) o' c') c.
Proof.
  intros Hk (Hde & HP & l & Hl & Hr). unfold conclude.
  assert (Hc : so_far (P:=P (live s o)) (k:=at_env (live s o) k) (cx_log c) c).
  { split; [by rewrite <- Hde|]. split; [done|]. exists []. by rewrite app_nil_r. }
  revert Hc. apply (wp_quietly_bind _ _ (eq [])); [apply quietly_range_nothing|].
  intros ? c1 <-. cbv zeta. cbn [foldl]. apply (wp_quietly_bind _ _ (eq tt)).
  { unfold SyncSubsetMessagesToStatus. apply quietly_range_empty. by apply quietly_ret. }
  intros ? c2 <-. apply (wp_quietly_bind _ _ (eq tt)).
  { unfold SyncConsumerMessagesToStatus. apply quietly_range_empty. by apply quietly_ret. }
  intros ? c3 <- (HP3 & Hde3 & l3 & Hl3 & Hr3). apply wp_bind.
  eapply wp_mono; [|apply (wp_state_settles (Z.of_nat total) s o log c3 Hk)].
  - intros ? c4 (-> & o' & Hend). apply wp_ret. split; [done|]. by exists o'.
  - split; [done|]. split; [by rewrite Hde3|]. exists (l ++ l3). rewrite Hl3, Hl, app_assoc. split; [done|].
    apply Forall_app. split; [done|]. by apply reads_calm.
Qed.
Lemma recorded_finished s total rec : recorded (set_Status s env) rec -> recorded (set_Status (finished s total) env) rec.
Proof. by destruct rec as [[] ? ?| |]. Qed.
Lemma rest_finished s o :
  kept s -> (forall rec, wished r k rec -> recorded (set_Status s env) rec) ->
  at_rest r (at_env (live (finished s (Z.of_nat (length parts))) o) k).
Proof.
  intros Hk Hrec. split; [by apply place_kept, finished_kept| |done..].
  intros rec Hw. apply (recorded_finished s (Z.of_nat (length parts))), Hrec.
  destruct Hw as [st base Hst Hbase|x base hosts sh Hs Hbase Hserved Hsh|x base hosts sh v Hs Hbase Hserved Hsh Hf].
  - exact (wished_deployment r k st base Hst Hbase).
  - exact (wished_rule r k x base hosts sh Hs Hbase Hserved Hsh).
  - exact (wished_service r k x base hosts sh v Hs Hbase Hserved Hsh Hf).
Qed.
Lemma wp_Reconcile_settles (c : ctx W) :
  P env (cx_world c) ->
  wp (Reconcile r (de_nn env)) (fun res c' => res = (zero_Result, None) /\ exists s o,
      at_rest r (at_env (live s o) k) /\ settled_end (cx_log c) s o c') c.
Proof.
  intros HP. apply (wp_Reconcile_in_place r (place_valid _ _ Hplace) _ (cx_log c)); [done..|].
  intros l ms c1 Hm (HP1 & Hde1 & l1 & Hl1 & Hr1).
  assert (Hde1' : cx_de c1 = live (de_Status env) (de_other env)) by by rewrite Hde1, <- live_start.
  eapply wp_mono; [|apply (settles_statuses l ms Hm c1 _ _ kept_start Hde1'); by rewrite Hde1].
  intros ? c2 (<- & s & o & [Hk _] & Hrec & Hde2 & HP2 & l2 & Hl2 & Hr2). split; [done|].
  eapply wp_mono; [|apply (wp_conclude_settles (length parts) s o (cx_log c) c2 Hk)].
  - intros res c3 (-> & o' & Hend). split; [done|]. eexists _, o'. split; [by apply rest_finished|exact Hend].
  - split; [done|]. split; [done|]. exists (l1 ++ l2). rewrite Hl2, Hl1, app_assoc. split; [done|].
    apply Forall_app. split; [by apply reads_calm|done].
Qed.
Lemma serves_shows s o : wire_status s = s -> Shows (P (live s o)) (at_env (live s o) k).
Proof. intros Hw. split; [apply serves_answers|]. intros w HP. exact (serves_no_change (P:=P) (k:=k) (live s o) w HP Hw). Qed.
End settle.

(** One run records, those after it only read. *)
Lemma wp_Reconcile_times_settles {W} `{Client W} `{MapOrder} `{RoutePrinter} `{SubsetHash} `{LabelSets}
    (P : DynamicEnv -> W -> Prop) (k : snapshot) (r : DynamicEnvReconciler) (n : nat) (c : ctx W)
    (Hserves : Serves P k) (Hplace : in_place r k) (HP : P (sn_env k) (cx_world c)) :
  wp (Reconcile_times r (de_nn (sn_env k)) (S n)) (fun answers c' =>
      answers = replicate (S n) (zero_Result, None) /\
      exists s o, let k' := at_env (stamp o (set_Status s (sn_env k))) k in
        at_rest r k' /\ P (sn_env k') (cx_world c') /\
        exists l reads, Forall reads_or_records l /\ length reads = n /\ Forall (Forall is_read) reads /\
          cx_log c' = cx_log c ++ l ++ concat (map (fun l => l ++ [no_change (k:=k')]) reads)) c.
Proof.
  cbn [Reconcile_times]. apply wp_bind. eapply wp_mono; [|by apply (wp_Reconcile_settles r Hplace c)].
  intros ? c1 (-> & s & o & Hrest & Hde & HP1 & l & Hl & Hr). apply wp_bind.
  pose proof (serves_shows (P:=P) s o (place_wire _ _ (rest_in_place _ _ Hrest))) as Hshows.
  rewrite Hde in HP1. eapply wp_mono.
  2: { apply (wp_Reconcile_times_quiet (P (live (k:=k) s o)) (at_env (live (k:=k) s o) k) r n c1 Hrest HP1). }
  intros ? c2 (-> & HP2 & reads & Hlen & Hreads & Hl2). apply wp_ret. split; [done|]. exists s, o. cbv zeta.
  split; [done|]. split; [done|]. exists l, reads. split; [done|]. split; [done|]. split; [done|].
  by rewrite Hl2, Hl, app_assoc.
Qed.

(** C8.  The operator settles.  Let everything an environment asks for be there
    and running: its deployments available and up to date, its destination
    rules, and its routes in the virtual services; and let the API server answer
    reads with what it stores and accept updates of the status.  Then, whatever
    the status records so far of these resources, one run records all of it and
    ends ready, without an error and without asking for another run: it leaves
    the environment at rest, having made no call but reads and status updates;
    and every later run only reads, but for one status update that changes
    nothing.  The conditions on the status are those of any resource that was
    admitted and whose former parts have been cleaned up. *)
Theorem Reconcile_settles {W} `{Client W} `{MapOrder} `{RoutePrinter} `{SubsetHash} `{LabelSets}
    (P : DynamicEnv -> W -> Prop) (k : snapshot) (r : DynamicEnvReconciler) (n : nat) (c : ctx W)
    (Hserves : Serves P k) (Hplace : in_place r k) (HP : P (sn_env k) (cx_world c)) :
  wp (Reconcile_times r (de_nn (sn_env k)) (S n)) (fun answers c' =>
      answers = replicate (S n) (zero_Result, None) /\
      exists s o, let k' := at_env (stamp o (set_Status s (sn_env k))) k in
        at_rest r k' /\ P (sn_env k') (cx_world c') /\
        exists l reads, Forall reads_or_records l /\ length reads = n /\ Forall (Forall is_read) reads /\
          cx_log c' = cx_log c ++ l ++ concat (map (fun l => l ++ [no_change (k:=k')]) reads)) c.
Proof. by apply wp_Reconcile_times_settles. Qed.

(** ** The in-memory server settles the example *)
Lemma fake_serves (k : cluster) (de : DynamicEnv) : keyed k -> Serves (stores k) (snapshot_of k de).
Proof.
  intros Hkeys. split; [intros de'; by apply fake_answers|..].
  - intros de' s w HP. destruct (fake_update k de' s w HP) as (w' & E & HP'). by exists (de_other de'), w'.
  - intros de' w HP Hw. destruct (fake_update k de' (de_Status de') w HP) as (w' & E & HP'). exists w'.
    rewrite Hw in *. by destruct de'.
Qed.

Module SettleExample.
Import RestExample.
#[local] Existing Instance ReconcileExample.labels.
#[local] Existing Instance DeploymentExample.hash.
(** The deployments have just become available; the status says otherwise. *)
Definition ready_env : DynamicEnv := Eval vm_compute in default env (k_envs ready !! mkNN "default" "env").
Example not_recorded : st_State (de_Status ready_env) = Processing.
Proof. vm_compute. reflexivity. Qed.
Definition before : snapshot := snapshot_of settled ready_env.
Lemma placed_before : in_place StaticCluster.reconciler before.
Proof. change before with (snapshot_of settled (set_Status (de_Status ready_env) settled_env)). placed_tac. Qed.
Lemma stored_before : stores settled ready_env ready.
Proof. repeat split; vm_compute; reflexivity. Qed.
End SettleExample.

Lemma Reconcile_settles_witness :
  let k := SettleExample.before in
  wp (Reconcile_times (H1:=canonical_order) (H2:=RoutingExample.printer) (H3:=DeploymentExample.hash)
        (H4:=ReconcileExample.labels) StaticCluster.reconciler (de_nn (sn_env k)) 3)
    (fun answers c' =>
      answers = replicate 3 (zero_Result, None) /\
      exists s o, let k' := at_env (stamp o (set_Status s (sn_env k))) k in
        at_rest (H:=DeploymentExample.hash) (H1:=ReconcileExample.labels) StaticCluster.reconciler k' /\
        stores RestExample.settled (sn_env k') (cx_world c') /\
        exists l reads, Forall reads_or_records l /\ length reads = 2 /\ Forall (Forall is_read) reads /\
          cx_log c' = [] ++ l ++ concat (map (fun l => l ++ [no_change (k:=k')]) reads))
    (start RestExample.ready example_de).
Proof.
  intros k. apply (Reconcile_settles (H1:=canonical_order) (H2:=RoutingExample.printer) (H3:=DeploymentExample.hash)
    (H4:=ReconcileExample.labels) (stores RestExample.settled) k StaticCluster.reconciler 2
    (start RestExample.ready example_de)).
  - apply fake_serves, RestExample.keyed_settled.
  - exact SettleExample.placed_before.
  - exact SettleExample.stored_before.
Defined.
