(* ===== verification/Editing.v ===== *)
(** * Edited virtual services

    What the edits of an environment's handlers do to virtual services, as seen
    by every other handler: routes to the environment's version are added, under
    its names, and nothing else changes.  When the names of routes can be told
    apart, a virtual service that has some routes of a subset has all of them. *)

From stdpp Require Import base gmap sets list strings sorting.
From S2P Require Import Prelude GoStrings Sha256 K8s Types Helpers Watches Client FakeCluster StatusManager Model VirtualServiceHandler VirtualServiceRouting Locating DeploymentHandler DestinationRuleHandler CleanupManager Controller Totality Quiet AtRest.

(** ** Virtual services with more routes *)
Section edited.
Context `{RoutePrinter} (version : string).
Implicit Types (h : VirtualServiceHandler) (http : list HTTPRoute) (v : VirtualService) (sh ns : string).

(** A route that sends what some route matches to [version]. *)
Definition made_from http (rt' : HTTPRoute) : Prop := exists rt, rt ∈ http /\ hr_Delegate rt' = hr_Delegate rt /\
  Forall (fun rd => exists d, rd_Destination rd = Some d /\ dst_Subset d = version) (hr_Route rt').
Definition more_routes http http' : Prop :=
  (forall rt, rt ∈ http -> rt ∈ http') /\ forall rt', rt' ∈ http' -> rt' ∈ http \/ made_from http rt'.
Definition edited v v' : Prop :=
  vs_nn v' = vs_nn v /\ vs_Hosts v' = vs_Hosts v /\ more_routes (vs_Http v) (vs_Http v').

#[export] Instance edited_preorder : PreOrder edited.
Proof.
  split; [by intros v; split; [|split; [|split; [|left]]]|].
  intros v1 v2 v3 (Hn & Hh & Hk & Hm) (Hn' & Hh' & Hk' & Hm'). split; [congruence|]. split; [congruence|].
  split; [auto|]. intros rt [Hrt|(rt2 & Hrt & Hd & Hf)]%Hm'; [by apply Hm|right].
  destruct (Hm _ Hrt) as [Hin|(rt1 & Hin & Hd1 & _)]; [by exists rt2|exists rt1; split; [done|split; [congruence|done]]].
Qed.
Lemma more_well_formed http http' : more_routes http http' -> Forall well_formed http -> Forall well_formed http'.
Proof.
  intros [_ Hm] Hwf. rewrite Forall_forall in *. intros rt [Hrt|(_ & _ & _ & Hf)]%Hm; [by apply Hwf|].
  eapply Forall_impl; [exact Hf|]. intros rd (d & -> & _). by eexists.
Qed.
Lemma more_configured http http' prefix : more_routes http http' ->
  routesConfiguredWithDynamicEnvRoutes http prefix = true -> routesConfiguredWithDynamicEnvRoutes http' prefix = true.
Proof.
  intros [Hk _] (rt & Hrt%list_elem_of_In & Hp)%existsb_exists. apply existsb_exists. exists rt.
  by split; [apply list_elem_of_In, Hk|].
Qed.

(** For another version they route as before. *)
Lemma more_targeted h sh ns http http' :
  vh_DefaultVersion h <> version -> more_routes http http' ->
  existsb (targeted h sh ns) http' = existsb (targeted h sh ns) http.
Proof.
  intros Hv [Hk Hm]. apply eq_true_iff_eq. rewrite !existsb_exists. setoid_rewrite <- list_elem_of_In.
  split; intros (rt & Hrt & Ht); [|by exists rt; auto]. destruct (Hm _ Hrt) as [Hin|(_ & _ & _ & Hf)]; [by exists rt|].
  exfalso. unfold targeted in Ht. apply existsb_exists in Ht as (rd & Hrd%list_elem_of_In & Ht).
  rewrite Forall_forall in Hf. destruct (Hf _ Hrd) as (d & Hd & Hs). unfold taken in Ht. rewrite Hd in Ht.
  apply andb_true_iff in Ht as [_ Ht%bool_decide_eq_true]. congruence.
Qed.
Lemma resolve_well_formed h sh v : Forall well_formed (vs_Http v) -> resolveVirtualServices h sh v =
  Ret (existsb (targeted h sh (vs_Namespace v)) (vs_Http v), omap hr_Delegate (vs_Http v)).
Proof.
  unfold resolveVirtualServices. intros Hwf.
  enough (Hg : forall b ds, resolve_loop h sh (vs_Http v) (vs_Namespace v) b ds =
    Ret (b || existsb (targeted h sh (vs_Namespace v)) (vs_Http v), ds ++ omap hr_Delegate (vs_Http v))) by apply Hg.
  induction Hwf as [|rt http Hrt _ IH]; intros b ds; simpl; [by rewrite orb_false_r, app_nil_r|].
  rewrite (matches_existsb _ _ _ _ Hrt). simpl. rewrite IH. fold (targeted h sh (vs_Namespace v) rt).
  rewrite orb_assoc. by destruct (hr_Delegate rt); simpl; rewrite <- ?app_assoc.
Qed.
Lemma more_delegates http http' d : more_routes http http' -> d ∈ omap hr_Delegate http' <-> d ∈ omap hr_Delegate http.
Proof.
  intros [Hk Hm]. rewrite !list_elem_of_omap. split; intros (rt & Hrt & Hd); [|by exists rt; auto].
  destruct (Hm _ Hrt) as [Hin|(rt' & Hin & Hd' & _)]; [by exists rt|exists rt'; split; [done|congruence]].
Qed.

Context {items items' : list VirtualService}.
Context (Hedited : Forall2 edited items items') (Hwf : Forall (fun v => Forall well_formed (vs_Http v)) items).
Lemma edited_valid : Forall (fun v => Forall well_formed (vs_Http v)) items'.
Proof.
  rewrite Forall_forall in *. intros v' Hv'. apply list_elem_of_lookup in Hv' as [i Hi].
  destruct (Forall2_lookup_r _ _ _ _ _ Hedited Hi) as (v & Hv & _ & _ & Hm).
  eapply more_well_formed; [exact Hm|]. by eapply Hwf, list_elem_of_lookup_2.
Qed.
Lemma edited_listed d : find_listed d items' 0 = find_listed d items 0.
Proof.
  generalize 0. clear Hwf. induction Hedited as [|v v' l l' [Hn _] _ IH]; intros idx; [done|]. simpl.
  unfold vs_nn in Hn. injection Hn as -> ->. by rewrite IH by by inversion Hedited.
Qed.
Lemma edited_called h sh v v' : edited v v' -> called_by h sh v' <-> called_by h sh v.
Proof.
  intros (Hn & Hh & _). unfold vs_nn in Hn. injection Hn as Hns Hn. unfold called_by. by rewrite Hh, Hns.
Qed.
Lemma edited_resolve h sh v v' : vh_DefaultVersion h <> version -> v ∈ items -> edited v v' ->
  exists b ds ds', resolveVirtualServices h sh v = Ret (b, ds) /\ resolveVirtualServices h sh v' = Ret (b, ds') /\
    forall d, d ∈ ds' <-> d ∈ ds.
Proof.
  intros Hv Hin (Hn & _ & Hm). rewrite Forall_forall in Hwf. pose proof (Hwf _ Hin) as Hok.
  rewrite (resolve_well_formed h sh v Hok), (resolve_well_formed h sh v' (more_well_formed _ _ Hm Hok)).
  unfold vs_nn in Hn. injection Hn as -> _. rewrite (more_targeted h sh _ _ _ Hv Hm).
  do 3 eexists. split; [done|]. split; [done|]. intros d. by apply more_delegates.
Qed.
Lemma edited_found h sh i : vh_DefaultVersion h <> version -> found_at items' h sh i <-> found_at items h sh i.
Proof.
  intros Hv. unfold found_at, leads. setoid_rewrite edited_listed. split.
  - intros (idx & v' & Hi & Hc & b & ds & Hr & Hl).
    destruct (Forall2_lookup_r _ _ _ _ _ Hedited Hi) as (v & Hv0 & He). exists idx, v. split; [done|].
    split; [by apply (edited_called h sh v v')|].
    destruct (edited_resolve h sh v v' Hv (list_elem_of_lookup_2 _ _ _ Hv0) He) as (b0 & ds0 & ds' & E & E' & Hds).
    rewrite Hr in E'. injection E' as -> ->. exists b0, ds0. split; [done|].
    destruct Hl as [?|(d & Hd & Hf)]; [by left|right]. exists d. by rewrite <- Hds.
  - intros (idx & v & Hi & Hc & b & ds & Hr & Hl).
    destruct (Forall2_lookup_l _ _ _ _ _ Hedited Hi) as (v' & Hv0 & He). exists idx, v'. split; [done|].
    split; [by apply (edited_called h sh v v')|].
    destruct (edited_resolve h sh v v' Hv (list_elem_of_lookup_2 _ _ _ Hi) He) as (b0 & ds0 & ds' & E & E' & Hds).
    rewrite Hr in E. injection E as -> ->. exists b0, ds'. split; [done|].
    destruct Hl as [?|(d & Hd & Hf)]; [by left|right]. exists d. by rewrite Hds.
Qed.
Lemma edited_delegates h sh : delegates_listed items h sh -> delegates_listed items' h sh.
Proof.
  intros Hd v' rt d Hin Hc Hrt Hdel. rewrite edited_listed. apply list_elem_of_lookup in Hin as [i Hi].
  destruct (Forall2_lookup_r _ _ _ _ _ Hedited Hi) as (v & Hv0 & He).
  pose proof He as (_ & _ & Hm). assert (Hom : d ∈ omap hr_Delegate (vs_Http v)).
  { apply (more_delegates _ _ d Hm). apply list_elem_of_omap. by exists rt. }
  apply list_elem_of_omap in Hom as (rt0 & Hrt0 & Hd0).
  apply (Hd v rt0 d); [by eapply list_elem_of_lookup_2|by apply (edited_called h sh v v')|done|done].
Qed.
End edited.

(** The handler's edit adds routes, and the environment's among them. *)
Section edits.
Context `{RoutePrinter}.
Implicit Types (h : VirtualServiceHandler) (http : list HTTPRoute).
Lemma new_routes_more h sh ns http :
  routesConfiguredWithDynamicEnvRoutes http (vh_RoutePrefix h) = false ->
  more_routes (vh_UniqueVersion h) http (new_routes h sh ns http).
Proof.
  intros Hc. unfold new_routes. rewrite unconfigured_no_ours by done. split.
  - intros rt Hrt. apply list_elem_of_bind. exists rt. split; [|done]. apply elem_of_app. right. by left.
  - intros rt' (rt & Hrt' & Hrt)%list_elem_of_bind.
    apply elem_of_app in Hrt' as [Hc'| ->%list_elem_of_singleton]; [right|by left]. exists rt. split; [done|].
    unfold copies_of in Hc'. destruct (targeted _ _ _ _); [|by apply elem_of_nil in Hc'].
    apply list_elem_of_fmap in Hc' as (im & -> & _). split; [done|]. simpl. unfold our_destinations.
    apply Forall_fmap, Forall_forall. intros rd [Ht _]%list_elem_of_filter. unfold taken in Ht. simpl.
    destruct (rd_Destination rd) as [d|]; [|done]. by eexists.
Qed.
Lemma new_routes_configured h sh ns http :
  routesConfiguredWithDynamicEnvRoutes http (vh_RoutePrefix h) = false -> vh_Matches h <> [] ->
  existsb (targeted h sh ns) http = true ->
  routesConfiguredWithDynamicEnvRoutes (new_routes h sh ns http) (vh_RoutePrefix h) = true.
Proof.
  intros Hc Hm (rt & Hrt%list_elem_of_In & Ht)%existsb_exists. destruct (vh_Matches h) as [|im ims] eqn:Em; [done|].
  apply existsb_exists. exists (copy_of h sh ns rt im). split; [|apply copy_ours].
  apply list_elem_of_In. unfold new_routes. rewrite unconfigured_no_ours by done. apply list_elem_of_bind.
  exists rt. split; [|done]. apply elem_of_app. left. unfold copies_of. rewrite Ht, Em. by left.
Qed.
End edits.


(** ** Names of the added routes *)
Definition env_name (version name : string) : Prop := HasPrefix name (CalculateVirtualServicePrefix version "") = true.
(** The routes stay in order; those that are new are named for [version]. *)
Definition marked (version : string) (v v' : VirtualService) : Prop :=
  vs_Http v `sublist_of` vs_Http v' /\
  forall rt, rt ∈ vs_Http v' -> rt ∈ vs_Http v \/ env_name version (hr_Name rt).
#[export] Instance marked_preorder version : PreOrder (marked version).
Proof.
  split; [by intros v; split; [|left]|]. intros v1 v2 v3 [Hs Hm] [Hs' Hm']. split; [by etrans|].
  intros rt [Hrt|?]%Hm'; [by apply Hm|by right].
Qed.

Section routed.
Context `{RoutePrinter}.
Implicit Types (h : VirtualServiceHandler) (v : VirtualService) (sh ns : string) (rt : HTTPRoute).

(** Every route that goes to the default version stands behind its copies, one
    for each of the environment's matches. *)
Definition fully_routed h sh v : Prop := forall rt,
  rt ∈ vs_Http v -> targeted h sh (vs_Namespace v) rt = true ->
  map (copy_of h sh (vs_Namespace v) rt) (vh_Matches h) ++ [rt] `sublist_of` vs_Http v.

Lemma more_not_targeted h sh ns version http rt :
  vh_DefaultVersion h <> version -> made_from version http rt -> targeted h sh ns rt = false.
Proof.
  intros Hd (_ & _ & _ & Hf). apply existsb_false. intros rd Hrd. rewrite Forall_forall in Hf.
  destruct (Hf rd Hrd) as (d & Hdest & Hs). unfold taken. rewrite Hdest, bool_decide_false by congruence. apply andb_false_r.
Qed.
(** More routes to another version leave the copies where they are. *)
Lemma edited_fully_routed version h sh v v' :
  vh_DefaultVersion h <> version -> edited version v v' -> marked version v v' ->
  fully_routed h sh v -> fully_routed h sh v'.
Proof.
  intros Hd (Hn & _ & Hm) [Hsub _] Hf rt Hrt Ht. unfold vs_nn in Hn. injection Hn as Hns _. rewrite Hns in *.
  destruct (proj2 Hm rt Hrt) as [Hin|Hmade].
  - etrans; [by apply Hf|done].
  - by rewrite (more_not_targeted h sh _ version _ rt Hd Hmade) in Ht.
Qed.

Lemma new_routes_marked h sh ns http :
  HasPrefix (vh_RoutePrefix h) (CalculateVirtualServicePrefix (vh_UniqueVersion h) "") = true ->
  routesConfiguredWithDynamicEnvRoutes http (vh_RoutePrefix h) = false ->
  http `sublist_of` new_routes h sh ns http /\
  forall rt, rt ∈ new_routes h sh ns http -> rt ∈ http \/ ours h rt = true.
Proof.
  intros Hp Hc. unfold new_routes. rewrite unconfigured_no_ours by done. split.
  - clear Hc. induction http as [|rt http IH]; [done|]. rewrite bind_cons, <- app_assoc. apply sublist_inserts_l. simpl. by constructor.
  - intros x (rt & Hx & Hrt)%list_elem_of_bind. apply elem_of_app in Hx as [Hx| ->%list_elem_of_singleton]; [right|by left].
    unfold copies_of in Hx. destruct (targeted _ _ _ _); [|by apply elem_of_nil in Hx].
    apply list_elem_of_fmap in Hx as (im & -> & _). apply copy_ours.
Qed.
(** The handler's edit leaves no route without its copies. *)
Lemma new_routes_full h sh v v' :
  vh_DefaultVersion h <> vh_UniqueVersion h ->
  routesConfiguredWithDynamicEnvRoutes (vs_Http v) (vh_RoutePrefix h) = false ->
  vs_Namespace v' = vs_Namespace v -> vs_Http v' = new_routes h sh (vs_Namespace v) (vs_Http v) ->
  fully_routed h sh v'.
Proof.
  intros Hd Hc Hns Hhttp rt Hrt Ht. rewrite Hns, Hhttp in *.
  destruct (new_routes_more h sh (vs_Namespace v) (vs_Http v) Hc) as [_ Hm].
  destruct (Hm rt Hrt) as [Hin|Hmade].
  2: { by rewrite (more_not_targeted h sh _ _ _ rt Hd Hmade) in Ht. }
  unfold new_routes. rewrite unconfigured_no_ours by done. apply list_elem_of_split in Hin as (l1 & l2 & ->).
  rewrite bind_app, bind_cons. apply sublist_inserts_l, sublist_inserts_r. unfold copies_of. by rewrite Ht.
Qed.
End routed.

(** ** The routes of one environment *)
Section told.
Context `{RoutePrinter} (r : DynamicEnvReconciler) (de : DynamicEnv).
Local Abbreviation version := (UniqueDynamicEnvName (de_nn de)).
Local Abbreviation parts := (mergeSubsetsAndConsumers (spec_Subsets (de_Spec de)) (spec_Consumers (de_Spec de))).
Implicit Types (y : Subset) (h : VirtualServiceHandler) (v : VirtualService) (vs : list VirtualService) (sh : string).

(** The handler of a subset, but for the hosts it serves. *)
Definition subset_handler y : VirtualServiceHandler :=
  NewVirtualServiceHandler (mkReconcileData (de_nn de)
    (mkDeployment "" "" None None (mkDeploymentSpec None None (mkPodTemplate None [] [] "") "") [] "") y
    (default [] (spec_IstioMatches (de_Spec de)))) [] (default_version r y).
Definition handles y h : Prop := exists hosts active vss, let h0 := subset_handler y in
  h = mkVirtualServiceHandler (vh_Identifier h0) (vh_UniqueName h0) (vh_UniqueVersion h0) (vh_Namespace h0)
        (vh_SubsetName h0) (vh_RoutePrefix h0) hosts (vh_DefaultVersion h0) (vh_Matches h0) active vss.

Lemma handles_marked y h sh v v' :
  handles y h -> routesConfiguredWithDynamicEnvRoutes (vs_Http v) (vh_RoutePrefix h) = false ->
  vs_Http v' = new_routes h sh (vs_Namespace v) (vs_Http v) -> marked version v v'.
Proof.
  intros (hosts & active & vss & ->) Hc Hhttp. set (h0 := subset_handler y) in *.
  change (vs_Http v' = new_routes h0 sh (vs_Namespace v) (vs_Http v)) in Hhttp.
  assert (Hpre : HasPrefix (vh_RoutePrefix h0) (CalculateVirtualServicePrefix version "") = true) by apply subset_prefix_extends.
  destruct (new_routes_marked h0 sh (vs_Namespace v) (vs_Http v) Hpre Hc) as [Hsub Hours]. rewrite <- Hhttp in Hsub, Hours.
  split; [done|]. intros rt [?|Ho]%Hours; [by left|right]. by eapply HasPrefix_trans.
Qed.
(** The environment's routes can be told from others by their names: the default
    versions are others', no subset's prefix extends another's, a virtual service
    is found for one host of a subset only, and one that has routes of a subset
    has all of them. *)
Record told vs : Prop := mkTold {
  told_default : forall y, mkSubsetType SUBSET y ∈ parts -> default_version r y <> version;
  told_prefixes : forall y y' name, mkSubsetType SUBSET y ∈ parts -> mkSubsetType SUBSET y' ∈ parts -> y <> y' ->
    HasPrefix name (vh_RoutePrefix (subset_handler y)) = true -> HasPrefix name (vh_RoutePrefix (subset_handler y')) = false;
  told_host : forall y sh sh' i, mkSubsetType SUBSET y ∈ parts ->
    found_at vs (subset_handler y) sh i -> found_at vs (subset_handler y) sh' i -> sh = sh';
  told_routed : forall y sh v, mkSubsetType SUBSET y ∈ parts -> found_for vs (subset_handler y) sh v ->
    has_routes (subset_handler y) v -> fully_routed (subset_handler y) sh v;
}.

(** The edit of another environment. *)
Lemma told_other version' vs vs' :
  Forall2 (edited version') vs vs' -> Forall2 (marked version') vs vs' -> Forall (fun v => Forall well_formed (vs_Http v)) vs ->
  (forall y, mkSubsetType SUBSET y ∈ parts -> default_version r y <> version' /\
     forall name, env_name version' name -> HasPrefix name (vh_RoutePrefix (subset_handler y)) = false) ->
  told vs -> told vs'.
Proof.
  intros He Hm Hwf Hy [Hd Hp Hh Hr].
  assert (Hf : forall y sh i, mkSubsetType SUBSET y ∈ parts ->
    found_at vs' (subset_handler y) sh i <-> found_at vs (subset_handler y) sh i).
  { intros y sh i Hin. apply (edited_found version' He Hwf). by apply Hy. }
  split; [done|done| |].
  - intros y sh sh' i Hin. rewrite !Hf by done. by apply Hh.
  - intros y sh v' Hin (i & Hi' & Hfi) Hc. apply Hf in Hfi; [|done].
    destruct (Forall2_lookup_r _ _ _ _ _ He Hi') as (v & Hi & Hev). pose proof (Forall2_lookup_lr _ _ _ _ _ _ Hm Hi Hi') as Hmv.
    apply (edited_fully_routed version' _ sh v v'); [by apply Hy|done|done|]. apply Hr; [done|by exists i|].
    apply existsb_elem in Hc as (rt & Hrt & Hpre). apply existsb_elem. exists rt. split; [|done].
    destruct (proj2 Hmv rt Hrt) as [?|Hn]; [done|]. destruct (Hy y Hin) as [_ Hno]. by rewrite (Hno _ Hn) in Hpre.
Qed.
(** The edit of a subset's own handler. *)
Lemma told_own y h sh i v v' vs :
  mkSubsetType SUBSET y ∈ parts -> handles y h -> vs !! i = Some v -> found_at vs h sh i ->
  Forall (fun v => Forall well_formed (vs_Http v)) vs ->
  routesConfiguredWithDynamicEnvRoutes (vs_Http v) (vh_RoutePrefix h) = false ->
  vs_nn v' = vs_nn v -> vs_Hosts v' = vs_Hosts v -> vs_Http v' = new_routes h sh (vs_Namespace v) (vs_Http v) ->
  told vs -> told (<[i := v']> vs).
Proof.
  intros Hy (hosts & active & vss & ->) Hi Hfi Hwf Hc Hn Hhosts Hhttp [Hd Hp Hh Hr].
  apply (found_at_alike (h:=subset_handler y)) in Hfi; [|done].
  set (h0 := subset_handler y) in *. change (vs_Http v' = new_routes h0 sh (vs_Namespace v) (vs_Http v)) in Hhttp.
  change (routesConfiguredWithDynamicEnvRoutes (vs_Http v) (vh_RoutePrefix h0) = false) in Hc.
  assert (Hpre : HasPrefix (vh_RoutePrefix h0) (CalculateVirtualServicePrefix (vh_UniqueVersion h0) "") = true)
    by apply subset_prefix_extends.
  destruct (new_routes_marked h0 sh (vs_Namespace v) (vs_Http v) Hpre Hc) as [_ Hours]. rewrite <- Hhttp in Hours.
  assert (Hev : edited version v v').
  { split; [done|]. split; [done|]. rewrite Hhttp. exact (new_routes_more h0 sh _ _ Hc). }
  assert (Hmv : marked version v v') by (apply (handles_marked y h0 sh); [by exists [], [], ∅|done|done]).
  assert (He : Forall2 (edited version) vs (<[i := v']> vs)).
  { rewrite <- (list_insert_id _ _ _ Hi) at 1. by apply Forall2_insert. }
  assert (Hf : forall y' sh' j, mkSubsetType SUBSET y' ∈ parts ->
    found_at (<[i := v']> vs) (subset_handler y') sh' j <-> found_at vs (subset_handler y') sh' j).
  { intros y' sh' j Hin. apply (edited_found version He Hwf). by apply Hd. }
  split; [done|done| |].
  { intros y' sh1 sh2 j Hin. rewrite !Hf by done. by apply Hh. }
  intros y' sh' w Hy' (j & Hj & Hfj) Hcw. apply Hf in Hfj; [|done].
  apply list_lookup_insert_Some in Hj as [(<- & <- & _)|[_ Hj]]; [|apply Hr; [done|by exists j|done]].
  destruct (decide (y' = y)) as [->|Hne].
  - rewrite (Hh y sh' sh i Hy Hfj Hfi). apply (new_routes_full h0 sh v v'); [by apply Hd|done| |done].
    unfold vs_nn in Hn. by injection Hn.
  - apply (edited_fully_routed version _ sh' v v'); [by apply Hd|done|done|]. apply Hr; [done|by exists i|].
    apply existsb_elem in Hcw as (rt & Hrt & Hpy). apply existsb_elem. exists rt. split; [|done].
    destruct (Hours rt Hrt) as [?|Ho]; [done|]. by rewrite (Hp y y' _ Hy Hy' (not_eq_sym Hne) Ho) in Hpy.
Qed.
End told.

(** ** Where names do not tell

    The handler takes any route with its prefix for its own.  So a subset whose
    name extends another's hides it: once a virtual service has a route of the
    longer-named subset, the edit of the shorter-named one is skipped, counts as
    a success, and its routes are never made. *)
Theorem longer_name_masks {W} `{Client W} `{MapOrder} `{RoutePrinter} (r : DynamicEnvReconciler) (de : DynamicEnv)
    (y y' : Subset) (more sh : string) (v : VirtualService) :
  s_Name y' = s_Name y +:+ more -> has_routes (subset_handler r de y') v ->
  updateVirtualService (W:=W) (subset_handler r de y) v sh = mret (v, None).
Proof.
  intros Hname (rt & Hrt & Hp)%existsb_elem. unfold updateVirtualService. cbv zeta.
  assert (routesConfiguredWithDynamicEnvRoutes (vs_Http v) (vh_RoutePrefix (subset_handler r de y)) = true) as ->; [|done].
  apply existsb_elem. exists rt. split; [done|]. eapply HasPrefix_trans; [exact Hp|].
  unfold subset_handler, NewVirtualServiceHandler. cbn [vh_RoutePrefix rd_Subset]. rewrite Hname, !CalculateVirtualServicePrefix_eq.
  apply HasPrefix_spec. exists more. by autorewrite with gostr.
Qed.

(** Nor are the hosts of one subset told apart: a virtual service that routes to
    two of them is edited for the first only. *)
Module TwoHosts.
Definition route_to (host : string) : HTTPRoute :=
  mkHTTPRoute host [] [mkHTTPRouteDestination (Some (mkDestination host "shared" "")) 100 None] None "".
Definition service : VirtualService :=
  mkVirtualService "shop" "default" None ["reviews"; "ratings"] [route_to "reviews"; route_to "ratings"] "".
Definition k : cluster := mkCluster ∅ ∅ ∅ [] {[ mkNN "default" "shop" := service ]} 0 0 ∅.
Definition h : VirtualServiceHandler :=
  NewVirtualServiceHandler (mkReconcileData (mkNN "default" "env")
    (mkDeployment "shop" "default" None None (mkDeploymentSpec None None (mkPodTemplate None [] [] "") "") [] "")
    (mkSubset "shop" "default" None None [] [] "") [RoutingExample.match_user "maria"]) ["ratings"; "reviews"] "shared".
End TwoHosts.
Example second_host_skipped :
  let run := VirtualServiceHandler_Handle (H1:=canonical_order) (H2:=RoutingExample.printer) TwoHosts.h
    (start TwoHosts.k example_de) in
  (prod_map VirtualServiceHandler_GetHosts id <$> run.1) = Ret (["ratings"; "reviews"], None) /\
  map (fun v => map (fun rt => fmap dst_Host ∘ rd_Destination <$> hr_Route rt) (vs_Http v))
      (map_to_list (k_virtualservices (cx_world run.2))).*2
  = [[[Some "reviews"]; [Some "ratings"]; [Some "ratings"]]].
Proof. vm_compute. done. Qed.
