(* ===== verification/Building.v ===== *)
(** * Building

    One run of the operator builds what an environment asks for: a logic for runs
    that create and update against a server that stores what it is sent, and
    what it says of the status manager, of each handler, and of the loop over the
    subsets and consumers. *)

From stdpp Require Import base gmap sets list strings sorting.
From S2P Require Import Prelude GoStrings Sha256 K8s Types Helpers Watches Client FakeCluster StatusManager Model VirtualServiceHandler VirtualServiceRouting Locating DeploymentHandler DestinationRuleHandler CleanupManager Controller Totality Quiet AtRest Settling Editing.

(** ** A server that stores what it is sent *)
Definition put_deployment (n : NamespacedName) (d : Deployment) (k : snapshot) : snapshot :=
  mkSnapshot (sn_env k) (fun m => if decide (m = n) then Some d else sn_deployments k m)
    (sn_rules k) (sn_services k) (sn_virtualservices k).
Definition put_rule (n : NamespacedName) (d : DestinationRule) (k : snapshot) : snapshot :=
  mkSnapshot (sn_env k) (sn_deployments k) (fun m => if decide (m = n) then Some d else sn_rules k m)
    (sn_services k) (sn_virtualservices k).
Definition put_service (i : nat) (v : VirtualService) (k : snapshot) : snapshot :=
  mkSnapshot (sn_env k) (sn_deployments k) (sn_rules k) (sn_services k) (<[i := v]> (sn_virtualservices k)).
Definition vs_stamp (o : opaque) (v : VirtualService) : VirtualService :=
  mkVirtualService (vs_Name v) (vs_Namespace v) (vs_Annotations v) (vs_Hosts v) (vs_Http v) o.

(** In the worlds of [P k] the cluster is [k].  What is not there is not found; a
    new deployment or rule is created, completed as the server sees fit; an
    update of a virtual service is accepted when it is made from the version
    that is stored; every update gives the object a new version, but a status
    update that changes nothing. *)
Class Stores {W} `{Client W} (P : snapshot -> W -> Prop) : Prop := {
  stores_answers :: forall k, Answers (P k) k;
  stores_no_deployment : forall k n w, P k w -> sn_deployments k n = None -> exists e w',
    exec (GetDeployment n) w = (Err e, w') /\ IsNotFound e = true /\ P k w';
  stores_no_rule : forall k n w, P k w -> sn_rules k n = None -> exists e w',
    exec (GetDestinationRule n) w = (Err e, w') /\ IsNotFound e = true /\ P k w';
  stores_rules : forall k ns w, P k w -> exists l w', exec (ListDestinationRules ns) w = (Ok l, w') /\ P k w' /\
    forall n d, sn_rules k n = Some d -> nn_Namespace n = ns -> d ∈ l;
  stores_new_deployment : forall k d w, P k w -> sn_deployments k (dp_key d) = None -> exists d' w',
    exec (CreateDeployment d) w = (None, w') /\ P (put_deployment (dp_key d) d' k) w';
  stores_deployment : forall k d w, P k w -> is_Some (sn_deployments k (dp_key d)) -> exists d' w',
    exec (UpdateDeployment d) w = (None, w') /\ P (put_deployment (dp_key d) d' k) w';
  stores_new_rule : forall k d w, P k w -> sn_rules k (dr_key d) = None -> exists d' w',
    exec (CreateDestinationRule d) w = (None, w') /\ P (put_rule (dr_key d) d' k) w';
  stores_service : forall k i v0 v w, P k w -> sn_virtualservices k !! i = Some v0 -> vs_nn v = vs_nn v0 ->
    vs_other v = vs_other v0 -> exists o w', let v' := vs_stamp o v in
    exec (UpdateVirtualService v) w = (Ok v', w') /\ P (put_service i v' k) w';
  stores_status : forall k s w, P k w -> exists o w', let de := stamp o (set_Status (wire_status s) (sn_env k)) in
    exec (UpdateDynamicEnvStatus (set_Status s (sn_env k))) w = (Ok de, w') /\ P (at_env de k) w';
  stores_no_change : forall k w, P k w -> wire_status (de_Status (sn_env k)) = de_Status (sn_env k) -> exists w',
    exec (UpdateDynamicEnvStatus (sn_env k)) w = (Ok (sn_env k), w') /\ P k w';
  stores_finalizers : forall k f w, P k w -> exists o w', let de := stamp o (set_Finalizers f (sn_env k)) in
    exec (UpdateDynamicEnv (set_Finalizers f (sn_env k))) w = (Ok de, w') /\ P (at_env de k) w';
}.

Section build.
Context {W : Type} `{Client W} `{MapOrder} `{RoutePrinter} `{SubsetHash} `{LabelSets}.
Context {r : DynamicEnvReconciler} {P : snapshot -> W -> Prop} `{!Stores P} {k : snapshot}.
Local Abbreviation env := (sn_env k).
Local Abbreviation parts := (mergeSubsetsAndConsumers (spec_Subsets (de_Spec env)) (spec_Consumers (de_Spec env))).
Local Abbreviation version := (UniqueDynamicEnvName (de_nn env)).
Local Abbreviation live := (live (k:=k)).
Local Abbreviation now s o x := (at_env (live s o) x).
Implicit Types (s : DynamicEnvStatus) (o : opaque) (x : snapshot) (st : SubsetType) (name : string) (rs : ResourceStatus).

(** ** What a run keeps *)
Definition part_name st : string := MKSubsetName (stt_Subset st).
Definition source st : NamespacedName := mkNN (s_Namespace (stt_Subset st)) (s_Name (stt_Subset st)).
Definition target st : NamespacedName :=
  mkNN (s_Namespace (stt_Subset st)) (MkSubsetUniqueName (s_Name (stt_Subset st)) version).
(** The hash that is recorded for a part, and that it is the right one. *)
Definition hash_at s st : option Z :=
  match stt_Type st with
  | SUBSET => uint64_of ∘ ss_Hash <$> mlookup (st_SubsetsStatus s) (part_name st)
  | CONSUMER => uint64_of ∘ cs_Hash <$> mlookup (st_ConsumersStatus s) (part_name st)
  end.
Definition hashed s st : Prop := exists hash, Hash (stt_Subset st) = Ok hash /\ hash_at s st = Some hash.
(** The status knows parts only, lists nothing twice, and knows of every
    deployment of the environment's that is there. *)
Record sound s x : Prop := mkSound {
  sound_known : forall name, is_Some (mlookup (st_SubsetsStatus s) name) \/ is_Some (mlookup (st_ConsumersStatus s) name) ->
    name ∈ map part_name parts;
  sound_listed : listed_once (set_Status s env);
  sound_owned : forall st, st ∈ parts -> is_Some (sn_deployments x (target st)) -> is_Some (hash_at s st);
}.
Definition valid x : Prop := Forall (fun v => Forall well_formed (vs_Http v)) (sn_virtualservices x).
(** The cluster only grows, right hashes stay right, no deployment changes but
    the environment's own, and its routes can still be told from others. *)
Record grows s x s' x' : Prop := mkGrows {
  grow_hashed : forall st, st ∈ parts -> hashed s st -> hashed s' st;
  grow_deployments : forall n, is_Some (sn_deployments x n) -> is_Some (sn_deployments x' n);
  grow_others : forall n, (forall st, st ∈ parts -> n <> target st) -> sn_deployments x' n = sn_deployments x n;
  grow_rules : forall n d, sn_rules x n = Some d -> sn_rules x' n = Some d;
  grow_services : forall ns, sn_services x' ns = sn_services x ns;
  grow_items : Forall2 (edited version) (sn_virtualservices x) (sn_virtualservices x');
  grow_marked : Forall2 (marked version) (sn_virtualservices x) (sn_virtualservices x');
  grow_told : valid x -> told r env (sn_virtualservices x) -> told r env (sn_virtualservices x');
}.
Lemma grows_valid s x s' x' : grows s x s' x' -> valid x -> valid x'.
Proof. intros Hg. exact (edited_valid version (grow_items _ _ _ _ Hg)). Qed.
Lemma grows_refl s x : grows s x s x.
Proof. by split. Qed.
Lemma grows_trans s1 x1 s2 x2 s3 x3 : grows s1 x1 s2 x2 -> grows s2 x2 s3 x3 -> grows s1 x1 s3 x3.
Proof.
  intros HA HB. pose proof (grows_valid _ _ _ _ HA) as HV.
  destruct HA as [A1 A2 A3 A4 A5 A6 A7 A8], HB as [B1 B2 B3 B4 B5 B6 B7 B8].
  split; [by auto|by auto| |by auto| |by etrans|by etrans|by auto].
  - intros n Hn. by rewrite B3, A3.
  - intros ns. by rewrite B5, A5.
Qed.
Lemma grows_status s s' x : (forall st, st ∈ parts -> hashed s st -> hashed s' st) -> grows s x s' x.
Proof. intros Hh. by split. Qed.

(** ** Code that builds *)
(** The resource in memory is [live s o]; the server has it with that version,
    perhaps with another status, and the cluster is [x]. *)
Definition stored o x (w : W) : Prop := exists s0, P (now s0 o x) w.
Definition stage s o x (c : ctx W) : Prop := sound s x /\ cx_de c = live s o /\ stored o x (cx_world c).
Definition builds_at {A} o s x (m : M W A) (Q : A -> DynamicEnvStatus -> snapshot -> Prop) : Prop := forall c,
  stage s o x c -> wp m (fun a c' => exists s' o' x', Q a s' x' /\ grows s x s' x' /\ stage s' o' x' c') c.
Definition builds {A} s x (m : M W A) (Q : A -> DynamicEnvStatus -> snapshot -> Prop) : Prop :=
  forall o, builds_at o s x m Q.

#[local] Instance stored_reads s o x : Reads (stored o x) (now s o x).
Proof.
  split.
  - intros n d w Hd [s0 HP]. destruct (shows_deployment (P:=P (now s0 o x)) (k:=now s0 o x) n d w Hd HP) as (w' & E & ?).
    exists w'. split; [done|by exists s0].
  - intros n d w Hd [s0 HP]. destruct (shows_rule (P:=P (now s0 o x)) (k:=now s0 o x) n d w Hd HP) as (w' & E & ?).
    exists w'. split; [done|by exists s0].
  - intros ns w [s0 HP]. destruct (shows_services (P:=P (now s0 o x)) (k:=now s0 o x) ns w HP) as (w' & E & ?).
    exists w'. split; [done|by exists s0].
  - intros w [s0 HP]. destruct (shows_virtualservices (P:=P (now s0 o x)) (k:=now s0 o x) w HP) as (w' & E & ?).
    exists w'. split; [done|by exists s0].
  - intros v w Hv [s0 HP]. destruct (shows_virtualservice (P:=P (now s0 o x)) (k:=now s0 o x) v w Hv HP) as (w' & E & ?).
    exists w'. split; [done|by exists s0].
Qed.

Lemma builds_ret {A} s x (a : A) (Q : A -> DynamicEnvStatus -> snapshot -> Prop) : Q a s x -> builds s x (mret a) Q.
Proof. intros HQ o c Hc. apply wp_ret. exists s, o, x. split; [done|]. split; [apply grows_refl|done]. Qed.
Lemma builds_mono {A} s x (m : M W A) (Q Q' : A -> DynamicEnvStatus -> snapshot -> Prop) :
  builds s x m Q -> (forall a s' x', grows s x s' x' -> sound s' x' -> Q a s' x' -> Q' a s' x') -> builds s x m Q'.
Proof.
  intros Hm HQ o c Hc. eapply wp_mono; [|by apply (Hm o c)]. intros a c' (s' & o' & x' & Ha & Hg & Hc').
  exists s', o', x'. split; [apply HQ; [done|apply Hc'|done]|done].
Qed.
Lemma builds_bind {A B} s x (m : M W A) (f : A -> M W B) (Q : A -> DynamicEnvStatus -> snapshot -> Prop) Q' :
  builds s x m Q -> (forall a s' x', grows s x s' x' -> sound s' x' -> Q a s' x' -> builds s' x' (f a) Q') ->
  builds s x (m ≫= f) Q'.
Proof.
  intros Hm Hf o c Hc. apply wp_bind. eapply wp_mono; [|by apply (Hm o c)].
  intros a c1 (s1 & o1 & x1 & Ha & Hg1 & Hc1). eapply wp_mono; [|by apply (Hf a s1 x1 Hg1 (proj1 Hc1) Ha o1 c1)].
  intros b c2 (s2 & o2 & x2 & Hb & Hg2 & Hc2). exists s2, o2, x2. split; [done|]. split; [by eapply grows_trans|done].
Qed.
(** Code that only reads. *)
Lemma builds_quiet {A} s x (m : M W A) (Q : A -> Prop) : (forall o, quietly (stored o x) (live s o) m Q) ->
  builds s x m (fun a s' x' => Q a /\ s' = s /\ x' = x).
Proof.
  intros Hm o c (Hs & Hde & Hw). eapply wp_mono; [|by apply (Hm o c)]. intros a c' (HQ & Hw' & Hde' & _).
  exists s, o, x. split; [done|]. split; [apply grows_refl|]. done.
Qed.
Lemma builds_quiet_bind {A B} s x (m : M W A) (f : A -> M W B) (Q : A -> Prop) Q' :
  (forall o, quietly (stored o x) (live s o) m Q) -> (forall a, Q a -> builds s x (f a) Q') -> builds s x (m ≫= f) Q'.
Proof.
  intros Hm Hf. eapply builds_bind; [by apply builds_quiet|]. intros a ? ? _ _ (Ha & -> & ->). by apply Hf.
Qed.
(** A call, and what it does to the cluster. *)
Lemma builds_call {R B} s x (q : req R) (f : R -> M W B) (Q : R -> snapshot -> Prop) Q' :
  (forall o w, stored o x w -> exists a w' x', exec q w = (a, w') /\ stored o x' w' /\ grows s x s x' /\ sound s x' /\ Q a x') ->
  (forall a x', grows s x s x' -> sound s x' -> Q a x' -> builds s x' (f a) Q') -> builds s x (call q ≫= f) Q'.
Proof.
  intros Hq Hf o c (Hs & Hde & Hw). apply wp_bind, wp_call. intros a w E.
  destruct (Hq o _ Hw) as (a' & w' & x' & E' & Hw' & Hg & Hs' & Ha). rewrite E in E'. injection E' as -> ->.
  eapply wp_mono; [|apply (Hf a' x' Hg Hs' Ha o); by split].
  intros b c2 (s2 & o2 & x2 & Hb & Hg2 & Hc2). exists s2, o2, x2. split; [done|]. split; [by eapply grows_trans|done].
Qed.

(** ** The status manager *)
Lemma hash_at_wire s st : hash_at (wire_status s) st = hash_at s st.
Proof.
  unfold hash_at, wire_status. cbn. destruct (stt_Type st); rewrite ?mlookup_wire_subset, ?mlookup_wire_consumer;
    by destruct (mlookup _ _).
Qed.
Lemma hashed_wire s st : hashed s st -> hashed (wire_status s) st.
Proof. intros (hash & Hh & Ha). exists hash. by rewrite hash_at_wire. Qed.
Lemma sound_wire s x : sound s x -> sound (wire_status s) x.
Proof.
  intros [Hk Hl Ho]. split.
  - intros name. cbn. rewrite mlookup_wire_subset, mlookup_wire_consumer, !fmap_is_Some. apply Hk.
  - intros name st Hst. change (mlookup (st_SubsetsStatus (wire_status s)) name = Some st) in Hst. cbn in Hst.
    rewrite mlookup_wire_subset in Hst. apply fmap_Some in Hst as (e & He & ->). cbn. rewrite !map_map.
    exact (Hl name e He).
  - intros st Hst. rewrite hash_at_wire. by apply Ho.
Qed.
(** Statuses with the same entries. *)
Definition same_entries s s' : Prop := mread (st_SubsetsStatus s') = mread (st_SubsetsStatus s) /\
  mread (st_ConsumersStatus s') = mread (st_ConsumersStatus s).
Lemma same_hash s s' st : same_entries s s' -> hash_at s' st = hash_at s st.
Proof. intros [H1' H2']. unfold hash_at, mlookup. by rewrite H1', H2'. Qed.
Lemma same_sound s s' x : same_entries s s' -> sound s x -> sound s' x.
Proof.
  intros Hs [Hk Hl Ho]. pose proof Hs as [Hss Hsc]. split.
  - unfold mlookup. rewrite Hss, Hsc. exact Hk.
  - unfold listed_once in *. change (de_SubsetsStatus (set_Status ?s env)) with (st_SubsetsStatus s) in *. by rewrite Hss.
  - intros st. rewrite (same_hash s s' st Hs). apply Ho.
Qed.
Lemma same_grows s s' x : same_entries s s' -> grows s x s' x.
Proof. intros Hs. apply grows_status. intros st _ (hash & Hh & Ha). exists hash. by rewrite (same_hash s s' st Hs). Qed.

(** The update of the stored status. *)
Lemma wp_store s o x (c : ctx W) (Q : option error -> ctx W -> Prop) :
  stage s o x c -> (forall o' c', stage (wire_status s) o' x c' -> P (now (wire_status s) o' x) (cx_world c') -> Q None c') ->
  wp update_status Q c.
Proof.
  intros (Hs & Hde & s0 & HP) HQ. unfold update_status. apply wp_bind, wp_get_de, wp_bind, wp_call. intros a w E.
  destruct (stores_status (P:=P) (now s0 o x) s (cx_world c) HP) as (o' & w' & E' & HP').
  rewrite Hde in E. change (exec (UpdateDynamicEnvStatus (live s o)) (cx_world c) = (Ok (live (wire_status s) o'), w')) in E'.
  rewrite E in E'. injection E' as -> ->. change (P (now (wire_status s) o' x) w') in HP'.
  apply wp_bind, wp_put_de, wp_ret. apply (HQ o'); [|done]. split; [by apply sound_wire|]. split; [done|].
  by exists (wire_status s).
Qed.
Lemma builds_store s x : builds s x update_status (fun e s' x' => e = None /\ x' = x /\ s' = wire_status s).
Proof.
  intros o c Hc. apply (wp_store s o x c _ Hc). intros o' c' Hc' _. exists (wire_status s), o', x.
  split; [done|]. split; [|done]. apply grows_status. intros st _. apply hashed_wire.
Qed.
(** Assignments to the status. *)
Lemma builds_put {B} s s' o x (f : unit -> M W B) Q :
  grows s x s' x -> sound s' x -> builds s' x (f tt) Q -> builds_at o s x (put_de (live s' o) ≫= f) Q.
Proof.
  intros Hg Hs' Hf c (Hs & Hde & Hw). apply wp_bind, wp_put_de. eapply wp_mono; [|apply (Hf o); by split].
  intros a c' (s2 & o2 & x2 & Ha & Hg2 & Hc'). exists s2, o2, x2. split; [done|]. split; [by eapply grows_trans|done].
Qed.
Lemma builds_get_de {B} s x (f : DynamicEnv -> M W B) Q :
  (forall o, builds_at o s x (f (live s o)) Q) -> builds s x (get_de ≫= f) Q.
Proof. intros Hf o c Hc. apply wp_bind, wp_get_de. pose proof Hc as (_ & -> & _). by apply Hf. Qed.
Lemma builds_safeGetSubsetsStatus {B} s x name (f : SubsetStatus -> M W B) Q : sound s x ->
  (forall s' e, same_entries s s' -> is_Some (st_SubsetsStatus s') ->
    e = default zero_SubsetStatus (mlookup (st_SubsetsStatus s) name) -> builds s' x (f e) Q) ->
  builds s x (safeGetSubsetsStatus name ≫= f) Q.
Proof.
  intros Hs Hf o. set (s' := mkDynamicEnvStatus (mmake (st_SubsetsStatus s)) (st_ConsumersStatus s) (st_State s)
    (st_TotalCount s) (st_TotalReady s)). assert (Hsame : same_entries s s') by by split; [apply mread_mmake|].
  eapply builds_bind.
  - unfold safeGetSubsetsStatus. apply builds_get_de. intros o1. cbv zeta.
    change (set_SubsetsStatus _ (live s o1)) with (live s' o1).
    apply builds_put; [by apply same_grows|by eapply same_sound|].
    apply (builds_ret _ _ _ (fun e s2 x2 => s2 = s' /\ x2 = x /\ e = default zero_SubsetStatus (mlookup (st_SubsetsStatus s) name))).
    split; [done|]. split; [done|]. unfold mget. by rewrite <- (mlookup_mmake (st_SubsetsStatus s) name).
  - intros e ? ? _ _ (-> & -> & ->). apply Hf; [done|by eexists|done].
Qed.
Lemma builds_safeGetConsumersStatus {B} s x name (f : ConsumerStatus -> M W B) Q : sound s x ->
  (forall s' e, same_entries s s' -> is_Some (st_ConsumersStatus s') ->
    e = default zero_ConsumerStatus (mlookup (st_ConsumersStatus s) name) -> builds s' x (f e) Q) ->
  builds s x (safeGetConsumersStatus name ≫= f) Q.
Proof.
  intros Hs Hf o. set (s' := mkDynamicEnvStatus (st_SubsetsStatus s) (mmake (st_ConsumersStatus s)) (st_State s)
    (st_TotalCount s) (st_TotalReady s)). assert (Hsame : same_entries s s') by by split; [|apply mread_mmake].
  eapply builds_bind.
  - unfold safeGetConsumersStatus. apply builds_get_de. intros o1. cbv zeta.
    change (set_ConsumersStatus _ (live s o1)) with (live s' o1).
    apply builds_put; [by apply same_grows|by eapply same_sound|].
    apply (builds_ret _ _ _ (fun e s2 x2 => s2 = s' /\ x2 = x /\ e = default zero_ConsumerStatus (mlookup (st_ConsumersStatus s) name))).
    split; [done|]. split; [done|]. unfold mget. by rewrite <- (mlookup_mmake (st_ConsumersStatus s) name).
  - intros e ? ? _ _ (-> & -> & ->). apply Hf; [done|by eexists|done].
Qed.

(** *** One entry *)
Lemma put_subset_hash_at name e s st : hash_at (put_subset name e s) st =
  if decide (stt_Type st = SUBSET /\ part_name st = name) then Some (uint64_of (ss_Hash e)) else hash_at s st.
Proof.
  unfold hash_at. destruct (stt_Type st); [rewrite lookup_put_subset|].
  - destruct (decide (part_name st = name)); [by rewrite decide_True|]. by rewrite decide_False by by intros [_ ?].
  - by rewrite decide_False by by intros [? _].
Qed.
Lemma put_consumer_hash_at name e s st : hash_at (put_consumer name e s) st =
  if decide (stt_Type st = CONSUMER /\ part_name st = name) then Some (uint64_of (cs_Hash e)) else hash_at s st.
Proof.
  unfold hash_at. destruct (stt_Type st); [|rewrite lookup_put_consumer].
  - by rewrite decide_False by by intros [? _].
  - destruct (decide (part_name st = name)); [by rewrite decide_True|]. by rewrite decide_False by by intros [_ ?].
Qed.
Lemma put_subset_sound name (e : SubsetStatus) s x : sound s x -> name ∈ map part_name parts ->
  NoDup (map rs_key (ss_DestinationRules e)) -> NoDup (map rs_key (ss_VirtualServices e)) -> sound (put_subset name e s) x.
Proof.
  intros [Hk Hl Ho] Hn Hnd1 Hnd2. split.
  - intros n. rewrite lookup_put_subset. case_decide; [by subst|]. apply Hk.
  - unfold listed_once. cbn. by apply map_Forall_insert_2.
  - intros st Hst Hd. rewrite put_subset_hash_at. case_decide; [by eexists|by apply Ho].
Qed.
Lemma put_consumer_sound name e s x : sound s x -> name ∈ map part_name parts -> sound (put_consumer name e s) x.
Proof.
  intros [Hk Hl Ho] Hn. split; [|exact Hl|].
  - intros n. rewrite lookup_put_consumer. case_decide; [by subst|]. apply Hk.
  - intros st Hst Hd. rewrite put_consumer_hash_at. case_decide; [by eexists|by apply Ho].
Qed.
(** A hash written for a part is the right one, if the one before was. *)
Definition right_hash s (tpe : SubsetOrConsumer) name (hash : Z) : Prop := forall st,
  st ∈ parts -> stt_Type st = tpe -> part_name st = name -> hashed s st -> Hash (stt_Subset st) = Ok hash.
Lemma builds_write_subset s x name (e : SubsetStatus) :
  sound s x -> is_Some (st_SubsetsStatus s) -> name ∈ map part_name parts ->
  NoDup (map rs_key (ss_DestinationRules e)) -> NoDup (map rs_key (ss_VirtualServices e)) ->
  right_hash s SUBSET name (uint64_of (ss_Hash e)) ->
  builds s x (_ ← write_SubsetsStatus name e; update_status)
    (fun err s' x' => err = None /\ x' = x /\ s' = wire_status (put_subset name e s)).
Proof.
  intros Hs [m Hm] Hn Hnd1 Hnd2 Hh o c (_ & Hde & Hw). apply wp_bind, wp_write_SubsetsStatus; [rewrite Hde; by exists m|].
  apply (wp_store (put_subset name e s) o x); [split; [by apply put_subset_sound|]; by rewrite Hde|].
  intros o' c' Hc' _. eexists _, o', x. split; [done|]. split; [|exact Hc']. apply grows_status.
  intros st Hst Hok. apply hashed_wire. unfold hashed. rewrite put_subset_hash_at.
  case_decide as Hd; [|exact Hok]. eexists. split; [|done]. by apply Hh; [|apply Hd..|].
Qed.
Lemma builds_write_consumer s x name (e : ConsumerStatus) :
  sound s x -> is_Some (st_ConsumersStatus s) -> name ∈ map part_name parts ->
  right_hash s CONSUMER name (uint64_of (cs_Hash e)) ->
  builds s x (_ ← write_ConsumersStatus name e; update_status)
    (fun err s' x' => err = None /\ x' = x /\ s' = wire_status (put_consumer name e s)).
Proof.
  intros Hs [m Hm] Hn Hh o c (_ & Hde & Hw). unfold write_ConsumersStatus.
  apply wp_bind, wp_bind, wp_get_de, wp_bind, wp_lift. rewrite Hde.
  change (de_ConsumersStatus _) with (st_ConsumersStatus s). rewrite Hm. eexists. split; [done|]. apply wp_put_de.
  apply (wp_store (put_consumer name e s) o x).
  { split; [by apply put_consumer_sound|]. split; [|done]. unfold put_consumer. by rewrite Hm. }
  intros o' c' Hc' _. eexists _, o', x. split; [done|]. split; [|exact Hc']. apply grows_status.
  intros st Hst Hok. apply hashed_wire. unfold hashed. rewrite put_consumer_hash_at.
  case_decide as Hd; [|exact Hok]. eexists. split; [|done]. by apply Hh; [|apply Hd..|].
Qed.

(** *** The operations *)
Lemma same_right s s' tpe name hash : same_entries s s' -> right_hash s tpe name hash -> right_hash s' tpe name hash.
Proof.
  intros Hs Hr st Hst Ht Hn (z & Hz & Ha). apply Hr; [done..|]. exists z. by rewrite <- (same_hash s s' st Hs).
Qed.
Lemma right_subset s name : right_hash s SUBSET name
  (uint64_of (ss_Hash (default zero_SubsetStatus (mlookup (st_SubsetsStatus s) name)))).
Proof.
  intros st _ Ht <- (hash & Hh & Ha). rewrite Hh. unfold hash_at in Ha. rewrite Ht in Ha.
  apply fmap_Some in Ha as (e & -> & ->). done.
Qed.
Lemma right_consumer s name : right_hash s CONSUMER name
  (uint64_of (cs_Hash (default zero_ConsumerStatus (mlookup (st_ConsumersStatus s) name)))).
Proof.
  intros st _ Ht <- (hash & Hh & Ha). rewrite Hh. unfold hash_at in Ha. rewrite Ht in Ha.
  apply fmap_Some in Ha as (e & -> & ->). done.
Qed.
Lemma entry_listed s x name : sound s x -> let e := default zero_SubsetStatus (mlookup (st_SubsetsStatus s) name) in
  NoDup (map rs_key (ss_DestinationRules e)) /\ NoDup (map rs_key (ss_VirtualServices e)).
Proof.
  intros Hs. destruct (mlookup (st_SubsetsStatus s) name) as [e|] eqn:He; [|by split; constructor].
  exact (sound_listed _ _ Hs name e He).
Qed.

(** An entry of the kind is there. *)
Definition has_entry s (tpe : SubsetOrConsumer) name : Prop :=
  match tpe with
  | SUBSET => is_Some (mlookup (st_SubsetsStatus s) name)
  | CONSUMER => is_Some (mlookup (st_ConsumersStatus s) name)
  end.
Lemma has_entry_wire s tpe name : has_entry s tpe name -> has_entry (wire_status s) tpe name.
Proof. destruct tpe; cbn; rewrite ?mlookup_wire_subset, ?mlookup_wire_consumer, fmap_is_Some; done. Qed.
Lemma has_entry_hash s st : has_entry s (stt_Type st) (part_name st) <-> is_Some (hash_at s st).
Proof. unfold has_entry, hash_at. destruct (stt_Type st); by rewrite fmap_is_Some. Qed.
Lemma builds_AddDeployment s x tpe name rs :
  sound s x -> name ∈ map part_name parts -> rs <> zero_ResourceStatus ->
  builds s x (AddDeploymentStatusEntry name rs tpe) (fun err s' x' => err = None /\ x' = x /\ has_entry s' tpe name).
Proof.
  intros Hs Hn Hrs. destruct tpe; cbn [AddDeploymentStatusEntry].
  - unfold addSubsetDeploymentStatusEntry. apply builds_safeGetSubsetsStatus; [done|]. intros s1 e Hsame Hm ->.
    pose proof (same_sound _ _ _ Hsame Hs) as Hs1. destruct (entry_listed s x name Hs) as [Hnd1 Hnd2].
    destruct (ResourceStatus_IsEqual _ _) eqn:E; simpl.
    + apply builds_ret. split; [done|]. split; [done|]. unfold mlookup. rewrite (proj1 Hsame).
      apply ResourceStatus_IsEqual_spec in E. unfold mlookup in E. destruct (mread _ !! name); [by eexists|]. by destruct Hrs.
    + eapply builds_mono; [apply builds_write_subset; try done|].
      * eapply same_right, right_subset. done.
      * intros err s' x' _ _ (-> & -> & ->). split; [done|]. split; [done|]. apply (has_entry_wire _ SUBSET).
        unfold has_entry. rewrite lookup_put_subset, decide_True by done. by eexists.
  - unfold addConsumerDeploymentStatusEntry. apply builds_safeGetConsumersStatus; [done|]. intros s1 e Hsame Hm ->.
    pose proof (same_sound _ _ _ Hsame Hs) as Hs1. destruct (ResourceStatus_IsEqual _ _) eqn:E; simpl.
    + apply builds_ret. split; [done|]. split; [done|]. unfold mlookup. rewrite (proj2 Hsame).
      apply ResourceStatus_IsEqual_spec in E. unfold mlookup in E. destruct (mread _ !! name); [by eexists|]. by destruct Hrs.
    + eapply builds_mono; [apply builds_write_consumer; try done|].
      * eapply same_right, right_consumer. done.
      * intros err s' x' _ _ (-> & -> & ->). split; [done|]. split; [done|]. apply (has_entry_wire _ CONSUMER).
        unfold has_entry. rewrite lookup_put_consumer, decide_True by done. by eexists.
Qed.
Lemma builds_AddRule s x name rs : sound s x -> name ∈ map part_name parts ->
  builds s x (AddDestinationRuleStatusEntry name rs) (fun err s' x' => err = None /\ x' = x).
Proof.
  intros Hs Hn. unfold AddDestinationRuleStatusEntry. apply builds_safeGetSubsetsStatus; [done|]. intros s1 e Hsame Hm ->.
  pose proof (same_sound _ _ _ Hsame Hs) as Hs1. destruct (entry_listed s x name Hs) as [Hnd1 Hnd2].
  pose proof (sync_keys_NoDup rs _ Hnd1) as Hnd. destruct (SyncStatusResources _ _) as [[] l]; [|by apply builds_ret].
  eapply builds_mono; [apply builds_write_subset; try done|]; [|by intros err s' x' _ _ (-> & -> & _)].
  by eapply same_right, right_subset.
Qed.
Lemma builds_AddService s x name rs : sound s x -> name ∈ map part_name parts ->
  builds s x (AddVirtualServiceStatusEntry name rs) (fun err s' x' => err = None /\ x' = x).
Proof.
  intros Hs Hn. unfold AddVirtualServiceStatusEntry. apply builds_safeGetSubsetsStatus; [done|]. intros s1 e Hsame Hm ->.
  pose proof (same_sound _ _ _ Hsame Hs) as Hs1. destruct (entry_listed s x name Hs) as [Hnd1 Hnd2].
  pose proof (sync_keys_NoDup rs _ Hnd2) as Hnd. destruct (SyncStatusResources _ _) as [[] l]; [|by apply builds_ret].
  eapply builds_mono; [apply builds_write_subset; try done|]; [|by intros err s' x' _ _ (-> & -> & _)].
  by eapply same_right, right_subset.
Qed.

Context (Honce : NoDup (map part_name parts)).
Lemma part_unique st st' : st ∈ parts -> st' ∈ parts -> part_name st = part_name st' -> st = st'.
Proof.
  intros [i Hi]%list_elem_of_lookup [j Hj]%list_elem_of_lookup Hn. assert (i = j) as ->; [|congruence].
  eapply (NoDup_lookup _ i j (part_name st) Honce); rewrite list_lookup_fmap; [by rewrite Hi|by rewrite Hj, Hn].
Qed.
Lemma builds_ApplyHash s x st hash :
  sound s x -> st ∈ parts -> Hash (stt_Subset st) = Ok hash -> (0 <= hash < 2 ^ 64)%Z -> has_entry s (stt_Type st) (part_name st) ->
  builds s x (ApplyHash (part_name st) hash (stt_Type st)) (fun err s' x' => err = None /\ x' = x /\ hashed s' st).
Proof.
  intros Hs Hst Hh Hrange He. assert (Hin : part_name st ∈ map part_name parts) by by apply list_elem_of_fmap_2.
  assert (Hright : forall s1, right_hash s1 (stt_Type st) (part_name st) (uint64_of (int64_of hash))).
  { intros s1 st' Hst' _ Hn _. by rewrite (part_unique st' st Hst' Hst Hn), uint64_int64. }
  destruct (stt_Type st) eqn:Ht; cbn [ApplyHash].
  - unfold setHashForSubset. apply builds_get_de. intros o c Hc. cbv zeta.
    change (de_SubsetsStatus (live s o)) with (st_SubsetsStatus s). destruct (entry_listed s x (part_name st) Hs) as [Hnd1 Hnd2].
    eapply wp_mono; [|eapply (builds_write_subset s x (part_name st)); try done].
    + intros err c' (s' & o' & x' & (-> & -> & ->) & Hrest). eexists _, o', x. split; [|exact Hrest]. split; [done|]. split; [done|].
      apply hashed_wire. exists hash. split; [done|]. rewrite put_subset_hash_at, decide_True by done. simpl. by rewrite uint64_int64.
    + destruct He as [e He]. destruct (mlookup_not_nil _ _ _ He) as [m ->]. by eexists.
  - unfold setHashForConsumer. apply builds_get_de. intros o.
    set (s1 := mkDynamicEnvStatus (st_SubsetsStatus s) (mmake (st_ConsumersStatus s)) (st_State s) (st_TotalCount s) (st_TotalReady s)).
    assert (Hsame : same_entries s s1) by by split; [|apply mread_mmake].
    change (set_ConsumersStatus _ (live s o)) with (live s1 o).
    apply builds_put; [by apply same_grows|by eapply same_sound|]. apply builds_get_de. clear o. intros o c Hc. cbv zeta.
    eapply wp_mono; [|eapply (builds_write_consumer s1 x (part_name st)); try done]; [|by eapply same_sound].
    intros err c' (s' & o' & x' & (-> & -> & ->) & Hrest). eexists _, o', x. split; [|exact Hrest]. split; [done|]. split; [done|].
    apply hashed_wire. exists hash. split; [done|]. rewrite put_consumer_hash_at, decide_True by done. simpl. by rewrite uint64_int64.
Qed.

(** ** The handlers *)
Lemma builds_read {R B} s x (q : req R) (a : R) (f : R -> M W B) Q : sound s x ->
  (forall o w, stored o x w -> exists w', exec q w = (a, w') /\ stored o x w') ->
  builds s x (f a) Q -> builds s x (call q ≫= f) Q.
Proof.
  intros Hs Hq Hf. apply (builds_call _ _ _ _ (fun b x' => b = a /\ x' = x)).
  - intros o w Hw. destruct (Hq o w Hw) as (w' & E & Hw'). exists a, w', x. split; [done|]. split; [done|].
    split; [apply grows_refl|done].
  - by intros b x' _ _ [-> ->].
Qed.
Lemma builds_no_deployment {B} s x n (f : result error Deployment -> M W B) Q : sound s x -> sn_deployments x n = None ->
  (forall e, IsNotFound e = true -> builds s x (f (Err e)) Q) -> builds s x (call (GetDeployment n) ≫= f) Q.
Proof.
  intros Hs Hn Hf. apply (builds_call _ _ _ _ (fun a x' => x' = x /\ exists e, a = Err e /\ IsNotFound e = true)).
  - intros o w [s0 HP]. destruct (stores_no_deployment (P:=P) (now s0 o x) n w HP Hn) as (e & w' & E & He & HP').
    exists (Err e), w', x. split; [done|]. split; [by exists s0|]. split; [apply grows_refl|]. split; [done|]. eauto.
  - intros a ? _ _ (-> & e & -> & He). by apply Hf.
Qed.
Lemma builds_no_rule {B} s x n (f : result error DestinationRule -> M W B) Q : sound s x -> sn_rules x n = None ->
  (forall e, IsNotFound e = true -> builds s x (f (Err e)) Q) -> builds s x (call (GetDestinationRule n) ≫= f) Q.
Proof.
  intros Hs Hn Hf. apply (builds_call _ _ _ _ (fun a x' => x' = x /\ exists e, a = Err e /\ IsNotFound e = true)).
  - intros o w [s0 HP]. destruct (stores_no_rule (P:=P) (now s0 o x) n w HP Hn) as (e & w' & E & He & HP').
    exists (Err e), w', x. split; [done|]. split; [by exists s0|]. split; [apply grows_refl|]. split; [done|]. eauto.
  - intros a ? _ _ (-> & e & -> & He). by apply Hf.
Qed.

(** *** Deployments *)
Lemma target_inj st st' : st ∈ parts -> st' ∈ parts -> target st = target st' -> st = st'.
Proof.
  intros Hst Hst' E. unfold target in E. injection E as Hns Hn. apply part_unique; [done..|]. unfold part_name, MKSubsetName.
  rewrite Hns. f_equal. f_equal. unfold MkSubsetUniqueName in Hn. apply (app_inj_len _ _ ("-" +:+ version) ("-" +:+ version)) in Hn as [? _]; [done|].
  apply (f_equal str_len) in Hn. rewrite !str_len_app in Hn. lia.
Qed.
Lemma unique_name_nonempty name : MkSubsetUniqueName name version <> "".
Proof. unfold MkSubsetUniqueName. intros E. apply (f_equal str_len) in E. rewrite !str_len_app in E. unfold str_len in E. simpl in E. lia. Qed.

(** The overrides of a part name containers of its base. *)
Definition names_containers (overrides : list ContainerOverrides) (cs : list Container) : Prop :=
  forall co, co ∈ overrides -> co_ContainerName co ∈ map c_Name cs.
Definition deployable st (base : Deployment) : Prop :=
  let t := ds_Template (dp_Spec base) in
  overridable base /\ names_containers (s_Containers (stt_Subset st)) (pt_Containers t) /\
  names_containers (s_InitContainers (stt_Subset st)) (pt_InitContainers t).
Lemma wp_override_named what cs overrides (c : ctx W) : names_containers overrides cs ->
  wp (override_containers what cs overrides) (fun res c' => allocates c c' /\ exists cs', res = Ok cs') c.
Proof.
  revert cs c. induction overrides as [|co overrides IH]; intros cs c Hn; cbn [override_containers].
  { apply wp_ret. split; [done|by eexists]. }
  apply wp_bind. eapply wp_mono; [|apply wp_createContainerTemplate]. intros [[container idx]|e] c1 [Hal Hres].
  2: { destruct Hres. apply Hn. by left. }
  destruct Hres as (old & Hold & Hname & Hover & _). eapply wp_mono; [|apply IH].
  - intros res c2 [Hal2 Hok]. split; [by eapply allocates_trans|done].
  - intros co' Hco'. erewrite map_name_insert; [|exact Hold|exact Hover]. apply Hn. by right.
Qed.
Local Abbreviation dh base st := (deployment_handler r k base st).
Lemma builds_override s x st base b : sound s x -> deployable st base ->
  builds s x (createOverridingDeployment (dh_set_Updating b (dh base st)))
    (fun res s' x' => (s' = s /\ x' = x) /\ exists d, res = Ok d /\ dp_key d = target st).
Proof.
  intros Hs (Hb & Hc & Hi) o c Hc0. set (h := dh_set_Updating b (dh base st)).
  eapply wp_mono; [|apply (wp_createOverridingDeployment h c (fun res => exists cs, res = Ok cs) (fun res => exists cs, res = Ok cs) Hb)].
  - intros [d|e] c' [(Hlog & Hde & Hw) Hres]; [|by destruct Hres as [(? & ? & ?)|(? & ? & ?)]].
    destruct Hres as [(Hname & Hns & _) _]. exists s, o, x. split; [|split; [apply grows_refl|]].
    + split; [done|]. exists d. split; [done|]. unfold dp_key, target. by rewrite Hname, Hns.
    + destruct Hc0 as (? & ? & ?). split; [done|]. by rewrite Hde, Hw.
  - intros what c1. by apply wp_override_named.
  - intros what c1. by apply wp_override_named.
Qed.
Lemma builds_setStatus s x st base b status : sound s x -> st ∈ parts ->
  builds s x (DeploymentHandler.setStatus (dh_set_Updating b (dh base st)) status)
    (fun err s' x' => err = None /\ x' = x /\ has_entry s' (stt_Type st) (part_name st)).
Proof.
  intros Hs Hst. apply builds_AddDeployment; [done|by apply list_elem_of_fmap_2|].
  intros E. injection E as E _ _. by apply unique_name_nonempty in E.
Qed.

(** A write of the deployment of a part that has its entry. *)
Lemma put_target_ok s x st d : sound s x -> st ∈ parts -> has_entry s (stt_Type st) (part_name st) ->
  grows s x s (put_deployment (target st) d x) /\ sound s (put_deployment (target st) d x).
Proof.
  intros [Hk Hl Ho] Hst He. split.
  - split; try done; cbn.
    + intros n Hn. case_decide; [by eexists|done].
    + intros n Hn. rewrite decide_False; [done|]. by apply Hn.
  - split; [done|done|]. intros st' Hst'. cbn. case_decide as Hn; [|by apply Ho]. intros _.
    rewrite (target_inj st' st Hst' Hst Hn). by apply has_entry_hash.
Qed.
Lemma builds_put_target {B} s x st (q : req (option error)) (f : option error -> M W B) Q :
  sound s x -> st ∈ parts -> has_entry s (stt_Type st) (part_name st) ->
  (forall k0 w, P k0 w -> sn_deployments k0 (target st) = sn_deployments x (target st) -> exists d w',
    exec q w = (None, w') /\ P (put_deployment (target st) d k0) w') ->
  (forall x', sound s x' -> is_Some (sn_deployments x' (target st)) -> builds s x' (f None) Q) ->
  builds s x (call q ≫= f) Q.
Proof.
  intros Hs Hst He Hq Hf. apply (builds_call _ _ _ _ (fun a x' => a = None /\ is_Some (sn_deployments x' (target st)))).
  - intros o w [s0 HP]. destruct (Hq _ w HP eq_refl) as (d & w' & E & HP').
    destruct (put_target_ok s x st d Hs Hst He). exists None, w', (put_deployment (target st) d x).
    split; [done|]. split; [by exists s0|]. split; [done|]. split; [done|]. split; [done|].
    cbn. rewrite decide_True by done. by eexists.
  - intros ? x' _ Hs' [-> Hd]. by apply Hf.
Qed.
Lemma builds_deployment s x st base hash :
  sound s x -> st ∈ parts -> deployable st base -> Hash (stt_Subset st) = Ok hash -> (0 <= hash < 2 ^ 64)%Z ->
  builds s x (DeploymentHandler_Handle (dh base st)) (fun res s' x' =>
    (exists b, res = (dh_set_Updating b (dh base st), None)) /\ hashed s' st /\ is_Some (sn_deployments x' (target st))).
Proof.
  intros Hs Hst Hb Hh Hrange. unfold DeploymentHandler_Handle. change (searchName (dh base st)) with (target st).
  assert (Hsame : dh base st = dh_set_Updating false (dh base st)) by done.
  destruct (sn_deployments x (target st)) as [d|] eqn:Hd.
  - apply (builds_read _ _ _ (Ok d)); [done|intros o w; by apply (shows_deployment (P:=stored o x) (k:=now s o x))|].
    assert (Hent : has_entry s (stt_Type st) (part_name st)) by (apply has_entry_hash, Hs; [done|by rewrite Hd]).
    unfold UpdateIfRequired. cbv zeta. change (dh_DeploymentType (dh base st)) with (stt_Type st).
    change (dh_SubsetName (dh base st)) with (part_name st). change (dh_Subset (dh base st)) with (stt_Subset st).
    apply (builds_quiet_bind _ _ _ _ (fun z => hash_at s st = Some z)).
    { intros o. apply has_entry_hash in Hent as [z Hz]. rewrite Hz. unfold hash_at in Hz.
      destruct (stt_Type st); unfold GetHashForSubset, GetHashForConsumer; apply quietly_get_de;
        [change (de_SubsetsStatus (live s o)) with (st_SubsetsStatus s)|change (de_ConsumersStatus (live s o)) with (st_ConsumersStatus s)];
        destruct (mlookup _ _); simplify_eq/=; by apply quietly_ret. }
    intros z Hz. rewrite Hh. case_decide as Hne.
    2: { apply builds_ret. split; [by exists false|]. split; [|by eexists]. exists hash. split; [done|].
         assert (z = hash) as <- by (destruct (decide (z = hash)); [done|by destruct Hne]). done. }
    eapply builds_bind; [by apply (builds_override s x st base true)|]. intros res ? ? _ _ ((-> & ->) & d' & -> & Hkey).
    eapply builds_bind; [by apply (builds_setStatus s x st base true)|]. intros ? s1 ? Hg1 Hs1 (-> & -> & He1).
    apply (builds_put_target s1 x st); [done..| |].
    { intros k0 w HP Hk0. rewrite <- Hkey in *. apply stores_deployment; [done|]. rewrite Hk0. by eexists. }
    intros x2 Hs2 Hd2. eapply builds_bind; [by apply (builds_ApplyHash s1 x2 st hash)|].
    intros ? s2 ? _ _ (-> & -> & Hok). apply builds_ret. by split; [exists true|].
  - apply builds_no_deployment; [done..|]. intros e ->. unfold create_deployment. rewrite Hsame.
    apply (builds_bind _ _ _ _ (fun err s' x' => err = None /\ hashed s' st /\ is_Some (sn_deployments x' (target st)))).
    2: { intros ? s' x' _ _ (-> & Hok). apply builds_ret. by split; [exists false|]. }
    eapply builds_bind; [by apply (builds_setStatus s x st base false)|]. intros ? s1 ? Hg1 Hs1 (-> & -> & He1).
    eapply builds_bind; [by apply (builds_override s1 x st base false)|]. intros res ? ? _ _ ((-> & ->) & d' & -> & Hkey).
    apply (builds_put_target s1 x st); [done..| |].
    { intros k0 w HP Hk0. rewrite <- Hkey in *. apply stores_new_deployment; [done|]. by rewrite Hk0. }
    intros x2 Hs2 Hd2. change (dh_Subset (dh_set_Updating false (dh base st))) with (stt_Subset st). rewrite Hh.
    eapply builds_bind; [by apply (builds_ApplyHash s1 x2 st hash)|]. intros ? s2 ? _ _ (-> & -> & Hok). by apply builds_ret.
Qed.

(** *** Destination rules *)
Implicit Types (drh : DestinationRuleHandler) (sh : string) (hosts : list string).
(** The rule of the default version, from which the environment's is made. *)
Definition default_rule x drh sh : Prop := exists n d, sn_rules x n = Some d /\ nn_Namespace n = drh_Namespace drh /\
  serves_host drh sh d = true /\ has_default_version drh d = true.
Definition rule_ready x drh sh : Prop := rule_there (k:=x) drh sh \/ default_rule x drh sh.
Lemma rule_there_grows s x s' x' drh sh : grows s x s' x' -> rule_there (k:=x) drh sh -> rule_there (k:=x') drh sh.
Proof. intros Hg [d Hd]. exists d. by apply (grow_rules _ _ _ _ Hg). Qed.
Lemma rule_ready_grows s x s' x' drh sh : grows s x s' x' -> rule_ready x drh sh -> rule_ready x' drh sh.
Proof.
  intros Hg [Hr|(n & d & Hd & Hrest)]; [left; by eapply rule_there_grows|right]. exists n, d.
  split; [by apply (grow_rules _ _ _ _ Hg)|done].
Qed.
Lemma find_default_some drh sh d l : d ∈ l -> serves_host drh sh d = true -> has_default_version drh d = true ->
  is_Some (find_default_rule drh sh l).
Proof.
  intros Hd Hs Hv. pose proof (find_default_rule_spec drh sh l) as Hf. destruct (find_default_rule drh sh l); [by eexists|].
  specialize (Hf d Hd). by rewrite Hs, Hv in Hf.
Qed.
Lemma builds_put_rule {B} s x (d : DestinationRule) (f : option error -> M W B) Q :
  sound s x -> sn_rules x (dr_key d) = None ->
  (forall x', grows s x s x' -> sound s x' -> is_Some (sn_rules x' (dr_key d)) -> builds s x' (f None) Q) ->
  builds s x (call (CreateDestinationRule d) ≫= f) Q.
Proof.
  intros Hs Hn Hf. apply (builds_call _ _ _ _ (fun a x' => a = None /\ is_Some (sn_rules x' (dr_key d)))).
  - intros o w [s0 HP]. destruct (stores_new_rule (P:=P) (now s0 o x) d w HP Hn) as (d' & w' & E & HP').
    exists None, w', (put_rule (dr_key d) d' x). split; [done|]. split; [by exists s0|].
    split; [|split; [by destruct Hs|split; [done|]; cbn; rewrite decide_True by done; by eexists]].
    split; try done. cbn. intros n d0 Hd0. case_decide; [congruence|done].
  - intros ? x' Hg Hs' [-> Hd]. by apply Hf.
Qed.
Lemma builds_createMissing s x drh sh :
  sound s x -> drh_SubsetName drh ∈ map part_name parts -> default_rule x drh sh ->
  sn_rules x (mkNN (drh_Namespace drh) (calculateDRName drh sh)) = None ->
  builds s x (createMissingDestinationRule drh (calculateDRName drh sh) sh) (fun res s' x' =>
    res = (drh_add_active sh drh, None) /\ rule_there (k:=x') drh sh).
Proof.
  intros Hs Hn (n & d & Hd & Hns & Hserves & Hdef) Hnone. unfold createMissingDestinationRule.
  eapply builds_bind; [by apply builds_AddRule|]. intros ? s1 ? _ Hs1 [-> ->].
  unfold generateOverridingDestinationRule, locateDestinationRuleByHostname.
  eapply (builds_bind _ _ _ _ (fun res s' x' => (s' = s1 /\ x' = x) /\ exists host, res = Ok (overriding_rule drh sh host))).
  - eapply (builds_bind _ _ _ _ (fun res s' x' => (s' = s1 /\ x' = x) /\ exists d, res = Ok d)).
    + apply (builds_call _ _ _ _ (fun a x' => x' = x /\ exists l, a = Ok l /\ d ∈ l)).
      * intros o w [s0 HP]. destruct (stores_rules (P:=P) (now s0 o x) (drh_Namespace drh) w HP) as (l & w' & E & HP' & Hl).
        exists (Ok l), w', x. split; [done|]. split; [by exists s0|]. split; [apply grows_refl|]. split; [done|].
        split; [done|]. exists l. split; [done|]. by apply (Hl n d).
      * intros a ? _ _ (-> & l & -> & Hin). destruct (find_default_some drh sh d l Hin Hserves Hdef) as [d' ->].
        apply builds_ret. split; [done|by eexists].
    + intros a ? ? _ _ ((-> & ->) & d' & ->). apply builds_ret. split; [done|by eexists].
  - intros a ? ? _ _ ((-> & ->) & host & ->). cbv beta iota zeta.
    apply builds_put_rule; [done|exact Hnone|]. intros x' _ _ Hx'. apply builds_ret. split; [done|exact Hx'].
Qed.
Lemma builds_handle_rules s x drh hosts :
  sound s x -> drh_SubsetName drh ∈ map part_name parts -> Forall (rule_ready x drh) hosts ->
  builds s x (DestinationRuleHandler.handle_hosts drh hosts) (fun res s' x' =>
    res = (drh_set (drh_ignoredMissing drh) (drh_activeHosts drh ++ hosts) drh, None) /\
    Forall (rule_there (k:=x') drh) hosts).
Proof.
  revert s x drh. induction hosts as [|sh hosts IH]; intros s x drh Hs Hn Hf; cbn [DestinationRuleHandler.handle_hosts].
  { apply builds_ret. split; [|constructor]. rewrite app_nil_r. by destruct drh. }
  apply Forall_cons in Hf as [Hsh Hf]. cbv zeta.
  assert (Hnext : forall s' x', grows s x s' x' -> sound s' x' -> rule_there (k:=x') drh sh ->
    builds s' x' (DestinationRuleHandler.handle_hosts (drh_add_active sh drh) hosts) (fun res s2 x2 =>
      res = (drh_set (drh_ignoredMissing drh) (drh_activeHosts drh ++ sh :: hosts) drh, None) /\
      Forall (rule_there (k:=x2) drh) (sh :: hosts))).
  { intros s' x' Hg Hs' Hthere. eapply builds_mono; [apply (IH s' x' (drh_add_active sh drh)); [done|done|]|].
    - eapply Forall_impl; [exact Hf|]. intros y. exact (rule_ready_grows s x s' x' drh y Hg).
    - intros res s2 x2 Hg2 _ [-> Hall]. split; [|constructor; [by eapply rule_there_grows|exact Hall]].
      f_equal. unfold drh_add_active, drh_set. cbn. by rewrite <- app_assoc. }
  destruct (sn_rules x (mkNN (drh_Namespace drh) (calculateDRName drh sh))) as [d|] eqn:Hd.
  - apply (builds_read _ _ _ (Ok d)); [done|intros o w; by apply (shows_rule (P:=stored o x) (k:=now s o x))|].
    apply Hnext; [apply grows_refl|done|by exists d].
  - apply builds_no_rule; [done..|]. intros e ->. destruct Hsh as [[d Hsh]|Hsh]; [congruence|].
    eapply builds_bind; [by apply builds_createMissing|]. intros ? s' x' Hg Hs' [-> Hthere]. by apply Hnext.
Qed.
Lemma builds_rules s x drh :
  sound s x -> drh_SubsetName drh ∈ map part_name parts -> drh_activeHosts drh = [] -> drh_ServiceHosts drh <> [] ->
  Forall (rule_ready x drh) (drh_ServiceHosts drh) ->
  builds s x (DestinationRuleHandler_Handle drh) (fun res s' x' =>
    res = (drh_set (drh_ignoredMissing drh) (drh_ServiceHosts drh) drh, None) /\
    Forall (rule_there (k:=x') drh) (drh_ServiceHosts drh)).
Proof.
  intros Hs Hn Ha Hne Hf. unfold DestinationRuleHandler_Handle. eapply builds_bind; [by apply builds_handle_rules|].
  intros ? s' x' _ _ [-> Hall]. rewrite Ha. cbn [app]. rewrite decide_False by by destruct (drh_ServiceHosts drh).
  by apply builds_ret.
Qed.

(** *** Virtual services *)
Implicit Types (h : VirtualServiceHandler) (v : VirtualService).
Local Abbreviation items x := (sn_virtualservices x).
Definition valid_grows := grows_valid.
(** What is found for a host can be given the routes, or has them. *)
Record host_ready x h sh : Prop := mkHostReady {
  ready_delegates : delegates_listed (items x) h sh;
  ready_found : exists v, found_for (items x) h sh v;
  ready_routable : forall v, found_for (items x) h sh v ->
    routesConfiguredWithDynamicEnvRoutes (vs_Http v) (vh_RoutePrefix h) = true \/
    existsb (targeted h sh (vs_Namespace v)) (vs_Http v) = true;
}.
(** The handler routes to the environment's version, which is not its default. *)
Record routes_here h : Prop := mkRoutesHere {
  here_version : vh_UniqueVersion h = version;
  here_default : vh_DefaultVersion h <> version;
  here_matches : vh_Matches h <> [];
  here_name : vh_SubsetName h ∈ map part_name parts;
  here_handles : exists y, mkSubsetType SUBSET y ∈ parts /\ handles r env y h;
}.
Lemma routes_here_set h active vss : routes_here h -> routes_here (vh_set_hosts active vss h).
Proof.
  intros [Hv Hd Hm Hn (y & Hy & hosts & active' & vss' & ->)]. split; try done. exists y. split; [done|].
  by exists hosts, active, vss.
Qed.
(** More routes to a version other than the handler's default do not matter. *)
Lemma found_some_edited version' x x' h sh :
  Forall2 (edited version') (items x) (items x') -> valid x -> vh_DefaultVersion h <> version' ->
  (exists v, found_for (items x) h sh v) -> exists v, found_for (items x') h sh v.
Proof.
  intros He Hv Hd (v & i & Hi & Hf). destruct (Forall2_lookup_l _ _ _ _ _ He Hi) as (v' & Hi' & _).
  exists v', i. split; [done|]. by apply (edited_found version' He Hv).
Qed.
Lemma host_ready_edited version' x x' h sh :
  Forall2 (edited version') (items x) (items x') -> valid x -> vh_DefaultVersion h <> version' ->
  host_ready x h sh -> host_ready x' h sh.
Proof.
  intros He Hv Hd [Hdel Hfound Hr]. split.
  - exact (edited_delegates version' He h sh Hdel).
  - by eapply found_some_edited.
  - intros v' (i & Hi' & Hf). destruct (Forall2_lookup_r _ _ _ _ _ He Hi') as (v & Hi & Hn & _ & Hm).
    destruct (Hr v) as [Hc|Ht]; [exists i; split; [done|by apply (edited_found version' He Hv)]|left|right].
    + by eapply more_configured.
    + unfold vs_nn in Hn. injection Hn as -> _. by rewrite (more_targeted version' h sh _ _ _ Hd Hm).
Qed.
Lemma host_in_place_edited version' x x' h sh :
  Forall2 (edited version') (items x) (items x') -> valid x -> vh_DefaultVersion h <> version' ->
  host_in_place (items x) h sh -> host_in_place (items x') h sh.
Proof.
  intros He Hv Hd [Hdel Hfound Hr]. split.
  - exact (edited_delegates version' He h sh Hdel).
  - by eapply found_some_edited.
  - intros v' (i & Hi' & Hf). destruct (Forall2_lookup_r _ _ _ _ _ He Hi') as (v & Hi & _ & _ & Hm).
    eapply more_configured; [exact Hm|]. apply Hr. exists i. split; [done|]. by apply (edited_found version' He Hv).
Qed.
Lemma found_grows s x s' x' h sh i : grows s x s' x' -> valid x -> vh_DefaultVersion h <> version ->
  found_at (items x') h sh i <-> found_at (items x) h sh i.
Proof. intros Hg Hv Hd. exact (edited_found version (grow_items _ _ _ _ Hg) Hv h sh i Hd). Qed.
Lemma found_some_grows s x s' x' h sh : grows s x s' x' -> valid x -> vh_DefaultVersion h <> version ->
  (exists v, found_for (items x) h sh v) -> exists v, found_for (items x') h sh v.
Proof. intros Hg. exact (found_some_edited version x x' h sh (grow_items _ _ _ _ Hg)). Qed.
Lemma host_ready_grows s x s' x' h sh : grows s x s' x' -> valid x -> vh_DefaultVersion h <> version ->
  host_ready x h sh -> host_ready x' h sh.
Proof. intros Hg. exact (host_ready_edited version x x' h sh (grow_items _ _ _ _ Hg)). Qed.
Lemma host_in_place_grows s x s' x' h sh : grows s x s' x' -> valid x -> vh_DefaultVersion h <> version ->
  host_in_place (items x) h sh -> host_in_place (items x') h sh.
Proof. intros Hg. exact (host_in_place_edited version x x' h sh (grow_items _ _ _ _ Hg)). Qed.

Lemma builds_computes {A} s x (m : M W A) (a : A) : computes m (Ret a) ->
  builds s x m (fun b s' x' => b = a /\ s' = s /\ x' = x).
Proof.
  intros Hm o c Hc. eapply computes_wp; [exact Hm|]. intros n. exists s, o, x. split; [done|]. split; [apply grows_refl|exact Hc].
Qed.
Lemma builds_update s x h sh i v :
  sound s x -> valid x -> routes_here h -> items x !! i = Some v -> found_at (items x) h sh i ->
  routesConfiguredWithDynamicEnvRoutes (vs_Http v) (vh_RoutePrefix h) = true \/
    existsb (targeted h sh (vs_Namespace v)) (vs_Http v) = true ->
  builds s x (updateVirtualService h v sh) (fun res s' x' => exists v', res = (v', None) /\
    items x' = <[i := v']> (items x) /\ routesConfiguredWithDynamicEnvRoutes (vs_Http v') (vh_RoutePrefix h) = true).
Proof.
  intros Hs Hv [Hver Hdef Hm Hn (y & Hy & Hhandles)] Hi Hfound Hr. unfold updateVirtualService. cbv zeta.
  destruct (routesConfiguredWithDynamicEnvRoutes _ _) eqn:Hc.
  { apply builds_ret. exists v. split; [done|]. by rewrite list_insert_id. }
  destruct Hr as [?|Ht]; [done|]. assert (Hwf : Forall well_formed (vs_Http v)).
  { unfold valid in Hv. rewrite Forall_forall in Hv. by eapply Hv, list_elem_of_lookup_2. }
  eapply builds_bind; [by apply builds_AddService|]. intros ? s1 ? Hg1 Hs1 [-> ->]. eapply builds_bind.
  { apply builds_computes. pose proof (computes_build (W:=W) h (vs_Http v) sh (vs_Namespace v)) as Hb.
    by rewrite edit_well_formed in Hb. }
  intros ? ? ? _ _ (-> & -> & ->). cbv beta iota. set (new := AddToAnnotation _ _).
  apply (builds_call _ _ _ _ (fun a x' => exists o, a = Ok (vs_stamp o new) /\ items x' = <[i := vs_stamp o new]> (items x))).
  - intros o w [s0 HP]. destruct (stores_service (P:=P) (now s0 o x) i v new w HP Hi) as (o' & w' & E & HP'); [done..|].
    exists (Ok (vs_stamp o' new)), w', (put_service i (vs_stamp o' new) x). split; [done|]. split; [by exists s0|].
    split; [|split; [by destruct Hs1|by exists o']]. split; try done; cbn.
    + rewrite <- (list_insert_id _ _ _ Hi) at 1. apply Forall2_insert; [done|]. split; [done|]. split; [done|].
      rewrite <- Hver. by apply new_routes_more.
    + rewrite <- (list_insert_id _ _ _ Hi) at 1. apply Forall2_insert; [done|]. by eapply handles_marked.
    + intros _. by eapply told_own.
  - intros ? x' _ _ (o & -> & Hx'). apply builds_ret. eexists. split; [done|]. split; [done|].
    by apply new_routes_configured.
Qed.
Lemma builds_update_refs s x h sh refs b :
  sound s x -> valid x -> routes_here h -> host_ready x h sh -> (forall i, i ∈ refs -> found_at (items x) h sh i) ->
  builds s x (update_refs h sh (items x) refs b) (fun res s' x' => (b = true \/ refs <> [] -> res.2 = true) /\
    forall i v, i ∈ refs -> items x' !! i = Some v -> routesConfiguredWithDynamicEnvRoutes (vs_Http v) (vh_RoutePrefix h) = true).
Proof.
  intros Hs Hv Hh. revert s x Hs Hv b. induction refs as [|i refs IH]; intros s x Hs Hv b Hready Hrefs; cbn [update_refs].
  { apply builds_ret. split; [by intros [?|?]|]. by intros i v ?%elem_of_nil. }
  assert (Hfound : found_at (items x) h sh i) by (apply Hrefs; by left).
  destruct (found_listed (items x) h sh i Hfound) as [v Hi]. rewrite Hi.
  eapply builds_bind; [apply (builds_update s x h sh i v Hs Hv Hh Hi Hfound)|].
  { apply (ready_routable _ _ _ Hready). by exists i. }
  intros ? s1 x1 Hg1 Hs1 (v1 & -> & Hx1 & Hc1). cbv beta iota zeta. rewrite <- Hx1.
  eapply builds_mono; [apply (IH s1 x1 Hs1)|].
  - by eapply valid_grows.
  - eapply host_ready_grows; [exact Hg1|done|apply Hh|done].
  - intros j Hj. apply (found_grows s x s1 x1); [done..|apply Hh|]. apply Hrefs. by right.
  - intros res s2 x2 Hg2 _ [Hb Hrest]. split; [intros _; apply Hb; by left|].
    intros j v2 [->|Hj]%elem_of_cons Hj2; [|by eapply Hrest].
    destruct (Forall2_lookup_r _ _ _ _ _ (grow_items _ _ _ _ Hg2) Hj2) as (v1' & Hj1 & _ & _ & Hm).
    rewrite Hx1, list_lookup_insert_eq in Hj1 by by eapply lookup_lt_Some. injection Hj1 as <-. by eapply more_configured.
Qed.

(** The services a handler remembers are there. *)
Definition knows x (vss : gmap string (list NamespacedName)) : Prop :=
  forall sh nns nn, vss !! sh = Some nns -> nn ∈ nns -> exists v, v ∈ items x /\ nn = vs_nn v.
Lemma knows_grows s x s' x' vss : grows s x s' x' -> knows x vss -> knows x' vss.
Proof.
  intros Hg Hk sh nns nn Hsh Hnn. destruct (Hk sh nns nn Hsh Hnn) as (v & [i Hi]%list_elem_of_lookup & ->).
  destruct (Forall2_lookup_l _ _ _ _ _ (grow_items _ _ _ _ Hg) Hi) as (v' & Hi' & Hn & _). exists v'.
  split; [by eapply list_elem_of_lookup_2|done].
Qed.
Lemma knows_insert x vss sh refs : knows x vss -> knows x (<[sh := toNamespacedName (deref (items x) refs)]> vss).
Proof.
  intros Hk sh' nns nn. destruct (decide (sh' = sh)) as [->|Hne]; [|rewrite lookup_insert_ne by done; apply Hk].
  rewrite lookup_insert_eq. intros [= <-] (v & -> & Hv)%list_elem_of_fmap. exists v. split; [|done].
  apply list_elem_of_omap in Hv as (i & _ & Hi). by eapply list_elem_of_lookup_2.
Qed.
Lemma host_ready_set x h active vss sh : host_ready x h sh -> host_ready x (vh_set_hosts active vss h) sh.
Proof.
  intros [Hd [v Hf] Hr]. split; [exact Hd|exists v; by apply (found_for_set (items x) h active vss)|].
  intros v' Hv'. apply Hr. by apply (found_for_set (items x) h active vss).
Qed.
Lemma host_in_place_unset x h active vss sh : host_in_place (items x) (vh_set_hosts active vss h) sh -> host_in_place (items x) h sh.
Proof.
  intros [Hd [v Hf] Hr]. split; [exact Hd|exists v; by apply (found_for_set (items x) h active vss)|].
  intros v' Hv'. apply Hr. by apply (found_for_set (items x) h active vss).
Qed.
(** Updating what is found for a host puts it in place. *)
Lemma builds_found s x h sh refs active vss :
  sound s x -> valid x -> routes_here h -> host_ready x h sh -> (forall i, i ∈ refs <-> found_at (items x) h sh i) ->
  builds s x (update_refs (vh_set_hosts active vss h) sh (items x) refs false)
    (fun res s' x' => res.2 = true /\ host_in_place (items x') h sh).
Proof.
  intros Hs Hv Hh Hready Hrefs. eapply builds_mono.
  - apply (builds_update_refs s x (vh_set_hosts active vss h) sh refs false); [done|done|by apply routes_here_set|by apply host_ready_set|].
    intros i Hi. by apply found_at_set, Hrefs.
  - intros res s' x' Hg _ [Hb Hall]. destruct Hready as [Hdel Hfound _]. split.
    + apply Hb. right. destruct Hfound as (v & i & _ & Hi%Hrefs). by intros ->; apply elem_of_nil in Hi.
    + split.
      * exact (edited_delegates version (grow_items _ _ _ _ Hg) h sh Hdel).
      * eapply found_some_grows; [exact Hg|done|apply Hh|done].
      * intros v' (i & Hi & Hf). apply (Hall i v'); [|done]. apply Hrefs. apply (found_grows s x s' x'); [done..|apply Hh|done].
Qed.
Lemma builds_handle_services s x h hosts :
  sound s x -> valid x -> routes_here h -> Forall (host_ready x h) hosts -> knows x (vh_virtualServices h) ->
  builds s x (VirtualServiceHandler.handle_hosts h hosts) (fun res s' x' =>
    (exists vss, res = (vh_set_hosts (vh_activeHosts h ++ hosts) vss h, None) /\ knows x' vss) /\
    Forall (host_in_place (items x') h) hosts).
Proof.
  revert s x h. induction hosts as [|sh hosts IH]; intros s x h Hs Hv Hh Hready Hk; cbn [VirtualServiceHandler.handle_hosts].
  { apply builds_ret. split; [|constructor]. exists (vh_virtualServices h). rewrite app_nil_r. split; [by destruct h|done]. }
  apply Forall_cons in Hready as [Hsh Hready].
  apply (builds_quiet_bind _ _ _ _ (fun res => res.2 = None /\ lc_store res.1 = items x /\
    forall i, i ∈ lc_refs res.1 <-> found_at (items x) h sh i)).
  { intros o. apply (quietly_locate (k:=now s o x) Hv h). apply Hsh. }
  intros [[store refs] err] (He & Hstore & Hrefs). simpl in He, Hstore, Hrefs. subst err store. cbv beta iota zeta. cbn [lc_store lc_refs].
  set (vss := <[sh := _]> _). eapply builds_bind; [by apply (builds_found s x h sh refs (vh_activeHosts h) vss)|].
  intros [store b] s1 x1 Hg1 Hs1 [Hb Hplace]. simpl in Hb. subst b.
  eapply builds_mono; [apply (IH s1 x1 (vh_set_hosts (vh_activeHosts h ++ [sh]) vss h) Hs1)|].
  - by eapply valid_grows.
  - by apply routes_here_set.
  - eapply Forall_impl; [exact Hready|]. intros y Hy. apply host_ready_set. eapply host_ready_grows; [exact Hg1|done|apply Hh|done].
  - eapply knows_grows; [exact Hg1|]. by apply knows_insert.
  - intros res s2 x2 Hg2 _ [(vss' & -> & Hk') Hall]. split.
    + exists vss'. split; [|done]. f_equal. cbn [vh_activeHosts vh_set_hosts]. by rewrite <- app_assoc.
    + constructor; [eapply host_in_place_grows; [exact Hg2|by eapply valid_grows|apply Hh|done]|].
      eapply Forall_impl; [exact Hall|]. intros y. apply host_in_place_unset.
Qed.
Lemma builds_services s x h :
  sound s x -> valid x -> routes_here h -> vh_activeHosts h = [] -> vh_ServiceHosts h <> [] ->
  Forall (host_ready x h) (vh_ServiceHosts h) ->
  builds s x (VirtualServiceHandler_Handle h) (fun res s' x' =>
    (exists vss, res = (vh_set_hosts (vh_ServiceHosts h) vss h, None) /\ knows x' vss) /\
    Forall (host_in_place (items x') h) (vh_ServiceHosts h)).
Proof.
  intros Hs Hv Hh Ha Hne Hready. unfold VirtualServiceHandler_Handle. cbv zeta. eapply builds_bind.
  { apply (builds_handle_services s x (vh_set_hosts (vh_activeHosts h) ∅ h)); [done|done|by apply routes_here_set| |by intros ? ? ? ?].
    eapply Forall_impl; [exact Hready|]. intros sh. apply host_ready_set. }
  intros ? s' x' _ _ [(vss & -> & Hk) Hall]. cbn [vh_activeHosts vh_ServiceHosts vh_set_hosts] in *. rewrite Ha. cbn [app].
  rewrite decide_False by by destruct (vh_ServiceHosts h). apply builds_ret. split; [by exists vss|].
  eapply Forall_impl; [exact Hall|]. intros sh. apply host_in_place_unset.
Qed.
End build.
