(* ===== verification/Converging.v ===== *)
(** * Converging

    From an environment as it was admitted to one at rest: one run builds all of
    it ([Building]); once the deployments have come up everything is in place,
    and the next run records it and is the last to change anything
    ([Settling]).  In place means what the code checks; that all routes are there
    ([routed]) follows when routes can be told apart by their names ([told]). *)

From stdpp Require Import base gmap sets list strings sorting.
From S2P Require Import Prelude GoStrings Sha256 K8s Types Helpers Watches Client FakeCluster StatusManager Model VirtualServiceHandler VirtualServiceRouting Locating DeploymentHandler DestinationRuleHandler CleanupManager Controller Totality Quiet AtRest Settling Editing Building.

(** ** All routes *)
(** Every virtual service that is found for a host of a subset has all the
    subset's copies: each of its routes to the default version of the host stands
    behind one copy per match. *)
Definition routed `{RoutePrinter} `{LabelSets} (r : DynamicEnvReconciler) (k : snapshot) : Prop :=
  forall y base hosts sh v,
  mkSubsetType SUBSET y ∈ mergeSubsetsAndConsumers (spec_Subsets (de_Spec (sn_env k))) (spec_Consumers (de_Spec (sn_env k))) ->
  based k y base -> served_under k y base hosts -> sh ∈ hosts ->
  let h := service_handler r k base y hosts in
  found_for (sn_virtualservices k) h sh v -> fully_routed h sh v.
(** Where routes can be told apart, those that are in place are all there. *)
Lemma told_all_routed `{RoutePrinter} `{SubsetHash} `{LabelSets} (r : DynamicEnvReconciler) (k : snapshot) :
  in_place r k -> told r (sn_env k) (sn_virtualservices k) -> routed r k.
Proof.
  intros Hp Ht y base hosts sh v Hy Hb Hs Hsh h Hf. pose proof (place_parts _ _ Hp) as Hall. rewrite Forall_forall in Hall.
  destruct (Hall _ Hy) as (base' & d & hash & Hb' & _ & _ & _ & _ & Hrout).
  pose proof (based_fun _ _ _ Hb Hb') as <-. destruct (Hrout eq_refl) as (hosts' & [Hs' _ Hh]).
  pose proof (served_fun _ _ _ _ Hs Hs') as <-. rewrite Forall_forall in Hh.
  apply (told_routed _ _ _ Ht y sh v Hy); [by apply (found_for_alike (h:=subset_handler r (sn_env k) y) (h':=h))|].
  exact (place_routed _ _ _ (Hh sh Hsh) v Hf).
Qed.

(** ** What can be built *)
Section buildable.
Context `{RoutePrinter} `{SubsetHash} `{LabelSets} (r : DynamicEnvReconciler) (k : snapshot).
Local Abbreviation env := (sn_env k).
Local Abbreviation parts := (mergeSubsetsAndConsumers (spec_Subsets (de_Spec env)) (spec_Consumers (de_Spec env))).
Implicit Types (s : Subset) (st : SubsetType) (base : Deployment) (hosts : list string).

(** Services select the base's pods; for each of their hosts there is a rule of
    the default version and a virtual service that routes to it. *)
Record routing_buildable s base hosts : Prop := mkRoutingBuildable {
  build_served : served_under k s base hosts;
  build_default : default_version r s <> UniqueDynamicEnvName (de_nn env);
  build_rules : Forall (rule_ready k (rule_handler r k base s hosts)) hosts;
  build_hosts : Forall (host_ready k (service_handler r k base s hosts)) hosts;
}.
Definition part_buildable st : Prop := exists base hash,
  based k (stt_Subset st) base /\ deployable st base /\
  Hash (stt_Subset st) = Ok hash /\ (0 <= hash < 2 ^ 64)%Z /\
  (stt_Type st = SUBSET -> exists hosts, routing_buildable (stt_Subset st) base hosts).
(** An environment that is not being deleted, whose parts have names of their own
    and can be built, and a status that knows parts only and lists nothing twice. *)
Record buildable : Prop := mkBuildable {
  build_alive : de_DeletionTimestamp env = None;
  build_once : NoDup (map part_name parts);
  build_apart : forall st st', st ∈ parts -> st' ∈ parts -> target (k:=k) st <> source st';
  build_sound : sound (k:=k) (de_Status env) k;
  build_valid : valid k;
  build_matches : default [] (spec_IstioMatches (de_Spec env)) <> [];
  build_parts : Forall part_buildable parts;
}.

(** Built: all is there but that the deployments may have to come up. *)
Definition part_made st : Prop := exists base d hash,
  let h := deployment_handler r k base st in
  based k (stt_Subset st) base /\ sn_deployments k (searchName h) = Some d /\
  Hash (stt_Subset st) = Ok hash /\ recorded_hash (k:=k) h = Some hash /\
  (stt_Type st = SUBSET -> exists hosts, routing_in_place r k (stt_Subset st) base hosts).
Record made : Prop := mkMade {
  made_buildable : buildable;
  made_finalizers : de_Finalizers env <> [];
  made_wire : wire_status (de_Status env) = de_Status env;
  made_parts : Forall part_made parts;
}.
End buildable.

(** What stands while the rules grow in number and the virtual services get
    routes to a version that is nobody's default here. *)
Record keeps (r : DynamicEnvReconciler) (k : snapshot) (version : string) (x : snapshot) : Prop := mkKeeps {
  keep_bases : forall st, st ∈ mergeSubsetsAndConsumers (spec_Subsets (de_Spec (sn_env k))) (spec_Consumers (de_Spec (sn_env k))) ->
    sn_deployments x (source st) = sn_deployments k (source st);
  keep_rules : forall n d, sn_rules k n = Some d -> sn_rules x n = Some d;
  keep_services : forall ns, sn_services x ns = sn_services k ns;
  keep_items : Forall2 (edited version) (sn_virtualservices k) (sn_virtualservices x);
  keep_defaults : forall s, mkSubsetType SUBSET s ∈ mergeSubsetsAndConsumers (spec_Subsets (de_Spec (sn_env k))) (spec_Consumers (de_Spec (sn_env k))) ->
    default_version r s <> version;
}.
Section keeps.
Context `{RoutePrinter} `{SubsetHash} `{LabelSets} (r : DynamicEnvReconciler) (k : snapshot) (version : string) (x : snapshot).
Local Abbreviation env := (sn_env k).
Local Abbreviation parts := (mergeSubsetsAndConsumers (spec_Subsets (de_Spec env)) (spec_Consumers (de_Spec env))).
Implicit Types (s : DynamicEnvStatus) (o : opaque) (st : SubsetType) (y : Subset) (base : Deployment) (hosts : list string).
Context (Hkeep : keeps r k version x).
Local Abbreviation now s o := (at_env (live (k:=k) s o) x).
Lemma keeps_served s o y base hosts : served_under k y base hosts -> served_under (now s o) y base hosts.
Proof. intros (services & Hm & Hrest). exists services. split; [|done]. cbn. by rewrite (keep_services _ _ _ _ Hkeep). Qed.
Lemma keeps_valid : valid k -> valid x.
Proof. exact (edited_valid version (keep_items _ _ _ _ Hkeep)). Qed.
Lemma keeps_buildable s o : buildable r k -> sound (k:=k) s x -> buildable r (now s o).
Proof.
  intros [Ha Ho Hap _ Hv Hm Hp] Hs. split; [exact Ha|exact Ho|exact Hap| |by apply keeps_valid|exact Hm|].
  { destruct Hs as [Hk Hl Hw]. by split. }
  rewrite Forall_forall in *. intros st Hst. change (st ∈ parts) in Hst.
  destruct (Hp st Hst) as (base & hash & Hb & Hd & Hh & Hr & Hrout). exists base, hash.
  split; [unfold based; cbn; change (mkNN _ _) with (source st); by rewrite (keep_bases _ _ _ _ Hkeep)|].
  split; [done|]. split; [done|]. split; [done|]. intros Ht. destruct (Hrout Ht) as (hosts & [Hserved Hdef Hrules Hhosts]).
  exists hosts. split; [by apply keeps_served|exact Hdef| |].
  - eapply Forall_impl; [exact Hrules|]. intros sh [[d Hd']|(n & d & Hd' & Hrest)].
    + left. exists d. by apply (keep_rules _ _ _ _ Hkeep).
    + right. exists n, d. split; [by apply (keep_rules _ _ _ _ Hkeep)|done].
  - assert (Hdef' : default_version r (stt_Subset st) <> version).
    { apply (keep_defaults _ _ _ _ Hkeep). rewrite <- Ht. by destruct st. }
    eapply Forall_impl; [exact Hhosts|]. intros sh Hsh.
    destruct (host_ready_edited version k x (service_handler r k base (stt_Subset st) hosts) sh (keep_items _ _ _ _ Hkeep) Hv Hdef' Hsh). by split.
Qed.
End keeps.

(** What a run for the environment of [k] leaves alone: other deployments, the
    rules that are there, services, and the virtual services but for routes to
    its version. *)
Record spares (k x : snapshot) : Prop := mkSpares {
  spare_deployments : forall n,
    (forall st, st ∈ mergeSubsetsAndConsumers (spec_Subsets (de_Spec (sn_env k))) (spec_Consumers (de_Spec (sn_env k))) ->
      n <> target (k:=k) st) -> sn_deployments x n = sn_deployments k n;
  spare_rules : forall n d, sn_rules k n = Some d -> sn_rules x n = Some d;
  spare_services : forall ns, sn_services x ns = sn_services k ns;
  spare_items : Forall2 (edited (UniqueDynamicEnvName (de_nn (sn_env k)))) (sn_virtualservices k) (sn_virtualservices x);
}.
Lemma grows_spares `{RoutePrinter} `{SubsetHash} (r : DynamicEnvReconciler) (k : snapshot) s s' x : grows (r:=r) (k:=k) s k s' x -> spares k x.
Proof. intros Hg. split; apply Hg. Qed.

(** The deployments come up; nothing else changes. *)
Record comes_up (k k' : snapshot) : Prop := mkComesUp {
  up_env : sn_env k' = sn_env k;
  up_deployments : forall n d, sn_deployments k n = Some d -> exists d', sn_deployments k' n = Some d' /\
    dp_Spec d' = dp_Spec d /\ deployment_lifecycle false (dp_Conditions d') = Running;
  up_rules : forall n, sn_rules k' n = sn_rules k n;
  up_services : forall ns, sn_services k' ns = sn_services k ns;
  up_items : sn_virtualservices k' = sn_virtualservices k;
}.

(** Then everything is in place. *)
Section up.
Context `{RoutePrinter} `{SubsetHash} `{LabelSets} (r : DynamicEnvReconciler) (k k' : snapshot) (Hup : comes_up k k').
Lemma part_up st : part_made r k st -> part_in_place r k' st.
Proof.
  destruct Hup as [Henv Hd' Hrules Hservices Hits]. destruct k' as [de deps rules services its].
  cbn in Henv, Hd', Hrules, Hservices, Hits. subst de its. intros (base & d & hash & Hbase & Hd & Hh & Hrec & Hrout).
  destruct (Hd' _ _ Hbase) as (base' & Hbase' & Hspec & _). destruct (Hd' _ _ Hd) as (d' & Hd1 & _ & Hrun).
  exists base', d', hash. split; [exact Hbase'|]. split; [exact Hd1|]. split; [done|]. split; [done|]. split; [exact Hrec|].
  intros Ht. destruct (Hrout Ht) as (hosts & [(svs & Hm & Hrest) Hr Hp]). exists hosts. split; [| |exact Hp].
  - exists svs. split; [|done]. cbn. by rewrite Hservices, Hspec.
  - eapply Forall_impl; [exact Hr|]. intros sh [dr Hdr]. exists dr. cbn. by rewrite Hrules.
Qed.
Lemma in_place_made st : part_in_place r k st -> part_made r k st.
Proof. intros (base & d & hash & Hb & Hd & _ & Hrest). by exists base, d, hash. Qed.
Lemma made_comes_up : made r k -> in_place r k'.
Proof.
  intros [[Ha Ho _ Hs Hv _ _] Hfin Hwire Hparts]. split; rewrite ?(up_env _ _ Hup), ?(up_items _ _ Hup); try done.
  - apply (sound_known _ _ Hs).
  - pose proof (sound_listed _ _ Hs) as Hl. unfold listed_once in *. by destruct (sn_env k).
  - eapply Forall_impl; [exact Hparts|]. apply part_up.
Qed.
Lemma in_place_up : in_place r k -> in_place r k'.
Proof.
  intros [Ha Hfin Ho Hk Hl Hw Hv Hparts]. split; rewrite ?(up_env _ _ Hup), ?(up_items _ _ Hup); try done.
  eapply Forall_impl; [exact Hparts|]. intros st Hst. by apply part_up, in_place_made.
Qed.
End up.

Section converge.
Context {W : Type} `{Client W} `{MapOrder} `{RoutePrinter} `{SubsetHash} `{LabelSets}.
Context (r : DynamicEnvReconciler) {P : snapshot -> W -> Prop} `{!Stores P} {k : snapshot}.
Local Abbreviation env := (sn_env k).
Local Abbreviation parts := (mergeSubsetsAndConsumers (spec_Subsets (de_Spec env)) (spec_Consumers (de_Spec env))).
Local Abbreviation version := (UniqueDynamicEnvName (de_nn env)).
Local Abbreviation live := (live (k:=k)).
Local Abbreviation now s o x := (at_env (live s o) x).
Local Abbreviation items x := (sn_virtualservices x).
Local Abbreviation sound := (sound (k:=k)).
Local Abbreviation grows := (grows (r:=r) (k:=k)).
Local Abbreviation stored := (stored (P:=P) (k:=k)).
Local Abbreviation stage := (stage (P:=P) (k:=k)).
Local Abbreviation builds := (builds (r:=r) (P:=P) (k:=k)).
#[local] Existing Instance stored_reads.
Implicit Types (s : DynamicEnvStatus) (o : opaque) (x : snapshot) (st : SubsetType) (y : Subset) (base : Deployment) (hosts : list string).
Context (Hbuild : buildable r k).

(** The base deployments are nobody's target. *)
Lemma keeps_bases s x st : grows (de_Status env) k s x -> st ∈ parts ->
  sn_deployments x (source st) = sn_deployments k (source st).
Proof. intros Hg Hst. apply (grow_others _ _ _ _ Hg). intros st' Hst' E. by apply (build_apart _ _ Hbuild st' st). Qed.

(** *** Statuses of what was built *)
Definition larger x x' : Prop := grows (de_Status env) x (de_Status env) x'.
Lemma grows_larger s x s' x' : grows s x s' x' -> larger x x'.
Proof. by intros []. Qed.
Lemma larger_trans x1 x2 x3 : larger x1 x2 -> larger x2 x3 -> larger x1 x3.
Proof. apply grows_trans. Qed.
(** From [x] on, the status of the handler can be told and recorded. *)
Definition sr_ok x (srh : SRHandler W) : Prop := forall s x', larger x x' -> sound s x' ->
  builds s x' (sr_GetStatus srh) (fun res s' x2 => (s' = s /\ x2 = x') /\ exists rs, res = Ok rs /\ rs <> zero_ResourceStatus) /\
  forall rs, rs <> zero_ResourceStatus -> builds s x' (sr_ApplyStatus srh rs) (fun e _ x2 => e = None /\ x2 = x').
Definition mr_ok x (mrh : MRHandler W) : Prop := forall s x', larger x x' -> sound s x' ->
  builds s x' (mr_GetStatus mrh) (fun res s' x2 => (s' = s /\ x2 = x') /\ exists l, res = Ok l) /\
  forall l, builds s x' (mr_ApplyStatus mrh l) (fun e _ x2 => e = None /\ x2 = x').
Lemma sr_ok_larger x x' srh : larger x x' -> sr_ok x srh -> sr_ok x' srh.
Proof. intros Hl Hok s x2 Hl2. apply Hok. by eapply larger_trans. Qed.
Lemma mr_ok_larger x x' mrh : larger x x' -> mr_ok x mrh -> mr_ok x' mrh.
Proof. intros Hl Hok s x2 Hl2. apply Hok. by eapply larger_trans. Qed.

Lemma deployment_ok x st base b : st ∈ parts -> is_Some (sn_deployments x (target (k:=k) st)) ->
  sr_ok x (DeploymentHandler_SR (dh_set_Updating b (deployment_handler r k base st))).
Proof.
  intros Hst Hd s x' Hl Hs. split; cbn [DeploymentHandler_SR sr_GetStatus sr_ApplyStatus].
  - destruct (grow_deployments _ _ _ _ Hl _ Hd) as [d Hd']. unfold DeploymentHandler_GetStatus. cbv zeta.
    apply (builds_read _ _ _ (Ok d)); [done|intros o w; by apply (shows_deployment (P:=stored o x') (k:=now s o x'))|].
    apply builds_ret. split; [done|]. eexists. split; [done|]. intros [= E _ _]. by apply unique_name_nonempty in E.
  - intros rs Hrs. unfold DeploymentHandler_ApplyStatus. eapply builds_mono; [apply builds_AddDeployment; [done| |done]|].
    + by apply (list_elem_of_fmap_2 part_name parts st).
    + by intros e s' x2 _ _ (-> & -> & _).
Qed.
Lemma rules_ok x (drh : DestinationRuleHandler) :
  drh_SubsetName drh ∈ map part_name parts -> Forall (rule_there (k:=x) drh) (drh_ServiceHosts drh) ->
  mr_ok x (DestinationRuleHandler_MR drh).
Proof.
  intros Hn Hall s x' Hl Hs. split; cbn [DestinationRuleHandler_MR mr_GetStatus mr_ApplyStatus].
  - eapply builds_mono; [apply builds_quiet; intros o|by intros res s' x2 _ _ (Hres & -> & ->); split; [|exact Hres]].
    eapply quietly_mono; [apply (quietly_get_statuses (k:=now s o x'))|intros ? <-; by eexists].
    eapply Forall_impl; [exact Hall|]. intros sh. exact (rule_there_grows _ _ _ _ drh sh Hl).
  - intros l. revert s Hs. induction l as [|rs l IH]; intros s Hs; cbn [DestinationRuleHandler_ApplyStatus]; [by apply builds_ret|].
    eapply builds_bind; [by apply builds_AddRule|]. intros ? s' ? _ Hs' [-> ->]. by apply IH.
Qed.
Lemma services_ok x (h : VirtualServiceHandler) :
  vh_SubsetName h ∈ map part_name parts -> knows x (vh_virtualServices h) -> mr_ok x (VirtualServiceHandler_MR h).
Proof.
  intros Hn Hk s x' Hl Hs. split; cbn [VirtualServiceHandler_MR mr_GetStatus mr_ApplyStatus].
  - eapply builds_mono; [apply builds_quiet; intros o|by intros res s' x2 _ _ (Hres & -> & ->); split; [|exact Hres]].
    unfold VirtualServiceHandler_GetStatus. eapply quietly_bind; [apply (quietly_fetch_services (k:=now s o x') (fun _ => True))|].
    + intros nn (l & (sh & <- & _)%in_map_iff & Hin)%list_elem_of_In%in_concat. apply list_elem_of_In in Hin.
      destruct (vh_virtualServices h !! sh) as [nns|] eqn:E; simpl in Hin; [|by apply elem_of_nil in Hin].
      destruct (knows_grows _ _ _ _ _ Hl Hk sh nns nn E Hin) as (v & Hv & ->). by exists v.
    + intros ? (vs & -> & _). apply quietly_ret. by eexists.
  - intros l. revert s Hs. induction l as [|rs l IH]; intros s Hs; cbn [VirtualServiceHandler_ApplyStatus]; [by apply builds_ret|].
    eapply builds_bind; [by apply builds_AddService|]. intros ? s' ? _ Hs' [-> ->]. by apply IH.
Qed.

(** *** The loop *)
(** What [routing_in_place] and [part_in_place] say, but for the deployments'
    running; in terms of the environment as it was at the start. *)
Definition routing_built x y base hosts : Prop :=
  served_under k y base hosts /\ default_version r y <> version /\
  Forall (rule_there (k:=x) (rule_handler r k base y hosts)) hosts /\
  Forall (host_in_place (items x) (service_handler r k base y hosts)) hosts.
Definition part_built s x st : Prop :=
  hashed s st /\ is_Some (sn_deployments x (target (k:=k) st)) /\
  (stt_Type st = SUBSET -> exists base hosts, based k (stt_Subset st) base /\ routing_built x (stt_Subset st) base hosts).
Lemma part_built_grows s x s' x' st : grows s x s' x' -> valid x -> st ∈ parts -> part_built s x st -> part_built s' x' st.
Proof.
  intros Hg Hv Hst (Hh & Hd & Hr). split; [by apply (grow_hashed _ _ _ _ Hg)|]. split; [by apply (grow_deployments _ _ _ _ Hg)|].
  intros Ht. destruct (Hr Ht) as (base & hosts & Hb & Hs & Hdef & Hrules & Hhosts). exists base, hosts.
  split; [done|]. split; [done|]. split; [done|]. split.
  - eapply Forall_impl; [exact Hrules|]. intros sh. exact (rule_there_grows _ _ _ _ _ sh Hg).
  - eapply Forall_impl; [exact Hhosts|]. intros sh. by apply (host_in_place_grows (r:=r) (k:=k) s x s' x').
Qed.
Lemma routes_here_service st base hosts : st ∈ parts -> stt_Type st = SUBSET -> default_version r (stt_Subset st) <> version ->
  routes_here (r:=r) (k:=k) (service_handler r k base (stt_Subset st) hosts).
Proof.
  intros Hst Ht Hd. split; [done|done|exact (build_matches _ _ Hbuild)|by apply (list_elem_of_fmap_2 part_name parts st)|].
  exists (stt_Subset st). split; [rewrite <- Ht; by destruct st|]. by exists hosts, [], ∅.
Qed.
Lemma builds_routing s x y base hosts rls :
  grows (de_Status env) k s x -> sound s x -> mkSubsetType SUBSET y ∈ parts -> routing_buildable r k y base hosts ->
  builds s x (process_routing r (subset_data k base y) hosts rls) (fun res s' x' =>
    res.1 = rls /\ Forall (mr_ok x') res.2 /\ routing_built x' y base hosts).
Proof.
  intros Hg Hs Hy [Hserved Hdef Hrules Hhosts]. pose proof (served_some _ _ _ Hserved) as Hne.
  assert (Hname : MKSubsetName y ∈ map part_name parts) by exact (list_elem_of_fmap_2 part_name parts _ Hy).
  unfold process_routing. cbv zeta. cbn [rd_Subset].
  eapply builds_bind; [apply (builds_rules s x (rule_handler r k base y hosts)); [done|exact Hname|done|exact Hne|]|].
  { eapply Forall_impl; [exact Hrules|]. intros sh. exact (rule_ready_grows _ _ _ _ _ sh Hg). }
  intros ? s1 x1 Hg1 Hs1 [-> Hthere]. cbv beta iota.
  pose proof (valid_grows _ _ _ _ Hg (build_valid _ _ Hbuild)) as Hv. pose proof (grows_trans _ _ _ _ _ _ Hg Hg1) as Hg01.
  eapply builds_bind; [apply (builds_services s1 x1 (service_handler r k base y hosts)); [done| | |done|exact Hne|]|].
  { exact (valid_grows _ _ _ _ Hg1 Hv). }
  { exact (routes_here_service (mkSubsetType SUBSET y) base hosts Hy eq_refl Hdef). }
  { eapply Forall_impl; [exact Hhosts|]. intros sh. apply (host_ready_grows _ _ _ _ _ _ Hg01); [apply (build_valid _ _ Hbuild)|exact Hdef]. }
  intros ? s2 x2 Hg2 Hs2 [(vss & -> & Hk) Hplace]. cbv beta iota.
  change (DestinationRuleHandler_GetHosts _) with hosts. change (VirtualServiceHandler_GetHosts _) with hosts.
  rewrite common_host by done. apply builds_ret. split; [done|].
  assert (Hthere2 : Forall (rule_there (k:=x2) (rule_handler r k base y hosts)) hosts).
  { eapply Forall_impl; [exact Hthere|]. intros sh. exact (rule_there_grows _ _ _ _ _ sh Hg2). }
  split; [|by split_and!]. constructor; [by apply rules_ok|]. constructor; [by apply services_ok|constructor].
Qed.
Lemma builds_one s x st :
  grows (de_Status env) k s x -> sound s x -> st ∈ parts ->
  builds s x (process_one r (de_nn env) st zero_RLS) (fun res s' x' => exists srhs mrhs,
    res = (zero_RLS, srhs, mrhs) /\ Forall (sr_ok x') srhs /\ Forall (mr_ok x') mrhs /\ part_built s' x' st).
Proof.
  intros Hg Hs Hst. pose proof (build_parts _ _ Hbuild) as Hparts. rewrite Forall_forall in Hparts.
  destruct (Hparts st Hst) as (base & hash & Hbase & Hdep & Hh & Hrange & Hrout).
  unfold process_one. cbv zeta. apply (builds_read _ _ _ (Ok base)); [done| |].
  { intros o w. apply (shows_deployment (P:=stored o x) (k:=now s o x)). cbn.
    change (sn_deployments x (source st) = Some base). by rewrite (keeps_bases s x st Hg Hst). }
  apply builds_get_de. intros o. change (de_Spec (live s o)) with (de_Spec env).
  change (mkReconcileData _ _ _ _) with (subset_data k base (stt_Subset st)). revert o.
  match goal with |- forall o, builds_at o _ _ ?m ?Q => change (builds s x m Q) end.
  eapply builds_bind; [by apply (builds_deployment (build_once _ _ Hbuild) s x st base hash)|].
  intros ? s1 x1 Hg1 Hs1 ([b ->] & Hhashed & Hd). cbv beta iota.
  assert (Hsr : forall x', larger x1 x' -> Forall (sr_ok x') [DeploymentHandler_SR (dh_set_Updating b (deployment_handler r k base st))]).
  { intros x' Hl. constructor; [|constructor]. by apply (sr_ok_larger x1), deployment_ok. }
  destruct st as [[] y]; cbn [stt_Type stt_Subset] in *.
  2: { apply builds_ret. do 2 eexists. split; [done|]. split; [apply Hsr, grows_refl|]. split; [constructor|]. by split_and!. }
  destruct (Hrout eq_refl) as [hosts Hrouting]. pose proof (grows_trans _ _ _ _ _ _ Hg Hg1) as Hg01.
  assert (Hhosts : forall o, quietly (stored o x1) (live s1 o)
    (locateMatchingServiceHostnames (s_Namespace y) (pt_Labels (ds_Template (dp_Spec base)))) (eq (Ok hosts))).
  { intros o. apply (quietly_hosts (k:=now s1 o x1)). destruct (build_served _ _ _ _ _ Hrouting) as (services & Hm & Hrest).
    exists services. split; [|done]. cbn. by rewrite (grow_services _ _ _ _ Hg01). }
  eapply builds_quiet_bind; [exact Hhosts|]. intros ? <-. cbv beta iota.
  eapply builds_bind; [by apply (builds_routing s1 x1 y base hosts zero_RLS)|].
  intros [rls mhs] s2 x2 Hg2 Hs2 (Hrls & Hmr & Hbuilt). cbn [fst snd] in *. subst rls. apply builds_ret.
  do 2 eexists. split; [done|]. split; [by apply Hsr; eapply grows_larger|]. split; [done|].
  split; [by apply (grow_hashed _ _ _ _ Hg2)|]. split; [by apply (grow_deployments _ _ _ _ Hg2)|]. intros _. by exists base, hosts.
Qed.
Lemma builds_each s x sts0 sts srhs mrhs :
  grows (de_Status env) k s x -> sound s x -> sts0 ++ sts ⊆ parts -> Forall (part_built s x) sts0 ->
  Forall (sr_ok x) srhs -> Forall (mr_ok x) mrhs ->
  builds s x (process_each r (de_nn env) sts zero_RLS srhs mrhs) (fun res s' x' => exists srhs mrhs,
    res = (zero_RLS, srhs, mrhs) /\ Forall (sr_ok x') srhs /\ Forall (mr_ok x') mrhs /\ Forall (part_built s' x') (sts0 ++ sts)).
Proof.
  revert s x sts0 srhs mrhs. induction sts as [|st sts IH]; intros s x sts0 srhs mrhs Hg Hs Hsub Hbuilt Hsr Hmr; cbn [process_each].
  { apply builds_ret. exists srhs, mrhs. by rewrite app_nil_r. }
  eapply builds_bind; [apply (builds_one s x st Hg Hs)|].
  { apply Hsub, elem_of_app. right. by left. }
  intros ? s1 x1 Hg1 Hs1 (srhs1 & mrhs1 & -> & Hsr1 & Hmr1 & Hst). cbv beta iota. pose proof (grows_larger _ _ _ _ Hg1) as Hl.
  rewrite app_snoc_cons. apply IH; [by eapply grows_trans|done|by rewrite <- app_snoc_cons| | |].
  - apply Forall_app. split; [|by apply Forall_singleton]. rewrite Forall_forall in Hbuilt. apply Forall_forall. intros st' Hst'.
    apply (part_built_grows s x); [done|by eapply valid_grows, (build_valid r)|apply Hsub, elem_of_app; by left|by apply Hbuilt].
  - apply Forall_app. split; [|done]. eapply Forall_impl; [exact Hsr|]. intros h. by apply sr_ok_larger.
  - apply Forall_app. split; [|done]. eapply Forall_impl; [exact Hmr|]. intros h. by apply mr_ok_larger.
Qed.

(** *** The statuses *)
Lemma builds_process_sr s x srhs p : sound s x -> Forall (sr_ok x) srhs ->
  builds s x (process_sr srhs p None) (fun res _ x' => res.2 = None /\ x' = x).
Proof.
  intros Hs Hall. revert s Hs p. induction Hall as [|srh srhs Hok _ IH]; intros s Hs p; cbn [process_sr]; [by apply builds_ret|].
  cbv zeta. destruct (Hok s x (grows_refl _ _) Hs) as [Hget _]. eapply builds_bind; [exact Hget|].
  intros ? ? ? _ _ ((-> & ->) & rs & -> & Hrs). destruct (Hok s x (grows_refl _ _) Hs) as [_ Happly].
  eapply builds_bind; [by apply Happly|]. intros ? s1 ? _ Hs1 [-> ->]. by apply IH.
Qed.
Lemma builds_process_mr s x mrhs p : sound s x -> Forall (mr_ok x) mrhs ->
  builds s x (process_mr mrhs p None) (fun res _ x' => res.2 = None /\ x' = x).
Proof.
  intros Hs Hall. revert s Hs p. induction Hall as [|mrh mrhs Hok _ IH]; intros s Hs p; cbn [process_mr]; [by apply builds_ret|].
  cbv zeta. destruct (Hok s x (grows_refl _ _) Hs) as [Hget Happly]. eapply builds_bind; [exact Hget|].
  intros ? ? ? _ _ ((-> & ->) & l & ->). eapply builds_bind; [by apply Happly|]. intros ? s1 ? _ Hs1 [-> ->]. by apply IH.
Qed.
Lemma builds_statuses s x srhs mrhs : sound s x -> Forall (sr_ok x) srhs -> Forall (mr_ok x) mrhs ->
  builds s x (processHandlersStatus srhs mrhs) (fun res _ x' => res.2 = None /\ x' = x).
Proof.
  intros Hs Hsr Hmr. unfold processHandlersStatus. eapply builds_bind; [by apply builds_process_sr|].
  intros [p e] s1 ? _ Hs1 [He ->]. simpl in He. subst e. cbv beta iota. eapply builds_bind; [by apply builds_process_mr|].
  intros [p1 e] s2 ? _ _ [He ->]. simpl in He. subst e. by apply builds_ret.
Qed.

(** *** The end of the run *)
Definition run_end (c : ctx W) : Prop := exists s o x,
  P (now s o x) (cx_world c) /\ wire_status s = s /\ sound s x /\ grows (de_Status env) k s x /\ Forall (part_built s x) parts.
Lemma wp_quiet_step {A B} s o x (m : M W A) (f : A -> M W B) (Q : A -> Prop) R (c : ctx W) :
  stage s o x c -> quietly (stored o x) (live s o) m Q -> (forall a c', Q a -> stage s o x c' -> wp (f a) R c') ->
  wp (m ≫= f) R c.
Proof.
  intros (Hs & Hde & Hw) Hm Hf. apply wp_bind. eapply wp_mono; [|by apply Hm]. intros a c' (HQ & Hw' & Hde' & _).
  apply Hf; [done|]. by split.
Qed.
Lemma wp_conclude_builds s o x total p (c : ctx W) :
  stage s o x c -> grows (de_Status env) k s x -> Forall (part_built s x) parts ->
  wp (conclude total zero_RLS p false) (fun res c' => res.2 = None /\ run_end c') c.
Proof.
  intros Hc Hg Hbuilt. unfold conclude. eapply wp_quiet_step; [exact Hc|by apply (quietly_range _ _ _ (fun _ => True))|].
  intros l c1 _ Hc1. cbv zeta. eapply (wp_quiet_step _ _ _ _ _ (eq tt)); [exact Hc1| |].
  { unfold SyncSubsetMessagesToStatus. apply quietly_range_empty. by apply quietly_ret. }
  intros ? c2 _ Hc2. eapply (wp_quiet_step _ _ _ _ _ (eq tt)); [exact Hc2| |].
  { unfold SyncConsumerMessagesToStatus. apply quietly_range_empty. by apply quietly_ret. }
  intros ? c3 _ (Hs & Hde & Hw). apply wp_bind. unfold SetGlobalState at 1.
  apply wp_bind, wp_get_de, wp_bind, wp_put_de. rewrite Hde.
  set (s1 := mkDynamicEnvStatus _ _ _ _ _). assert (Hsame : same_entries s s1) by done.
  apply (wp_store (P:=P) (k:=k) s1 o x); [split; [by eapply same_sound|done]|]. intros o' c' Hc' HP.
  assert (Hend : run_end c').
  { exists (wire_status s1), o', x. split; [done|]. split; [apply wire_idemp|]. split; [apply Hc'|].
    assert (Hh : forall st, hashed s st -> hashed (wire_status s1) st).
    { intros st (hash & Hh & Ha). apply hashed_wire. exists hash. by rewrite (same_hash s s1 st Hsame). }
    split; [eapply grows_trans; [exact Hg|apply grows_status; intros st _; apply Hh]|].
    eapply Forall_impl; [exact Hbuilt|]. intros st (Hst & Hrest). split; [by apply Hh|done]. }
  cbv zeta. destruct (_ && _); [by apply wp_ret|]. by apply wp_ret.
Qed.

(** *** The run *)
Lemma stage_start (c : ctx W) : P k (cx_world c) -> cx_de c = env -> stage (de_Status env) (de_other env) k c.
Proof.
  intros HP Hde. split; [apply (build_sound _ _ Hbuild)|]. split; [by rewrite Hde, <- live_start|].
  exists (de_Status env). rewrite <- live_start. by destruct k.
Qed.
Lemma wp_live_builds (c : ctx W) :
  P k (cx_world c) -> cx_de c = env -> wp (reconcile_live r) (fun res c' => res.2 = None /\ run_end c') c.
Proof.
  intros HP Hde. pose proof (stage_start c HP Hde) as Hc. unfold reconcile_live. apply wp_bind, wp_get_de. rewrite Hde. cbv zeta.
  eapply wp_quiet_step; [exact Hc|apply (quietly_cleanup (k:=now (de_Status env) (de_other env) k))|].
  { intros name Hn. apply (sound_known _ _ (build_sound _ _ Hbuild)). exact Hn. }
  intros ? c1 <- Hc1. cbv beta iota. apply wp_bind. unfold processSubsetsAndConsumers. apply wp_bind, wp_get_de.
  pose proof Hc1 as (_ & -> & _). change (de_nn (live _ _)) with (de_nn env). change (de_Spec (live _ _)) with (de_Spec env).
  eapply wp_mono; [|eapply (builds_each (de_Status env) k [] parts [] []); [apply grows_refl|apply Hc1|done|constructor..|exact Hc1]].
  intros ? c2 (s2 & o2 & x2 & (srhs & mrhs & -> & Hsr & Hmr & Hbuilt) & Hg2 & Hc2). cbv beta iota zeta.
  apply wp_bind. eapply wp_mono; [|eapply builds_statuses; [apply Hc2|exact Hsr|exact Hmr|exact Hc2]].
  intros [p err] c3 (s3 & o3 & x3 & [He ->] & Hg3 & Hc3). simpl in He. subst err. cbv beta iota zeta.
  eapply wp_conclude_builds; [exact Hc3|by eapply grows_trans|].
  rewrite Forall_forall in Hbuilt. apply Forall_forall. intros st Hst.
  apply (part_built_grows s2 x2); [done|exact (valid_grows _ _ _ _ Hg2 (build_valid _ _ Hbuild))|done|by apply Hbuilt].
Qed.

(** What is there then. *)
Lemma own_keeps s x : grows (de_Status env) k s x -> keeps r k version x.
Proof.
  intros Hg. split; [by intros st; apply (keeps_bases s x st)|apply Hg..|].
  intros y Hy. pose proof (build_parts _ _ Hbuild) as Hparts. rewrite Forall_forall in Hparts.
  destruct (Hparts _ Hy) as (base & hash & _ & _ & _ & _ & Hrout). destruct (Hrout eq_refl) as [hosts [_ Hdef _ _]]. exact Hdef.
Qed.
Lemma built_made s o x :
  de_Finalizers env <> [] -> wire_status s = s -> sound s x -> grows (de_Status env) k s x -> Forall (part_built s x) parts ->
  made r (now s o x).
Proof.
  intros Hfin Hwire Hs Hg Hbuilt. pose proof (own_keeps s x Hg) as Hkeep. split; [by apply (keeps_buildable r k version x)|done|done|].
  pose proof (build_parts _ _ Hbuild) as Hparts. rewrite Forall_forall in *. intros st Hst. change (st ∈ parts) in Hst.
  destruct (Hparts st Hst) as (base & _ & Hbase & _). destruct (Hbuilt st Hst) as ((hash & Hh & Ha) & [d Hd] & Hrout).
  exists base, d, hash. split; [unfold based; cbn; change (mkNN _ _) with (source st); by rewrite (keeps_bases s x st Hg Hst)|].
  split; [exact Hd|]. split; [done|]. split; [exact Ha|].
  intros Ht. destruct (Hrout Ht) as (base0 & hosts & Hb0 & Hserved & _ & Hr & Hp).
  assert (base0 = base) as -> by by eapply based_fun. exists hosts. split; [|exact Hr|exact Hp].
  by apply (keeps_served r k version x).
Qed.
End converge.

(** New metadata and finalizers do not matter. *)
Lemma buildable_stamp `{RoutePrinter} `{SubsetHash} `{LabelSets} (r : DynamicEnvReconciler) (k : snapshot) (f : list string) (o : opaque) :
  buildable r k -> buildable r (at_env (stamp o (set_Finalizers f (sn_env k))) k).
Proof.
  intros [Ha Ho Hap Hs Hv Hm Hp]. split; [exact Ha|exact Ho|exact Hap| |exact Hv|exact Hm|].
  - destruct Hs as [Hk Hl Hw]. by split.
  - eapply Forall_impl; [exact Hp|]. intros st (base & hash & Hb & Hd & Hh & Hr & Hrout). exists base, hash.
    split_and!; try done; try apply Hr. intros Ht. destruct (Hrout Ht) as (hosts & [Hserved Hdef Hrules Hhosts]). exists hosts.
    split; [exact Hserved|exact Hdef|exact Hrules|]. eapply Forall_impl; [exact Hhosts|]. intros sh [? ? ?]. by split.
Qed.

(** Environments that ask for the same under the same name. *)
Definition same_wish (de de' : DynamicEnv) : Prop := de_nn de' = de_nn de /\ de_Spec de' = de_Spec de.
#[export] Instance same_wish_equiv : Equivalence same_wish.
Proof. unfold same_wish. split; [by intros de|by intros de de' []|]. intros d1 d2 d3 [] []. split; congruence. Qed.
Lemma told_wish `{RoutePrinter} r de de' vs : same_wish de de' -> told r de vs -> told r de' vs.
Proof.
  intros [Hn Hs] [Hd Hp Hh Hr]. assert (He : subset_handler r de' = subset_handler r de) by (unfold subset_handler; by rewrite Hn, Hs).
  split; rewrite ?He, ?Hn, ?Hs; done.
Qed.

Section run.
Context {W : Type} `{Client W} `{MapOrder} `{RoutePrinter} `{SubsetHash} `{LabelSets}.
Context (r : DynamicEnvReconciler) (P : snapshot -> W -> Prop) `{!Stores P}.
(** What a run makes of the cluster: the environment's own is built, the rest of
    the cluster stands, and routes that could be told apart still can. *)
Definition built_of (k k1 : snapshot) : Prop :=
  same_wish (sn_env k) (sn_env k1) /\ made r k1 /\ spares k k1 /\
  Forall2 (marked (UniqueDynamicEnvName (de_nn (sn_env k)))) (sn_virtualservices k) (sn_virtualservices k1) /\
  (told r (sn_env k) (sn_virtualservices k) -> told r (sn_env k1) (sn_virtualservices k1)).
Lemma wp_live_built (k : snapshot) (c : ctx W) :
  buildable r k -> de_Finalizers (sn_env k) <> [] -> P k (cx_world c) -> cx_de c = sn_env k ->
  wp (reconcile_live r) (fun res c' => res.2 = None /\ exists k1, P k1 (cx_world c') /\ built_of k k1) c.
Proof.
  intros Hb Hfin HP Hde. eapply wp_mono; [|by apply (wp_live_builds r (P:=P) (k:=k) Hb c)].
  intros res c' [Hres (s & o & x & HP' & Hw & Hs & Hg & Hall)]. split; [done|]. eexists. split; [exact HP'|].
  split; [done|]. split; [by apply built_made|]. split; [by destruct (grows_spares _ _ _ _ _ Hg)|].
  split; [exact (grow_marked _ _ _ _ Hg)|]. intros Ht.
  apply (told_wish r (sn_env k)); [done|]. exact (grow_told _ _ _ _ Hg (build_valid _ _ Hb) Ht).
Qed.
Lemma wp_Reconcile_builds (k : snapshot) (c : ctx W) :
  buildable r k -> P k (cx_world c) ->
  wp (Reconcile r (de_nn (sn_env k))) (fun res c' => res.2 = None /\ exists k1, P k1 (cx_world c') /\ built_of k k1) c.
Proof.
  intros Hb HP. unfold Reconcile. apply wp_bind, wp_call. intros a w E.
  destruct (shows_env (P:=P k) (k:=k) (cx_world c) HP) as (w' & E' & HP'). rewrite E in E'. injection E' as -> ->.
  apply wp_bind, wp_put_de. unfold markedForDeletion. rewrite (build_alive _ _ Hb), bool_decide_eq_false_2 by by intros [].
  apply wp_bind. unfold ensureFinalizers. apply wp_bind, wp_get_de. cbn [cx_de]. case_decide as Hfin.
  2: { apply wp_ret. apply wp_live_built; [done|by intros E'; rewrite E' in Hfin|done|done]. }
  set (finalizers := [_; _; _]). apply wp_bind, wp_put_de, wp_bind. unfold update_de. apply wp_bind, wp_get_de, wp_bind, wp_call. cbn [cx_de cx_world].
  intros a w2 E2. destruct (stores_finalizers (P:=P) k finalizers w' HP') as (o & w2' & E2' & HP2). rewrite E2 in E2'. injection E2' as -> ->. apply wp_bind, wp_put_de, wp_ret, wp_ret. cbn [fmap option_fmap option_map].
  eapply wp_mono; [|by apply (wp_live_built _ _ (buildable_stamp r k finalizers o Hb))].
  intros res c' (Hres & k1 & HP1 & Hsame & Hmade & [A1 A2 A3 A4] & Hmarked & Ht). split; [done|]. exists k1.
  split; [done|]. split; [exact Hsame|]. split; [done|]. split; [by split|]. split; [exact Hmarked|].
  intros Htold. apply Ht. by apply (told_wish r (sn_env k)).
Qed.
#[local] Instance serves_stores (k : snapshot) : Serves (fun de => P (at_env de k)) k.
Proof.
  split.
  - intros de. apply stores_answers.
  - intros de s w HP. exact (stores_status (P:=P) (at_env de k) s w HP).
  - intros de w HP Hw. exact (stores_no_change (P:=P) (at_env de k) w HP Hw).
Qed.
End run.

(** C5.  The operator converges.  Take an environment that can be built: its parts
    have names of their own and base deployments that can be copied, and for the
    subsets there are services, rules of the default version and virtual services
    that route to it; the status may be empty.  Against a server that stores what
    it is sent, one run succeeds; once the deployments have come up, the next run
    reports ready and asks for no other, and the environment is at rest from then
    on, however many runs follow, in any map order: its deployments run, with the
    hash of their subsets recorded, every host has a rule of the name looked for,
    and every virtual service found for a host has some route with the subset's
    prefix.  If moreover its routes could be told from others at the start (no
    subset's prefix extends another's, and virtual services had all routes of a
    subset or none, for one host each), then in the end no route of these
    virtual services to a default version lacks its copies, one for each match. *)
Theorem Reconcile_converges {W} `{Client W} `{MapOrder} `{RoutePrinter} `{SubsetHash} `{LabelSets}
    (P : snapshot -> W -> Prop) (k : snapshot) (r : DynamicEnvReconciler) (n : nat) (c : ctx W)
    (Hstores : Stores P) (Hbuild : buildable r k) (HP : P k (cx_world c)) :
  wp (Reconcile r (de_nn (sn_env k))) (fun res c1 => res.2 = None /\
      exists k1, P k1 (cx_world c1) /\
      forall k2 c2, comes_up k1 k2 -> P k2 (cx_world c2) ->
        wp (Reconcile_times r (de_nn (sn_env k)) (S n)) (fun answers c3 =>
            answers = replicate (S n) (zero_Result, None) /\
            exists k3, P k3 (cx_world c3) /\ at_rest r k3 /\ de_Spec (sn_env k3) = de_Spec (sn_env k) /\
              (told r (sn_env k) (sn_virtualservices k) -> routed r k3)) c2) c.
Proof.
  eapply wp_mono; [|by apply (wp_Reconcile_builds r P k c)]. intros res c1 (Hres & k1 & HP1 & [Hnn Hspec] & Hmade & _ & _ & Ht).
  split; [done|]. exists k1. split; [done|]. intros k2 c2 Hup HP2. pose proof (up_env _ _ Hup) as Henv. rewrite <- Henv in Hnn, Hspec.
  pose proof (made_comes_up r k1 k2 Hup Hmade) as Hplace.
  rewrite <- Hnn. eapply wp_mono.
  2: { apply (wp_Reconcile_times_settles (fun de => P (at_env de k2)) k2 r n c2 (serves_stores P k2) Hplace).
       by destruct k2. }
  intros answers c3 (-> & s & o & Hrest & HP3 & _). split; [done|]. eexists. split; [exact HP3|]. split; [exact Hrest|].
  split; [exact Hspec|]. intros Htold%Ht. apply told_all_routed; [apply Hrest|].
  rewrite <- Henv, <- (up_items _ _ Hup) in Htold. by apply (told_wish r (sn_env k2)).
Qed.

(** ** A server that keeps lists *)
Module Registry.
Record registry := mkRegistry {
  g_envs : gmap NamespacedName DynamicEnv;
  g_deployments : list Deployment;
  g_rules : list DestinationRule;
  g_services : list Service;
  g_virtualservices : list VirtualService;
}.
Fixpoint find_by {A} (key : A -> NamespacedName) (n : NamespacedName) (l : list A) : option A :=
  match l with [] => None | a :: l => if decide (n = key a) then Some a else find_by key n l end.
Definition fetched {A} (n : NamespacedName) (a : option A) : result error A :=
  match a with Some a => Ok a | None => Err (not_found n) end.
Definition conflict : error := StatusErr Conflict "the object has been modified".
Definition exists_already : error := StatusErr (OtherReason "AlreadyExists") "already exists".
Definition next (version : opaque) : opaque := version +:+ "'".
Definition g_set_env n de g := mkRegistry (<[n := de]> (g_envs g)) (g_deployments g) (g_rules g) (g_services g) (g_virtualservices g).
Definition g_set_deployments l g := mkRegistry (g_envs g) l (g_rules g) (g_services g) (g_virtualservices g).
Definition g_set_rules l g := mkRegistry (g_envs g) (g_deployments g) l (g_services g) (g_virtualservices g).
Definition g_set_virtualservices l g := mkRegistry (g_envs g) (g_deployments g) (g_rules g) (g_services g) l.

(** An update of an environment must come from the version that is stored. *)
Definition store_env (de : DynamicEnv) (change : DynamicEnv -> DynamicEnv) (g : registry) : result error DynamicEnv * registry :=
  match g_envs g !! de_nn de with
  | Some de0 =>
      if decide (de_other de = de_other de0) then
        let de' := change de0 in
        let stored := if decide (de' = de0) then de' else stamp (next (de_other de)) de' in
        (Ok stored, g_set_env (de_nn de) stored g)
      else (Err conflict, g)
  | None => (Err (not_found (de_nn de)), g)
  end.
Definition registry_exec {R} (q : req R) (g : registry) : R * registry :=
  match q in req R return R * registry with
  | GetDynamicEnv n => (fetched n (g_envs g !! n), g)
  | GetDeployment n => (fetched n (find_by dp_key n (g_deployments g)), g)
  | GetDestinationRule n => (fetched n (find_by dr_key n (g_rules g)), g)
  | GetVirtualService n => (fetched n (snd <$> list_find (fun v => vs_nn v = n) (g_virtualservices g)), g)
  | ListServices ns => (Ok (filter (fun s => sv_Namespace s = ns) (g_services g)), g)
  | ListDestinationRules ns => (Ok (filter (fun d => dr_Namespace d = ns) (g_rules g)), g)
  | ListVirtualServices => (Ok (g_virtualservices g), g)
  | ListDynamicEnvs => (Ok (map_to_list (g_envs g)).*2, g)
  | CreateDeployment d =>
      match find_by dp_key (dp_key d) (g_deployments g) with
      | Some _ => (Some exists_already, g)
      | None => (None, g_set_deployments (d :: g_deployments g) g)
      end
  | UpdateDeployment d =>
      match find_by dp_key (dp_key d) (g_deployments g) with
      | Some _ => (None, g_set_deployments (d :: g_deployments g) g)
      | None => (Some (not_found (dp_key d)), g)
      end
  | CreateDestinationRule d =>
      match find_by dr_key (dr_key d) (g_rules g) with
      | Some _ => (Some exists_already, g)
      | None => (None, g_set_rules (d :: g_rules g) g)
      end
  | UpdateVirtualService v =>
      match list_find (fun v0 => vs_nn v0 = vs_nn v) (g_virtualservices g) with
      | Some (i, v0) =>
          if decide (vs_other v = vs_other v0) then
            let v' := vs_stamp (next (vs_other v)) v in
            (Ok v', g_set_virtualservices (<[i := v']> (g_virtualservices g)) g)
          else (Err conflict, g)
      | None => (Err (not_found (vs_nn v)), g)
      end
  | UpdateDynamicEnv de => store_env de (fun de0 => set_Status (de_Status de0) de) g
  | UpdateDynamicEnvStatus de => store_env de (set_Status (wire_status (de_Status de))) g
  | DeleteDeployment d =>
      (None, g_set_deployments (filter (fun d0 => dp_key d0 <> dp_key d) (g_deployments g)) g)
  | DeleteDestinationRule d => (None, g_set_rules (filter (fun d0 => dr_key d0 <> dr_key d) (g_rules g)) g)
  | Now => (0%Z, g)
  end.
Definition client : Client registry := @registry_exec.
#[export] Existing Instance client.

Definition shown (g : registry) (de : DynamicEnv) : snapshot :=
  mkSnapshot de (fun n => find_by dp_key n (g_deployments g)) (fun n => find_by dr_key n (g_rules g))
    (fun ns => filter (fun s => sv_Namespace s = ns) (g_services g)) (g_virtualservices g).
(** The cluster is what the lists hold; no two virtual services share a name. *)
Definition keeps_envs (envs : gmap NamespacedName DynamicEnv) (k : snapshot) (g : registry) : Prop :=
  g_envs g = envs /\ k = shown g (sn_env k) /\ NoDup (map vs_nn (g_virtualservices g)).
(** Among the others, the environment of [k]. *)
Definition holds_among (envs : gmap NamespacedName DynamicEnv) (k : snapshot) : registry -> Prop :=
  keeps_envs (<[de_nn (sn_env k) := sn_env k]> envs) k.
Definition holds : snapshot -> registry -> Prop := holds_among ∅.

Lemma find_named g i v : NoDup (map vs_nn (g_virtualservices g)) -> g_virtualservices g !! i = Some v ->
  list_find (fun v0 => vs_nn v0 = vs_nn v) (g_virtualservices g) = Some (i, v).
Proof.
  intros Hnd Hi. apply list_find_Some. split; [done|]. split; [done|]. intros j v' Hj Hlt Hn.
  assert (j = i); [|lia]. eapply (NoDup_lookup _ j i (vs_nn v) Hnd); rewrite list_lookup_fmap; [by rewrite Hj, <- Hn|by rewrite Hi].
Qed.
Lemma find_by_in {A} (key : A -> NamespacedName) n a l : find_by key n l = Some a -> a ∈ l /\ n = key a.
Proof.
  induction l as [|a' l IH]; simpl; [done|]. case_decide as Hn; [intros [= ->]; by split; [left|]|].
  intros [Ha ?]%IH. by split; [right|].
Qed.
Lemma find_by_none {A} (key : A -> NamespacedName) n a l : find_by key n l = None -> a ∈ l -> key a <> n.
Proof.
  induction l as [|a' l IH]; simpl; [by intros _ ?%elem_of_nil|]. case_decide; [done|].
  intros Hn [->|Hin]%elem_of_cons; [by intros <-|by apply IH].
Qed.
Lemma find_by_map {A} (key : A -> NamespacedName) n (m : gmap NamespacedName A) :
  map_Forall (fun n a => key a = n) m -> find_by key n (map_to_list m).*2 = m !! n.
Proof.
  intros Hkey. destruct (find_by key n _) as [a|] eqn:E.
  - apply find_by_in in E as [((i & a') & -> & Hi%elem_of_map_to_list)%list_elem_of_fmap ->]. simpl in *. by rewrite (Hkey _ _ Hi).
  - destruct (m !! n) as [a|] eqn:Hn; [|done]. exfalso. eapply (find_by_none key n a); [exact E| |by apply Hkey].
    apply list_elem_of_fmap. exists (n, a). split; [done|]. by apply elem_of_map_to_list.
Qed.
Section server.
Context (others : gmap NamespacedName DynamicEnv).
Local Abbreviation holds := (holds_among others).
Lemma holds_inv k g : holds k g -> exists de, k = shown g de /\ g_envs g = <[de_nn de := de]> others /\
  NoDup (map vs_nn (g_virtualservices g)).
Proof. intros (He & Hk & Hnd). by exists (sn_env k). Qed.
Lemma holds_answers k : Answers (holds k) k.
Proof.
  split; [split|].
  - intros n d g Hd (de & -> & He & Hnd)%holds_inv. exists g. split; [|done]. cbn in *. by rewrite Hd.
  - intros n d g Hd (de & -> & He & Hnd)%holds_inv. exists g. split; [|done]. cbn in *. by rewrite Hd.
  - intros ns g (de & -> & He & Hnd)%holds_inv. by exists g.
  - intros g (de & -> & He & Hnd)%holds_inv. by exists g.
  - intros v g [i Hi]%list_elem_of_lookup (de & -> & He & Hnd)%holds_inv. exists g. split; [|done]. cbn in *. by rewrite (find_named g i v).
  - intros g (de & -> & He & Hnd)%holds_inv. exists g. split; [|done]. cbn. by rewrite He, lookup_insert_eq.
Qed.
(** Storing the environment again, changed. *)
Lemma holds_env g de (de1 : DynamicEnv) (change : DynamicEnv -> DynamicEnv) :
  g_envs g = <[de_nn de := de]> others -> NoDup (map vs_nn (g_virtualservices g)) ->
  de_nn de1 = de_nn de -> de_other de1 = de_other de -> de_nn (change de) = de_nn de -> exists o w',
  store_env de1 change g = (Ok (stamp o (change de)), w') /\ holds (at_env (stamp o (change de)) (shown g de)) w' /\
  (change de = de -> stamp o (change de) = de).
Proof.
  intros He Hnd Hn Ho Hc. unfold store_env. rewrite Hn, He, lookup_insert_eq, decide_True by done.
  assert (Hsame : stamp (de_other (change de)) (change de) = change de) by by destruct (change de).
  case_decide as Hd; [exists (de_other (change de))|exists (next (de_other de1))]; rewrite ?Hsame; eexists; (split; [done|]);
    (split; [|by intros ?]); (split; [|done]); cbn; rewrite He, insert_insert_eq; by rewrite <- Hc.
Qed.
Lemma holds_stores : Stores holds.
Proof.
  split.
  - apply holds_answers.
  - intros k n g (de & -> & He & Hnd)%holds_inv Hn. exists (not_found n), g. cbn in *. by rewrite Hn.
  - intros k n g (de & -> & He & Hnd)%holds_inv Hn. exists (not_found n), g. cbn in *. by rewrite Hn.
  - intros k ns g (de & -> & He & Hnd)%holds_inv. do 2 eexists. split; [done|]. split; [done|]. intros n d [Hd ->]%find_by_in Hns.
    by apply list_elem_of_filter.
  - intros k d g (de & -> & He & Hnd)%holds_inv Hn. exists d. eexists. cbn in *. rewrite Hn. done.
  - intros k d g (de & -> & He & Hnd)%holds_inv [d0 Hn]. exists d. eexists. cbn in *. rewrite Hn. done.
  - intros k d g (de & -> & He & Hnd)%holds_inv Hn. exists d. eexists. cbn in *. rewrite Hn. done.
  - intros k i v0 v g (de & -> & He & Hnd)%holds_inv Hi Hn Ho. exists (next (vs_other v)). eexists. cbn in *. rewrite Hn, (find_named g i v0) by done.
    rewrite decide_True by done. split; [done|]. split; [done|]. split; [done|]. cbn. rewrite list_fmap_insert. cbn.
    change (vs_nn (vs_stamp _ v)) with (vs_nn v). rewrite Hn, list_insert_id; [done|]. by rewrite list_lookup_fmap, Hi.
  - intros k s g (de & -> & He & Hnd)%holds_inv. cbn.
    destruct (holds_env g de (set_Status s de) (set_Status (wire_status s)) He Hnd) as (o & w' & E & Hw' & _); [done..|].
    by exists o, w'.
  - intros k g (de & -> & He & Hnd)%holds_inv Hw. cbn in *.
    destruct (holds_env g de de (set_Status (wire_status (de_Status de))) He Hnd) as (o & w' & E & Hw' & Hsame); [done..|].
    rewrite Hw in *. assert (Hde : set_Status (de_Status de) de = de) by by destruct de. rewrite (Hsame Hde) in *. by exists w'.
  - intros k f g (de & -> & He & Hnd)%holds_inv. cbn.
    destruct (holds_env g de (set_Finalizers f de) (fun de0 => set_Status (de_Status de0) (set_Finalizers f de)) He Hnd)
      as (o & w' & E & Hw' & _); [done..|].
    assert (Hde : set_Status (de_Status de) (set_Finalizers f de) = set_Finalizers f de) by by destruct de.
    rewrite Hde in *. by exists o, w'.
Qed.
End server.

(** The pods of every deployment come up. *)
Definition up_deployment (d : Deployment) : Deployment :=
  mkDeployment (dp_Name d) (dp_Namespace d) (dp_Labels d) (dp_Annotations d) (dp_Spec d)
    [mkDeploymentCondition "Progressing" "True" 1 "NewReplicaSetAvailable"] (dp_other d).
Definition up (g : registry) : registry := g_set_deployments (map up_deployment (g_deployments g)) g.
Lemma find_up n l : find_by dp_key n (map up_deployment l) = up_deployment <$> find_by dp_key n l.
Proof. induction l as [|d l IH]; simpl; [done|]. rewrite IH. change (dp_key (up_deployment d)) with (dp_key d). by case_decide. Qed.
Lemma up_comes_up g de : comes_up (shown g de) (shown (up g) de).
Proof. split; try done. intros n d Hd. cbn in *. exists (up_deployment d). by rewrite find_up, Hd. Qed.
End Registry.

(** Two environments with a subset and a consumer each, nothing of theirs there yet. *)
Module ConvergeExample.
Import Registry.
#[local] Existing Instance ReconcileExample.labels.
#[local] Existing Instance DeploymentExample.hash.
#[local] Existing Instance RoutingExample.printer.
Definition begun : registry :=
  mkRegistry {[ de_nn RestExample.env := RestExample.env ]} [DeploymentExample.base; RestExample.base_worker] [RuleExample.rule]
    [mkService "reviews" "default" (Some {[ "app" := "reviews" ]})] [RoutingExample.service].
Definition other : DynamicEnv :=
  mkDynamicEnv "other" "default" [] None
    (mkDynamicEnvSpec (Some [RoutingExample.match_user "maria"]) [DeploymentExample.subset] [RestExample.worker])
    zero_DynamicEnvStatus "".
(** The cluster as either sees it. *)
Definition seen (mine : bool) : snapshot := shown begun (if mine then RestExample.env else other).
Definition k : snapshot := seen true.
Definition parts : list SubsetType := [mkSubsetType SUBSET DeploymentExample.subset; mkSubsetType CONSUMER RestExample.worker].
Lemma parts_cases st : st ∈ parts -> st = mkSubsetType SUBSET DeploymentExample.subset \/ st = mkSubsetType CONSUMER RestExample.worker.
Proof. by intros [->|[->|[]%elem_of_nil]%elem_of_cons]%elem_of_cons; [left|right]. Qed.
Ltac compute_bool := apply (bool_decide_unpack _); vm_compute; exact I.
Lemma named overrides cs : Forall (fun co => co_ContainerName co ∈ map c_Name cs) overrides -> names_containers overrides cs.
Proof. rewrite Forall_forall. done. Qed.
Lemma example_deployable st base : (st, base) ∈ zip parts (g_deployments begun) -> deployable st base.
Proof.
  intros [[= -> ->]|[[= -> ->]|[]%elem_of_nil]%elem_of_cons]%elem_of_cons;
    (split; [split_and!; eexists; reflexivity|split; apply named; compute_bool]).
Qed.
Lemma listed_service mine v : v ∈ sn_virtualservices (seen mine) -> v = RoutingExample.service.
Proof. apply list_elem_of_singleton. Qed.
Lemma example_host mine : host_ready (seen mine)
  (service_handler StaticCluster.reconciler (seen mine) DeploymentExample.base DeploymentExample.subset ["reviews"]) "reviews".
Proof.
  split.
  - intros service rt d ->%listed_service _ ->%list_elem_of_singleton [=].
  - exists RoutingExample.service, 0. split; [done|]. exists 0, RoutingExample.service. split; [done|].
    split; [exists "reviews"; split; [by left|vm_compute; reflexivity]|]. exists true, [].
    split; [vm_compute; reflexivity|by left].
  - intros v (i & Hi & _). apply list_elem_of_lookup_2, listed_service in Hi as ->. right. vm_compute. reflexivity.
Qed.
Lemma example_routing mine : routing_buildable StaticCluster.reconciler (seen mine) DeploymentExample.subset DeploymentExample.base ["reviews"].
Proof.
  split.
  - eexists. split; [vm_compute; reflexivity|]. split; [done|vm_compute; reflexivity].
  - destruct mine; vm_compute; discriminate.
  - apply Forall_singleton. right. exists (dr_key RuleExample.rule), RuleExample.rule. by split_and!.
  - apply Forall_singleton, example_host.
Qed.
Lemma example_parts mine st : st ∈ parts -> part_buildable StaticCluster.reconciler (seen mine) st.
Proof.
  intros [-> | ->]%parts_cases.
  - exists DeploymentExample.base, 7%Z. split; [reflexivity|]. split; [apply example_deployable; by left|].
    split; [reflexivity|]. split; [lia|]. intros _. exists ["reviews"]. apply example_routing.
  - exists RestExample.base_worker, 6%Z. split; [reflexivity|]. split; [apply example_deployable; right; by left|].
    split; [reflexivity|]. split; [lia|]. intros [=].
Qed.
Lemma example_sound mine : sound (k:=seen mine) zero_DynamicEnvStatus (seen mine).
Proof.
  split; [by intros name [[? [=]]|[? [=]]]|by intros name st [=]|]. intros st Hst. assert (Hin : st ∈ parts) by by destruct mine.
  revert Hin. intros [-> | ->]%parts_cases; destruct mine; by intros [d [=]].
Qed.
Lemma example_buildable mine : buildable StaticCluster.reconciler (seen mine).
Proof.
  pose proof (example_sound mine) as Hs. pose proof (fun st => example_parts mine st) as Hp. rewrite <- Forall_forall in Hp.
  destruct mine; (split; [reflexivity|compute_bool| |exact Hs|apply Forall_singleton; compute_bool|vm_compute; discriminate|exact Hp]);
    intros st st' [-> | ->]%parts_cases [-> | ->]%parts_cases; vm_compute; discriminate.
Qed.
Lemma example_one_host mine h sh i : vh_Namespace h = "default" -> found_at (sn_virtualservices (seen mine)) h sh i -> sh = "reviews".
Proof.
  intros Hns (j & v & Hj & (host & Hhost & Hm) & _). apply list_elem_of_lookup_2, listed_service in Hj as ->.
  apply list_elem_of_singleton in Hhost as ->. apply MatchNamespacedHost_spec in Hm as [[<- _]|Hf]; [done|].
  apply (f_equal str_len) in Hf. rewrite Hns, !str_len_app in Hf. change (str_len "reviews") with 7 in Hf.
  change (str_len ".svc.cluster.local") with 18 in Hf. lia.
Qed.
(** The service has no routes of theirs yet. *)
Lemma example_told (mine : bool) : told StaticCluster.reconciler (if mine then RestExample.env else other) (sn_virtualservices (seen mine)).
Proof.
  assert (Hone : forall y, mkSubsetType SUBSET y ∈ parts -> y = DeploymentExample.subset) by by intros y [[= ->]|[=]]%parts_cases.
  assert (Hin : forall y, mkSubsetType SUBSET y ∈ mergeSubsetsAndConsumers
    (spec_Subsets (de_Spec (if mine then RestExample.env else other))) (spec_Consumers (de_Spec (if mine then RestExample.env else other))) ->
    y = DeploymentExample.subset) by by destruct mine.
  clear Hone. split.
  - intros y ->%Hin. destruct mine; vm_compute; discriminate.
  - intros y y' name ->%Hin ->%Hin Hne. by destruct Hne.
  - intros y sh sh' i ->%Hin Hf Hf'. transitivity "reviews"; [|symmetry]; by eapply (example_one_host mine); [|eassumption].
  - intros y sh v ->%Hin (i & Hi & _) Hc. exfalso. apply list_elem_of_lookup_2, listed_service in Hi as ->.
    revert Hc. destruct mine; vm_compute; discriminate.
Qed.
End ConvergeExample.

Lemma Reconcile_converges_witness :
  let k := ConvergeExample.k in
  wp (Reconcile (H:=Registry.client) (H1:=canonical_order) (H2:=RoutingExample.printer) (H3:=DeploymentExample.hash)
        (H4:=ReconcileExample.labels) StaticCluster.reconciler (de_nn (sn_env k))) (fun res c1 => res.2 = None /\
    exists k1, Registry.holds k1 (cx_world c1) /\
    forall k2 c2, comes_up k1 k2 -> Registry.holds k2 (cx_world c2) ->
      wp (Reconcile_times (H:=Registry.client) (H1:=canonical_order) (H2:=RoutingExample.printer) (H3:=DeploymentExample.hash)
            (H4:=ReconcileExample.labels) StaticCluster.reconciler (de_nn (sn_env k)) 3) (fun answers c3 =>
        answers = replicate 3 (zero_Result, None) /\
        exists k3, Registry.holds k3 (cx_world c3) /\
          at_rest (H:=DeploymentExample.hash) (H1:=ReconcileExample.labels) StaticCluster.reconciler k3 /\
          de_Spec (sn_env k3) = de_Spec (sn_env k) /\
          routed (H:=RoutingExample.printer) (H1:=ReconcileExample.labels) StaticCluster.reconciler k3) c2)
    (mkCtx ConvergeExample.begun example_de 0 1000 []).
Proof.
  intros k. eapply wp_mono.
  2: { apply (Reconcile_converges (H:=Registry.client) (H1:=canonical_order) (H2:=RoutingExample.printer) (H3:=DeploymentExample.hash)
         (H4:=ReconcileExample.labels) Registry.holds k StaticCluster.reconciler 2).
       - apply Registry.holds_stores.
       - exact (ConvergeExample.example_buildable true).
       - split; [reflexivity|]. split; [reflexivity|apply NoDup_singleton]. }
  intros res c1 (Hres & k1 & HP1 & Hnext). split; [exact Hres|]. exists k1. split; [exact HP1|].
  intros k2 c2 Hup HP2. eapply wp_mono; [|exact (Hnext k2 c2 Hup HP2)].
  intros answers c3 (Ha & k3 & HP3 & Hrest & Hspec & Hrouted). split; [exact Ha|]. exists k3. split_and!; try done.
  apply Hrouted. exact (ConvergeExample.example_told true).
Defined.
