(* ===== verification/Sharing.v ===== *)
(** * Sharing

    Several environments on one cluster.  A run for one leaves what another asks
    for as it is ([Converging]'s [spares]), so the operator, serving requests for
    all of them in any order while the deployments come up, builds every one of
    them and then brings every one to rest; where routes can be told apart, with
    all routes of each on the virtual services they share. *)

From stdpp Require Import base gmap sets list strings sorting.
From S2P Require Import Prelude GoStrings Sha256 K8s Types Helpers Watches Client FakeCluster StatusManager Model VirtualServiceHandler VirtualServiceRouting Locating DeploymentHandler DestinationRuleHandler CleanupManager Controller Totality Quiet AtRest Settling Editing Building Converging.

Abbreviation fleet := (gmap NamespacedName DynamicEnv).
Definition parts_of (de : DynamicEnv) : list SubsetType :=
  mergeSubsetsAndConsumers (spec_Subsets (de_Spec de)) (spec_Consumers (de_Spec de)).
(** The deployment that the operator makes for a part. *)
Definition own (de : DynamicEnv) (st : SubsetType) : NamespacedName :=
  mkNN (s_Namespace (stt_Subset st)) (MkSubsetUniqueName (s_Name (stt_Subset st)) (UniqueDynamicEnvName (de_nn de))).

(** The deployments of [de'] are not those of [de], nor their bases, and its
    version is nobody's default in [de]. *)
Record apart (r : DynamicEnvReconciler) (de de' : DynamicEnv) : Prop := mkApart {
  apart_own : forall st st', st ∈ parts_of de -> st' ∈ parts_of de' -> own de st <> own de' st';
  apart_bases : forall st st', st ∈ parts_of de -> st' ∈ parts_of de' -> source st <> own de' st';
  apart_defaults : forall s, mkSubsetType SUBSET s ∈ parts_of de -> default_version r s <> UniqueDynamicEnvName (de_nn de');
}.
#[export] Instance apart_proper r : Proper (same_wish ==> same_wish ==> iff) (apart r).
Proof.
  enough (Hone : forall d1 d1' d2 d2', same_wish d1 d1' -> same_wish d2 d2' -> apart r d1 d2 -> apart r d1' d2').
  { intros d1 d1' Hs1 d2 d2' Hs2. split; apply Hone; by try symmetry. }
  intros d1 d1' d2 d2' [Hn1 Hs1] [Hn2 Hs2] [Ho Hb Hd]. unfold parts_of, own in *.
  split; unfold parts_of, own; rewrite ?Hn1, ?Hs1, ?Hn2, ?Hs2; done.
Qed.

(** No route is named both for [env] and for a subset of [de]. *)
Definition told_apart (de env : DynamicEnv) : Prop := forall s name, mkSubsetType SUBSET s ∈ parts_of de ->
  HasPrefix name (CalculateVirtualServicePrefix (UniqueDynamicEnvName (de_nn env)) "") = true ->
  HasPrefix name (CalculateVirtualServicePrefix (UniqueDynamicEnvName (de_nn de)) (s_Name s)) = false.

(** ** What is left of an environment *)
Section left_.
Context `{SubsetHash} `{LabelSets} (r : DynamicEnvReconciler) (de : DynamicEnv).
Implicit Types (k x : snapshot).
Definition own_rule (st : SubsetType) (sh : string) : NamespacedName :=
  mkNN (s_Namespace (stt_Subset st)) (MkSubsetUniqueName (s_Name (stt_Subset st)) (UniqueDynamicEnvName (de_nn de)) +:+ "-" +:+ sh).
(** The deployments and rules of [de] and its bases are in [x] as in [k], and its
    hosts lead to the same virtual services, routed as they were. *)
Record leaves k x : Prop := mkLeaves {
  leave_own : forall st, st ∈ parts_of de -> sn_deployments x (own de st) = sn_deployments k (own de st);
  leave_bases : forall st, st ∈ parts_of de -> sn_deployments x (source st) = sn_deployments k (source st);
  leave_rules : forall st sh, st ∈ parts_of de -> is_Some (sn_rules k (own_rule st sh)) -> is_Some (sn_rules x (own_rule st sh));
  leave_services : forall ns, sn_services x ns = sn_services k ns;
  leave_valid : valid k -> valid x;
  leave_hosts : valid k -> forall s base hosts sh, mkSubsetType SUBSET s ∈ parts_of de ->
    let h := service_handler r (at_env de k) base s hosts in
    host_in_place (sn_virtualservices k) h sh -> host_in_place (sn_virtualservices x) h sh;
  leave_found : valid k -> forall s base hosts sh v, mkSubsetType SUBSET s ∈ parts_of de ->
    let h := service_handler r (at_env de k) base s hosts in
    found_for (sn_virtualservices x) h sh v -> exists v0, found_for (sn_virtualservices k) h sh v0 /\ vs_nn v = vs_nn v0;
}.
#[export] Instance leaves_preorder : PreOrder leaves.
Proof.
  split; [intros k; split; eauto|]. intros k1 k2 k3 [A1 A2 A3 A4 A5 A6 A7] [B1 B2 B3 B4 B5 B6 B7]. split.
  - intros st Hst. by rewrite B1, A1.
  - intros st Hst. by rewrite B2, A2.
  - auto.
  - intros ns. by rewrite B4, A4.
  - auto.
  - intros Hv s base hosts sh Hs h Hh. apply (B6 (A5 Hv) s base hosts sh Hs). by apply (A6 Hv s base hosts sh Hs).
  - intros Hv s base hosts sh v Hs h Hf. destruct (B7 (A5 Hv) s base hosts sh v Hs Hf) as (v1 & Hf1 & ->).
    exact (A7 Hv s base hosts sh v1 Hs Hf1).
Qed.

Context (k x : snapshot) (Hleave : leaves k x).
Local Abbreviation before := (at_env de k).
Local Abbreviation after := (at_env de x).
Lemma left_served y base hosts : served_under before y base hosts <-> served_under after y base hosts.
Proof.
  split; intros (services & Hm & Hrest); exists services; (split; [|done]); cbn in *; by rewrite (leave_services _ _ Hleave) in *.
Qed.
Lemma left_based st base : st ∈ parts_of de -> based before (stt_Subset st) base <-> based after (stt_Subset st) base.
Proof.
  intros Hst. pose proof (leave_bases _ _ Hleave st Hst) as E. unfold based. cbn. change (mkNN _ _) with (source st). by rewrite E.
Qed.
Lemma left_routing base st : valid k -> st ∈ parts_of de ->
  (stt_Type st = SUBSET -> exists hosts, routing_in_place r before (stt_Subset st) base hosts) ->
  stt_Type st = SUBSET -> exists hosts, routing_in_place r after (stt_Subset st) base hosts.
Proof.
  intros Hv Hst Hr Ht. destruct (Hr Ht) as [hosts [Hserved Hrules Hhosts]]. exists hosts.
  assert (Hy : mkSubsetType SUBSET (stt_Subset st) ∈ parts_of de) by (rewrite <- Ht; by destruct st). split.
  - by apply left_served.
  - eapply Forall_impl; [exact Hrules|]. intros sh. exact (leave_rules _ _ Hleave st sh Hst).
  - eapply Forall_impl; [exact Hhosts|]. intros sh. exact (leave_hosts _ _ Hleave Hv _ _ _ _ Hy).
Qed.
Lemma left_in_place : in_place r before -> in_place r after.
Proof.
  intros [Ha Hfin Ho Hk Hl Hw Hv Hparts]. split; try done; [exact (leave_valid _ _ Hleave Hv)|].
  rewrite Forall_forall in *. intros st Hst. destruct (Hparts st Hst) as (base & d & hash & Hbase & Hd & Hrun & Hh & Hrec & Hrout).
  exists base, d, hash. split; [by apply left_based|].
  split; [exact (eq_trans (leave_own _ _ Hleave st Hst) Hd)|]. split; [done|]. split; [done|]. split; [done|].
  by apply left_routing.
Qed.
Lemma left_wished rec : valid k -> wished r after rec -> wished r before rec.
Proof.
  intros Hv. intros [st base Hst Hb|y base hosts sh Hy Hb Hs Hsh|y base hosts sh v Hy Hb Hs Hsh Hf].
  - exact (wished_deployment r before st base Hst (proj2 (left_based st base Hst) Hb)).
  - exact (wished_rule r before y base hosts sh Hy (proj2 (left_based _ base Hy) Hb) (proj2 (left_served _ _ _) Hs) Hsh).
  - destruct (leave_found _ _ Hleave Hv y base hosts sh v Hy Hf) as (v0 & Hf0 & Hn). unfold vs_nn in Hn. injection Hn as -> ->.
    exact (wished_service r before y base hosts sh v0 Hy (proj2 (left_based _ base Hy) Hb) (proj2 (left_served _ _ _) Hs) Hsh Hf0).
Qed.
Lemma left_rest : at_rest r before -> at_rest r after.
Proof.
  intros [Hp Hrec Hst Htot Hready]. split; [by apply left_in_place|..]; try done.
  intros rec Hw. apply Hrec, left_wished; [exact (place_valid _ _ Hp)|done].
Qed.
End left_.

(** ** What another's run leaves *)
Section other.
Context `{RoutePrinter} `{SubsetHash} `{LabelSets} (r : DynamicEnvReconciler) (k x : snapshot) (de : DynamicEnv).
Context (Hspare : spares k x) (Hapart : apart r de (sn_env k)).
Local Abbreviation before := (at_env de k).
Local Abbreviation after := (at_env de x).
Lemma spared n st : st ∈ parts_of de -> n = own de st \/ n = source st -> sn_deployments x n = sn_deployments k n.
Proof.
  intros Hst Hn. apply (spare_deployments _ _ Hspare). intros st' Hst' E.
  destruct Hn as [-> | ->]; [exact (apart_own _ _ _ Hapart st st' Hst Hst' E)|exact (apart_bases _ _ _ Hapart st st' Hst Hst' E)].
Qed.
Lemma spares_leaves : leaves r de k x.
Proof.
  pose proof (spare_items _ _ Hspare) as He. split.
  - intros st Hst. apply (spared _ st Hst). by left.
  - intros st Hst. apply (spared _ st Hst). by right.
  - intros st sh _ [d Hd]. exists d. by apply (spare_rules _ _ Hspare).
  - apply Hspare.
  - exact (edited_valid _ He).
  - intros Hv s base hosts sh Hs h. apply (host_in_place_edited _ k x _ sh He Hv). exact (apart_defaults _ _ _ Hapart s Hs).
  - intros Hv s base hosts sh v Hs h (i & Hi & Hf). destruct (Forall2_lookup_r _ _ _ _ _ He Hi) as (v0 & Hi0 & Hn & _).
    exists v0. split; [|done]. exists i. split; [exact Hi0|]. refine (proj1 (edited_found _ He Hv h sh i _) Hf).
    exact (apart_defaults _ _ _ Hapart s Hs).
Qed.
Lemma other_keeps : keeps r before (UniqueDynamicEnvName (de_nn (sn_env k))) after.
Proof.
  split; cbn; [intros st Hst; apply (spared _ st Hst); by right|apply Hspare..|exact (apart_defaults _ _ _ Hapart)].
Qed.
Lemma other_sound s : sound (k:=before) s before -> sound (k:=before) s after.
Proof.
  intros [Hk Hl Ho]. split; [done|done|]. intros st Hst [d Hd]. apply (Ho st Hst). exists d. cbn in *.
  rewrite <- Hd. symmetry. exact (spared _ st Hst (or_introl eq_refl)).
Qed.
Lemma other_buildable : buildable r before -> buildable r after.
Proof.
  intros Hb. pose proof (keeps_buildable r before _ after other_keeps (de_Status (sn_env before)) (de_other (sn_env before)) Hb) as Hafter.
  rewrite <- live_start in Hafter. apply Hafter, other_sound, Hb.
Qed.
Lemma other_made : made r before -> made r after.
Proof.
  intros [Hb Hfin Hwire Hparts]. pose proof spares_leaves as Hl. split; [by apply other_buildable|done|done|].
  rewrite Forall_forall in *. intros st Hst. destruct (Hparts st Hst) as (base & d & hash & Hbase & Hd & Hh & Hrec & Hrout).
  exists base, d, hash. split; [by apply (left_based r de k x Hl)|].
  split; [exact (eq_trans (leave_own _ _ _ _ Hl st Hst) Hd)|]. split; [done|]. split; [done|].
  apply (left_routing r de k x Hl); [exact (build_valid _ _ Hb)|done|done].
Qed.
Lemma other_told : valid k -> told_apart de (sn_env k) ->
  Forall2 (marked (UniqueDynamicEnvName (de_nn (sn_env k)))) (sn_virtualservices k) (sn_virtualservices x) ->
  told r de (sn_virtualservices k) -> told r de (sn_virtualservices x).
Proof.
  intros Hv Hnames Hm. apply (told_other r de _ _ _ (spare_items _ _ Hspare) Hm Hv). intros y Hy.
  split; [exact (apart_defaults _ _ _ Hapart y Hy)|]. intros name. exact (Hnames y name Hy).
Qed.
End other.

(** ** What happens between runs *)
(** The deployments change as a rollout goes on: their conditions and metadata,
    neither their spec nor their labels. *)
Definition rolls (d d' : Deployment) : Prop := dp_Spec d' = dp_Spec d /\ dp_Labels d' = dp_Labels d.
Record moves (k k' : snapshot) : Prop := mkMoves {
  move_env : sn_env k' = sn_env k;
  move_deployments : forall n, option_Forall2 rolls (sn_deployments k n) (sn_deployments k' n);
  move_rules : forall n, sn_rules k' n = sn_rules k n;
  move_services : forall ns, sn_services k' ns = sn_services k ns;
  move_items : sn_virtualservices k' = sn_virtualservices k;
}.
Lemma move_some k k' n d : moves k k' -> sn_deployments k n = Some d -> exists d', sn_deployments k' n = Some d' /\ rolls d d'.
Proof. intros Hmove Hd. pose proof (move_deployments _ _ Hmove n) as Hn. rewrite Hd in Hn. inversion Hn; subst. eauto. Qed.
Section moves.
Context `{RoutePrinter} `{SubsetHash} `{LabelSets} (r : DynamicEnvReconciler) (k k' : snapshot).
Lemma moves_served y base base' hosts : moves k k' -> rolls base base' -> served_under k y base hosts -> served_under k' y base' hosts.
Proof.
  intros Hmove [Hspec _] (services & Hm & Hrest). exists services. split; [|done]. by rewrite (move_services _ _ Hmove), Hspec.
Qed.
Lemma moves_sound : moves k k' -> sound (k:=k) (de_Status (sn_env k)) k -> sound (k:=k') (de_Status (sn_env k')) k'.
Proof.
  intros Hmove [Hk Hl Hown]. destruct k' as [de deps rules services its]. pose proof (move_env _ _ Hmove) as Henv. cbn in Henv.
  subst de. split; [done|done|]. intros st Hst [d' Hd']. apply (Hown st Hst).
  pose proof (move_deployments _ _ Hmove (target (k:=k) st)) as Hn. cbn in Hn, Hd'.
  change (target st) with (target (k:=k) st) in Hd'. rewrite Hd' in Hn. inversion Hn; subst. by eexists.
Qed.
Lemma moves_routing y base base' hosts : moves k k' -> rolls base base' ->
  routing_buildable r k y base hosts -> routing_buildable r k' y base' hosts.
Proof.
  intros Hmove Hroll [Hserved Hdef Hready Hhosts]. pose proof (move_env _ _ Hmove) as Henv.
  split; [by eapply moves_served|by rewrite Henv|..].
  - unfold rule_handler, subset_data, rule_ready, default_rule, rule_there in *. rewrite Henv. eapply Forall_impl; [exact Hready|].
    intros sh. cbv beta. rewrite (move_rules _ _ Hmove). intros [?|(n & d & Hd & Hrest)]; [by left|right]. exists n, d.
    by rewrite (move_rules _ _ Hmove).
  - unfold service_handler, subset_data in *. rewrite Henv. eapply Forall_impl; [exact Hhosts|]. intros sh [Hd Hf Hr].
    split; rewrite (move_items _ _ Hmove); done.
Qed.
Lemma moves_buildable : moves k k' -> buildable r k -> buildable r k'.
Proof.
  intros Hmove [Ha Ho Hap Hs Hv Hm Hp]. pose proof (move_env _ _ Hmove) as Henv.
  split; [by rewrite Henv|by rewrite Henv| |by apply moves_sound| |by rewrite Henv|].
  - unfold target. rewrite Henv. exact Hap.
  - unfold valid. by rewrite (move_items _ _ Hmove).
  - rewrite Henv. eapply Forall_impl; [exact Hp|]. intros st (base & hash & Hbase & (Hover & Hc & Hi) & Hh & Hr & Hrout).
    destruct (move_some _ _ _ _ Hmove Hbase) as (base' & Hbase' & Hroll). pose proof Hroll as [Hspec Hlabels].
    exists base', hash. split; [exact Hbase'|]. split.
    { unfold deployable, overridable. rewrite Hspec, Hlabels. by split. }
    split; [done|]. split; [done|]. intros Ht. destruct (Hrout Ht) as (hosts & Hr'). exists hosts. by eapply moves_routing.
Qed.
Lemma moves_made : moves k k' -> made r k -> made r k'.
Proof.
  intros Hmove [Hb Hfin Hwire Hparts]. split; rewrite ?(move_env _ _ Hmove); [by apply moves_buildable|done|done|].
  eapply Forall_impl; [exact Hparts|]. intros st (base & d & hash & Hbase & Hd & Hh & Hrec & Hrout).
  destruct (move_some _ _ _ _ Hmove Hbase) as (base' & Hbase' & Hroll). destruct (move_some _ _ _ _ Hmove Hd) as (d' & Hd' & _).
  exists base', d', hash. unfold deployment_handler, recorded_hash, subset_data, based in *. rewrite (move_env _ _ Hmove).
  split; [done|]. split; [exact Hd'|]. split; [done|]. split; [exact Hrec|]. intros Ht.
  destruct (Hrout Ht) as (hosts & [Hserved Hrules Hhosts]). exists hosts. split; [by eapply moves_served| |].
  - unfold rule_handler, subset_data in *. rewrite (move_env _ _ Hmove). eapply Forall_impl; [exact Hrules|].
    intros sh. unfold rule_there. by rewrite (move_rules _ _ Hmove).
  - unfold service_handler, subset_data in *. by rewrite (move_env _ _ Hmove), (move_items _ _ Hmove).
Qed.
End moves.

(** Rest does not mind that deployments come up again. *)
Section rest_up.
Context `{SubsetHash} `{LabelSets} (r : DynamicEnvReconciler) (k k' : snapshot) (Hup : comes_up k k').
Lemma up_based y base' : is_Some (sn_deployments k (mkNN (s_Namespace y) (s_Name y))) -> based k' y base' ->
  exists base, based k y base /\ dp_Spec base' = dp_Spec base.
Proof.
  intros [base Hb] Hb'. exists base. split; [done|]. destruct (up_deployments _ _ Hup _ _ Hb) as (d & Hd & Hspec & _).
  unfold based in Hb'. rewrite Hb' in Hd. by injection Hd as ->.
Qed.
Lemma up_served y base base' hosts : dp_Spec base' = dp_Spec base -> served_under k' y base' hosts -> served_under k y base hosts.
Proof.
  intros Hspec (services & Hm & Hrest). exists services. split; [|done]. by rewrite <- (up_services _ _ Hup), <- Hspec.
Qed.
Lemma up_wished rec : in_place r k -> wished r k' rec -> wished r k rec.
Proof.
  intros Hp. assert (Hbase : forall st, st ∈ parts_of (sn_env k) ->
    is_Some (sn_deployments k (mkNN (s_Namespace (stt_Subset st)) (s_Name (stt_Subset st))))).
  { intros st Hst. pose proof (place_parts _ _ Hp) as Hall. rewrite Forall_forall in Hall.
    destruct (Hall st Hst) as (base & _ & _ & Hb & _). by exists base. }
  pose proof (up_env _ _ Hup) as Henv. intros [st base' Hst Hb'|y base' hosts sh Hy Hb' Hs Hsh|y base' hosts sh v Hy Hb' Hs Hsh Hf];
    rewrite Henv in *.
  - destruct (up_based _ _ (Hbase st Hst) Hb') as (base & Hb & Hspec). unfold deployment_handler, subset_data. rewrite Henv.
    exact (wished_deployment r k st base Hst Hb).
  - destruct (up_based _ _ (Hbase _ Hy) Hb') as (base & Hb & Hspec). unfold rule_handler, subset_data. rewrite Henv.
    exact (wished_rule r k y base hosts sh Hy Hb (up_served _ _ _ _ Hspec Hs) Hsh).
  - destruct (up_based _ _ (Hbase _ Hy) Hb') as (base & Hb & Hspec). unfold service_handler, subset_data in Hf.
    rewrite Henv, (up_items _ _ Hup) in Hf. exact (wished_service r k y base hosts sh v Hy Hb (up_served _ _ _ _ Hspec Hs) Hsh Hf).
Qed.
Lemma rest_up : at_rest r k -> at_rest r k'.
Proof.
  intros [Hp Hrec Hst Htot Hready]. split; rewrite ?(up_env _ _ Hup); try done; [by apply (in_place_up r k)|].
  intros rec Hw. by apply Hrec, up_wished.
Qed.
End rest_up.

(** ** A server with several environments *)
(** In the worlds of [P envs k] the environments are [envs] and the rest of the
    cluster is that of [k]; for each of the environments the server [Stores]. *)
Class Shares {W} `{Client W} (P : fleet -> snapshot -> W -> Prop) : Prop := {
  shares_stores :: forall envs, Stores (fun k => P (<[de_nn (sn_env k) := sn_env k]> envs) k);
  shares_any : forall envs de k w, P envs k w -> P envs (at_env de k) w;
}.

Section fleet.
Context {W : Type} `{Client W} `{MapOrder} `{RoutePrinter} `{SubsetHash} `{LabelSets}.
Context (P : fleet -> snapshot -> W -> Prop) (r : DynamicEnvReconciler).

(** What may happen to the cluster between two runs. *)
Definition moved (R : snapshot -> snapshot -> Prop) (c c' : ctx W) : Prop :=
  forall envs k, P envs k (cx_world c) -> exists k', R k k' /\ P envs k' (cx_world c').
(** The operator serves the requests one after another; whatever it is that
    happens in between, [Q] holds of the answers and at the end. *)
Fixpoint serving (R : snapshot -> snapshot -> Prop) (requests : list NamespacedName)
    (Q : list (Result * option error) -> ctx W -> Prop) (c : ctx W) : Prop :=
  match requests with
  | [] => Q [] c
  | req :: requests => wp (Reconcile r req) (fun answer c' =>
      forall c'', moved R c' c'' -> serving R requests (fun answers => Q (answer :: answers)) c'') c
  end.
Lemma serving_mono R requests (Q Q' : list (Result * option error) -> ctx W -> Prop) c :
  (forall answers c', Q answers c' -> Q' answers c') -> serving R requests Q c -> serving R requests Q' c.
Proof.
  revert Q Q' c. induction requests as [|req requests IH]; intros Q Q' c HQ; simpl; [apply HQ|]. intros Hr.
  eapply wp_mono; [|exact Hr]. intros answer c' Hrest c'' Hm. eapply IH; [|by apply Hrest]. intros answers c3. apply HQ.
Qed.
(** An invariant that knows which requests were served. *)
Lemma serving_inv R (I : list NamespacedName -> ctx W -> Prop) (G : Result * option error -> Prop) requests c :
  (forall done req c, req ∈ requests -> I done c -> wp (Reconcile r req) (fun answer c' =>
    G answer /\ forall c'', moved R c' c'' -> I (req :: done) c'') c) ->
  forall done, I done c -> serving R requests (fun answers c' => Forall G answers /\ length answers = length requests /\
    exists all, I all c' /\ done ⊆ all /\ requests ⊆ all) c.
Proof.
  intros Hstep. assert (Hsub : requests ⊆ requests) by done. revert Hsub.
  generalize requests at 1 3 4 5 as l. intros l. revert c. induction l as [|req l IH]; intros c Hl done HI; simpl.
  { split; [done|]. split; [done|]. exists done. split; [exact HI|]. split; [done|]. by intros ? ?%elem_of_nil. }
  eapply wp_mono; [|apply (Hstep done req c); [apply Hl; by left|exact HI]]. intros answer c' [Ha Hrest] c'' Hm.
  eapply serving_mono; [|apply (IH c'' (fun x Hx => Hl x (list_elem_of_further _ _ _ Hx)) (req :: done)); by apply Hrest].
  intros answers c3 (Hall & Hlen & all & HI3 & Hd & Hs). split; [by constructor|]. split; [simpl; by rewrite Hlen|].
  exists all. split; [done|]. clear -Hd Hs. set_solver.
Qed.

(** *** The fleet *)
Definition same_fleet (envs envs' : fleet) : Prop := forall n, option_Forall2 same_wish (envs !! n) (envs' !! n).
Context `{!Shares P} (envs0 : fleet).
Context (Hnamed : forall n de, envs0 !! n = Some de -> de_nn de = n).
Context (Hapart : forall n de n' de', envs0 !! n = Some de -> envs0 !! n' = Some de' -> n <> n' -> apart r de de').
Lemma fleet_one envs n : same_fleet envs0 envs -> n ∈ dom envs0 -> exists de, envs !! n = Some de /\ de_nn de = n.
Proof.
  intros Hs [de0 Hde0]%elem_of_dom. specialize (Hs n). rewrite Hde0 in Hs. inversion Hs as [? de [Hn _]|]; subst.
  exists de. split; [done|]. rewrite Hn. by apply Hnamed.
Qed.
Lemma fleet_apart envs n de n' de' : same_fleet envs0 envs -> envs !! n = Some de -> envs !! n' = Some de' -> n <> n' -> apart r de de'.
Proof.
  intros Hs Hde Hde' Hne. pose proof (Hs n) as Hn. pose proof (Hs n') as Hn'. rewrite Hde in Hn. rewrite Hde' in Hn'.
  inversion Hn as [de0 ? Hw E|]; inversion Hn' as [de0' ? Hw' E'|]; subst. rewrite <- Hw, <- Hw'. by apply (Hapart n de0 n' de0').
Qed.
Lemma fleet_update envs n de de' : same_fleet envs0 envs -> envs !! n = Some de -> same_wish de de' -> same_fleet envs0 (<[n := de']> envs).
Proof.
  intros Hs Hde Hw m. destruct (decide (m = n)) as [->|Hne]; [|by rewrite lookup_insert_ne].
  rewrite lookup_insert_eq. specialize (Hs n). rewrite Hde in Hs. inversion Hs as [? ? Hw0|]; subst. constructor. by etrans.
Qed.
(** At the start the routes of each could be told from others, those of the other
    environments included. *)
Context (k0 : snapshot).
Definition all_told : Prop :=
  (forall n de, envs0 !! n = Some de -> told r de (sn_virtualservices k0)) /\
  (forall n de n' de', envs0 !! n = Some de -> envs0 !! n' = Some de' -> n <> n' -> told_apart de de').
Lemma fleet_told_apart envs n de n' de' : all_told -> same_fleet envs0 envs -> envs !! n = Some de -> envs !! n' = Some de' ->
  n <> n' -> told_apart de de'.
Proof.
  intros [_ Ht] Hs Hde Hde' Hne. pose proof (Hs n) as Hn. pose proof (Hs n') as Hn'. rewrite Hde in Hn. rewrite Hde' in Hn'.
  inversion Hn as [de0 ? [Hnn Hspec] E|]; inversion Hn' as [de0' ? [Hnn' _] E'|]; subst.
  intros y name. unfold parts_of. rewrite Hnn, Hspec, Hnn'. by apply (Ht n de0 n' de0').
Qed.
(** The server as an environment sees it. *)
Local Abbreviation view envs := (fun k => P (<[de_nn (sn_env k) := sn_env k]> envs) k).
Lemma view_of envs k n de w : P envs k w -> envs !! n = Some de -> de_nn de = n -> view envs (at_env de k) w.
Proof. intros HP Hde Hn. cbn. rewrite Hn, insert_id by done. by apply shares_any. Qed.

(** Before the deployments are up, every environment can be built, and those
    that were served are. *)
Definition being_built (done : list NamespacedName) (c : ctx W) : Prop := exists envs k,
  P envs k (cx_world c) /\ same_fleet envs0 envs /\
  forall n de, envs !! n = Some de -> buildable r (at_env de k) /\ (n ∈ done -> made r (at_env de k)) /\
    (all_told -> told r de (sn_virtualservices k)).
Lemma built_step done req c : req ∈ dom envs0 -> being_built done c ->
  wp (Reconcile r req) (fun answer c' => answer.2 = None /\ forall c'', moved moves c' c'' -> being_built (req :: done) c'') c.
Proof.
  intros Hreq (envs & k & HP & Hs & Hall). destruct (fleet_one envs req Hs Hreq) as (de & Hde & <-).
  destruct (Hall _ de Hde) as (Hb & _ & Htold). pose proof (wp_Reconcile_builds r (view envs) (at_env de k) c Hb) as Hrun.
  eapply wp_mono; [|apply Hrun; exact (view_of envs k _ de _ HP Hde eq_refl)].
  intros answer c' (Ha & k1 & HP1 & Hsame & Hmade & Hspare & Hmarked & Ht1). split; [done|]. intros c'' Hmoved.
  destruct (Hmoved _ _ HP1) as (k2 & Hm & HP2). cbn in Hsame. pose proof Hsame as [Hnn _]. rewrite Hnn in HP2.
  exists (<[de_nn de := sn_env k1]> envs), k2. split; [done|]. split; [by eapply fleet_update|].
  intros n d Hd. assert (Hmd : forall e, moves (at_env e k1) (at_env e k2)) by (intros e; by destruct Hm).
  destruct (decide (n = de_nn de)) as [->|Hne].
  - rewrite lookup_insert_eq in Hd. injection Hd as <-. assert (Hk1 : k1 = at_env (sn_env k1) k1) by by destruct k1.
    rewrite Hk1 in Hmade at 1. assert (Hk2 : made r (at_env (sn_env k1) k2)) by by eapply moves_made.
    split; [exact (made_buildable _ _ Hk2)|]. split; [done|]. intros Hat. rewrite (move_items _ _ Hm). by apply Ht1, Htold.
  - rewrite lookup_insert_ne in Hd by done. destruct (Hall n d Hd) as [Hbd Hmd']. pose proof (fleet_apart _ _ _ _ _ Hs Hd Hde Hne) as Hap.
    destruct Hmd' as [Hmd' Htd].
    split; [by eapply moves_buildable, (other_buildable r (at_env de k) k1 d)|]. split.
    2: { intros Hat. rewrite (move_items _ _ Hm). apply (other_told r (at_env de k) k1 d Hspare Hap); [exact (build_valid _ _ Hb)| |exact Hmarked|by apply Htd].
         exact (fleet_told_apart _ _ _ _ _ Hat Hs Hd Hde Hne). }
    intros [->|Hin]%elem_of_cons; [done|]. eapply moves_made; [done|]. apply (other_made r (at_env de k) k1 d); [done..|by apply Hmd'].
Qed.
(** Afterwards, all of each is in place, and those that were served are at rest. *)
Definition settling (done : list NamespacedName) (c : ctx W) : Prop := exists envs k,
  P envs k (cx_world c) /\ same_fleet envs0 envs /\
  forall n de, envs !! n = Some de -> in_place r (at_env de k) /\ (n ∈ done -> at_rest r (at_env de k)) /\
    (all_told -> told r de (sn_virtualservices k)).
Lemma settle_step done req c : req ∈ dom envs0 -> settling done c ->
  wp (Reconcile r req) (fun answer c' => answer = (zero_Result, None) /\
    forall c'', moved comes_up c' c'' -> settling (req :: done) c'') c.
Proof.
  intros Hreq (envs & k & HP & Hs & Hall). destruct (fleet_one envs req Hs Hreq) as (de & Hde & <-).
  destruct (Hall _ de Hde) as (Hp & _ & Htold).
  pose proof (serves_stores (view envs) (at_env de k)) as Hserves.
  pose proof (wp_Reconcile_settles (P:=fun e => view envs (at_env e (at_env de k))) (k:=at_env de k) r Hp c) as Hrun.
  eapply wp_mono; [|apply Hrun; exact (view_of envs k _ de _ HP Hde eq_refl)].
  intros answer c' (Ha & s & o & Hrest & Hcx & HP1 & _). split; [done|]. intros c'' Hmoved. rewrite Hcx in HP1.
  destruct (Hmoved _ _ HP1) as (k2 & Hup & HP2).
  assert (Hups : forall e, comes_up (at_env e k) (at_env e k2)) by (intros e; by destruct Hup).
  eexists (<[de_nn de := _]> envs), k2. split; [exact HP2|]. split; [by eapply fleet_update|].
  intros n d Hd. destruct (decide (n = de_nn de)) as [->|Hne].
  - rewrite lookup_insert_eq in Hd. injection Hd as <-.
    pose proof (rest_up r _ (at_env (live (k:=at_env de k) s o) k2) (Hups _) Hrest) as Hrest2.
    split; [apply Hrest2|]. split; [done|]. intros Hat%Htold. rewrite (up_items _ _ Hup). by apply (told_wish r de).
  - rewrite lookup_insert_ne in Hd by done. destruct (Hall n d Hd) as (Hpd & Hrd & Htd).
    split; [by eapply in_place_up|]. split; [|by rewrite (up_items _ _ Hup)].
    intros [->|Hin]%elem_of_cons; [done|]. exact (rest_up r _ _ (Hups d) (Hrd Hin)).
Qed.
(** Between the two: the deployments have come up. *)
Lemma built_settling done c c' : (forall n, n ∈ dom envs0 -> n ∈ done) -> being_built done c -> moved comes_up c c' -> settling [] c'.
Proof.
  intros Hdone (envs & k & HP & Hs & Hall) Hmoved. destruct (Hmoved _ _ HP) as (k' & Hup & HP').
  exists envs, k'. split; [done|]. split; [done|]. intros n de Hde. destruct (Hall n de Hde) as (_ & Hmade & Htd).
  split; [|split; [by intros ?%elem_of_nil|by rewrite (up_items _ _ Hup)]]. assert (Hn : n ∈ dom envs0).
  { apply elem_of_dom. specialize (Hs n). rewrite Hde in Hs. inversion Hs. by eexists. }
  apply (made_comes_up r (at_env de k)); [by destruct Hup|]. by apply Hmade, Hdone.
Qed.
Lemma being_built_start c : P envs0 k0 (cx_world c) -> (forall n de, envs0 !! n = Some de -> buildable r (at_env de k0)) ->
  being_built [] c.
Proof.
  intros HP Hb. exists envs0, k0. split; [done|]. split; [intros n; by apply reflexivity|]. intros n de Hde.
  split; [by eapply Hb|]. split; [by intros ?%elem_of_nil|]. intros [Ht _]. by eapply Ht.
Qed.
Lemma serving_converges c requests requests' :
  P envs0 k0 (cx_world c) -> (forall n de, envs0 !! n = Some de -> buildable r (at_env de k0)) ->
  list_to_set requests = dom envs0 -> list_to_set requests' = dom envs0 ->
  serving moves requests (fun answers c1 => Forall (fun answer => answer.2 = None) answers /\
    forall c2, moved comes_up c1 c2 -> serving comes_up requests' (fun answers c3 =>
      answers = replicate (length requests') (zero_Result, None) /\ exists envs k,
        P envs k (cx_world c3) /\ same_fleet envs0 envs /\ forall n de, envs !! n = Some de ->
          at_rest r (at_env de k) /\ (all_told -> routed r (at_env de k))) c2) c.
Proof.
  intros HP Hb Hreq Hreq'. eapply serving_mono.
  2: { apply (serving_inv moves being_built (fun answer => answer.2 = None)) with (done := []); [|by eapply being_built_start].
       intros done req c' Hin. apply built_step. rewrite <- Hreq. by apply elem_of_list_to_set. }
  intros answers c1 (Ha & _ & all & Hall & _ & Hsub). split; [exact Ha|]. intros c2 Hup. eapply serving_mono.
  2: { apply (serving_inv comes_up settling (fun answer => answer = (zero_Result, None))) with (done := []).
       - intros done req c' Hin. apply settle_step. rewrite <- Hreq'. by apply elem_of_list_to_set.
       - eapply built_settling; [|exact Hall|exact Hup]. intros n Hn. apply Hsub. rewrite <- Hreq in Hn. by apply elem_of_list_to_set in Hn. }
  intros answers' c3 (Ha' & Hlen & all' & (envs & k' & HP' & Hs & Hrest) & _ & Hsub'). split.
  - symmetry. apply replicate_as_Forall_2; [done|]. by eapply Forall_impl; [exact Ha'|].
  - exists envs, k'. split; [done|]. split; [done|]. intros n de Hde. destruct (Hrest n de Hde) as (Hp & Hr & Ht).
    split; [|intros Hat; apply told_all_routed; [done|by apply Ht]]. apply Hr, Hsub'.
    apply (elem_of_list_to_set (C:=gset NamespacedName)). rewrite Hreq'. apply elem_of_dom. specialize (Hs n). rewrite Hde in Hs. inversion Hs. by eexists.
Qed.
End fleet.

(** C6.  The operator converges for all environments of a cluster together.  Let
    each of them be one that can be built; let no two make the same deployment,
    none the base of another's, and let none's version be a default of
    another's.  Then, against a server that stores what it is sent, the operator
    may serve requests for them in any order and number, with the deployments
    rolling out in between: no run fails or panics, and none undoes what another
    made.  Once each was served and the deployments have come up, requests in any
    order and number again, each environment's among them, are all answered
    without an error or a requeue and leave every environment at rest.  If
    moreover the routes of each could be told from all others at the start, then
    in the end every environment has all its routes: no route to a default
    version lacks its copies on a virtual service found for it. *)
Theorem operator_converges {W} `{Client W} `{MapOrder} `{RoutePrinter} `{SubsetHash} `{LabelSets}
    (P : fleet -> snapshot -> W -> Prop) (envs : fleet) (k : snapshot) (r : DynamicEnvReconciler)
    (requests requests' : list NamespacedName) (c : ctx W)
    (Hshares : Shares P) (HP : P envs k (cx_world c))
    (Hnamed : forall n de, envs !! n = Some de -> de_nn de = n)
    (Hbuild : forall n de, envs !! n = Some de -> buildable r (at_env de k))
    (Hapart : forall n de n' de', envs !! n = Some de -> envs !! n' = Some de' -> n <> n' -> apart r de de')
    (Hrequests : list_to_set requests = dom envs) (Hrequests' : list_to_set requests' = dom envs) :
  serving P r moves requests (fun answers c1 => Forall (fun answer => answer.2 = None) answers /\
    forall c2, moved P comes_up c1 c2 -> serving P r comes_up requests' (fun answers c3 =>
      answers = replicate (length requests') (zero_Result, None) /\ exists envs' k',
        P envs' k' (cx_world c3) /\ same_fleet envs envs' /\
        forall n de, envs' !! n = Some de ->
          at_rest r (at_env de k') /\ (all_told r envs k -> routed r (at_env de k'))) c2) c.
Proof. by eapply serving_converges. Qed.

(** ** Two environments with the same parts *)
Module FleetExample.
Import Registry ConvergeExample.
#[local] Existing Instance ReconcileExample.labels.
#[local] Existing Instance DeploymentExample.hash.
#[local] Existing Instance RoutingExample.printer.
Definition envs : fleet := {[ de_nn RestExample.env := RestExample.env; de_nn other := other ]}.
Definition shared : registry :=
  mkRegistry envs (g_deployments begun) (g_rules begun) (g_services begun) (g_virtualservices begun).
Definition server : fleet -> snapshot -> registry -> Prop := keeps_envs.
Lemma shares : Shares server.
Proof. split; [intros others; apply (holds_stores others)|]. intros all de k g (He & Hk & Hnd). split; [done|]. split; [by rewrite Hk|done]. Qed.
Lemma envs_cases n de : envs !! n = Some de -> (n = de_nn RestExample.env /\ de = RestExample.env) \/ (n = de_nn other /\ de = other).
Proof.
  unfold envs. intros [[<- <-]|[Hne [<- <-]%lookup_singleton_Some]]%lookup_insert_Some; [by left|by right].
Qed.
Lemma all_asked (l : list NamespacedName) : [de_nn RestExample.env; de_nn other] ⊆ l -> l ⊆ [de_nn RestExample.env; de_nn other] ->
  list_to_set l = dom envs.
Proof. unfold envs. rewrite dom_insert_L, dom_singleton_L. set_solver. Qed.
Lemma fleet_named n de : envs !! n = Some de -> de_nn de = n.
Proof. by intros [[-> ->]|[-> ->]]%envs_cases. Qed.
Lemma all_buildable n de : envs !! n = Some de -> buildable StaticCluster.reconciler (at_env de k).
Proof. intros [[-> ->]|[-> ->]]%envs_cases; [exact (example_buildable true)|exact (example_buildable false)]. Qed.
Lemma all_apart n de n' de' : envs !! n = Some de -> envs !! n' = Some de' -> n <> n' -> apart StaticCluster.reconciler de de'.
Proof.
  intros [[-> ->]|[-> ->]]%envs_cases [[-> ->]|[-> ->]]%envs_cases Hne; try done.
  all: split; [intros st st' [-> | ->]%parts_cases [-> | ->]%parts_cases; vm_compute; discriminate..|].
  all: intros s [[= ->]|[=]]%parts_cases; vm_compute; discriminate.
Qed.
(** And their routes can be told apart. *)
Lemma names_apart de de' :
  (forall y, mkSubsetType SUBSET y ∈ parts_of de -> y = DeploymentExample.subset) ->
  HasPrefix (CalculateVirtualServicePrefix (UniqueDynamicEnvName (de_nn de')) "")
    (CalculateVirtualServicePrefix (UniqueDynamicEnvName (de_nn de)) (s_Name DeploymentExample.subset)) = false ->
  HasPrefix (CalculateVirtualServicePrefix (UniqueDynamicEnvName (de_nn de)) (s_Name DeploymentExample.subset))
    (CalculateVirtualServicePrefix (UniqueDynamicEnvName (de_nn de')) "") = false -> told_apart de de'.
Proof.
  intros Hone Ha Hb y name ->%Hone Hp. apply not_true_iff_false. intros Hq.
  destruct (HasPrefix_comparable _ _ _ Hp Hq); congruence.
Qed.
Lemma all_told_apart : all_told StaticCluster.reconciler envs k.
Proof.
  split.
  - intros n de [[-> ->]|[-> ->]]%envs_cases; [exact (example_told true)|exact (example_told false)].
  - intros n de n' de' [[-> ->]|[-> ->]]%envs_cases [[-> ->]|[-> ->]]%envs_cases Hne; try done.
    all: apply names_apart; [by intros y [[= ->]|[=]]%parts_cases|reflexivity..].
Qed.
(** The deployments of this server do come up. *)
Lemma up_moved c : moved server comes_up c (mkCtx (up (cx_world c)) (cx_de c) (cx_epoch c) (cx_next c) (cx_log c)).
Proof.
  intros all k0 (He & Hk & Hnd). exists (shown (up (cx_world c)) (sn_env k0)). split; [|by split].
  rewrite Hk. apply up_comes_up.
Qed.

(** The objects of the in-memory server, in lists. *)
Definition listed (all : fleet) (c : cluster) : registry :=
  mkRegistry all (map_to_list (k_deployments c)).*2 (map_to_list (k_rules c)).*2 (k_services c) (map_to_list (k_virtualservices c)).*2.
Lemma listed_comes_up all c de de' :
  map_Forall (fun n d => dp_key d = n) (k_deployments c) -> map_Forall (fun n d => dr_key d = n) (k_rules c) ->
  map_Forall (fun n d => deployment_lifecycle false (dp_Conditions d) = Running) (k_deployments c) ->
  comes_up (snapshot_of c de) (at_env de (shown (listed all c) de')).
Proof.
  intros Hd Hr Hrun. split; try done; cbn.
  - intros n d Hn. exists d. rewrite find_by_map by done. split; [done|]. split; [done|]. exact (Hrun n d Hn).
  - intros n. by rewrite find_by_map.
Qed.
(** The cluster that one environment has been settled on ([RestExample]), with
    the other one just admitted. *)
Import RestExample.
Definition rested : registry :=
  listed (<[de_nn ConvergeExample.other := ConvergeExample.other]> {[ de_nn settled_env := settled_env ]}) settled.
Definition joined : snapshot := shown rested ConvergeExample.other.
Lemma rested_resting : at_rest StaticCluster.reconciler (at_env settled_env joined).
Proof. apply (rest_up StaticCluster.reconciler RestExample.seen); [apply listed_comes_up; compute_bool|exact resting]. Qed.
Lemma joined_items : sn_virtualservices joined = [settled_service].
Proof. vm_compute. reflexivity. Qed.
Lemma joined_host : host_ready joined
  (service_handler StaticCluster.reconciler joined (base_of "reviews") DeploymentExample.subset ["reviews"]) "reviews".
Proof.
  split; rewrite joined_items.
  - intros service rt d ->%list_elem_of_singleton _ Hrt Hd. exfalso.
    assert (E : map hr_Delegate (vs_Http settled_service) = [None; None]) by (vm_compute; reflexivity).
    apply (list_elem_of_fmap_2 hr_Delegate) in Hrt. change (hr_Delegate <$> _) with (map hr_Delegate (vs_Http settled_service)) in Hrt.
    rewrite E, Hd in Hrt. by repeat (apply elem_of_cons in Hrt as [?|Hrt]); [..|apply elem_of_nil in Hrt].
  - exists settled_service, 0. split; [done|]. exists 0, settled_service. split; [done|].
    split; [exists "reviews"; split; [by left|vm_compute; reflexivity]|]. exists true, [].
    split; [vm_compute; reflexivity|by left].
  - intros v (i & Hi & _). apply list_elem_of_lookup_2, list_elem_of_singleton in Hi as ->. right. vm_compute. reflexivity.
Qed.
Lemma joined_reviews : deployable (mkSubsetType SUBSET DeploymentExample.subset) (base_of "reviews").
Proof. split; [unfold overridable; compute_bool|split; apply ConvergeExample.named; compute_bool]. Qed.
Lemma joined_worker : deployable (mkSubsetType CONSUMER worker) (base_of "worker").
Proof. split; [unfold overridable; compute_bool|split; apply ConvergeExample.named; compute_bool]. Qed.
Lemma joined_parts st : st ∈ ConvergeExample.parts -> part_buildable StaticCluster.reconciler joined st.
Proof.
  intros [-> | ->]%parts_cases.
  - exists (base_of "reviews"), 7%Z. split; [vm_compute; reflexivity|]. split; [exact joined_reviews|].
    split; [reflexivity|]. split; [lia|]. intros _. exists ["reviews"]. split.
    + eexists. split; [vm_compute; reflexivity|]. split; [done|vm_compute; reflexivity].
    + vm_compute. discriminate.
    + apply Forall_singleton. right. exists (dr_key RuleExample.rule), RuleExample.rule.
      split; [vm_compute; reflexivity|by split_and!].
    + apply Forall_singleton, joined_host.
  - exists (base_of "worker"), 6%Z. split; [vm_compute; reflexivity|]. split; [exact joined_worker|].
    split; [reflexivity|]. split; [lia|]. intros [=].
Qed.
Lemma joined_buildable : buildable StaticCluster.reconciler joined.
Proof.
  split.
  - reflexivity.
  - compute_bool.
  - intros st st' [-> | ->]%parts_cases [-> | ->]%parts_cases; vm_compute; discriminate.
  - split; [by intros name [[? [=]]|[? [=]]]|by intros name st [=]|].
    intros st [-> | ->]%parts_cases Hd; exfalso; revert Hd; vm_compute; by intros [d [=]].
  - exact (place_valid _ _ placed).
  - vm_compute. discriminate.
  - apply Forall_forall. intros st Hst. by apply joined_parts.
Qed.
Lemma joined_apart : apart StaticCluster.reconciler settled_env (sn_env joined).
Proof.
  split; [intros st st' [-> | ->]%parts_cases [-> | ->]%parts_cases; vm_compute; discriminate..|].
  intros s [[= ->]|[=]]%parts_cases; vm_compute; discriminate.
Qed.
End FleetExample.

Lemma operator_converges_witness :
  let r := StaticCluster.reconciler in let one := de_nn RestExample.env in let two := de_nn ConvergeExample.other in
  serving (H:=Registry.client) (H1:=canonical_order) (H2:=RoutingExample.printer) (H3:=DeploymentExample.hash)
      (H4:=ReconcileExample.labels) FleetExample.server r moves [one; two; one] (fun answers c1 =>
    Forall (fun answer => answer.2 = None) answers /\
    forall c2, moved FleetExample.server comes_up c1 c2 ->
      serving (H:=Registry.client) (H1:=canonical_order) (H2:=RoutingExample.printer) (H3:=DeploymentExample.hash)
          (H4:=ReconcileExample.labels) FleetExample.server r comes_up [two; one; one] (fun answers c3 =>
        answers = replicate 3 (zero_Result, None) /\ exists envs' k',
          FleetExample.server envs' k' (cx_world c3) /\ same_fleet FleetExample.envs envs' /\
          forall n de, envs' !! n = Some de ->
            at_rest (H:=DeploymentExample.hash) (H1:=ReconcileExample.labels) r (at_env de k') /\
            routed (H:=RoutingExample.printer) (H1:=ReconcileExample.labels) r (at_env de k')) c2)
    (mkCtx FleetExample.shared example_de 0 1000 []).
Proof.
  intros r one two. eapply serving_mono.
  2: { apply (operator_converges (H:=Registry.client) (H1:=canonical_order) (H2:=RoutingExample.printer) (H3:=DeploymentExample.hash)
         (H4:=ReconcileExample.labels) FleetExample.server FleetExample.envs ConvergeExample.k r [one; two; one] [two; one; one]).
       - exact FleetExample.shares.
       - split; [reflexivity|]. split; [reflexivity|apply NoDup_singleton].
       - exact FleetExample.fleet_named.
       - exact FleetExample.all_buildable.
       - exact FleetExample.all_apart.
       - apply FleetExample.all_asked; unfold one, two; set_solver.
       - apply FleetExample.all_asked; unfold one, two; set_solver. }
  intros answers c1 [Ha Hnext]. split; [exact Ha|]. intros c2 Hup. eapply serving_mono; [|exact (Hnext c2 Hup)].
  intros answers' c3 (Ha' & envs' & k' & HP & Hs & Hall). split; [exact Ha'|]. exists envs', k'. split_and!; [exact HP|exact Hs|].
  intros n de Hde. destruct (Hall n de Hde) as [Hrest Hrouted]. split; [exact Hrest|]. apply Hrouted, FleetExample.all_told_apart.
Defined.
