(* ===== verification/Undisturbed.v ===== *)
(** * Undisturbed

    Whatever a run for one environment does, and wherever it fails, the
    deployments, rules and routes of the others stay.  The API server is any that
    does to the stored objects what it is asked or nothing, whether or not it
    then answers with an error; the run may build, update, clean up or delete,
    and may panic. *)

From stdpp Require Import base gmap sets list strings sorting.
From S2P Require Import Prelude GoStrings Sha256 K8s Types Helpers Watches Client FakeCluster StatusManager Model VirtualServiceHandler VirtualServiceRouting Locating DeploymentHandler DestinationRuleHandler CleanupManager Controller Totality StatusInvariant Quiet AtRest Settling Editing Building Converging Sharing.

(** ** What a call does to the cluster *)
(** [k'] is [k] but for the deployment, or the rule, called [n]. *)
Record but_deployment (n : NamespacedName) (k k' : snapshot) : Prop := mkButDeployment {
  bd_env : sn_env k' = sn_env k;
  bd_deployments : forall m, m <> n -> sn_deployments k' m = sn_deployments k m;
  bd_rules : sn_rules k' = sn_rules k;
  bd_services : sn_services k' = sn_services k;
  bd_items : sn_virtualservices k' = sn_virtualservices k;
}.
Record but_rule (n : NamespacedName) (k k' : snapshot) : Prop := mkButRule {
  br_env : sn_env k' = sn_env k;
  br_deployments : sn_deployments k' = sn_deployments k;
  br_rules : forall m, m <> n -> sn_rules k' m = sn_rules k m;
  br_services : sn_services k' = sn_services k;
  br_items : sn_virtualservices k' = sn_virtualservices k;
}.
(** The stored environment after a write of [de] that makes it [changed]. *)
Definition env_written (de changed : DynamicEnv) (a : result error DynamicEnv) (k k' : snapshot) : Prop :=
  exists de', k' = at_env de' k /\
    (de' = sn_env k \/ de_nn de = de_nn (sn_env k) /\ exists o, de' = stamp o changed) /\
    forall x, a = Ok x -> de_nn de = de_nn (sn_env k) -> x = de'.
(** [q], answered by [a], takes [k] to [k']. *)
Definition effect {R} (q : req R) (a : R) (k k' : snapshot) : Prop :=
  match q in req R return R -> Prop with
  | GetDynamicEnv n => fun a => k' = k /\ forall de, a = Ok de -> n = de_nn (sn_env k) -> de = sn_env k
  | GetDeployment n => fun a => k' = k /\ forall d, a = Ok d -> dp_key d = n
  | GetDestinationRule n => fun a => k' = k /\ forall d, a = Ok d -> dr_key d = n
  | GetVirtualService n => fun a => k' = k /\ forall v, a = Ok v -> v ∈ sn_virtualservices k
  | ListVirtualServices => fun a => k' = k /\ forall l, a = Ok l -> l ⊆ sn_virtualservices k
  | ListServices _ | ListDestinationRules _ | ListDynamicEnvs | Now => fun _ => k' = k
  | CreateDeployment d | UpdateDeployment d => fun _ => k' = k \/ exists d', k' = put_deployment (dp_key d) d' k
  | CreateDestinationRule d => fun _ => k' = k \/ sn_rules k (dr_key d) = None /\ exists d', k' = put_rule (dr_key d) d' k
  | UpdateVirtualService v => fun a =>
      (k' = k /\ forall v', a <> Ok v') \/
      exists i v0 o, sn_virtualservices k !! i = Some v0 /\ vs_nn v = vs_nn v0 /\ vs_other v = vs_other v0 /\
        k' = put_service i (vs_stamp o v) k /\ forall v', a = Ok v' -> v' = vs_stamp o v
  | DeleteDeployment d => fun _ => k' = k \/ but_deployment (dp_key d) k k'
  | DeleteDestinationRule d => fun _ => k' = k \/ but_rule (dr_key d) k k'
  | UpdateDynamicEnv de => fun a => env_written de (set_Status (de_Status (sn_env k)) de) a k k'
  | UpdateDynamicEnvStatus de => fun a => env_written de (set_Status (wire_status (de_Status de)) (sn_env k)) a k k'
  end a.
(** In the worlds of [C h k] the cluster is [k], with the environment of [k] among
    others, and [h] are the virtual services ever stored: a version of a virtual
    service is never given twice, and an update must be made from the version
    that is stored. *)
Class Obeys {W} `{Client W} (C : list VirtualService -> snapshot -> W -> Prop) : Prop := {
  obeys_versions : forall h k w v v', C h k w -> v ∈ h -> v' ∈ h -> vs_nn v = vs_nn v' -> vs_other v = vs_other v' -> v = v';
  obeys_current : forall h k w, C h k w -> sn_virtualservices k ⊆ h;
  obeys_step : forall R (q : req R) h k w a w', C h k w -> exec q w = (a, w') ->
    exists h' k', C h' k' w' /\ h ⊆ h' /\ effect q a k k';
}.

(** ** The calls of a loop *)
(** Made from a version that was stored, routes to [version] added. *)
Definition derived (version : string) (h : list VirtualService) (v : VirtualService) : Prop :=
  exists v0, v0 ∈ h /\ vs_other v = vs_other v0 /\ edited version v0 v.
Lemma derived_mono version h h' v : h ⊆ h' -> derived version h v -> derived version h' v.
Proof. intros Hh (v0 & Hin & Hrest). exists v0. split; [by apply Hh|done]. Qed.
Lemma derived_here version h v : v ∈ h -> derived version h v.
Proof. intros Hv. exists v. by split_and!. Qed.
Lemma is_edit_edited `{RoutePrinter} h sh v v' : is_edit h sh v v' -> edited (vh_UniqueVersion h) v v'.
Proof.
  intros (Hn & Hns & Hh & _ & _ & Hkeep & Hnew). split; [unfold vs_nn; by rewrite Hn, Hns|]. split; [done|]. split.
  - intros rt. rewrite <- Hkeep. by intros [_ ?]%list_elem_of_filter.
  - intros rt Hrt. destruct (HasPrefix (hr_Name rt) (vh_RoutePrefix h)) eqn:Hp; [right|left].
    + destruct (Hnew rt Hrt Hp) as (rt0 & im & Hrt0 & _ & _ & ->). exists rt0. split; [done|]. split; [done|]. simpl.
      unfold our_destinations. apply Forall_fmap, Forall_forall. intros rd [Ht _]%list_elem_of_filter. unfold taken in Ht. simpl.
      destruct (rd_Destination rd) as [d|]; [|done]. by eexists.
    + rewrite <- Hkeep. by apply list_elem_of_filter.
Qed.
Lemma is_edit_derived `{RoutePrinter} vh sh h v v' : is_edit vh sh v v' -> derived (vh_UniqueVersion vh) h v ->
  derived (vh_UniqueVersion vh) h v'.
Proof.
  intros He (v0 & Hin & Ho & Hed). exists v0. split; [done|]. pose proof He as (_ & _ & _ & Ho' & _). split; [congruence|].
  etrans; [exact Hed|]. by eapply is_edit_edited.
Qed.

(** The virtual services of one call. *)
Definition services_of (e : event) : list VirtualService :=
  match ev_req e in req R return R -> list VirtualService with
  | ListVirtualServices => fun a => match a with Ok l => l | Err _ => [] end
  | GetVirtualService _ => fun a => match a with Ok v => [v] | Err _ => [] end
  | UpdateVirtualService sent => fun a => sent :: match a with Ok v => [v] | Err _ => [] end
  | _ => fun _ => []
  end (ev_res e).
Lemma service_read_snoc seen e v : service_read (seen ++ [e]) v -> service_read seen v \/ v ∈ services_of e.
Proof.
  unfold service_read. setoid_rewrite elem_of_app. setoid_rewrite list_elem_of_singleton.
  intros [(l & [Hl|<-] & Hv)|[(n & [Hl|<-])|[(n & [Hl|<-])|(n & [Hl|<-])]]]; simpl; try (left; naive_solver); right.
  - done.
  - by left.
  - right. by left.
  - by left.
Qed.

Section live.
Context {W : Type} `{Client W} `{RoutePrinter} `{SubsetHash} `{LabelSets}.
Context (r : DynamicEnvReconciler) (C : list VirtualService -> snapshot -> W -> Prop) `{!Obeys C}.
Context (de env : DynamicEnv) (Hapart : apart r de env).
Local Abbreviation version := (UniqueDynamicEnvName (de_nn env)).
Implicit Types (h : list VirtualService) (k : snapshot).
Lemma leaves_at k x : leaves r de (at_env env k) x -> leaves r de k x.
Proof. by intros []. Qed.
Lemma leaves_env e k : leaves r de k (at_env e k).
Proof. by destruct (reflexivity (R:=leaves r de) k). Qed.
Lemma put_deployment_leaves st d k : st ∈ parts_of env -> leaves r de k (put_deployment (own env st) d k).
Proof.
  intros Hst. apply leaves_at, spares_leaves; [|exact Hapart]. split; try done. intros n Hn. cbn.
  rewrite decide_False; [done|]. by apply Hn.
Qed.
Lemma put_rule_leaves n d k : sn_rules k n = None -> leaves r de k (put_rule n d k).
Proof.
  intros Hn. apply leaves_at, spares_leaves; [|exact Hapart]. split; try done. intros m d0 Hd0. cbn in *.
  rewrite decide_False; [done|]. intros ->. congruence.
Qed.
Lemma put_service_leaves i v0 v k : sn_virtualservices k !! i = Some v0 -> edited version v0 v ->
  leaves r de k (put_service i v k).
Proof.
  intros Hi He. apply leaves_at, spares_leaves; [|exact Hapart]. split; try done. cbn.
  rewrite <- (list_insert_id _ _ _ Hi) at 1. by apply Forall2_insert.
Qed.

(** What was read in the course of the run. *)
Definition known (seen : list event) h : Prop := forall v, service_read seen v -> derived version h v.
Lemma live_step sts seen R (q : req R) a h k w w' :
  sts ⊆ parts_of env -> C h k w -> exec q w = (a, w') -> known seen h -> process_writes r (de_nn env) sts seen R q a ->
  exists h' k', C h' k' w' /\ h ⊆ h' /\ leaves r de k k' /\ known (seen ++ [Event q a]) h'.
Proof.
  intros Hsts HC E Hk Hw. destruct (obeys_step _ _ _ _ _ _ _ HC E) as (h' & k' & HC' & Hh & He). exists h', k'.
  split; [done|]. split; [done|].
  enough (Hstep : leaves r de k k' /\ forall v, v ∈ services_of (Event q a) -> derived version h' v).
  { destruct Hstep as [Hl Hv]. split; [done|]. intros v [Hs|Hs]%service_read_snoc; [|by apply Hv].
    eapply derived_mono; [exact Hh|by apply Hk]. }
  assert (Hcur : forall v, v ∈ sn_virtualservices k' -> derived version h' v).
  { intros v Hv. apply derived_here. exact (obeys_current _ _ _ HC' v Hv). }
  destruct q; simpl in Hw, He; try done; try (by (subst k' || destruct He as [-> _]); split; [|intros v ?%elem_of_nil]).
  - destruct He as [-> Hv]. split; [done|]. intros v. simpl. destruct a as [v'|]; [|by intros ?%elem_of_nil].
    intros ->%list_elem_of_singleton. by apply Hcur, Hv.
  - destruct He as [-> Hl]. split; [done|]. intros v. simpl. destruct a as [l|]; [|by intros ?%elem_of_nil].
    intros Hv. by apply Hcur, (Hl l).
  - split; [|by intros v ?%elem_of_nil]. destruct Hw as (st & Hst & Hn & Hns & _). destruct He as [-> |[d' ->]]; [done|].
    unfold dp_key. rewrite Hn, Hns. by apply (put_deployment_leaves st), Hsts.
  - split; [|by intros v ?%elem_of_nil]. destruct He as [-> |(Hn & d' & ->)]; [done|]. by apply put_rule_leaves.
  - split; [|by intros v ?%elem_of_nil]. destruct Hw as (st & Hst & Hn & Hns & _). destruct He as [-> |[d' ->]]; [done|].
    unfold dp_key. rewrite Hn, Hns. by apply (put_deployment_leaves st), Hsts.
  - destruct Hw as (st & data & hosts & dv & _ & _ & _ & Hid & sh & service & _ & Hread & Hedit).
    assert (Hv : derived version h v).
    { pose proof (is_edit_derived _ _ h _ _ Hedit) as Hd. cbn in Hd. rewrite Hid in Hd. by apply Hd, Hk. }
    assert (Hv' : derived version h' v) by by eapply derived_mono. destruct He as [[-> Hno]|(i & v0 & o & Hi & Hn & Ho & -> & Ha)].
    + split; [done|]. simpl. destruct a as [v'|]; [by destruct (Hno v')|]. by intros ? ->%list_elem_of_singleton.
    + split.
      * destruct Hv as (v1 & Hin & Ho1 & He1). assert (v1 = v0) as ->.
        { eapply (obeys_versions h k w); [done|done| | |congruence].
          - eapply obeys_current; [done|]. by eapply list_elem_of_lookup_2.
          - destruct He1 as [Hn1 _]. congruence. }
        eapply put_service_leaves; [exact Hi|]. exact He1.
      * simpl. intros v2 [->|Hv2]%elem_of_cons; [done|]. destruct a as [v'|]; [|by apply elem_of_nil in Hv2].
        apply list_elem_of_singleton in Hv2 as ->. rewrite (Ha v' eq_refl). apply Hcur. cbn.
        apply list_elem_of_insert. by eapply lookup_lt_Some.
  - split; [|by intros v ?%elem_of_nil]. destruct He as (e & -> & _). apply leaves_env.
Qed.
(** The calls of a loop, and calls that only look and record. *)
Lemma live_run sts l seen h k w w' :
  sts ⊆ parts_of env -> C h k w -> evolves w l w' -> known seen h -> ordered (process_writes r (de_nn env) sts) seen l ->
  exists h' k', C h' k' w' /\ leaves r de k k'.
Proof.
  intros Hsts. revert seen h k w. induction l as [|[R q a] l IH]; intros seen h k w HC; simpl.
  { intros -> _ _. exists h, k. done. }
  intros (w1 & E & Hl) Hk [Hq Ho]. destruct (live_step sts seen R q a h k w w1 Hsts HC E Hk Hq) as (h1 & k1 & HC1 & _ & Hl1 & Hk1).
  destruct (IH _ _ _ _ HC1 Hl Hk1 Ho) as (h2 & k2 & HC2 & Hl2). exists h2, k2. split; [done|]. by etrans.
Qed.
End live.

(** *** After the loop *)
Definition looks : spec := fun R q _ =>
  match q with
  | GetDeployment _ | GetDestinationRule _ | GetVirtualService _ | UpdateDynamicEnvStatus _ | Now => True
  | _ => False
  end.
Section statuses.
Context {W : Type} `{Client W} `{MapOrder} `{RoutePrinter} `{SubsetHash} `{LabelSets}.
Implicit Types (srh : SRHandler W) (mrh : MRHandler W).
Definition sr_looks srh : Prop := emits looks (sr_GetStatus srh) /\ forall rs, emits looks (sr_ApplyStatus srh rs).
Definition mr_looks mrh : Prop := emits looks (mr_GetStatus mrh) /\ forall l, emits looks (mr_ApplyStatus mrh l).
Lemma deployment_looks dh : sr_looks (DeploymentHandler_SR dh).
Proof.
  split; cbn [DeploymentHandler_SR sr_GetStatus sr_ApplyStatus].
  - unfold DeploymentHandler_GetStatus. emits_tac.
  - intros rs. by apply emits_AddDeploymentStatusEntry.
Qed.
Lemma rules_look drh : mr_looks (DestinationRuleHandler_MR drh).
Proof.
  split; cbn [DestinationRuleHandler_MR mr_GetStatus mr_ApplyStatus].
  - unfold DestinationRuleHandler_GetStatus. generalize (drh_ServiceHosts drh), (@nil ResourceStatus). intros hosts.
    induction hosts as [|sh hosts IH]; intros l; simpl; emits_tac.
  - intros l. induction l as [|rs l IH]; simpl; [emits_tac|]. apply emits_bind; [by apply emits_AddDestinationRuleStatusEntry|]. intros ?. emits_tac.
Qed.
Lemma services_look vh : mr_looks (VirtualServiceHandler_MR vh).
Proof.
  split; cbn [VirtualServiceHandler_MR mr_GetStatus mr_ApplyStatus].
  - unfold VirtualServiceHandler_GetStatus. apply emits_bind; [|intros ?; emits_tac]. generalize (concat (map (fun sh => default [] (vh_virtualServices vh !! sh)) (vh_ServiceHosts vh))).
    intros nns. induction nns as [|nn nns IH]; simpl; emits_tac.
  - intros l. induction l as [|rs l IH]; simpl; [emits_tac|]. apply emits_bind; [by apply emits_AddVirtualServiceStatusEntry|]. intros ?. emits_tac.
Qed.
Lemma emits_statuses srhs mrhs : Forall sr_looks srhs -> Forall mr_looks mrhs -> emits looks (processHandlersStatus srhs mrhs).
Proof.
  intros Hs Hm. unfold processHandlersStatus.
  assert (Hsr : forall p e, emits looks (process_sr srhs p e)).
  { induction Hs as [|srh srhs [Hg Ha] _ IH]; intros p e; simpl; [emits_tac|]. apply emits_bind; [done|]. intros [rs|err]; [|apply IH].
    apply emits_bind; [apply Ha|]. intros err. apply IH. }
  assert (Hmr : forall p e, emits looks (process_mr mrhs p e)).
  { induction Hm as [|mrh mrhs [Hg Ha] _ IH]; intros p e; simpl; [emits_tac|]. apply emits_bind; [done|]. intros [rs|err]; [|apply IH].
    apply emits_bind; [apply Ha|]. intros err. apply IH. }
  apply emits_bind; [apply Hsr|]. intros [p e]. apply emits_bind; [apply Hmr|]. intros [p' e']. emits_tac.
Qed.
Lemma emits_sync_all msgs errors : emits (W:=W) looks (sync_all msgs errors).
Proof.
  revert errors. induction msgs as [|msg msgs IH]; intros errors; simpl; [emits_tac|]. apply emits_bind; [|intros; apply IH].
  unfold SyncGlobalErrors. assert (Hsync : forall l found acc, emits (W:=W) looks (sync_errors msg l found acc)).
  { induction l as [|x l IHl]; intros found acc; simpl; emits_tac. }
  emits_tac; apply Hsync.
Qed.
Lemma emits_conclude total rls response b : emits (W:=W) looks (conclude total rls response b).
Proof.
  unfold conclude. apply emits_bind; [emits_tac|]. intros l. cbv zeta. apply emits_bind; [|intros _; apply emits_bind; [|intros _; apply emits_bind]].
  - unfold SyncSubsetMessagesToStatus. apply emits_bind; [emits_tac|]. intros ms. induction ms as [|[name msgs] ms IH]; simpl; [emits_tac|].
    apply emits_bind; [emits_tac|]. intros de. cbv zeta. do 4 (apply emits_bind; [apply emits_sync_all|intros ?]). emits_tac.
  - unfold SyncConsumerMessagesToStatus. apply emits_bind; [emits_tac|]. intros ms. induction ms as [|[name msgs] ms IH]; simpl; [emits_tac|].
    apply emits_bind; [emits_tac|]. intros de. cbv zeta. apply emits_bind; [apply emits_sync_all|intros ?]. emits_tac.
  - unfold SetGlobalState. emits_tac.
  - intros err. destruct (_ && _); [emits_tac|]. destruct (IsConflict _); emits_tac.
Qed.

(** The handlers of the loop. *)
Definition looking (res : ReconcileLoopStatus * list (SRHandler W) * list (MRHandler W)) : Prop :=
  Forall sr_looks res.1.2 /\ Forall mr_looks res.2.
Lemma looking_one rls dh mhs : Forall mr_looks mhs -> looking (rls, [DeploymentHandler_SR dh], mhs).
Proof. intros Hm. split; [|exact Hm]. apply Forall_singleton, deployment_looks. Qed.
Lemma pwp_one_looks r ident st rls (c : ctx W) : pwp (process_one r ident st rls) (fun res _ => looking res) c.
Proof.
  unfold process_one. cbv zeta. apply pwp_bind, pwp_any. intros [base|e] c1; [|by apply pwp_ret].
  apply pwp_bind, pwp_any. intros de c2. apply pwp_bind, pwp_any. intros [dh err] c3.
  destruct err as [e|]; [by apply pwp_ret, looking_one|]. destruct (stt_Type st); [|by apply pwp_ret, looking_one].
  apply pwp_bind, pwp_any. intros [hosts|e] c4; [|by apply pwp_ret, looking_one].
  apply pwp_bind. eapply (pwp_mono _ (fun res _ => Forall mr_looks res.2)); [intros res c5 Hres; by apply pwp_ret, looking_one|].
  unfold process_routing. cbv zeta. apply pwp_bind, pwp_any. intros [drh err] c5.
  destruct err; [apply pwp_ret, Forall_singleton, rules_look|].
  apply pwp_bind, pwp_any. intros [vh err] c6. apply pwp_ret, Forall_cons. split; [apply rules_look|]. apply Forall_singleton, services_look.
Qed.
Lemma pwp_each_looks r ident sts rls dhs mhs (c : ctx W) : Forall sr_looks dhs -> Forall mr_looks mhs ->
  pwp (process_each r ident sts rls dhs mhs) (fun res _ => looking res) c.
Proof.
  revert rls dhs mhs c. induction sts as [|st sts IH]; intros rls dhs mhs c Hd Hm; simpl; [by apply pwp_ret|].
  apply pwp_bind. eapply pwp_mono; [|apply pwp_one_looks]. intros [[rls' dhs'] mhs'] c' [Hd' Hm'].
  apply IH; by apply Forall_app.
Qed.
(** What follows may rely on what is known of the result. *)
Lemma traces_bind_result {A B} (P : tspec) (Q : A -> Prop) seen (m : M W A) (f : A -> M W B) Q' :
  traces P seen m (fun _ _ => True) -> (forall c, pwp m (fun a _ => Q a) c) -> (forall a s, Q a -> traces P s (f a) Q') ->
  traces P seen (m ≫= f) Q'.
Proof.
  intros Hm HQ Hf. apply traces_bind. intros c. destruct (Hm c) as (l & Hl & Ho & _). exists l. split; [done|]. split; [done|].
  intros a Ha. apply Hf. specialize (HQ c). unfold pwp in HQ. by destruct (m c) as [[] ?]; simplify_eq/=.
Qed.
Lemma looks_live r ident sts s R (q : req R) a : looks R q a -> process_writes r ident sts s R q a.
Proof. by destruct q. Qed.
(** From the loop to the answer. *)
Definition from_loop r ident sts total (rest : ReconcileLoopStatus -> ReconcileLoopStatus) (b : bool) : M W (Result * option error) :=
  res ← process_each r ident sts zero_RLS [] [];
  let '(rls, dhs, mhs) := res in
  let rls := rest rls in
  res ← processHandlersStatus dhs mhs;
  let '(response, err) := res in
  let rls := match err with Some err => rls_set_if (Some err) rls | None => rls end in
  conclude total rls response b.
Lemma traces_from_loop r ident sts total rest b :
  traces (process_writes r ident sts) [] (from_loop r ident sts total rest b) (fun _ _ => True).
Proof.
  unfold from_loop. eapply (traces_bind_result _ looking).
  - by apply traces_process_each.
  - intros c. by apply pwp_each_looks.
  - intros [[rls dhs] mhs] s [Hd Hm]. cbv zeta. apply (traces_emits looks); [|intros; by apply looks_live].
    apply emits_bind; [by apply emits_statuses|]. intros [response err]. apply emits_conclude.
Qed.
End statuses.

(** ** The calls of a cleanup *)
(** No deployment or rule of [de] is recorded in [env]. *)
Definition spared_deployment (de : DynamicEnv) (rs : ResourceStatus) : Prop := forall st, st ∈ parts_of de ->
  rs_nn rs <> own de st /\ rs_nn rs <> source st.
Definition spared_rule (de : DynamicEnv) (rs : ResourceStatus) : Prop := forall st sh, st ∈ parts_of de -> rs_nn rs <> own_rule de st sh.
Definition spared_subset (de : DynamicEnv) (e : SubsetStatus) : Prop :=
  spared_deployment de (ss_Deployment e) /\ Forall (spared_rule de) (ss_DestinationRules e).
Definition harmless (de : DynamicEnv) (s : DynamicEnvStatus) : Prop :=
  map_Forall (fun _ => spared_subset de) (mread (st_SubsetsStatus s)) /\
  map_Forall (fun _ e => spared_deployment de (cs_ResourceStatus e)) (mread (st_ConsumersStatus s)).
(** The routes named for the version are copies of others, for it. *)
Definition tidy (version : string) (k : snapshot) : Prop := forall v, v ∈ sn_virtualservices k ->
  more_routes version (cleanup_routes version (vs_Http v)) (vs_Http v).
Lemma harmless_wire de s : harmless de s -> harmless de (wire_status s).
Proof.
  intros [Hs Hc]. unfold wire_status. split; cbn [st_SubsetsStatus st_ConsumersStatus]; rewrite ?mread_omit, mread_fmap;
    apply map_Forall_fmap.
  - intros n e He. destruct (Hs n e He) as [Hd Hr]. split; [exact Hd|]. cbn. apply Forall_fmap. eapply Forall_impl; [exact Hr|]. done.
  - intros n e He. exact (Hc n e He).
Qed.

Section cleanup.
Context {W : Type} `{Client W} `{MapOrder} `{RoutePrinter} `{SubsetHash} `{LabelSets}.
Context (r : DynamicEnvReconciler) (C : list VirtualService -> snapshot -> W -> Prop) `{!Obeys C}.
Context (de env : DynamicEnv) (k0 : snapshot) (Hapart : apart r de env) (Hnames : told_apart de env).
Local Abbreviation version := (UniqueDynamicEnvName (de_nn env)).
Implicit Types (h : list VirtualService) (k : snapshot) (rs : ResourceStatus).
Definition ours (e : DynamicEnv) : Prop := same_wish env e /\ harmless de (de_Status e).
Definition stands (c : ctx W) : Prop := exists h k, C h k (cx_world c) /\ leaves r de k0 k /\ tidy version k /\
  ours (sn_env k) /\ ours (cx_de c).
Definition safe {A} (m : M W A) (Q : A -> Prop) : Prop := forall c, stands c ->
  stands (m c).2 /\ forall a, (m c).1 = Ret a -> Q a.
Local Abbreviation unharmed m := (safe m (fun _ => True)).

Lemma safe_ret {A} (a : A) (Q : A -> Prop) : Q a -> safe (mret a) Q.
Proof. intros HQ c Hc. split; [done|]. by intros a' [= <-]. Qed.
Lemma safe_bind {A B} (m : M W A) (f : A -> M W B) (Q : A -> Prop) Q' :
  safe m Q -> (forall a, Q a -> safe (f a) Q') -> safe (m ≫= f) Q'.
Proof.
  intros Hm Hf c Hc. destruct (Hm c Hc) as [Hc' HQ]. unfold mbind, M_bind.
  destruct (m c) as [[a|] c'] eqn:E; simpl in *; [|done]. by apply (Hf a (HQ a eq_refl)).
Qed.
Lemma safe_mono {A} (m : M W A) (Q Q' : A -> Prop) : safe m Q -> (forall a, Q a -> Q' a) -> safe m Q'.
Proof. intros Hm HQ c Hc. destruct (Hm c Hc) as [Hc' Ha]. split; [done|]. intros a E. by apply HQ, Ha. Qed.
Lemma safe_get_de {B} (f : DynamicEnv -> M W B) Q : (forall e, ours e -> safe (f e) Q) -> safe (get_de ≫= f) Q.
Proof. intros Hf c Hc. pose proof Hc as (h & k & _ & _ & _ & _ & He). exact (Hf _ He c Hc). Qed.
Lemma safe_put_de e (Q : unit -> Prop) : ours e -> Q tt -> safe (put_de e) Q.
Proof. intros He HQ c (h & k & HC & Hl & Ht & Hk & _). split; [by exists h, k|]. by intros [] _. Qed.
Lemma safe_lift {A} (o : outcome A) (Q : A -> Prop) : (forall a, o = Ret a -> Q a) -> safe (lift o) Q.
Proof. intros HQ c Hc. by split. Qed.
Lemma safe_range {V} (m : gmap string V) (Q : list (string * V) -> Prop) : (forall l, l ≡ₚ map_to_list m -> Q l) -> safe (range m) Q.
Proof. intros HQ c (h & k & Hc). split; [by exists h, k|]. intros l [= <-]. apply HQ, map_range_perm. Qed.
Lemma safe_call {R} (q : req R) (Q : R -> Prop) :
  (forall k a k', ours (sn_env k) -> tidy version k -> effect q a k k' ->
    leaves r de k k' /\ tidy version k' /\ ours (sn_env k') /\ Q a) -> safe (call q) Q.
Proof.
  intros Hq c (h & k & HC & Hl & Ht & Hk & He). unfold call. destruct (exec q (cx_world c)) as [a w] eqn:E.
  destruct (obeys_step _ _ _ _ _ _ _ HC E) as (h' & k' & HC' & _ & Heff).
  destruct (Hq k a k' Hk Ht Heff) as (Hl' & Ht' & Hk' & HQ). split; [|by intros ? [= <-]].
  exists h', k'. split; [done|]. split; [by etrans|]. by split_and!.
Qed.

(** *** The environment itself *)
Lemma ours_same e e' : ours e -> same_wish e e' -> de_Status e' = de_Status e -> ours e'.
Proof. intros [Hw Hh] Hs E. split; [by etrans|by rewrite E]. Qed.
Lemma ours_wire e s o : ours e -> harmless de s -> ours (stamp o (set_Status (wire_status s) e)).
Proof. intros [Hw _] Hh. split; [by etrans|]. by apply harmless_wire. Qed.
Lemma safe_env_write (q : req (result error DynamicEnv)) e (changed : DynamicEnv -> DynamicEnv) : ours e ->
  (forall a k k', effect q a k k' -> env_written e (changed (sn_env k)) a k k') ->
  (forall e' o, ours e' -> ours (stamp o (changed e'))) ->
  safe (call q) (fun a => forall x, a = Ok x -> ours x).
Proof.
  intros He Hq Hchanged. apply safe_call. intros k a k' Hk Ht (de' & -> & Hde' & Hx)%Hq. assert (Ho : ours de').
  { destruct Hde' as [-> |(_ & o & ->)]; [done|by apply Hchanged]. }
  split; [apply leaves_env|]. split; [done|]. split; [done|]. intros x Ex. rewrite (Hx x Ex); [done|].
  destruct He as [[Hn _] _], Hk as [[Hn' _] _]. congruence.
Qed.
Lemma safe_stored (a : result error DynamicEnv) : (forall x, a = Ok x -> ours x) ->
  unharmed (match a with Ok de' => _ ← put_de de'; mret None | Err e => mret (Some e) end : M W (option error)).
Proof.
  intros Ha. destruct a as [x|e]; [|by apply safe_ret]. eapply (safe_bind _ _ (fun _ => True)); [|intros; by apply safe_ret].
  apply safe_put_de; [by apply Ha|done].
Qed.
Lemma safe_update_status : unharmed update_status.
Proof.
  unfold update_status. apply safe_get_de. intros e He. eapply safe_bind; [|intros a; apply safe_stored].
  apply (safe_env_write _ e (set_Status (wire_status (de_Status e)))); [done|done|]. intros e' o He'. apply ours_wire; [done|apply He].
Qed.
Lemma safe_update_de : unharmed update_de.
Proof.
  unfold update_de. apply safe_get_de. intros e He. eapply safe_bind; [|intros a; apply safe_stored].
  apply (safe_env_write _ e (fun e0 => set_Status (de_Status e0) e)); [done|done|]. intros e' o [_ Hh]. split; [apply He|exact Hh].
Qed.

(** *** One resource *)
Lemma but_deployment_leaves n k k' : (forall st, st ∈ parts_of de -> n <> own de st /\ n <> source st) ->
  but_deployment n k k' -> leaves r de k k'.
Proof.
  intros Hn [_ Hd Hr Hs Hv]. split; unfold valid; rewrite ?Hr, ?Hs, ?Hv; try done; [..|eauto]; intros st Hst; apply Hd.
  - intros E. by destruct (Hn st Hst).
  - intros E. by destruct (Hn st Hst).
Qed.
Lemma but_rule_leaves n k k' : (forall st sh, st ∈ parts_of de -> n <> own_rule de st sh) -> but_rule n k k' -> leaves r de k k'.
Proof.
  intros Hn [_ Hd Hr Hs Hv]. split; unfold valid; rewrite ?Hd, ?Hs, ?Hv; try done; [|eauto]. intros st sh Hst. rewrite Hr; [done|].
  intros E. by destruct (Hn st sh Hst).
Qed.
Lemma safe_deleteDeployment rs : spared_deployment de rs -> unharmed (deleteDeployment rs).
Proof.
  intros Hrs. unfold deleteDeployment. eapply (safe_bind _ _ (fun a => forall d, a = Ok d -> dp_key d = rs_nn rs)).
  - apply safe_call. intros k a k' Hk Ht [-> Ha]. by split_and!.
  - intros [d|e] Hd; [|destruct (IsNotFound e); by apply safe_ret].
    eapply (safe_bind _ _ (fun _ => True)); [|intros [e|] _; by apply safe_ret].
    apply safe_call. intros k a k' Hk Ht [-> |Hb]; [by split_and!|]. rewrite (Hd d eq_refl) in Hb.
    split; [by eapply but_deployment_leaves|]. unfold tidy. by rewrite (bd_env _ _ _ Hb), (bd_items _ _ _ Hb).
Qed.
Lemma safe_deleteDestinationRule rs : spared_rule de rs -> unharmed (deleteDestinationRule rs).
Proof.
  intros Hrs. unfold deleteDestinationRule. eapply (safe_bind _ _ (fun a => forall d, a = Ok d -> dr_key d = rs_nn rs)).
  - apply safe_call. intros k a k' Hk Ht [-> Ha]. by split_and!.
  - intros [d|e] Hd; [|destruct (IsNotFound e); by apply safe_ret].
    eapply (safe_bind _ _ (fun _ => True)); [|intros [e|] _; by apply safe_ret].
    apply safe_call. intros k a k' Hk Ht [-> |Hb]; [by split_and!|]. rewrite (Hd d eq_refl) in Hb.
    split; [by eapply but_rule_leaves|]. unfold tidy. by rewrite (br_env _ _ _ Hb), (br_items _ _ _ Hb).
Qed.
(** Without the environment's routes. *)
Lemma cleanup_twice http : cleanup_routes version (cleanup_routes version http) = cleanup_routes version http.
Proof. unfold cleanup_routes. rewrite list_filter_filter. apply list_filter_iff. tauto. Qed.
Definition cleaned v v' : Prop := vs_nn v' = vs_nn v /\ vs_Hosts v' = vs_Hosts v /\ vs_Http v' = cleanup_routes version (vs_Http v).
(** Virtual services with fewer of the environment's routes. *)
Section fewer.
Context (k x : snapshot) (Hvalid : valid k -> valid x).
Context (Hedited : Forall2 (edited version) (sn_virtualservices x) (sn_virtualservices k)).
Context (Hroutes : forall j v v0, sn_virtualservices x !! j = Some v -> sn_virtualservices k !! j = Some v0 ->
  forall rt, rt ∈ vs_Http v0 -> HasPrefix (hr_Name rt) (CalculateVirtualServicePrefix version "") = false -> rt ∈ vs_Http v).
Implicit Types (vh : VirtualServiceHandler) (sh : string).
Lemma fewer_delegates vh sh : delegates_listed (sn_virtualservices k) vh sh -> delegates_listed (sn_virtualservices x) vh sh.
Proof.
  intros Hd service rt d [j Hj]%list_elem_of_lookup Hc Hrt Hdel. rewrite <- (edited_listed version Hedited).
  destruct (Forall2_lookup_l _ _ _ _ _ Hedited Hj) as (v & Hv & He). pose proof He as (_ & _ & Hk & _).
  apply (Hd v rt d); [by eapply list_elem_of_lookup_2|by apply (edited_called version vh sh service v He)|by apply Hk|done].
Qed.
Lemma fewer_found vh sh i : valid k -> vh_DefaultVersion vh <> version ->
  found_at (sn_virtualservices x) vh sh i <-> found_at (sn_virtualservices k) vh sh i.
Proof. intros Hv Hd. symmetry. by apply (edited_found version Hedited (Hvalid Hv)). Qed.
Lemma fewer_hosts vh sh : valid k -> vh_DefaultVersion vh <> version ->
  (forall name, HasPrefix name (CalculateVirtualServicePrefix version "") = true -> HasPrefix name (vh_RoutePrefix vh) = false) ->
  host_in_place (sn_virtualservices k) vh sh -> host_in_place (sn_virtualservices x) vh sh.
Proof.
  intros Hv Hd Hn [Hdel (v & i & Hi & Hf) Hr]. split; [by apply fewer_delegates| |].
  - destruct (Forall2_lookup_r _ _ _ _ _ Hedited Hi) as (v' & Hi' & _). exists v', i. split; [done|]. by apply fewer_found.
  - clear v i Hi Hf. intros v (i & Hi & Hf). destruct (Forall2_lookup_l _ _ _ _ _ Hedited Hi) as (v0 & Hi0 & _).
    assert (Hc : routesConfiguredWithDynamicEnvRoutes (vs_Http v0) (vh_RoutePrefix vh) = true).
    { apply Hr. exists i. split; [done|]. by apply fewer_found. }
    apply existsb_exists in Hc as (rt & Hrt%list_elem_of_In & Hp). apply existsb_exists. exists rt. split; [|done].
    apply list_elem_of_In, (Hroutes i v v0); [done..|]. destruct (HasPrefix (hr_Name rt) (CalculateVirtualServicePrefix _ _)) eqn:E; [|done].
    by rewrite (Hn _ E) in Hp.
Qed.
End fewer.
Lemma cleaned_routes i v0 v k j v1 v2 : sn_virtualservices k !! i = Some v0 -> cleaned v0 v ->
  sn_virtualservices (put_service i v k) !! j = Some v1 -> sn_virtualservices k !! j = Some v2 ->
  forall rt, rt ∈ vs_Http v2 -> HasPrefix (hr_Name rt) (CalculateVirtualServicePrefix version "") = false -> rt ∈ vs_Http v1.
Proof.
  intros Hi (_ & _ & Hhttp) Hj Hj2 rt Hrt Hp. cbn in Hj. apply list_lookup_insert_Some in Hj as [(<- & <- & _)|[Hne Hj]]; [|congruence].
  rewrite Hhttp. apply list_elem_of_filter. split; [done|]. congruence.
Qed.
Lemma cleaned_valid i v0 v k : sn_virtualservices k !! i = Some v0 -> cleaned v0 v -> valid k -> valid (put_service i v k).
Proof.
  intros Hi (_ & _ & Hhttp) Hv. cbn. apply Forall_insert; [exact Hv|]. rewrite Hhttp. apply Forall_forall. intros rt [_ Hrt]%list_elem_of_filter.
  unfold valid in Hv. rewrite Forall_forall in Hv. specialize (Hv v0 (list_elem_of_lookup_2 _ _ _ Hi)). rewrite Forall_forall in Hv. by apply Hv.
Qed.
Lemma cleaned_leaves i v0 v k : tidy version k -> sn_virtualservices k !! i = Some v0 -> cleaned v0 v ->
  leaves r de k (put_service i v k).
Proof.
  intros Ht Hi Hc. assert (He : Forall2 (edited version) (sn_virtualservices (put_service i v k)) (sn_virtualservices k)).
  { destruct Hc as (Hn & Hh & Hhttp). cbn. rewrite <- (list_insert_id _ _ _ Hi) at 2. apply Forall2_insert; [done|].
    split; [done|]. split; [done|]. rewrite Hhttp. by eapply Ht, list_elem_of_lookup_2. }
  pose proof (cleaned_valid i v0 v k Hi Hc) as Hvalid. pose proof (fun j v1 v2 => cleaned_routes i v0 v k j v1 v2 Hi Hc) as Hroutes.
  split; try done.
  - intros Hv s base hosts sh Hs vh. apply (fewer_hosts k _ Hvalid He Hroutes); [done|exact (apart_defaults _ _ _ Hapart s Hs)|].
    intros name. exact (Hnames s name Hs).
  - intros Hv s base hosts sh v1 Hs vh (j & Hj & Hf). destruct (Forall2_lookup_l _ _ _ _ _ He Hj) as (v2 & Hj2 & Hn & _).
    exists v2. split; [|done]. exists j. split; [done|]. by apply (fewer_found k _ Hvalid He vh sh j Hv (apart_defaults _ _ _ Hapart s Hs)).
Qed.
Lemma cleaned_tidy i v0 v k : tidy version k -> cleaned v0 v -> tidy version (put_service i v k).
Proof.
  intros Ht (_ & _ & Hhttp) v1 [j Hj]%list_elem_of_lookup. cbn in Hj. apply list_lookup_insert_Some in Hj as [(<- & <- & _)|[Hne Hj]].
  - rewrite Hhttp, cleanup_twice. by split; [|left].
  - by eapply Ht, list_elem_of_lookup_2.
Qed.
Lemma safe_cleanupVirtualService rs : unharmed (cleanupVirtualService rs).
Proof.
  unfold cleanupVirtualService. apply safe_get_de. intros e [[Hn _] _]. cbv zeta. rewrite Hn. intros c (h & k & HC & Hl & Ht & Hk & He).
  unfold call, mbind, M_bind. destruct (exec (GetVirtualService _) _) as [a w] eqn:E.
  destruct (obeys_step _ _ _ _ _ _ _ HC E) as (h1 & k1 & HC1 & Hh1 & -> & Hv).
  destruct a as [v|err]; [|destruct (IsNotFound err); (split; [by exists h1, k|done])]. specialize (Hv v eq_refl). cbn [cx_world].
  set (sent := RemoveFromAnnotation _ _). destruct (exec (UpdateVirtualService sent) w) as [a w'] eqn:E'.
  destruct (obeys_step _ _ _ _ _ _ _ HC1 E') as (h2 & k2 & HC2 & Hh2 & Heff).
  assert (Hstands : forall l n d, stands (mkCtx w' (cx_de c) l n d)).
  { intros l n d. destruct Heff as [[-> _]|(i & v0 & o & Hi & Hnn & Ho & -> & _)]; [by exists h2, k|].
    assert (v0 = v) as ->.
    { apply (obeys_versions h1 k w); [done| | |by rewrite <- Hnn|by rewrite <- Ho].
      - eapply obeys_current; [done|]. by eapply list_elem_of_lookup_2.
      - by eapply obeys_current. }
    assert (Hc : cleaned v (vs_stamp o sent)) by done. eexists h2, _. split; [exact HC2|].
    split; [etrans; [exact Hl|by eapply cleaned_leaves]|]. split; [by eapply cleaned_tidy|done]. }
  destruct a as [v'|err]; (split; [apply Hstands|done]).
Qed.

(** *** Lists of resources *)
Lemma safe_delete_each del msg items n (P : ResourceStatus -> Prop) :
  (forall rs, P rs -> unharmed (del rs)) -> Forall P items -> unharmed (delete_each del msg items n).
Proof.
  intros Hdel Hall. revert n. induction Hall as [|rs items Hrs _ IH]; intros n; simpl; [by apply safe_ret|].
  eapply safe_bind; [by apply Hdel|]. intros [found [e|]] _; [by apply safe_ret|]. apply IH.
Qed.
Lemma safe_cleanup_each items : unharmed (cleanup_each items).
Proof.
  induction items as [|rs items IH]; simpl; [by apply safe_ret|]. eapply safe_bind; [apply safe_cleanupVirtualService|].
  intros [e|] _; [by apply safe_ret|done].
Qed.
Lemma harmless_subsets s l : harmless de s -> l ≡ₚ map_to_list (mread (st_SubsetsStatus s)) ->
  Forall (fun x => spared_subset de x.2) l.
Proof.
  intros [Hs _] ->. apply Forall_forall. intros [n e] Hin%elem_of_map_to_list. exact (Hs n e Hin).
Qed.
Lemma harmless_consumers s l : harmless de s -> l ≡ₚ map_to_list (mread (st_ConsumersStatus s)) ->
  Forall (fun x => spared_deployment de (cs_ResourceStatus x.2)) l.
Proof. intros [_ Hc] ->. apply Forall_forall. intros [n e] Hin%elem_of_map_to_list. exact (Hc n e Hin). Qed.
Lemma safe_deleteAllDeployments : unharmed deleteAllDeployments.
Proof.
  unfold deleteAllDeployments. apply safe_get_de. intros e [_ Hh].
  eapply safe_bind; [apply (safe_range _ _ (fun l Hl => harmless_subsets _ l Hh Hl))|]. intros ss Hss.
  eapply safe_bind; [apply (safe_range _ _ (fun l Hl => harmless_consumers _ l Hh Hl))|]. intros cs Hcs.
  eapply safe_delete_each; [apply safe_deleteDeployment|]. apply Forall_app. split; apply Forall_fmap.
  - eapply Forall_impl; [exact Hss|]. by intros [? ?] [? _].
  - exact Hcs.
Qed.
Lemma safe_deleteAllDestinationRules : unharmed deleteAllDestinationRules.
Proof.
  unfold deleteAllDestinationRules. apply safe_get_de. intros e [_ Hh].
  eapply safe_bind; [apply (safe_range _ _ (fun l Hl => harmless_subsets _ l Hh Hl))|]. intros ss Hss.
  eapply safe_delete_each; [apply safe_deleteDestinationRule|]. apply Forall_concat, Forall_fmap.
  eapply Forall_impl; [exact Hss|]. by intros [? ?] [_ ?].
Qed.
Lemma safe_cleanupVirtualServices : unharmed cleanupVirtualServices.
Proof.
  unfold cleanupVirtualServices. apply safe_get_de. intros e _. eapply (safe_bind _ _ (fun _ => True)); [by apply safe_range|].
  intros ss _. eapply safe_bind; [apply safe_cleanup_each|]. intros err _. by apply safe_ret.
Qed.

(** *** Finalizers *)
Lemma safe_put_finalizers {B} f (g : unit -> M W B) Q e : ours e -> safe (g tt) Q -> safe (put_de (set_Finalizers f e) ≫= g) Q.
Proof.
  intros He Hg. eapply (safe_bind _ _ (fun _ => True)); [|by intros []]. apply safe_put_de; [by apply (ours_same e)|done].
Qed.
Lemma safe_deleteFinalizer f : unharmed (deleteFinalizer f).
Proof.
  unfold deleteFinalizer. apply safe_get_de. intros e He. cbv zeta. apply safe_put_finalizers; [done|].
  eapply safe_bind; [apply safe_update_de|]. intros err _. by apply safe_ret.
Qed.
Lemma safe_finalize_counted f m : unharmed m -> unharmed (finalize_counted f m).
Proof.
  intros Hm. unfold finalize_counted. apply safe_get_de. intros e _. destruct (Contains _ _); [|by apply safe_ret].
  eapply safe_bind; [exact Hm|]. intros [count [err|]] _; [by apply safe_ret|]. case_decide; [apply safe_deleteFinalizer|by apply safe_ret].
Qed.
Lemma safe_DeleteAllResources : unharmed DeleteAllResources.
Proof.
  unfold DeleteAllResources. eapply safe_bind; [apply safe_finalize_counted, safe_deleteAllDeployments|]. intros [e|] _; [by apply safe_ret|].
  eapply safe_bind; [apply safe_finalize_counted, safe_deleteAllDestinationRules|]. intros [e|] _; [by apply safe_ret|].
  eapply (safe_bind _ _ (fun _ => True)); [|intros e _; by apply safe_ret]. unfold finalize_virtual_services. apply safe_get_de. intros e _.
  destruct (Contains _ _); [|by apply safe_ret]. eapply safe_bind; [apply safe_cleanupVirtualServices|].
  intros [err|] _; [by apply safe_ret|apply safe_deleteFinalizer].
Qed.
Lemma safe_ensureFinalizers : unharmed ensureFinalizers.
Proof.
  unfold ensureFinalizers. apply safe_get_de. intros e He. case_decide; [|by apply safe_ret]. apply safe_put_finalizers; [done|].
  eapply safe_bind; [apply safe_update_de|]. intros err _. by apply safe_ret.
Qed.

(** *** What left the spec *)
(** [m], run where the shared object is [e]. *)
Definition safe_at {A} (e : DynamicEnv) (m : M W A) (Q : A -> Prop) : Prop := forall c, cx_de c = e -> stands c ->
  stands (m c).2 /\ forall a, (m c).1 = Ret a -> Q a.
Lemma safe_from {B} (f : DynamicEnv -> M W B) Q :
  (forall e, ours e -> safe_at e (f e) Q) -> safe (get_de ≫= f) Q.
Proof. intros Hf c Hc. pose proof Hc as (h & k & _ & _ & _ & _ & He). exact (Hf _ He c eq_refl Hc). Qed.
Lemma safe_at_get {B} e (f : DynamicEnv -> M W B) Q : safe (f e) Q -> safe_at e (get_de ≫= f) Q.
Proof. intros Hf c <- Hc. exact (Hf c Hc). Qed.
Lemma safe_safe_at {A} e (m : M W A) Q : safe m Q -> safe_at e m Q.
Proof. intros Hm c _. apply Hm. Qed.
Lemma safe_at_bind {A B} e (m : M W A) (f : A -> M W B) (Q : ctx W -> A -> list event -> Prop) Q' :
  unharmed m -> (forall c, extends m (Q c) c) -> (forall a, safe_at e (f a) Q') -> safe_at e (m ≫= f) Q'.
Proof.
  intros Hm Hde Hf c He Hc. destruct (Hm c Hc) as [Hc' _]. specialize (Hde c). unfold extends, wp in Hde. unfold mbind, M_bind.
  destruct (m c) as [[a|] c'] eqn:E; simpl in *; [|done]. apply (Hf a); [|done]. destruct Hde as [-> _]. done.
Qed.
Lemma ours_subsets m e : ours e -> map_Forall (fun _ => spared_subset de) (mread m) -> ours (set_SubsetsStatus m e).
Proof. intros [Hw [_ Hc]] Hm. by split. Qed.
Lemma ours_consumers m e : ours e -> map_Forall (fun _ x => spared_deployment de (cs_ResourceStatus x)) (mread m) ->
  ours (set_ConsumersStatus m e).
Proof. intros [Hw [Hs _]] Hm. by split. Qed.
Lemma map_Forall_mset {V} (P : string -> V -> Prop) (m m' : gomap V) n v :
  mset m n v = Ret m' -> P n v -> map_Forall P (mread m) -> map_Forall P (mread m').
Proof. destruct m as [g|]; [|done]. intros [= <-]. apply map_Forall_insert_2. Qed.
Lemma map_Forall_mdelete {V} (P : string -> V -> Prop) (m : gomap V) n :
  map_Forall P (mread m) -> map_Forall P (mread (mdelete m n)).
Proof. destruct m as [g|]; [|done]. apply map_Forall_delete. Qed.
Lemma safe_write_SubsetsStatus n v : spared_subset de v -> unharmed (write_SubsetsStatus n v).
Proof.
  intros Hv. unfold write_SubsetsStatus. apply safe_get_de. intros e He.
  eapply (safe_bind _ _ (fun m => map_Forall (fun _ => spared_subset de) (mread m))).
  - apply safe_lift. intros m Hm. eapply map_Forall_mset; [exact Hm|done|]. apply He.
  - intros m Hm. apply safe_put_de; [by apply ours_subsets|done].
Qed.
Lemma safe_write_ConsumersStatus n v : spared_deployment de (cs_ResourceStatus v) -> unharmed (write_ConsumersStatus n v).
Proof.
  intros Hv. unfold write_ConsumersStatus. apply safe_get_de. intros e He.
  eapply (safe_bind _ _ (fun m => map_Forall (fun _ x => spared_deployment de (cs_ResourceStatus x)) (mread m))).
  - apply safe_lift. intros m Hm. eapply (map_Forall_mset (fun _ x => spared_deployment de (cs_ResourceStatus x))); [exact Hm|done|]. apply He.
  - intros m Hm. apply safe_put_de; [by apply ours_consumers|done].
Qed.
Lemma safe_report {A} (m : M W unit) (g : option error -> A) : unharmed m ->
  unharmed (_ ← m; err ← update_status; mret (g err)).
Proof.
  intros Hm. eapply safe_bind; [exact Hm|]. intros _ _. eapply safe_bind; [apply safe_update_status|]. intros err _. by apply safe_ret.
Qed.
Lemma safe_removeConsumer n : unharmed (removeConsumer n).
Proof.
  unfold removeConsumer. apply safe_from. intros e He. destruct (mlookup (de_ConsumersStatus e) n) as [st|] eqn:Hst; [|by apply safe_safe_at, safe_ret].
  assert (Hsp : spared_deployment de (cs_ResourceStatus st)) by exact (proj2 (proj2 He) n st Hst).
  eapply (safe_at_bind _ _ _ (fun _ => _)); [by apply safe_deleteDeployment|intros c; apply extends_deleteDeployment|].
  intros [found [err|]]; [by apply safe_safe_at, safe_ret|]. destruct found; apply safe_at_get, safe_report.
  - apply safe_write_ConsumersStatus. unfold mget. by rewrite Hst.
  - apply safe_put_de; [|done]. apply ours_consumers; [done|]. apply map_Forall_mdelete, He.
Qed.
Lemma safe_remove_rules drs b : Forall (spared_rule de) drs -> unharmed (remove_rules drs b).
Proof.
  intros Hdrs. revert b. induction Hdrs as [|dr drs Hdr _ IH]; intros b; simpl; [by apply safe_ret|].
  eapply safe_bind; [by apply safe_deleteDestinationRule|]. intros [found [e|]] _; [by apply safe_ret|apply IH].
Qed.
Lemma safe_remove_resources st : spared_subset de st -> unharmed (remove_resources st).
Proof.
  intros [Hd Hr]. unfold remove_resources. eapply safe_bind; [by apply safe_deleteDeployment|]. intros [found [e|]] _; [by apply safe_ret|].
  eapply safe_bind; [by apply safe_remove_rules|]. intros [b|e] _; [|by apply safe_ret].
  eapply safe_bind; [apply safe_cleanup_each|]. intros [e|] _; by apply safe_ret.
Qed.
Lemma safe_removeSubset n : unharmed (removeSubset n).
Proof.
  unfold removeSubset. apply safe_from. intros e He. destruct (mlookup (de_SubsetsStatus e) n) as [st|] eqn:Hst.
  - assert (Hsp : spared_subset de st) by exact (proj1 (proj2 He) n st Hst).
    eapply (safe_at_bind _ _ _ (fun c res l => res = Ok false -> subset_gone (cx_de c) st l)); [by apply safe_remove_resources|intros c; apply extends_remove_resources|].
    intros [[]|err]; [| |by apply safe_safe_at, safe_ret]; apply safe_at_get, safe_report.
    + apply safe_write_SubsetsStatus. unfold mget. by rewrite Hst.
    + apply safe_put_de; [|done]. apply ours_subsets; [done|]. apply map_Forall_mdelete, He.
  - apply safe_safe_at. eapply (safe_bind _ _ (eq (Ok false))); [by apply safe_ret|]. intros res <-. apply safe_get_de.
    intros e' He'. apply safe_report, safe_put_de; [|done]. apply ours_subsets; [done|]. apply map_Forall_mdelete, He'.
Qed.
Lemma safe_cleanup_removed sts : unharmed (cleanup_removed sts).
Proof.
  unfold cleanup_removed. eapply (safe_bind _ _ (fun _ => True)).
  { unfold CheckForRemovedSubsetsAndConsumers. eapply (safe_bind _ _ (fun _ => True)); [by apply safe_range|]. intros l _. cbv zeta.
    apply safe_get_de. intros e _. eapply (safe_bind _ _ (fun _ => True)); [by apply safe_range|]. intros cs _.
    eapply (safe_bind _ _ (fun _ => True)); [by apply safe_range|]. intros ss _. by apply safe_ret. }
  intros m _. case_decide; [|by apply safe_ret]. unfold RemoveSubsetsAndConsumers.
  eapply (safe_bind _ _ (fun _ => True)); [by apply safe_range|]. intros items _. generalize false.
  induction items as [|[n typ] items IH]; intros b; simpl; [by apply safe_ret|]. eapply (safe_bind _ _ (fun _ => True)).
  - case_bool_decide; [apply safe_removeConsumer|apply safe_removeSubset].
  - intros [processing [err|]] _; [by apply safe_ret|apply IH].
Qed.
End cleanup.

(** ** One run for another environment *)
Section disturb.
Context {W : Type} `{Client W} `{MapOrder} `{RoutePrinter} `{SubsetHash} `{LabelSets}.
Context (r : DynamicEnvReconciler) (C : list VirtualService -> snapshot -> W -> Prop) `{!Obeys C}.
Context (de env : DynamicEnv) (k0 : snapshot) (Hapart : apart r de env) (Hnames : told_apart de env).
(** What is in place for [de] in [k0] is in place still. *)
Definition spares_env (c : ctx W) : Prop := exists h k, C h k (cx_world c) /\ leaves r de k0 k.
Local Abbreviation stands := (stands r C de env k0).
Lemma stands_spares c : stands c -> spares_env c.
Proof. intros (h & k & HC & Hl & _). by exists h, k. Qed.
Lemma spares_bind {A B} (m : M W A) (f : A -> M W B) (Q : A -> Prop) : safe r C de env k0 m Q ->
  (forall a c, Q a -> stands c -> spares_env (f a c).2) -> forall c, stands c -> spares_env ((m ≫= f) c).2.
Proof.
  intros Hm Hf c Hc. destruct (Hm c Hc) as [Hc' HQ]. unfold mbind, M_bind. destruct (m c) as [[a|] c'] eqn:E; simpl in *.
  - apply Hf; [by apply HQ|done].
  - by apply stands_spares.
Qed.
Lemma from_loop_spares total rest b c : stands c ->
  spares_env (from_loop r (de_nn env) (parts_of env) total rest b c).2.
Proof.
  intros (h & k & HC & Hl & _). destruct (traces_from_loop r (de_nn env) (parts_of env) total rest b c) as (l & [_ Hw] & Ho & _).
  assert (Hk : known env [] h) by by intros v [(? & ?%elem_of_nil & _)|[(? & ?%elem_of_nil)|[(? & ?%elem_of_nil)|(? & ?%elem_of_nil)]]].
  destruct (live_run r C de env Hapart (parts_of env) l [] h k _ _ ltac:(done) HC Hw Hk Ho) as (h' & k' & HC' & Hl').
  exists h', k'. split; [done|]. by etrans.
Qed.
Lemma live_spares c : stands c -> spares_env (reconcile_live r c).2.
Proof.
  intros Hc. pose proof Hc as (h & k & _ & _ & _ & _ & [[_ Hs] _]). unfold reconcile_live. cbv zeta. unfold mbind at 1, M_bind at 1, get_de at 1. rewrite Hs.
  clear h k Hs. revert c Hc. apply (spares_bind _ _ (fun _ => True)); [by apply safe_cleanup_removed|].
  intros [b err] c _ Hc. pose proof Hc as (h & k & _ & _ & _ & _ & [[Hn Hs] _]). unfold processSubsetsAndConsumers, mbind at 1, M_bind at 1.
  unfold mbind at 1, M_bind at 1, get_de at 1. rewrite Hn, Hs.
  exact (from_loop_spares (length (parts_of env)) (fun rls => match err with Some err => rls_set_if (Some err) rls | None => rls end) b c Hc).
Qed.
Lemma reconcile_spares h c : C h k0 (cx_world c) -> sn_env k0 = env -> tidy (UniqueDynamicEnvName (de_nn env)) k0 ->
  harmless de (de_Status env) -> spares_env (Reconcile r (de_nn env) c).2.
Proof.
  intros HC Henv Ht Hh. unfold Reconcile, call, mbind, M_bind. destruct (exec (GetDynamicEnv (de_nn env)) (cx_world c)) as [a w] eqn:E.
  destruct (obeys_step _ _ _ _ _ _ _ HC E) as (h' & k' & HC' & _ & -> & Ha).
  destruct a as [d|e]; [|by destruct (IsNotFound e); exists h', k0]. rewrite Henv in Ha. rewrite (Ha d eq_refl eq_refl). cbn.
  match goal with |- spares_env (_ ?c1).2 => assert (Hc1 : stands c1) end.
  { exists h', k0. cbn. rewrite Henv. by split_and!. }
  destruct (markedForDeletion env); [apply stands_spares, (safe_DeleteAllResources r C de env k0 Hapart Hnames), Hc1|].
  revert Hc1. apply (spares_bind _ _ (fun _ => True)); [by apply safe_ensureFinalizers|].
  intros [e|] c' _ Hc'; [by apply stands_spares|by apply live_spares].
Qed.
End disturb.

(** C9.  Reconciling one environment leaves the others' resources alone.  Whatever
    the run does (build, update, clean up what left the spec, delete everything),
    whichever of its calls fail, in whatever order the maps are ranged over, and
    even if it panics: let [de] be an environment that has no resource and no
    route name in common with the reconciled one, whose status in turn records no
    resource of [de] and whose routes are copies of others.  Then the deployments
    of [de] and their bases are unchanged, its rules are there, and its hosts
    lead to the same virtual services with the routes made for it still on them.
    So what was at rest stays at rest.  The API server is only assumed to do to
    the stored objects what a call says, or nothing, and to refuse an update of a
    virtual service that was not made from the stored version. *)
Theorem operator_leaves_others {W} `{Client W} `{MapOrder} `{RoutePrinter} `{SubsetHash} `{LabelSets}
    (r : DynamicEnvReconciler) (C : list VirtualService -> snapshot -> W -> Prop) h k de (c : ctx W) :
  Obeys C -> C h k (cx_world c) -> apart r de (sn_env k) -> told_apart de (sn_env k) ->
  tidy (UniqueDynamicEnvName (de_nn (sn_env k))) k -> harmless de (de_Status (sn_env k)) ->
  exists h' k', C h' k' (cx_world (Reconcile r (de_nn (sn_env k)) c).2) /\ leaves r de k k' /\
    (at_rest r (at_env de k) -> at_rest r (at_env de k')).
Proof.
  intros HO HC Hapart Hnames Ht Hh.
  destruct (reconcile_spares r C de (sn_env k) k Hapart Hnames h c HC eq_refl Ht Hh) as (h' & k' & HC' & Hl).
  exists h', k'. split; [done|]. split; [done|]. by apply left_rest.
Qed.

(** ** A server that fails *)
(** The in-memory registry, whose calls may be refused, or done and then answered
    with an error. *)
Module FlakyExample.
Import Registry FleetExample.
#[local] Existing Instance ReconcileExample.labels.
#[local] Existing Instance DeploymentExample.hash.
#[local] Existing Instance RoutingExample.printer.
Inductive fault := Fine | Refused | Lost.
Definition timeout : error := StatusErr (OtherReason "Timeout") "the server did not answer in time".
Definition spoil {R} (q : req R) : R -> R :=
  match q in req R return R -> R with
  | CreateDeployment _ | UpdateDeployment _ | CreateDestinationRule _ | DeleteDeployment _ | DeleteDestinationRule _ => fun _ => Some timeout
  | Now => fun t => t
  | _ => fun _ => Err timeout
  end.
Definition flaky_exec {R} (q : req R) (w : registry * list fault) : R * (registry * list fault) :=
  let '(a, g) := registry_exec q w.1 in
  match w.2 with
  | Refused :: faults => (spoil q (registry_exec q w.1).1, (w.1, faults))
  | Lost :: faults => (spoil q a, (g, faults))
  | faults => (a, (g, tail faults))
  end.
Definition flaky : Client (registry * list fault) := @flaky_exec.

(** Every version ever stored of a virtual service is in [h], none longer than
    the one that is stored. *)
Record recorded (h : list VirtualService) (k : snapshot) (g : registry) : Prop := mkRecorded {
  rc_env : g_envs g !! de_nn (sn_env k) = Some (sn_env k);
  rc_shown : k = shown g (sn_env k);
  rc_names : NoDup (map vs_nn (g_virtualservices g));
  rc_current : g_virtualservices g ⊆ h;
  rc_versions : forall v v', v ∈ h -> v' ∈ h -> vs_nn v = vs_nn v' -> vs_other v = vs_other v' -> v = v';
  rc_latest : forall v v0, v ∈ h -> v0 ∈ g_virtualservices g -> vs_nn v = vs_nn v0 ->
    String.length (vs_other v) <= String.length (vs_other v0);
}.
Lemma same_snapshot k : at_env (sn_env k) k = k.
Proof. by destruct k. Qed.
Lemma recorded_services h k g g' : recorded h k g -> g_envs g' = g_envs g -> g_virtualservices g' = g_virtualservices g ->
  recorded h (shown g' (sn_env k)) g'.
Proof. intros [He Hk Hn Hc Hv Hl] E1 E2. split; cbn; rewrite ?E1, ?E2; done. Qed.
Lemma length_next version : String.length (next version) = S (String.length version).
Proof. unfold next. induction version as [|ch version IH]; simpl in *; [done|]. by rewrite IH. Qed.
Lemma recorded_update h k g i v0 v : recorded h k g -> g_virtualservices g !! i = Some v0 -> vs_nn v = vs_nn v0 -> vs_other v = vs_other v0 ->
  let v' := vs_stamp (next (vs_other v)) v in
  recorded (v' :: h) (put_service i v' k) (g_set_virtualservices (<[i := v']> (g_virtualservices g)) g).
Proof.
  intros [He Hk Hn Hc Hv Hl] Hi Hnn Ho v'. pose proof (list_elem_of_lookup_2 _ _ _ Hi) as Hin.
  assert (Hlong : forall w, w ∈ h -> vs_nn w = vs_nn v' -> String.length (vs_other w) < String.length (vs_other v')).
  { intros w Hw Hwn. change (vs_other v') with (next (vs_other v)). rewrite Ho, length_next.
    specialize (Hl w v0 Hw Hin (eq_trans Hwn Hnn)). lia. }
  split; [done| | | |..]; cbn.
  - rewrite Hk at 1. done.
  - rewrite list_fmap_insert. change (vs_nn v') with (vs_nn v). rewrite Hnn, list_insert_id; [done|]. by rewrite list_lookup_fmap, Hi.
  - intros w [j Hj]%list_elem_of_lookup. apply list_lookup_insert_Some in Hj as [(_ & <- & _)|[_ Hj]]; [by left|].
    right. eapply Hc, list_elem_of_lookup_2, Hj.
  - intros w w' [->|Hw]%elem_of_cons [->|Hw']%elem_of_cons Hn' Ho'; [done| | |by apply Hv].
    + specialize (Hlong w' Hw' (eq_sym Hn')). rewrite Ho' in Hlong. lia.
    + specialize (Hlong w Hw Hn'). rewrite Ho' in Hlong. lia.
  - intros w w' Hw [j Hj]%list_elem_of_lookup Hww. apply list_lookup_insert_Some in Hj as [(_ & <- & _)|[Hne Hj]].
    + apply elem_of_cons in Hw as [->|Hw]; [done|]. by apply Nat.lt_le_incl, Hlong.
    + apply elem_of_cons in Hw as [->|Hw]; [|eapply Hl; [done|by eapply list_elem_of_lookup_2|done]].
      destruct Hne. eapply (NoDup_lookup _ _ _ (vs_nn v0) Hn); rewrite list_lookup_fmap; [by rewrite Hi|].
      rewrite Hj. cbn. by rewrite <- Hww, <- Hnn.
Qed.
Lemma recorded_env h k g de change : recorded h k g -> (forall de0, de_nn de0 = de_nn de -> de_nn (change de0) = de_nn de) ->
  exists k', recorded h k' (store_env de change g).2 /\ env_written de (change (sn_env k)) (store_env de change g).1 k k'.
Proof.
  intros Hrec Hchange. pose proof Hrec as [He Hk Hn Hc Hv Hl].
  assert (Hsame : exists k', recorded h k' g /\ k' = at_env (sn_env k) k).
  { exists k. split; [done|]. by rewrite same_snapshot. }
  unfold store_env. destruct (g_envs g !! de_nn de) as [de0|] eqn:E.
  2: { destruct Hsame as (k' & Hr & ->). eexists. split; [exact Hr|]. eexists. split; [done|]. split; [by left|done]. }
  case_decide as Ho; [|destruct Hsame as (k' & Hr & ->); eexists; split; [exact Hr|]; eexists; split; [done|]; split; [by left|done]].
  set (stored := if decide _ then _ else _). cbn. destruct (decide (de_nn de = de_nn (sn_env k))) as [Hde|Hne].
  - assert (de0 = sn_env k) as -> by congruence. exists (at_env stored k). split.
    + assert (Hnn : de_nn stored = de_nn de).
      { unfold stored. case_decide as Hsame'; [by apply Hchange|]. exact (Hchange (sn_env k) (eq_sym Hde)). }
      split; cbn; [by rewrite Hnn, lookup_insert_eq|by rewrite Hk at 1|done..].
    + exists stored. split; [done|]. split; [|by intros x [= <-]]. unfold stored. case_decide as Hd; [by left|]. right. split; [done|].
      by eexists.
  - exists k. split; [split; cbn; [by rewrite lookup_insert_ne|done..]|]. exists (sn_env k). rewrite same_snapshot. split; [done|].
    split; [by left|]. intros x _ ?. done.
Qed.
(** What the lists hold for one name. *)
Lemma filter_but {A} (key : A -> NamespacedName) n m (l : list A) : m <> n ->
  find_by key m (filter (fun a => key a <> n) l) = find_by key m l.
Proof.
  intros Hne. induction l as [|a l IH]; [done|]. rewrite filter_cons. cbn. case_decide as Ha; cbn; [by rewrite IH|].
  rewrite IH. destruct (decide (m = key a)) as [->|]; [by destruct Ha|done].
Qed.
Lemma fetched_key {A} (key : A -> NamespacedName) n l a : fetched n (find_by key n l) = Ok a -> key a = n.
Proof. unfold fetched. destruct (find_by key n l) eqn:E; [|done]. intros [= <-]. by apply find_by_in in E as [_ ->]. Qed.
Lemma recorded_step {R} (q : req R) h k g : recorded h k g -> exists h' k',
  recorded h' k' (registry_exec q g).2 /\ h ⊆ h' /\ effect q (registry_exec q g).1 k k'.
Proof.
  intros Hrec. assert (exists e, k = shown g e) as [e ->] by (eexists; exact (rc_shown _ _ _ Hrec)). pose proof Hrec as [He _ Hn Hc Hv Hl]. set (k := shown g e) in *.
  assert (Hstay : forall a, effect q a k k -> exists h' k', recorded h' k' g /\ h ⊆ h' /\ effect q a k k') by by exists h, k.
  assert (Hsame : forall a g', g_envs g' = g_envs g -> g_virtualservices g' = g_virtualservices g -> effect q a k (shown g' (sn_env k)) ->
    exists h' k', recorded h' k' g' /\ h ⊆ h' /\ effect q a k k').
  { intros a g' E1 E2 Ha. exists h, (shown g' (sn_env k)). split; [by apply (recorded_services h k g)|done]. }
  destruct q; cbn [registry_exec]; try (by apply Hstay).
  - apply Hstay. split; [done|]. intros de Hde ->. unfold fetched in Hde. rewrite He in Hde. by injection Hde.
  - apply Hstay. split; [done|]. intros d. apply fetched_key.
  - apply Hstay. split; [done|]. intros d. apply fetched_key.
  - apply Hstay. split; [done|]. intros v Hf. cbn in Hf. destruct (list_find _ _) as [[i v']|] eqn:E; [|done]. injection Hf as ->.
    apply list_find_Some in E as (Hi & _). by eapply list_elem_of_lookup_2.
  - apply Hstay. split; [done|]. intros l [= <-]. done.
  - destruct (find_by _ _ _); [apply Hstay; by left|]. apply Hsame; [done..|]. right. exists d. done.
  - destruct (find_by _ _ _) eqn:E; [apply Hstay; by left|]. apply Hsame; [done..|]. right. split; [done|]. exists d. done.
  - destruct (find_by _ _ _); [|apply Hstay; by left]. apply Hsame; [done..|]. right. exists d. done.
  - destruct (list_find _ _) as [[i v0]|] eqn:E; [|apply Hstay; by left]. apply list_find_Some in E as (Hi & Hnn & _).
    case_decide as Ho; [|apply Hstay; by left]. do 2 eexists. split; [by apply (recorded_update h k g i v0)|]. split; [by right|].
    right. exists i, v0, (next (vs_other v)). split; [done|]. by split_and!; [..|intros ? [= <-]].
  - destruct (recorded_env h k g de (fun de0 => set_Status (de_Status de0) de) Hrec) as (k' & Hr & Hw); [done|]. by exists h, k'.
  - destruct (recorded_env h k g de (set_Status (wire_status (de_Status de))) Hrec) as (k' & Hr & Hw); [by intros ?|]. by exists h, k'.
  - apply Hsame; [done..|]. right. split; try done. cbn. intros m Hm. by apply filter_but.
  - apply Hsame; [done..|]. right. split; try done. cbn. intros m Hm. by apply filter_but.
Qed.
Lemma spoil_done {R} (q : req R) a k k' : effect q a k k' -> effect q (spoil q a) k k'.
Proof.
  destruct q; cbn; try done.
  - by intros [-> _].
  - by intros [-> _].
  - by intros [-> _].
  - by intros [-> _].
  - by intros [-> _].
  - intros [[-> _]|(i & v0 & o & Hi & Hn & Ho & -> & _)]; [by left|right]. by exists i, v0, o.
  - intros (de' & -> & Hde & _). by exists de'.
  - intros (de' & -> & Hde & _). by exists de'.
Qed.
Lemma spoil_none {R} (q : req R) a k : effect q (spoil q a) k k.
Proof.
  destruct q; cbn; try done; try (by left); exists (sn_env k); by rewrite same_snapshot; split_and!; [|left|].
Qed.
Definition server h k (w : registry * list fault) : Prop := recorded h k w.1.
Lemma obeys : Obeys (H:=flaky) server.
Proof.
  split.
  - intros h k [g faults] v v' Hrec. exact (rc_versions _ _ _ Hrec v v').
  - intros h k [g faults] Hrec. pose proof (rc_current _ _ _ Hrec) as Hc. by rewrite (rc_shown _ _ _ Hrec).
  - intros R q h k [g faults] a w' Hrec E. destruct (recorded_step q h k g Hrec) as (h' & k' & Hrec' & Hh & He).
    unfold exec, flaky, flaky_exec in E. cbn in E. destruct (registry_exec q g) as [a0 g'] eqn:E0. cbn in *.
    destruct faults as [|[] faults]; injection E as <- <-.
    + by exists h', k'.
    + by exists h', k'.
    + exists h, k. split; [done|]. split; [done|]. by apply spoil_none.
    + exists h', k'. split; [done|]. split; [done|]. by apply spoil_done.
Qed.

(** A cluster at rest for [settled_env], with [e] besides. *)
Import RestExample.
Definition beside (e : DynamicEnv) : registry := listed (<[de_nn e := e]> {[ de_nn settled_env := settled_env ]}) settled.
Lemma beside_recorded e : recorded [settled_service] (shown (beside e) e) (beside e).
Proof.
  assert (Hi : g_virtualservices (beside e) = [settled_service]) by exact joined_items.
  split; rewrite ?Hi; cbn; [by rewrite lookup_insert_eq|done|apply NoDup_singleton|done|..].
  - by intros v v' ->%list_elem_of_singleton ->%list_elem_of_singleton.
  - by intros v v' ->%list_elem_of_singleton ->%list_elem_of_singleton.
Qed.
(** The other environment, on its way out. *)
Definition leaving : DynamicEnv :=
  let version := UniqueDynamicEnvName (de_nn ConvergeExample.other) in
  mkDynamicEnv "other" "default" [DeleteDeployments; DeleteDestinationRules; CleanupVirtualServices] (Some 1%Z)
    (de_Spec ConvergeExample.other)
    (mkDynamicEnvStatus
       (Some {[ MKSubsetName DeploymentExample.subset :=
         mkSubsetStatus (mkResourceStatus (MkSubsetUniqueName "reviews" version) "default" Running) []
           [mkResourceStatus (vs_Name settled_service) (vs_Namespace settled_service) Running] None 0%Z ]})
       None Ready 1%Z 1%Z) "".
Lemma beside_rest e : at_rest StaticCluster.reconciler (at_env settled_env (shown (beside e) e)).
Proof. exact rested_resting. Qed.
Lemma beside_tidy e : cleanup_routes (UniqueDynamicEnvName (de_nn e)) (vs_Http settled_service) = vs_Http settled_service ->
  tidy (UniqueDynamicEnvName (de_nn e)) (shown (beside e) e).
Proof.
  intros Hc v Hv. assert (v = settled_service) as -> by by (apply list_elem_of_singleton; rewrite <- joined_items).
  rewrite Hc. split; [done|]. by left.
Qed.
Lemma told : told_apart settled_env ConvergeExample.other.
Proof.
  intros s name [[= ->]|[=]]%ConvergeExample.parts_cases Hp. destruct (HasPrefix name (CalculateVirtualServicePrefix _ (s_Name _))) eqn:Hq; [|done]. exfalso.
  destruct (HasPrefix_comparable _ _ _ Hp Hq) as [E|E]; revert E; vm_compute; discriminate.
Qed.
Lemma leaving_apart : apart StaticCluster.reconciler settled_env leaving.
Proof. exact (proj1 (apart_proper _ settled_env settled_env (reflexivity _) ConvergeExample.other leaving (conj eq_refl eq_refl)) joined_apart). Qed.
Lemma leaving_harmless : harmless settled_env (de_Status leaving).
Proof.
  split; [|done]. apply map_Forall_singleton. split; [|done]. intros st [-> | ->]%ConvergeExample.parts_cases; vm_compute; split; discriminate.
Qed.
End FlakyExample.

Lemma operator_leaves_others_witness :
  let r := StaticCluster.reconciler in
  let k := Registry.shown (FlakyExample.beside FlakyExample.leaving) FlakyExample.leaving in
  exists h' k', FlakyExample.server h' k' (cx_world (Reconcile (H:=FlakyExample.flaky) (H1:=canonical_order) (H2:=RoutingExample.printer)
      (H3:=DeploymentExample.hash) (H4:=ReconcileExample.labels) r (mkNN "default" "other")
      (mkCtx (FlakyExample.beside FlakyExample.leaving, [FlakyExample.Fine; FlakyExample.Fine; FlakyExample.Lost]) example_de 0 1000 [])).2) /\
    leaves r RestExample.settled_env k k' /\
    at_rest (H:=DeploymentExample.hash) (H1:=ReconcileExample.labels) r (at_env RestExample.settled_env k').
Proof.
  intros r k. cut (at_rest (H:=DeploymentExample.hash) (H1:=ReconcileExample.labels) r (at_env RestExample.settled_env k)).
  2: { exact (FlakyExample.beside_rest FlakyExample.leaving). }
  intros Hrest. edestruct (operator_leaves_others (H:=FlakyExample.flaky) (H1:=canonical_order) (H2:=RoutingExample.printer)
    (H3:=DeploymentExample.hash) (H4:=ReconcileExample.labels) r FlakyExample.server [RestExample.settled_service] k RestExample.settled_env)
    as (h' & k' & Hs & Hl & Hkeep); [..|exists h', k'; split; [exact Hs|split; [exact Hl|exact (Hkeep Hrest)]]].
  - exact FlakyExample.obeys.
  - exact (FlakyExample.beside_recorded FlakyExample.leaving).
  - exact FlakyExample.leaving_apart.
  - exact FlakyExample.told.
  - apply (FlakyExample.beside_tidy FlakyExample.leaving). vm_compute. reflexivity.
  - exact FlakyExample.leaving_harmless.
Defined.
