(* ===== verification/Metrics.v ===== *)
(** * The metrics collector (pkg/metrics/collector.go)

    What the collector describes, what it sends for a scrape, and its life in
    the manager. *)

From Stdlib Require Import Ascii.
From stdpp Require Import base gmap sets list strings.
From S2P Require Import Prelude GoStrings Sha256 K8s Types Helpers Client FakeCluster Process.

(** ** The collector *)

(** The arguments of [prometheus.NewDesc]; there are no constant labels. *)
Record Desc := NewDesc { fqName : string; help : string; variableLabels : list string }.
Inductive ValueType := CounterValue | GaugeValue | UntypedValue.
(** The arguments of [prometheus.MustNewConstMetric].  The counts are
    [float64]s, exact on the integers that occur. *)
Record Metric := MustNewConstMetric {
  m_desc : Desc;
  m_type : ValueType;
  m_value : Z;
  m_labels : list string;
}.
#[export] Instance Desc_eq_dec : EqDecision Desc.
Proof. solve_decision. Defined.
#[export] Instance ValueType_eq_dec : EqDecision ValueType.
Proof. solve_decision. Defined.
#[export] Instance Metric_eq_dec : EqDecision Metric.
Proof. solve_decision. Defined.

Definition runningEnvironmentsDesc : Desc :=
  NewDesc "dynamic_environments" "Number of deployed dynamic environments per namespace" ["namespace"].
Definition degradedEnvironmentsDesc : Desc :=
  NewDesc "degraded_dynamic_environments" "Number of dynamic environments in degraded state per namespace"
    ["namespace"; "name"].
Definition runningEnvironments (val : Z) (namespace : string) : Metric :=
  MustNewConstMetric runningEnvironmentsDesc GaugeValue val [namespace].
Definition degradedEnvironments (val : Z) (namespace name : string) : Metric :=
  MustNewConstMetric degradedEnvironmentsDesc GaugeValue val [namespace; name].

(** The descriptions sent on the channel. *)
Definition Describe : list Desc := [runningEnvironmentsDesc; degradedEnvironmentsDesc].

(** The collector's life: registered, until the manager stops. *)
Definition Collector_Start : process (option error) :=
  err ← ask RegisterCollector;
  match err with
  | Some _ => mret err
  | None => _ ← ask AwaitDone; _ ← ask UnregisterCollector; mret None
  end.
Definition Collector_SetupWithManager : process (option error) := ask AddCollector.

Section collector.
Context {W : Type} `{Client W} `{MapOrder}.

(** The loop over the environments: the counts, and the gauges sent. *)
Fixpoint count_envs (items : list DynamicEnv) (desPerNamespace : gmap string Z) (metrics : list Metric) :
    gmap string Z * list Metric :=
  match items with
  | [] => (desPerNamespace, metrics)
  | de :: rest =>
      let ns := de_Namespace de in
      let desPerNamespace := <[ns := (default 0 (desPerNamespace !! ns) + 1)%Z]> desPerNamespace in
      count_envs rest desPerNamespace
        (if decide (st_State (de_Status de) = Degraded)
         then metrics ++ [degradedEnvironments 1 ns (de_Name de)] else metrics)
  end.
(** The gauges sent on the channel, in order. *)
Definition Collect : M W (list Metric) :=
  r ← call ListDynamicEnvs;
  match r with
  | Err err => mret []
  | Ok items =>
      let '(desPerNamespace, metrics) := count_envs items ∅ [] in
      l ← range desPerNamespace;
      mret (metrics ++ map (fun p => runningEnvironments p.2 p.1) l)
  end.
End collector.

(** ** Lemmas *)
Definition envs_in (ns : string) (items : list DynamicEnv) : nat :=
  length (filter (fun de => de_Namespace de = ns) items).
Definition degraded (items : list DynamicEnv) : list Metric :=
  map (fun de => degradedEnvironments 1 (de_Namespace de) (de_Name de))
    (filter (fun de => st_State (de_Status de) = Degraded) items).

Lemma count_envs_spec items m acc :
  (forall ns, (count_envs items m acc).1 !! ns =
     if decide (envs_in ns items = 0) then m !! ns
     else Some (default 0 (m !! ns) + Z.of_nat (envs_in ns items))%Z) /\
  (count_envs items m acc).2 = acc ++ degraded items.
Proof.
  revert m acc. induction items as [|de items IH]; intros m acc; simpl; [by rewrite app_nil_r|].
  destruct (IH (<[de_Namespace de := (default 0 (m !! de_Namespace de) + 1)%Z]> m)
    (if decide (st_State (de_Status de) = Degraded)
     then acc ++ [degradedEnvironments 1 (de_Namespace de) (de_Name de)] else acc)) as [Hm Ha].
  split.
  - intros ns. rewrite Hm. unfold envs_in. rewrite filter_cons. destruct (decide (de_Namespace de = ns)) as [->|Hne].
    + rewrite !lookup_insert_eq. cbn [length]. fold (envs_in ns items). destruct (envs_in ns items) as [|n]; simpl; f_equal; lia.
    + by rewrite lookup_insert_ne by done.
  - rewrite Ha. unfold degraded. rewrite filter_cons. case_decide; [|done]. by rewrite <- app_assoc.
Qed.

(** What the registry checks of a metric that is sent, and panics or fails the
    scrape about: that its description was announced, and that it has as many
    label values as the description has labels. *)
Definition well_described (m : Metric) : Prop :=
  m_desc m ∈ Describe /\ length (m_labels m) = length (variableLabels (m_desc m)).
Lemma degraded_described items : Forall well_described (degraded items).
Proof.
  unfold degraded. apply Forall_fmap, Forall_forall. intros de _. split; [right; left|done].
Qed.
Lemma running_described (counts : list (string * Z)) :
  Forall well_described (map (fun p => runningEnvironments p.2 p.1) counts).
Proof. apply Forall_fmap, Forall_forall. intros p _. split; [left|done]. Qed.

(** C39.  A scrape reports the environments as they are: with one call and no change,
    [Collect] sends nothing when the listing fails, and otherwise first one gauge
    for each degraded environment, in the order listed, then, in some order and
    once each, for every namespace that has environments the number it has, and
    nothing for any other.  Every metric sent has one of the descriptions that
    [Describe] announces and a value for each of its labels. *)
Theorem Collect_spec {W} `{Client W} `{MapOrder} (c : ctx W) :
  wp Collect (fun metrics c' =>
      Forall well_described metrics /\
      exists r, cx_de c' = cx_de c /\ cx_log c' = cx_log c ++ [Event ListDynamicEnvs r] /\
        match r with
        | Err _ => metrics = []
        | Ok items => exists counts : list (string * Z),
            metrics = degraded items ++ map (fun p => runningEnvironments p.2 p.1) counts /\
            NoDup counts.*1 /\
            forall ns n, (ns, n) ∈ counts <-> n = Z.of_nat (envs_in ns items) /\ envs_in ns items <> 0
        end) c.
Proof.
  unfold Collect. apply wp_bind, wp_call. intros [items|e] w _; [|apply wp_ret; split; [done|]; by exists (Err e)].
  pose proof (count_envs_spec items ∅ []) as [Hm Ha].
  destruct (count_envs items ∅ []) as [m ms]. simpl in Hm, Ha. subst ms.
  apply wp_bind, wp_range. intros l Hl. apply wp_ret.
  split; [apply Forall_app; split; [apply degraded_described|apply running_described]|].
  exists (Ok items). split; [done|]. split; [done|].
  exists l. split; [done|]. split; [rewrite Hl; apply NoDup_fst_map_to_list|].
  intros ns n. rewrite Hl, elem_of_map_to_list, Hm, lookup_empty. case_decide; simpl; [naive_solver|].
  split; [intros [= <-]; done|by intros [-> _]].
Qed.

(** The collector is registered until the manager stops, or its start fails
    with the registry's error. *)
Lemma Collector_Start_ends {W} (host : sys -> W -> option error * W) :
  ends host Collector_Start (fun t e =>
    (exists err, t = [(RegisterCollector, Some err)] /\ e = Returned (Some err)) \/
    (exists r1 r2, t = [(RegisterCollector, None); (AwaitDone, r1); (UnregisterCollector, r2)] /\ e = Returned None)).
Proof.
  apply ends_ask. intros [err|]; [apply ends_return; left; by exists err|].
  apply ends_ask. intros r1. apply ends_ask. intros r2. apply ends_return. right. by exists r1, r2.
Qed.
