(* ===== verification/Main.v ===== *)
(** * The command (cmd/main.go)

    The flags as the standard library's [flag] package parses them, and the
    start of the operator: the scheme, the manager, the reconciler, the webhook,
    the collector, the health checks.  The flags that zap and controller-runtime
    define beside the operator's own are a parameter. *)

From Stdlib Require Import Ascii.
From stdpp Require Import base gmap sets list strings.
From S2P Require Import Prelude GoStrings Sha256 K8s Types Helpers Client Controller Process Metrics.

(** ** The list flag *)
Abbreviation arrayFlags := (list string) (only parsing).
(** [None] is the nil receiver. *)
Definition arrayFlags_String (i : option arrayFlags) : string :=
  match i with None => "" | Some l => Join "," l end.
(** The new contents, or the error. *)
Definition arrayFlags_Set (i : arrayFlags) (value : string) : result error arrayFlags :=
  let values := Split "," value in
  if existsb (fun s => bool_decide (s = "")) values
  then Err (ErrorS "comma-separated list contains empty value")
  else Ok (i ++ values).

(** ** The options *)
Record Options := mkOptions {
  metricsAddr : string;
  probeAddr : string;
  enableLeaderElection : bool;
  versionLabel : string;
  defaultVersion : string;
  labelsToRemove : arrayFlags;
}.
#[export] Instance Options_eq_dec : EqDecision Options.
Proof. solve_decision. Defined.
(** What the variables hold once the flags are defined. *)
Definition default_options : Options :=
  mkOptions ":8080" ":8081" false DefaultVersionLabel DefaultVersion [].

(** ** Package flag *)

(** [strconv.ParseBool] *)
Definition ParseBool (s : string) : option bool :=
  if Contains ["1"; "t"; "T"; "true"; "TRUE"; "True"] s then Some true
  else if Contains ["0"; "f"; "F"; "false"; "FALSE"; "False"] s then Some false
  else None.

(** A flag: whether it may stand without a value, and the assignment, [None]
    when the value is refused. *)
Record Flag := mkFlag { IsBoolFlag : bool; flag_Set : string -> Options -> option Options }.
Definition StringVar (set : string -> Options -> Options) : Flag :=
  mkFlag false (fun value o => Some (set value o)).
Definition BoolVar (set : bool -> Options -> Options) : Flag :=
  mkFlag true (fun value o => b ← ParseBool value; Some (set b o)).
Definition Var_labelsToRemove : Flag :=
  mkFlag false (fun value o =>
    match arrayFlags_Set (labelsToRemove o) value with
    | Ok l => Some (mkOptions (metricsAddr o) (probeAddr o) (enableLeaderElection o) (versionLabel o) (defaultVersion o) l)
    | Err _ => None
    end).

(** The flags of zap ([opts.BindFlags]) and of controller-runtime: whether each
    is boolean and which values it takes.  None has the name of an own flag,
    which would panic at its definition. *)
Class LibraryFlags := library_flag : string -> option (bool * (string -> bool)).

Definition own_flags : list (string * Flag) :=
  [("metrics-bind-address", StringVar (fun v o =>
      mkOptions v (probeAddr o) (enableLeaderElection o) (versionLabel o) (defaultVersion o) (labelsToRemove o)));
   ("health-probe-bind-address", StringVar (fun v o =>
      mkOptions (metricsAddr o) v (enableLeaderElection o) (versionLabel o) (defaultVersion o) (labelsToRemove o)));
   ("leader-elect", BoolVar (fun b o =>
      mkOptions (metricsAddr o) (probeAddr o) b (versionLabel o) (defaultVersion o) (labelsToRemove o)));
   ("version-label", StringVar (fun v o =>
      mkOptions (metricsAddr o) (probeAddr o) (enableLeaderElection o) v (defaultVersion o) (labelsToRemove o)));
   ("default-version", StringVar (fun v o =>
      mkOptions (metricsAddr o) (probeAddr o) (enableLeaderElection o) (versionLabel o) v (labelsToRemove o)));
   ("remove-labels", Var_labelsToRemove)].

(** What an argument is to [parseOne]: one or two dashes, a name, and maybe a
    value after the first [=]. *)
Inductive argument :=
| Positional
| Terminator
| BadSyntax
| FlagArgument (name : string) (value : option string).
Definition flag_body (name : string) : argument :=
  match name with
  | EmptyString => BadSyntax
  | String c _ =>
      if decide (c = "-"%char \/ c = "="%char) then BadSyntax
      else match SplitN2 "=" name with
           | name :: value :: _ => FlagArgument name (Some value)
           | _ => FlagArgument name None
           end
  end.
Definition argument_of (s : string) : argument :=
  match s with
  | String "-" (String "-" EmptyString) => Terminator
  | String "-" (String "-" name) => flag_body name
  | String "-" (String c name) => flag_body (String c name)
  | _ => Positional
  end.

(** [flag.Parse] on a set that exits on errors: the options and the arguments
    left, or the end of the process after the help or an error. *)
Inductive parsed :=
| Parsed (o : Options) (args : list string)
| HelpAsked
| ParseFailed.
#[export] Instance parsed_eq_dec : EqDecision parsed.
Proof. solve_decision. Defined.

Section command.
Context `{LibraryFlags}.

Definition formal (name : string) : option Flag :=
  match list_find (fun p => p.1 = name) own_flags with
  | Some (_, (_, f)) => Some f
  | None => '(isBool, accepts) ← library_flag name;
            Some (mkFlag isBool (fun value o => if accepts value : bool then Some o else None))
  end.

Fixpoint Parse (args : list string) (o : Options) : parsed :=
  match args with
  | [] => Parsed o []
  | s :: rest =>
      match argument_of s with
      | Positional => Parsed o args
      | Terminator => Parsed o rest
      | BadSyntax => ParseFailed
      | FlagArgument name value =>
          match formal name with
          | None => if decide (name = "help" \/ name = "h") then HelpAsked else ParseFailed
          | Some f =>
              if IsBoolFlag f then
                match flag_Set f (default "true" value) o with
                | Some o => Parse rest o
                | None => ParseFailed
                end
              else
                match value with
                | Some value =>
                    match flag_Set f value o with Some o => Parse rest o | None => ParseFailed end
                | None =>
                    match rest with
                    | value :: rest =>
                        match flag_Set f value o with Some o => Parse rest o | None => ParseFailed end
                    | [] => ParseFailed
                    end
                end
          end
      end
  end.

(** ** The start *)

(** Package initialisation: api/v1alpha1's [init], then main's. *)
Definition GroupVersion_riskified : GroupVersion := mkGroupVersion "riskified.com" "v1alpha1".
Definition init_api : process unit :=
  _ ← ask (RegisterTypes GroupVersion_riskified [DynamicEnvKind; DynamicEnvListKind]); mret tt.
Definition init : process unit :=
  _ ← Must (ask (AddToScheme ClientGoTypes));
  _ ← Must (ask (AddToScheme (GroupTypes GroupVersion_riskified)));
  Must (ask (AddToScheme IstioTypes)).

Definition DynamicEnvReconciler_SetupWithManager (r : DynamicEnvReconciler) : process (option error) :=
  ask (CompleteController (mkBuilder DynamicEnvKind
    [(DeploymentKind, AnnotationHandler); (DestinationRuleKind, AnnotationHandler);
     (VirtualServiceKind, AnnotationHandler)] GenerationChangedPredicate r)).
Definition SetupWebhookWithManager : process (option error) := ask (CompleteWebhook DynamicEnvKind).

Definition main (args : list string) (Getenv : string -> string) : process unit :=
  match Parse args default_options with
  | HelpAsked => Exit 0
  | ParseFailed => Exit 2
  | Parsed o _ =>
      _ ← or_exit (ask GetConfig);
      _ ← or_exit (ask (NewManager (mkManagerOptions (metricsAddr o) 9443 (probeAddr o)
                                      (enableLeaderElection o) "dynamic-environment-lock")));
      _ ← or_exit (DynamicEnvReconciler_SetupWithManager
                     (mkReconciler (versionLabel o) (defaultVersion o) (labelsToRemove o)));
      _ ← (if decide (Getenv "ENABLE_WEBHOOKS" <> "false") then or_exit SetupWebhookWithManager else mret tt);
      _ ← or_log Collector_SetupWithManager;
      _ ← or_exit (ask (AddHealthzCheck "healthz"));
      _ ← or_exit (ask (AddReadyzCheck "readyz"));
      or_exit (ask StartManager)
  end.
Definition program (args : list string) (Getenv : string -> string) : process unit :=
  _ ← init_api; _ ← init; main args Getenv.
End command.

(** ** Lemmas *)

(** The list flag reads back what it prints: [Set] fails exactly when a value
    between commas is empty, and otherwise appends the values; so a flag whose
    values are not empty and have no comma, at least one of them, is what [Set]
    makes of its [String]. *)
Lemma arrayFlags_roundtrip (flags current : list string) :
  flags <> [] -> Forall (fun s => s <> "" /\ no_char "," s = true) flags ->
  arrayFlags_Set current (arrayFlags_String (Some flags)) = Ok (current ++ flags).
Proof.
  intros Hne Hf. unfold arrayFlags_Set, arrayFlags_String. rewrite Split_Join; [|done|].
  - assert (existsb (fun s => bool_decide (s = "")) flags = false) as ->; [|done].
    apply existsb_false. intros s Hs. rewrite Forall_forall in Hf. apply bool_decide_eq_false. by apply Hf.
  - intros s Hs. rewrite Forall_forall in Hf. by apply Hf.
Qed.

(** *** Parsing *)
Lemma Contains_true l s : Contains l s = true <-> s ∈ l.
Proof. apply bool_decide_eq_true. Qed.

(** A label that may stand in the list flag. *)
Definition label_ok (s : string) : Prop := s <> "" /\ no_char "," s = true.
Lemma arrayFlags_Set_ok current value l :
  Forall label_ok current -> arrayFlags_Set current value = Ok l -> Forall label_ok l.
Proof.
  unfold arrayFlags_Set. intros Hc. destruct (existsb _ _) eqn:Hex; [done|]. intros [= <-].
  apply Forall_app. split; [done|]. apply Forall_forall. intros s Hs. split; [|by eapply Split_elem_no_char].
  intros ->. rewrite existsb_false in Hex. by specialize (Hex _ Hs).
Qed.

(** An option set is well formed if the labels to remove are labels. *)
Definition options_ok (o : Options) : Prop := Forall label_ok (labelsToRemove o).
Lemma own_flag_Set name f value o o' :
  (name, f) ∈ own_flags -> options_ok o -> flag_Set f value o = Some o' -> options_ok o'.
Proof.
  unfold own_flags. rewrite !elem_of_cons. intros Hin Ho.
  destruct_or!; simplify_eq/=; try (by intros [= <-]); try (by apply elem_of_nil in Hin).
  - by intros (b & _ & [= <-])%bind_Some.
  - destruct (arrayFlags_Set _ _) eqn:Hs; [|done]. intros [= <-]. unfold options_ok. simpl.
    by eapply arrayFlags_Set_ok.
Qed.

Section parsing.
Context `{LibraryFlags}.

Lemma formal_Set name f value o o' :
  formal name = Some f -> options_ok o -> flag_Set f value o = Some o' -> options_ok o'.
Proof.
  unfold formal. destruct (list_find _ _) as [[i [n f']]|] eqn:Hf.
  - intros [= ->] Ho. eapply own_flag_Set; [|done].
    apply list_find_Some in Hf as (Hf & _). by eapply list_elem_of_lookup_2.
  - intros ([isBool accepts] & _ & [= <-])%bind_Some Ho. simpl. case_match; [by intros [= <-]|done].
Qed.
Lemma Parse_ok args o o' rest :
  options_ok o -> Parse args o = Parsed o' rest -> options_ok o'.
Proof.
  revert o. induction args as [args IH] using (induction_ltof1 _ length). intros o Ho.
  destruct args as [|s args]; simpl; [by intros [= <- <-]|].
  destruct (argument_of s) as [| | |name value]; try done; try (by intros [= <- <-]).
  destruct (formal name) as [f|] eqn:Hf; [|by case_decide].
  destruct (IsBoolFlag f); [|destruct value as [value|]].
  - destruct (flag_Set _ _ _) as [o1|] eqn:Hs; [|done]. apply IH; [unfold ltof; simpl; lia|]. by eapply formal_Set.
  - destruct (flag_Set _ _ _) as [o1|] eqn:Hs; [|done]. apply IH; [unfold ltof; simpl; lia|]. by eapply formal_Set.
  - destruct args as [|value args]; [done|].
    destruct (flag_Set _ _ _) as [o1|] eqn:Hs; [|done]. apply IH; [unfold ltof; simpl; lia|]. by eapply formal_Set.
Qed.

(** One argument of the form [--name=value], for an own flag. *)
Lemma Parse_own arg name f value args o :
  argument_of arg = FlagArgument name (Some value) -> formal name = Some f ->
  Parse (arg :: args) o = match flag_Set f value o with Some o' => Parse args o' | None => ParseFailed end.
Proof. intros Ha Hf. cbn [Parse]. rewrite Ha, Hf. by destruct (IsBoolFlag f). Qed.
End parsing.

(** The arguments that ask for some options. *)
Definition render (o : Options) : list string :=
  [ "--metrics-bind-address=" +:+ metricsAddr o;
    "--health-probe-bind-address=" +:+ probeAddr o;
    "--leader-elect=" +:+ (if enableLeaderElection o then "true" else "false");
    "--version-label=" +:+ versionLabel o;
    "--default-version=" +:+ defaultVersion o ] ++
  (if decide (labelsToRemove o = []) then [] else ["--remove-labels=" +:+ arrayFlags_String (Some (labelsToRemove o))]).

(** C35.  The command line round trips: options whose labels are non-empty and
    without commas, written as one flag each, are what the flags of the command
    parse to from the defaults, whatever bytes the other values have and whatever
    flags the libraries add; parsing goes on with the arguments after them. *)
Theorem flags_roundtrip `{LibraryFlags} (o : Options) (args : list string) (Ho : options_ok o) :
  Parse (render o ++ args) default_options = Parse args o.
Proof.
  destruct o as [ma pa le vl dv ls]. unfold render, options_ok in *. cbn [labelsToRemove metricsAddr probeAddr
    enableLeaderElection versionLabel defaultVersion] in *. cbn [app].
  do 2 (erewrite Parse_own by reflexivity; cbn [flag_Set StringVar]).
  erewrite Parse_own by reflexivity. cbn [flag_Set BoolVar].
  assert (ParseBool (if le then "true" else "false") = Some le) as -> by by destruct le. cbn [mbind option_bind].
  do 2 (erewrite Parse_own by reflexivity; cbn [flag_Set StringVar]).
  case_decide as Hls; [by subst ls|]. cbn [app].
  erewrite Parse_own by reflexivity. cbn [flag_Set Var_labelsToRemove labelsToRemove].
  by rewrite arrayFlags_roundtrip.
Qed.

(** *** The start *)

(** The calls of a start with some options, in order. *)
Definition start_stages (o : Options) (webhooks : bool) : list stage :=
  [ mkStage GetConfig true;
    mkStage (NewManager (mkManagerOptions (metricsAddr o) 9443 (probeAddr o) (enableLeaderElection o)
                           "dynamic-environment-lock")) true;
    mkStage (CompleteController (mkBuilder DynamicEnvKind
      [(DeploymentKind, AnnotationHandler); (DestinationRuleKind, AnnotationHandler); (VirtualServiceKind, AnnotationHandler)]
      GenerationChangedPredicate (mkReconciler (versionLabel o) (defaultVersion o) (labelsToRemove o)))) true ] ++
  (if webhooks then [mkStage (CompleteWebhook DynamicEnvKind) true] else []) ++
  [ mkStage AddCollector false;
    mkStage (AddHealthzCheck "healthz") true;
    mkStage (AddReadyzCheck "readyz") true;
    mkStage StartManager true ].
Section start.
Context `{LibraryFlags} {W : Type} (host : sys -> W -> option error * W).

Lemma ends_or_exit_last c : ends host (or_exit (ask c)) (follows tt [mkStage c true]).
Proof.
  apply ends_ask. intros [err|]; simpl.
  - apply ends_exit. by apply (follows_stop _ (mkStage c true)).
  - apply ends_return. by apply (follows_pass _ (mkStage c true)); [|constructor].
Qed.
Lemma main_follows args Getenv o rest :
  Parse args default_options = Parsed o rest ->
  ends host (main args Getenv) (follows tt (start_stages o (negb (bool_decide (Getenv "ENABLE_WEBHOOKS" = "false"))))).
Proof.
  intros Hp. unfold main. rewrite Hp. unfold start_stages. cbn [app]. do 3 apply ends_or_exit.
  assert (Hrest : ends host (_ ← or_log Collector_SetupWithManager; _ ← or_exit (ask (AddHealthzCheck "healthz"));
      _ ← or_exit (ask (AddReadyzCheck "readyz")); or_exit (ask StartManager))
    (follows tt (drop 3 (start_stages o false)))).
  { apply ends_or_log. do 2 apply ends_or_exit. apply ends_or_exit_last. }
  case_decide as Hw.
  - rewrite bool_decide_eq_false_2 by done. by apply ends_or_exit.
  - rewrite bool_decide_eq_true_2 by done. exact Hrest.
Qed.
(** The packages' initialisation adds the three groups of types, or panics at the
    first that cannot be added. *)
Lemma init_ends :
  ends host (_ ← init_api; init) (fun t e =>
    let calls := [RegisterTypes GroupVersion_riskified [DynamicEnvKind; DynamicEnvListKind]; AddToScheme ClientGoTypes;
                  AddToScheme (GroupTypes GroupVersion_riskified); AddToScheme IstioTypes] in
    t.*1 `prefix_of` calls /\ ((e = Returned tt /\ t.*1 = calls) \/
      (e = Crashed /\ exists before c err, t = before ++ [(c, Some err)]))).
Proof.
  apply ends_ask. intros r0.
  apply ends_ask. intros [err|]; [apply ends_crash|].
  { split; [by eexists|]. right. split; [done|]. by eexists [_], _, _. }
  apply ends_ask. intros [err|]; [apply ends_crash|].
  { split; [by eexists|]. right. split; [done|]. by eexists [_; _], _, _. }
  apply ends_ask. intros [err|]; [apply ends_crash|].
  { split; [by eexists|]. right. split; [done|]. by eexists [_; _; _], _, _. }
  apply ends_return. split; [done|]. by left.
Qed.
End start.

(** C20.  The operator starts only as a whole.  A command line that asks for help
    or does not parse ends the process with status 0 or 2 before any call.
    Otherwise the calls are the stages in order: the configuration, the manager
    with the addresses and the election asked for, the reconciler with the
    labels and version asked for (each label to remove non-empty and without
    commas), the webhook unless ENABLE_WEBHOOKS is [false], the collector, the
    checks, and only then the manager's start.  The command returns when they
    all passed; else it ends with status 1 right after the call that failed,
    which is never the collector's: its failure is only logged. *)
Theorem main_starts `{LibraryFlags} {W} (host : sys -> W -> option error * W) (args : list string)
    (Getenv : string -> string) :
  ends host (main args Getenv) (fun calls e =>
    match Parse args default_options with
    | HelpAsked => calls = [] /\ e = Exited 0
    | ParseFailed => calls = [] /\ e = Exited 2
    | Parsed o _ =>
        let stages := start_stages o (negb (bool_decide (Getenv "ENABLE_WEBHOOKS" = "false"))) in
        options_ok o /\ calls.*1 `prefix_of` map stage_call stages /\
        (e = Returned tt -> calls.*1 = map stage_call stages /\
           forall c err, (c, Some err) ∈ calls -> c = AddCollector) /\
        (e <> Returned tt -> e = Exited 1 /\
           exists before c err, calls = before ++ [(c, Some err)] /\ c <> AddCollector)
    end).
Proof.
  destruct (Parse args default_options) as [o rest| |] eqn:Hp.
  - eapply ends_mono; [by eapply main_follows|]. intros t e Ht. split; [eapply Parse_ok; [|exact Hp]; by constructor|].
    split; [by eapply follows_prefix|]. split.
    + intros ->. apply follows_returned in Ht as (_ & Hc & Hf). split; [done|].
      intros c err (i & Hi)%list_elem_of_lookup.
      assert (Hs : stage_call <$> (start_stages o (negb (bool_decide (Getenv "ENABLE_WEBHOOKS" = "false")))) !! i = Some c).
      { rewrite <- list_lookup_fmap. change (stage_call <$> ?l) with (map stage_call l). rewrite <- Hc, list_lookup_fmap, Hi. done. }
      apply fmap_Some in Hs as (s & Hs & ->). pose proof (Forall2_lookup_lr _ _ _ _ _ _ Hf Hs Hi) as Hpass.
      apply list_elem_of_lookup_2 in Hs. unfold start_stages in Hs.
      by destruct (negb _); set_unfold in Hs; destruct_or!; subst s; try (by specialize (Hpass eq_refl)).
    + intros He. destruct (follows_stopped _ _ _ _ Ht He) as (-> & l & c & err & -> & Hin). split; [done|].
      exists l, c, err. split; [done|]. intros ->. unfold start_stages in Hin.
      by destruct (negb _); set_unfold in Hin; destruct_or!; simplify_eq.
  - unfold main. rewrite Hp. by apply ends_exit.
  - unfold main. rewrite Hp. by apply ends_exit.
Qed.

(** *** A command line *)
Module MainExample.
(** The flags of zap that take any value, and controller-runtime's. *)
#[export] Instance library : LibraryFlags := fun name =>
  if decide (name = "zap-devel") then Some (true, fun v => bool_decide (is_Some (ParseBool v)))
  else if decide (name = "kubeconfig") then Some (false, fun _ => true) else None.
Definition options : Options := mkOptions ":8080" ":8081" true "version" "shared" ["argocd.argoproj.io/instance"; "team"].
End MainExample.

Lemma flags_roundtrip_witness :
  Parse (H:=MainExample.library) (render MainExample.options ++ ["--zap-devel"; "-kubeconfig"; "k=v"; "left"]) default_options
  = Parsed MainExample.options ["left"].
Proof.
  rewrite (flags_roundtrip (H:=MainExample.library) MainExample.options); [reflexivity|]. repeat constructor; discriminate.
Defined.
Example flags_repeat :
  Parse (H:=MainExample.library) ["--remove-labels"; "a,b"; "-remove-labels=c"; "--leader-elect"; "--"; "-x"] default_options
  = Parsed (mkOptions ":8080" ":8081" true "version" "shared" ["a"; "b"; "c"]) ["-x"].
Proof. reflexivity. Qed.
Example flags_refused :
  map (fun args => Parse (H:=MainExample.library) args default_options)
    [["--remove-labels=a,,b"]; ["--leader-elect=maybe"]; ["--version-label"]; ["--h"]; ["---x"]; ["--unknown"]]
  = [ParseFailed; ParseFailed; ParseFailed; HelpAsked; ParseFailed; ParseFailed].
Proof. reflexivity. Qed.
