(* ===== verification/DeepCopy.v ===== *)
(** * The deep copies of the API types (api/v1alpha1/zz_generated.deepcopy.go)

    Elsewhere values are immutable and a shared pointer is modelled where the
    code observes it.  What makes that sound for the objects of the informer
    cache is [DeepCopy]: client-go and controller-runtime copy an object before
    they hand it out.  Here the API types are modelled with the addresses of
    everything a Go value refers to, slices, maps and pointers, and each
    generated [DeepCopyInto] is the code that allocates anew, field by field.
    The theorem is that a copy is equal to its original up to addresses and
    shares no address with it, nor has one address twice. *)

From stdpp Require Import base gmap sets list strings.
From S2P Require Import Prelude K8s Types Helpers Client Model.

(** ** Values with addresses *)

(** A slice that may be nil: the address of its array, and the elements.  A map
    that may be nil likewise. *)
Abbreviation slice A := (option (ptr (list A))).
Abbreviation mapref V := (option (ptr (gmap string V))).

(** The addresses a value refers to, and the value without them. *)
Class Addressed (A : Type) := {
  addresses : A -> list nat;
  erase : A -> A;
}.
(** [func (in *A) DeepCopyInto(out *A)]: what ends up in [out]. *)
Class DeepCopyable (W A : Type) := DeepCopyInto : A -> M W A.

Section addressed.
Context {A : Type} `{Addressed A}.
#[export] Instance ptr_Addressed : Addressed (option (ptr A)) := {|
  addresses := fun p => match p with Some p => ptr_addr p :: addresses (ptr_val p) | None => [] end;
  erase := fmap (fun p => mkPtr 0 (erase (ptr_val p)));
|}.
#[export] Instance list_Addressed : Addressed (list A) := {|
  addresses := fun l => l ≫= addresses;
  erase := fmap erase;
|}.
#[export] Instance gmap_Addressed : Addressed (gmap string A) := {|
  addresses := fun m => map_to_list m ≫= addresses ∘ snd;
  erase := fmap erase;
|}.
End addressed.

(** Values that refer to nothing. *)
Class Flat (A : Type) `{Addressed A} : Prop := {
  flat_addresses : forall x : A, addresses x = [];
  flat_erase : forall x : A, erase x = x;
}.
Definition flat_Addressed {A} : Addressed A := {| addresses := fun _ => []; erase := fun x => x |}.
#[export] Instance string_Addressed : Addressed string := flat_Addressed.
#[export] Instance string_Flat : Flat string.
Proof. done. Qed.
#[export] Instance Z_Addressed : Addressed Z := flat_Addressed.
#[export] Instance Z_Flat : Flat Z.
Proof. done. Qed.
#[export] Instance StringMatch_Addressed : Addressed StringMatch := flat_Addressed.
#[export] Instance StringMatch_Flat : Flat StringMatch.
Proof. done. Qed.
#[export] Instance ResourceStatus_Addressed : Addressed ResourceStatus := flat_Addressed.
#[export] Instance ResourceStatus_Flat : Flat ResourceStatus.
Proof. done. Qed.
#[export] Instance EnvVar_Addressed : Addressed EnvVar := {|
  addresses := fun e => match ev_ValueFrom e with Some p => [ptr_addr p] | None => [] end;
  erase := fun e => mkEnvVar (ev_Name e) (ev_Value e)
                      ((fun p => mkPtr 0 (ptr_val p)) <$> ev_ValueFrom e);
|}.

(** ** The generated blocks *)
Section blocks.
Context {W : Type} `{MapOrder} {A : Type}.

(** [new(T)], [make(...)] *)
Definition new_address : M W nat := alloc (fun n => (n, S n)).

(** [for i := range *in { in[i].DeepCopyInto(&out[i]) }] *)
Fixpoint copy_elements `{DeepCopyable W A} (l : list A) : M W (list A) :=
  match l with
  | [] => mret []
  | x :: rest => y ← DeepCopyInto x; ys ← copy_elements rest; mret (y :: ys)
  end.
Definition copy_slice `{DeepCopyable W A} (in_ : slice A) : M W (slice A) :=
  match in_ with
  | None => mret None
  | Some p => a ← new_address; l ← copy_elements (ptr_val p); mret (Some (mkPtr a l))
  end.
(** [make] and the built-in [copy] *)
Definition copy_flat_slice (in_ : slice A) : M W (slice A) :=
  match in_ with
  | None => mret None
  | Some p => a ← new_address; mret (Some (mkPtr a (ptr_val p)))
  end.
(** [for key, val := range *in { out[key] = val }] *)
Definition copy_flat_map (in_ : mapref A) : M W (mapref A) :=
  match in_ with
  | None => mret None
  | Some p =>
      a ← new_address;
      entries ← range (ptr_val p);
      out ← lift (set_all id entries (Some ∅));
      mret ((fun m => mkPtr a m) <$> out)
  end.
(** [in.DeepCopyInto( *out)] after [*out = new(T)] *)
Definition copy_pointer `{DeepCopyable W A} (in_ : option (ptr A)) : M W (option (ptr A)) :=
  match in_ with
  | None => mret None
  | Some p => a ← new_address; v ← DeepCopyInto (ptr_val p); mret (Some (mkPtr a v))
  end.
(** [*out = new(T); **out = **in] *)
Definition copy_flat_pointer (in_ : option (ptr A)) : M W (option (ptr A)) :=
  match in_ with
  | None => mret None
  | Some p => a ← new_address; mret (Some (mkPtr a (ptr_val p)))
  end.
(** [DeepCopy] has this body for every type. *)
Definition DeepCopy `{DeepCopyable W A} (in_ : option (ptr A)) : M W (option (ptr A)) :=
  match in_ with
  | None => mret None
  | Some p =>
      out ← new_address;
      v ← DeepCopyInto (ptr_val p);
      mret (Some (mkPtr out v))
  end.
(** [for key, val := range *in { out[key] = *val.DeepCopy() }]; [val] has an
    address of its own, the copy is dereferenced. *)
Fixpoint copy_entries `{DeepCopyable W A} (entries : list (string * A)) (out : gmap string A) :
    M W (gmap string A) :=
  match entries with
  | [] => mret out
  | (key, val) :: rest =>
      v ← DeepCopy (Some (mkPtr 0 val));
      match v with
      | None => panic
      | Some v => copy_entries rest (<[key := ptr_val v]> out)
      end
  end.
Definition copy_map `{DeepCopyable W A} (in_ : mapref A) : M W (mapref A) :=
  match in_ with
  | None => mret None
  | Some p =>
      a ← new_address;
      entries ← range (ptr_val p);
      out ← copy_entries entries ∅;
      mret (Some (mkPtr a out))
  end.
End blocks.

(** ** Reasoning about allocation

    [allocates m Q]: [m] returns, changes nothing but the allocator and the loop
    counter, and [Q] holds of its result and of distinct addresses that were
    free before and are allocated after. *)
Definition fresh_between (lo hi : nat) (l : list nat) : Prop :=
  lo <= hi /\ NoDup l /\ Forall (fun a => lo <= a < hi) l.
Definition same_but_heap {W} (c c' : ctx W) : Prop :=
  cx_world c' = cx_world c /\ cx_de c' = cx_de c /\ cx_log c' = cx_log c.
Definition allocates {W A} (m : M W A) (Q : A -> list nat -> Prop) : Prop :=
  forall c, wp m (fun a c' => same_but_heap c c' /\
    exists l, fresh_between (cx_next c) (cx_next c') l /\ Q a l) c.
(** [m] makes a copy of [x]. *)
Definition copies_value {W A} `{Addressed A} (x : A) (m : M W A) : Prop :=
  allocates m (fun y l => erase y = erase x /\ addresses y ⊆+ l).
Class DeepCopyLaw (W A : Type) `{Addressed A} `{DeepCopyable W A} : Prop :=
  deep_copy_law : forall x : A, copies_value x (DeepCopyInto (W:=W) x).

Lemma fresh_between_app lo mid hi l l' :
  fresh_between lo mid l -> fresh_between mid hi l' -> fresh_between lo hi (l ++ l').
Proof.
  intros (Hlo & Hnd & Hf) (Hhi & Hnd' & Hf'). rewrite Forall_forall in Hf, Hf'. split; [lia|]. split.
  - apply NoDup_app. split; [done|]. split; [|done]. intros a Ha Ha'. specialize (Hf _ Ha). specialize (Hf' _ Ha').
    simpl in *. lia.
  - apply Forall_forall. intros a [Ha|Ha]%elem_of_app; [specialize (Hf _ Ha)|specialize (Hf' _ Ha)]; simpl in *; lia.
Qed.

Section allocates.
Context {W : Type}.
Lemma allocates_ret {A} (a : A) (Q : A -> list nat -> Prop) : Q a [] -> allocates (W:=W) (mret a) Q.
Proof.
  intros HQ c. apply wp_ret. split; [done|]. exists []. split; [|done]. split; [lia|]. split; constructor.
Qed.
Lemma allocates_bind {A B} (m : M W A) (f : A -> M W B) (P : A -> list nat -> Prop) Q :
  allocates m P -> (forall a l, P a l -> allocates (f a) (fun b l' => Q b (l ++ l'))) ->
  allocates (m ≫= f) Q.
Proof.
  intros Hm Hf c. apply wp_bind. eapply wp_mono; [|apply Hm]. intros a c1 ((Hw & Hd & Hlog) & l & Hl & HP).
  eapply wp_mono; [|apply (Hf a l HP)]. intros b c2 ((Hw' & Hd' & Hlog') & l' & Hl' & HQ).
  split; [split_and!; congruence|]. exists (l ++ l'). split; [|done]. by eapply fresh_between_app.
Qed.
Lemma allocates_mono {A} (m : M W A) (P Q : A -> list nat -> Prop) :
  allocates m P -> (forall a l, P a l -> Q a l) -> allocates m Q.
Proof. intros Hm HPQ c. eapply wp_mono; [|apply Hm]. intros a c1 (? & l & ? & ?). eauto. Qed.
Lemma allocates_new (Q : nat -> list nat -> Prop) : (forall a, Q a [a]) -> allocates (W:=W) new_address Q.
Proof.
  intros HQ c. apply wp_alloc. split; [done|]. exists [cx_next c]. simpl. split; [|done].
  split; [lia|]. split; [apply NoDup_singleton|]. apply Forall_singleton. lia.
Qed.
Lemma allocates_range `{MapOrder} {V} (m : gmap string V) (Q : list (string * V) -> list nat -> Prop) :
  (forall l, l ≡ₚ map_to_list m -> Q l []) -> allocates (W:=W) (range m) Q.
Proof.
  intros HQ c. apply wp_range. intros l Hl. split; [done|]. exists []. split; [|by apply HQ].
  split; [simpl; lia|]. split; constructor.
Qed.
Lemma allocates_lift {A} (a : A) (Q : A -> list nat -> Prop) : Q a [] -> allocates (W:=W) (lift (Ret a)) Q.
Proof. intros HQ. by apply (allocates_ret a). Qed.
End allocates.

(** ** The blocks copy *)
Section block_laws.
Context {W : Type} `{MapOrder} {A : Type} `{Addressed A}.

Lemma flat_list `{!Flat A} (l : list A) : addresses l = [] /\ erase l = l.
Proof.
  induction l as [|x l [Ha He]]; [done|]. cbn in *. rewrite flat_addresses, flat_erase, He. by rewrite Ha.
Qed.
Lemma flat_gmap `{!Flat A} (m : gmap string A) : addresses m = [] /\ erase m = m.
Proof.
  split.
  - cbn. induction (map_to_list m) as [|[k x] l IH]; [done|]. rewrite bind_cons, IH. cbn.
    by rewrite flat_addresses.
  - cbn. rewrite <- (map_fmap_id m) at 2. apply map_fmap_ext. intros k x _. apply flat_erase.
Qed.

(** A new cell holding a copy. *)
Lemma copies_cell {B} `{Addressed B} (p : ptr B) (m : M W B) :
  copies_value (ptr_val p) m ->
  copies_value (Some p) (a ← new_address; v ← m; mret (Some (mkPtr a v))).
Proof.
  intros Hm. eapply allocates_bind; [apply (allocates_new (fun a l => l = [a])); done|]. intros a ? ->.
  eapply allocates_bind; [apply Hm|]. intros v l [He Ha]. apply allocates_ret. cbn. rewrite He.
  split; [done|]. rewrite app_nil_r. by constructor.
Qed.
Lemma copies_same `{!Flat A} (x : A) : copies_value x (mret (M:=M W) x).
Proof. apply allocates_ret. by rewrite flat_addresses. Qed.

Section deep.
Context `{DeepCopyable W A} `{!DeepCopyLaw W A}.
Lemma copies_elements (l : list A) : copies_value l (copy_elements l).
Proof.
  induction l as [|x l IH]; [by apply allocates_ret|]. cbn [copy_elements].
  eapply allocates_bind; [apply deep_copy_law|]. intros y ly [Hy Hly].
  eapply allocates_bind; [apply IH|]. intros ys lys [Hys Hlys]. apply allocates_ret. cbn in *.
  rewrite Hy, Hys, app_nil_r. split; [done|]. by apply submseteq_app.
Qed.
Lemma copies_DeepCopy (in_ : option (ptr A)) : copies_value in_ (DeepCopy in_).
Proof. destruct in_ as [p|]; [|by apply allocates_ret]. apply copies_cell, deep_copy_law. Qed.
Lemma DeepCopy_Some (p : ptr A) :
  allocates (W:=W) (DeepCopy (Some p)) (fun out l => exists v, out = Some v /\
    erase (ptr_val v) = erase (ptr_val p) /\ addresses (ptr_val v) ⊆+ l).
Proof.
  eapply allocates_bind; [by apply (allocates_new (fun _ _ => True))|]. intros a la _.
  eapply allocates_bind; [apply deep_copy_law|]. intros v l [He Ha]. apply allocates_ret. eexists.
  split; [done|]. split; [done|]. rewrite app_nil_r. by apply submseteq_inserts_l.
Qed.
Lemma copies_slice (in_ : slice A) : copies_value in_ (copy_slice in_).
Proof. destruct in_ as [p|]; [|by apply allocates_ret]. apply copies_cell, copies_elements. Qed.
Lemma copies_pointer (in_ : option (ptr A)) : copies_value in_ (copy_pointer in_).
Proof. exact (copies_DeepCopy in_). Qed.

(** The new map has the erased entries, and the addresses of the copies. *)
Lemma addresses_insert (m : gmap string A) k x :
  m !! k = None -> addresses (<[k:=x]> m) ≡ₚ addresses x ++ addresses m.
Proof. intros Hk. cbn. by rewrite map_to_list_insert. Qed.
Lemma allocates_entries (l : list (string * A)) (out : gmap string A) :
  NoDup l.*1 -> (forall k, k ∈ l.*1 -> out !! k = None) ->
  allocates (copy_entries (W:=W) l out) (fun y al =>
    erase y = list_to_map (prod_map id erase <$> l) ∪ erase out /\
    exists more, addresses y ≡ₚ more ++ addresses out /\ more ⊆+ al).
Proof.
  revert out. induction l as [|[k x] l IH]; intros out Hnd Hout; cbn [copy_entries].
  { apply allocates_ret. cbn. rewrite (left_id_L ∅ (∪)). split; [done|]. by exists []. }
  rewrite fmap_cons in Hnd. apply NoDup_cons in Hnd as [Hk Hnd]. cbn in Hk.
  eapply allocates_bind; [apply DeepCopy_Some|]. intros ? al (v & -> & Hv & Hal). cbn in Hv.
  eapply allocates_mono; [apply IH; [done|]|].
  - intros j Hj. rewrite lookup_insert_ne by (intros ->; done). apply Hout. by right.
  - intros y al' (Hy & more & Hp & Hmore). split.
    + rewrite Hy. cbn. rewrite fmap_insert, Hv. cbn. rewrite <- insert_union_l. symmetry.
      apply insert_union_r, not_elem_of_list_to_map. rewrite <- list_fmap_compose. by intros Hin%Hk.
    + exists (more ++ addresses (ptr_val v)). rewrite Hp, addresses_insert by by apply Hout; left.
      split; [by rewrite app_assoc|]. rewrite (Permutation_app_comm al). by apply submseteq_app.
Qed.
Lemma copies_map (in_ : mapref A) : copies_value in_ (copy_map in_).
Proof.
  destruct in_ as [p|]; [|by apply allocates_ret].
  refine (copies_cell p (l ← range (ptr_val p); copy_entries l ∅) _).
  eapply allocates_bind; [by apply (allocates_range _ (fun l al => l ≡ₚ map_to_list (ptr_val p) /\ al = []))|].
  intros l ? [Hl ->]. eapply allocates_mono; [apply allocates_entries|].
  - rewrite Hl. apply NoDup_fst_map_to_list.
  - intros k _. apply lookup_empty.
  - intros y al (Hy & more & Hp & Hmore). split.
    + rewrite Hy. cbn. by rewrite fmap_empty, (right_id_L ∅ (∪)), (list_to_map_range erase (ptr_val p)).
    + rewrite Hp. cbn. rewrite map_to_list_empty, app_nil_r. done.
Qed.
End deep.

Section flat.
Context `{!Flat A}.
Lemma copies_flat_slice (in_ : slice A) : copies_value in_ (copy_flat_slice (W:=W) in_).
Proof.
  destruct in_ as [p|]; [|by apply allocates_ret]. refine (copies_cell p (mret (ptr_val p)) _).
  apply allocates_ret. by rewrite (proj1 (flat_list _)).
Qed.
Lemma copies_flat_pointer (in_ : option (ptr A)) : copies_value in_ (copy_flat_pointer (W:=W) in_).
Proof.
  destruct in_ as [p|]; [|by apply allocates_ret]. refine (copies_cell p (mret (ptr_val p)) _).
  apply copies_same.
Qed.
Lemma copies_flat_map (in_ : mapref A) : copies_value in_ (copy_flat_map (W:=W) in_).
Proof.
  destruct in_ as [p|]; [|by apply allocates_ret]. unfold copy_flat_map.
  eapply allocates_bind; [apply (allocates_new (fun a l => l = [a])); done|]. intros a ? ->.
  eapply allocates_bind; [by apply (allocates_range _ (fun l al => l ≡ₚ map_to_list (ptr_val p) /\ al = []))|].
  intros l ? [Hl ->]. rewrite (set_all_map_to_list id (ptr_val p)) by done.
  apply allocates_lift. rewrite (right_id_L ∅ (∪)), map_fmap_id. split; [done|]. simpl.
  change (a :: addresses (ptr_val p) ⊆+ [a]). by rewrite (proj1 (flat_gmap _)).
Qed.
End flat.
End block_laws.

(** ** The library's types

    [metav1.Time], [metav1.ObjectMeta] and [metav1.ListMeta] come with copies of
    their own, which are assumed to be copies.  [EnvVar]'s is the function of
    [Helpers]. *)
Class ApiMachinery (W : Type) := {
  Time : Type;
  ObjectMeta : Type;
  ListMeta : Type;
  Time_Addressed :: Addressed Time;
  ObjectMeta_Addressed :: Addressed ObjectMeta;
  ListMeta_Addressed :: Addressed ListMeta;
  Time_DeepCopyInto :: DeepCopyable W Time;
  ObjectMeta_DeepCopyInto :: DeepCopyable W ObjectMeta;
  ListMeta_DeepCopyInto :: DeepCopyable W ListMeta;
}.
Class ApiMachineryLaws (W : Type) `{ApiMachinery W} : Prop := {
  Time_law :: DeepCopyLaw W Time;
  ObjectMeta_law :: DeepCopyLaw W ObjectMeta;
  ListMeta_law :: DeepCopyLaw W ListMeta;
}.
#[export] Instance EnvVar_DeepCopyInto {W} : DeepCopyable W EnvVar := fun e => alloc (EnvVar_DeepCopy e).
#[export] Instance EnvVar_law {W} : DeepCopyLaw W EnvVar.
Proof.
  intros e c. apply wp_alloc. split; [done|]. destruct e as [n v [p|]].
  - exists [cx_next c]. cbn. split; [|done]. split; [lia|]. split; [apply NoDup_singleton|].
    apply Forall_singleton. lia.
  - exists []. cbn. split; [|done]. split; [lia|]. split; constructor.
Qed.

(** [metav1.TypeMeta]: two strings. *)
Record TypeMeta := mkTypeMeta { tm_Kind : string; tm_APIVersion : string }.

(** ** The API types *)
Section types.
Context {W : Type} `{ApiMachinery W}.

Record ContainerOverrides := mkContainerOverrides {
  ContainerName : string;
  Image : string;
  Command : slice string;
  Env : slice EnvVar;
}.
Record IstioMatch := mkIstioMatch {
  Headers : mapref StringMatch;
  SourceLabels : mapref string;
}.
Record Subset := mkSubset {
  Subset_Name : string;
  Subset_Namespace : string;
  PodLabels : mapref string;
  Replicas : option (ptr Z);
  Containers : slice ContainerOverrides;
  InitContainers : slice ContainerOverrides;
  DefaultVersion : string;
}.
Record DynamicEnvSpec := mkDynamicEnvSpec {
  IstioMatches : slice IstioMatch;
  Subsets : slice Subset;
  Consumers : slice Subset;
}.
Record StatusError := mkStatusError {
  StatusError_Error : string;
  LastOccurrence : Time;
}.
Record SubsetErrors := mkSubsetErrors {
  Errors_Deployment : slice StatusError;
  Errors_DestinationRule : slice StatusError;
  Errors_VirtualServices : slice StatusError;
  Errors_Subset : slice StatusError;
}.
Record SubsetMessages := mkSubsetMessages {
  Messages_Deployment : slice string;
  Messages_DestinationRule : slice string;
  Messages_VirtualService : slice string;
  Messages_GlobalErrors : slice string;
}.
Record SubsetStatus := mkSubsetStatus {
  SubsetStatus_Deployment : ResourceStatus;
  SubsetStatus_DestinationRules : slice ResourceStatus;
  SubsetStatus_VirtualServices : slice ResourceStatus;
  SubsetStatus_Errors : option (ptr SubsetErrors);
  SubsetStatus_Hash : Z;
}.
Record ConsumerStatus := mkConsumerStatus {
  ConsumerStatus_ResourceStatus : ResourceStatus;
  ConsumerStatus_Hash : Z;
  ConsumerStatus_Errors : slice StatusError;
}.
Record DynamicEnvStatus := mkDynamicEnvStatus {
  SubsetsStatus : mapref SubsetStatus;
  ConsumersStatus : mapref ConsumerStatus;
  State : GlobalReadyStatus;
  TotalCount : Z;
  TotalReady : Z;
}.
Record DynamicEnv := mkDynamicEnv {
  DynamicEnv_TypeMeta : TypeMeta;
  DynamicEnv_ObjectMeta : ObjectMeta;
  Spec : DynamicEnvSpec;
  Status : DynamicEnvStatus;
}.
Record DynamicEnvList := mkDynamicEnvList {
  DynamicEnvList_TypeMeta : TypeMeta;
  DynamicEnvList_ListMeta : ListMeta;
  Items : slice DynamicEnv;
}.

(** What they refer to. *)
#[export] Instance ContainerOverrides_Addressed : Addressed ContainerOverrides := {|
  addresses := fun x => addresses (Command x) ++ addresses (Env x) ++ [];
  erase := fun x => mkContainerOverrides (ContainerName x) (Image x) (erase (Command x)) (erase (Env x));
|}.
#[export] Instance IstioMatch_Addressed : Addressed IstioMatch := {|
  addresses := fun x => addresses (Headers x) ++ addresses (SourceLabels x) ++ [];
  erase := fun x => mkIstioMatch (erase (Headers x)) (erase (SourceLabels x));
|}.
#[export] Instance Subset_Addressed : Addressed Subset := {|
  addresses := fun x => addresses (PodLabels x) ++ addresses (Replicas x) ++ addresses (Containers x) ++
                        addresses (InitContainers x) ++ [];
  erase := fun x => mkSubset (Subset_Name x) (Subset_Namespace x) (erase (PodLabels x)) (erase (Replicas x))
                      (erase (Containers x)) (erase (InitContainers x)) (DefaultVersion x);
|}.
#[export] Instance DynamicEnvSpec_Addressed : Addressed DynamicEnvSpec := {|
  addresses := fun x => addresses (IstioMatches x) ++ addresses (Subsets x) ++ addresses (Consumers x) ++ [];
  erase := fun x => mkDynamicEnvSpec (erase (IstioMatches x)) (erase (Subsets x)) (erase (Consumers x));
|}.
#[export] Instance StatusError_Addressed : Addressed StatusError := {|
  addresses := fun x => addresses (LastOccurrence x) ++ [];
  erase := fun x => mkStatusError (StatusError_Error x) (erase (LastOccurrence x));
|}.
#[export] Instance SubsetErrors_Addressed : Addressed SubsetErrors := {|
  addresses := fun x => addresses (Errors_Deployment x) ++ addresses (Errors_DestinationRule x) ++
                        addresses (Errors_VirtualServices x) ++ addresses (Errors_Subset x) ++ [];
  erase := fun x => mkSubsetErrors (erase (Errors_Deployment x)) (erase (Errors_DestinationRule x))
                      (erase (Errors_VirtualServices x)) (erase (Errors_Subset x));
|}.
#[export] Instance SubsetMessages_Addressed : Addressed SubsetMessages := {|
  addresses := fun x => addresses (Messages_Deployment x) ++ addresses (Messages_DestinationRule x) ++
                        addresses (Messages_VirtualService x) ++ addresses (Messages_GlobalErrors x) ++ [];
  erase := fun x => mkSubsetMessages (erase (Messages_Deployment x)) (erase (Messages_DestinationRule x))
                      (erase (Messages_VirtualService x)) (erase (Messages_GlobalErrors x));
|}.
#[export] Instance SubsetStatus_Addressed : Addressed SubsetStatus := {|
  addresses := fun x => addresses (SubsetStatus_DestinationRules x) ++
                        addresses (SubsetStatus_VirtualServices x) ++ addresses (SubsetStatus_Errors x) ++ [];
  erase := fun x => mkSubsetStatus (SubsetStatus_Deployment x) (erase (SubsetStatus_DestinationRules x))
                      (erase (SubsetStatus_VirtualServices x)) (erase (SubsetStatus_Errors x))
                      (SubsetStatus_Hash x);
|}.
#[export] Instance ConsumerStatus_Addressed : Addressed ConsumerStatus := {|
  addresses := fun x => addresses (ConsumerStatus_Errors x) ++ [];
  erase := fun x => mkConsumerStatus (ConsumerStatus_ResourceStatus x) (ConsumerStatus_Hash x)
                      (erase (ConsumerStatus_Errors x));
|}.
#[export] Instance DynamicEnvStatus_Addressed : Addressed DynamicEnvStatus := {|
  addresses := fun x => addresses (SubsetsStatus x) ++ addresses (ConsumersStatus x) ++ [];
  erase := fun x => mkDynamicEnvStatus (erase (SubsetsStatus x)) (erase (ConsumersStatus x)) (State x)
                      (TotalCount x) (TotalReady x);
|}.
#[export] Instance DynamicEnv_Addressed : Addressed DynamicEnv := {|
  addresses := fun x => addresses (DynamicEnv_ObjectMeta x) ++ addresses (Spec x) ++ addresses (Status x) ++ [];
  erase := fun x => mkDynamicEnv (DynamicEnv_TypeMeta x) (erase (DynamicEnv_ObjectMeta x)) (erase (Spec x))
                      (erase (Status x));
|}.
#[export] Instance DynamicEnvList_Addressed : Addressed DynamicEnvList := {|
  addresses := fun x => addresses (DynamicEnvList_ListMeta x) ++ addresses (Items x) ++ [];
  erase := fun x => mkDynamicEnvList (DynamicEnvList_TypeMeta x) (erase (DynamicEnvList_ListMeta x))
                      (erase (Items x));
|}.

(** ** The generated functions: [*out = *in], then the fields that refer to
    something are copied. *)
Context `{MapOrder}.

#[export] Instance StringMatch_DeepCopyInto : DeepCopyable W StringMatch := fun in_ => mret in_.
#[export] Instance ResourceStatus_DeepCopyInto : DeepCopyable W ResourceStatus := fun in_ => mret in_.
#[export] Instance ContainerOverrides_DeepCopyInto : DeepCopyable W ContainerOverrides := fun in_ =>
  command ← copy_flat_slice (Command in_);
  env ← copy_slice (Env in_);
  mret (mkContainerOverrides (ContainerName in_) (Image in_) command env).
#[export] Instance IstioMatch_DeepCopyInto : DeepCopyable W IstioMatch := fun in_ =>
  headers ← copy_flat_map (Headers in_);
  sourceLabels ← copy_flat_map (SourceLabels in_);
  mret (mkIstioMatch headers sourceLabels).
#[export] Instance Subset_DeepCopyInto : DeepCopyable W Subset := fun in_ =>
  podLabels ← copy_flat_map (PodLabels in_);
  replicas ← copy_flat_pointer (Replicas in_);
  containers ← copy_slice (Containers in_);
  initContainers ← copy_slice (InitContainers in_);
  mret (mkSubset (Subset_Name in_) (Subset_Namespace in_) podLabels replicas containers initContainers
          (DefaultVersion in_)).
#[export] Instance DynamicEnvSpec_DeepCopyInto : DeepCopyable W DynamicEnvSpec := fun in_ =>
  istioMatches ← copy_slice (IstioMatches in_);
  subsets ← copy_slice (Subsets in_);
  consumers ← copy_slice (Consumers in_);
  mret (mkDynamicEnvSpec istioMatches subsets consumers).
#[export] Instance StatusError_DeepCopyInto : DeepCopyable W StatusError := fun in_ =>
  lastOccurrence ← DeepCopyInto (LastOccurrence in_);
  mret (mkStatusError (StatusError_Error in_) lastOccurrence).
#[export] Instance SubsetErrors_DeepCopyInto : DeepCopyable W SubsetErrors := fun in_ =>
  deployment ← copy_slice (Errors_Deployment in_);
  destinationRule ← copy_slice (Errors_DestinationRule in_);
  virtualServices ← copy_slice (Errors_VirtualServices in_);
  subset ← copy_slice (Errors_Subset in_);
  mret (mkSubsetErrors deployment destinationRule virtualServices subset).
#[export] Instance SubsetMessages_DeepCopyInto : DeepCopyable W SubsetMessages := fun in_ =>
  deployment ← copy_flat_slice (Messages_Deployment in_);
  destinationRule ← copy_flat_slice (Messages_DestinationRule in_);
  virtualService ← copy_flat_slice (Messages_VirtualService in_);
  globalErrors ← copy_flat_slice (Messages_GlobalErrors in_);
  mret (mkSubsetMessages deployment destinationRule virtualService globalErrors).
#[export] Instance SubsetStatus_DeepCopyInto : DeepCopyable W SubsetStatus := fun in_ =>
  destinationRules ← copy_flat_slice (SubsetStatus_DestinationRules in_);
  virtualServices ← copy_flat_slice (SubsetStatus_VirtualServices in_);
  errors ← copy_pointer (SubsetStatus_Errors in_);
  mret (mkSubsetStatus (SubsetStatus_Deployment in_) destinationRules virtualServices errors
          (SubsetStatus_Hash in_)).
#[export] Instance ConsumerStatus_DeepCopyInto : DeepCopyable W ConsumerStatus := fun in_ =>
  errors ← copy_slice (ConsumerStatus_Errors in_);
  mret (mkConsumerStatus (ConsumerStatus_ResourceStatus in_) (ConsumerStatus_Hash in_) errors).
#[export] Instance DynamicEnvStatus_DeepCopyInto : DeepCopyable W DynamicEnvStatus := fun in_ =>
  subsetsStatus ← copy_map (SubsetsStatus in_);
  consumersStatus ← copy_map (ConsumersStatus in_);
  mret (mkDynamicEnvStatus subsetsStatus consumersStatus (State in_) (TotalCount in_) (TotalReady in_)).
#[export] Instance DynamicEnv_DeepCopyInto : DeepCopyable W DynamicEnv := fun in_ =>
  objectMeta ← DeepCopyInto (DynamicEnv_ObjectMeta in_);
  spec ← DeepCopyInto (Spec in_);
  status ← DeepCopyInto (Status in_);
  mret (mkDynamicEnv (DynamicEnv_TypeMeta in_) objectMeta spec status).
#[export] Instance DynamicEnvList_DeepCopyInto : DeepCopyable W DynamicEnvList := fun in_ =>
  listMeta ← DeepCopyInto (DynamicEnvList_ListMeta in_);
  items ← copy_slice (Items in_);
  mret (mkDynamicEnvList (DynamicEnvList_TypeMeta in_) listMeta items).

(** [DeepCopy] of each type. *)
Definition ConsumerStatus_DeepCopy : option (ptr ConsumerStatus) -> M W (option (ptr ConsumerStatus)) := DeepCopy.
Definition ContainerOverrides_DeepCopy : option (ptr ContainerOverrides) -> M W (option (ptr ContainerOverrides)) := DeepCopy.
Definition DynamicEnv_DeepCopy : option (ptr DynamicEnv) -> M W (option (ptr DynamicEnv)) := DeepCopy.
Definition DynamicEnvList_DeepCopy : option (ptr DynamicEnvList) -> M W (option (ptr DynamicEnvList)) := DeepCopy.
Definition DynamicEnvSpec_DeepCopy : option (ptr DynamicEnvSpec) -> M W (option (ptr DynamicEnvSpec)) := DeepCopy.
Definition DynamicEnvStatus_DeepCopy : option (ptr DynamicEnvStatus) -> M W (option (ptr DynamicEnvStatus)) := DeepCopy.
Definition IstioMatch_DeepCopy : option (ptr IstioMatch) -> M W (option (ptr IstioMatch)) := DeepCopy.
Definition ResourceStatus_DeepCopy : option (ptr ResourceStatus) -> M W (option (ptr ResourceStatus)) := DeepCopy.
Definition StatusError_DeepCopy : option (ptr StatusError) -> M W (option (ptr StatusError)) := DeepCopy.
Definition StringMatch_DeepCopy : option (ptr StringMatch) -> M W (option (ptr StringMatch)) := DeepCopy.
Definition Subset_DeepCopy : option (ptr Subset) -> M W (option (ptr Subset)) := DeepCopy.
Definition SubsetErrors_DeepCopy : option (ptr SubsetErrors) -> M W (option (ptr SubsetErrors)) := DeepCopy.
Definition SubsetMessages_DeepCopy : option (ptr SubsetMessages) -> M W (option (ptr SubsetMessages)) := DeepCopy.
Definition SubsetStatus_DeepCopy : option (ptr SubsetStatus) -> M W (option (ptr SubsetStatus)) := DeepCopy.

(** A non-nil [runtime.Object]. *)
Inductive Object := ObjectDynamicEnv (c : ptr DynamicEnv) | ObjectDynamicEnvList (c : ptr DynamicEnvList).
Definition DynamicEnv_DeepCopyObject (in_ : option (ptr DynamicEnv)) : M W (option Object) :=
  c ← DynamicEnv_DeepCopy in_;
  match c with Some c => mret (Some (ObjectDynamicEnv c)) | None => mret None end.
Definition DynamicEnvList_DeepCopyObject (in_ : option (ptr DynamicEnvList)) : M W (option Object) :=
  c ← DynamicEnvList_DeepCopy in_;
  match c with Some c => mret (Some (ObjectDynamicEnvList c)) | None => mret None end.
End types.

(** ** They copy *)
Create HintDb copies discriminated.
#[export] Hint Resolve copies_slice copies_pointer copies_map copies_flat_slice copies_flat_pointer
  copies_flat_map deep_copy_law : copies.

Section laws.
Context {W : Type} `{ApiMachinery W} `{!ApiMachineryLaws W} `{MapOrder}.

Lemma copies_bind {A B} `{Addressed A} (x : A) (m : M W A) (f : A -> M W B) Q :
  copies_value x m ->
  (forall y l, erase y = erase x -> addresses y ⊆+ l -> allocates (f y) (fun b l' => Q b (l ++ l'))) ->
  allocates (m ≫= f) Q.
Proof. intros Hm Hf. eapply allocates_bind; [exact Hm|]. intros y l [He Ha]. by apply Hf. Qed.

(** Field by field. *)
Ltac copies_fields :=
  repeat (eapply copies_bind; [solve [eauto with copies typeclass_instances]|intros ? ? ? ?; cbv beta]);
  apply allocates_ret; split;
  [cbn in *; congruence | repeat (apply submseteq_app; [assumption|]); constructor].

#[export] Instance StringMatch_law : DeepCopyLaw W StringMatch.
Proof. intros x. apply copies_same. Qed.
#[export] Instance ResourceStatus_law : DeepCopyLaw W ResourceStatus.
Proof. intros x. apply copies_same. Qed.
#[export] Instance ContainerOverrides_law : DeepCopyLaw W ContainerOverrides.
Proof. intros x. unfold copies_value, DeepCopyInto, ContainerOverrides_DeepCopyInto. copies_fields. Qed.
#[export] Instance IstioMatch_law : DeepCopyLaw W IstioMatch.
Proof. intros x. unfold copies_value, DeepCopyInto, IstioMatch_DeepCopyInto. copies_fields. Qed.
#[export] Instance Subset_law : DeepCopyLaw W Subset.
Proof. intros x. unfold copies_value, DeepCopyInto, Subset_DeepCopyInto. copies_fields. Qed.
#[export] Instance DynamicEnvSpec_law : DeepCopyLaw W DynamicEnvSpec.
Proof. intros x. unfold copies_value, DeepCopyInto, DynamicEnvSpec_DeepCopyInto. copies_fields. Qed.
#[export] Instance StatusError_law : DeepCopyLaw W StatusError.
Proof. intros x. unfold copies_value, DeepCopyInto, StatusError_DeepCopyInto. copies_fields. Qed.
#[export] Instance SubsetErrors_law : DeepCopyLaw W SubsetErrors.
Proof. intros x. unfold copies_value, DeepCopyInto, SubsetErrors_DeepCopyInto. copies_fields. Qed.
#[export] Instance SubsetMessages_law : DeepCopyLaw W SubsetMessages.
Proof. intros x. unfold copies_value, DeepCopyInto, SubsetMessages_DeepCopyInto. copies_fields. Qed.
#[export] Instance SubsetStatus_law : DeepCopyLaw W SubsetStatus.
Proof. intros x. unfold copies_value, DeepCopyInto, SubsetStatus_DeepCopyInto. copies_fields. Qed.
#[export] Instance ConsumerStatus_law : DeepCopyLaw W ConsumerStatus.
Proof. intros x. unfold copies_value, DeepCopyInto, ConsumerStatus_DeepCopyInto. copies_fields. Qed.
#[export] Instance DynamicEnvStatus_law : DeepCopyLaw W DynamicEnvStatus.
Proof. intros x. unfold copies_value, DeepCopyInto, DynamicEnvStatus_DeepCopyInto. copies_fields. Qed.
#[export] Instance DynamicEnv_law : DeepCopyLaw W DynamicEnv.
Proof. intros x. unfold copies_value, DeepCopyInto, DynamicEnv_DeepCopyInto. copies_fields. Qed.
#[export] Instance DynamicEnvList_law : DeepCopyLaw W DynamicEnvList.
Proof. intros x. unfold copies_value, DeepCopyInto, DynamicEnvList_DeepCopyInto. copies_fields. Qed.
End laws.

(** ** What a copy is worth *)

(** [out] is a copy of [in_], made after [in_]: equal up to addresses, no
    address twice, none shared. *)
Definition separate_copy {A} `{Addressed A} (in_ out : option (ptr A)) : Prop :=
  erase out = erase in_ /\ NoDup (addresses out) /\ addresses out ## addresses in_.

Section separate.
Context {W : Type} `{MapOrder} {A : Type} `{Addressed A} `{DeepCopyable W A} `{!DeepCopyLaw W A}.
Lemma wp_DeepCopy (in_ : option (ptr A)) (c : ctx W) :
  Forall (fun a => a < cx_next c) (addresses in_) ->
  wp (DeepCopy in_) (fun out c' => same_but_heap c c' /\ separate_copy in_ out) c.
Proof.
  intros Hold. eapply wp_mono; [|apply (copies_DeepCopy in_)].
  intros out c' (Hc & l & (Hlo & Hnd & Hf) & He & Ha). split; [done|]. split; [done|]. split.
  - apply submseteq_Permutation in Ha as [k Hk]. rewrite Hk in Hnd. by apply NoDup_app in Hnd as [? _].
  - intros a Hin Hin'. rewrite Forall_forall in Hold, Hf. specialize (Hold _ Hin').
    apply (elem_of_submseteq _ _ _ Hin) in Ha. specialize (Hf _ Ha). simpl in *. lia.
Qed.
End separate.

(** C21.  [DeepCopyObject] of the two API objects, which the caches call before an
    object is handed out, gives a copy that can be written to without anyone
    noticing: it answers nil for nil and otherwise a new object, equal to the
    original in every field (nil and empty slices and maps told apart) up to the
    addresses of slices, maps and pointers; none of its addresses occurs in the
    original or twice in the copy, in whatever order the maps are visited; and
    nothing but the heap changes.  The copies of the library's types that are
    embedded are assumed to do the same. *)
Theorem DeepCopyObject_separate {W} `{ApiMachinery W} `{!ApiMachineryLaws W} `{MapOrder}
    (env : option (ptr DynamicEnv)) (envs : option (ptr DynamicEnvList)) (c : ctx W)
    (Henv : Forall (fun a => a < cx_next c) (addresses env))
    (Henvs : Forall (fun a => a < cx_next c) (addresses envs)) :
  wp (DynamicEnv_DeepCopyObject env) (fun obj c' => same_but_heap c c' /\
    exists out, obj = ObjectDynamicEnv <$> out /\ separate_copy env out) c /\
  wp (DynamicEnvList_DeepCopyObject envs) (fun obj c' => same_but_heap c c' /\
    exists out, obj = ObjectDynamicEnvList <$> out /\ separate_copy envs out) c.
Proof.
  split; apply wp_bind; (eapply wp_mono; [|by apply wp_DeepCopy]); intros [out|] c1 [Hc Hs];
    apply wp_ret; (split; [done|]);
    by (exists (Some out) || exists None).
Qed.

Lemma below_sound (n : nat) (l : list nat) : forallb (fun a => Nat.ltb a n) l = true -> Forall (fun a => a < n) l.
Proof. rewrite forallb_forall, Forall_forall. intros Hl a Ha%list_elem_of_In. by apply Nat.ltb_lt, Hl. Qed.

(** *** A copy run *)
Module CopyExample.
#[local] Existing Instance canonical_order.
(** Labels stand for the metadata. *)
#[export] Instance machinery : ApiMachinery unit := {|
  Time := Z; ObjectMeta := mapref string; ListMeta := string;
  Time_DeepCopyInto := fun t => mret t;
  ObjectMeta_DeepCopyInto := copy_flat_map (H:=canonical_order);
  ListMeta_DeepCopyInto := fun s => mret s;
|}.
#[export] Instance machinery_laws : ApiMachineryLaws unit.
Proof.
  split.
  - intros x. apply (copies_same (W:=unit) (A:=Z)).
  - intros x. apply (copies_flat_map (W:=unit) (A:=string)).
  - intros x. apply (copies_same (W:=unit) (A:=string)).
Qed.
Definition overrides : ContainerOverrides :=
  mkContainerOverrides "reviews" "reviews:pr" (Some (mkPtr 1 ["/bin/sh"; "-c"]))
    (Some (mkPtr 2 [mkEnvVar "A" "1" None; mkEnvVar "B" "" (Some (mkPtr 3 "secret"))])).
Definition env : DynamicEnv :=
  mkDynamicEnv (mkTypeMeta "DynamicEnv" "riskified.com/v1alpha1")
    (Some (mkPtr 4 {[ "team" := "a" ]}))
    (mkDynamicEnvSpec (Some (mkPtr 5 [mkIstioMatch (Some (mkPtr 6 {[ "user" := mkStringMatch "ann" "" "" ]})) None]))
       (Some (mkPtr 7 [mkSubset "reviews" "default" None (Some (mkPtr 8 2%Z)) (Some (mkPtr 9 [overrides])) None ""]))
       None)
    (mkDynamicEnvStatus (Some (mkPtr 10 {[ "default/reviews" :=
        mkSubsetStatus (mkResourceStatus "reviews" "default" Running) None (Some (mkPtr 11 []))
          (Some (mkPtr 12 (mkSubsetErrors (Some (mkPtr 13 [mkStatusError "boom" 7%Z])) None None None))) 42 ]}))
       None Ready 1 1).
Definition env_list : DynamicEnvList := mkDynamicEnvList (mkTypeMeta "DynamicEnvList" "") "rv" (Some (mkPtr 15 [env])).
Definition context : ctx unit := mkCtx tt zero_DynamicEnv 0 100 [].

(** The addresses before and after. *)
Example copied :
  addresses (Some (mkPtr 14 env)) = [14; 4; 5; 6; 7; 8; 9; 1; 2; 3; 10; 11; 12; 13] /\
  match DeepCopy (Some (mkPtr 14 env)) context with
  | (Ret (Some out), _) => addresses (Some out)
      = [100; 101; 102; 103; 104; 105; 106; 107; 108; 109; 110; 112; 113; 114]
  | _ => False
  end.
Proof. vm_compute. done. Qed.
End CopyExample.

Lemma DeepCopyObject_separate_witness :
  let env := Some (mkPtr 14 CopyExample.env) in
  let envs := Some (mkPtr 14 CopyExample.env_list) in
  let c := CopyExample.context in
  wp (DynamicEnv_DeepCopyObject (H0:=canonical_order) env) (fun obj c' => same_but_heap c c' /\
    exists out, obj = ObjectDynamicEnv <$> out /\ separate_copy env out) c /\
  wp (DynamicEnvList_DeepCopyObject (H0:=canonical_order) envs) (fun obj c' => same_but_heap c c' /\
    exists out, obj = ObjectDynamicEnvList <$> out /\ separate_copy envs out) c.
Proof.
  intros env envs c.
  refine (DeepCopyObject_separate (ApiMachineryLaws0:=CopyExample.machinery_laws) (H0:=canonical_order) env envs c _ _).
  - apply below_sound. vm_compute. reflexivity.
  - apply below_sound. vm_compute. reflexivity.
Defined.
